(* ===== verification/_CoqProject ===== *)
-Q . S2P
Prelude.v
CLib.v
Budget.v
Cuda.v
KVCache.v
ScratchPool.v
KVFile.v
KVDir.v
Session.v
Bpe.v
Tokenizer.v
Gguf.v
ModelFile.v
TokenizerFile.v
Weights.v
Engine.v
Kernels.v
Norm.v
Quant.v
Softmax.v
Forward.v
Cells.v
Prefill.v
Bridge.v
Generate.v
Chat.v
Server.v
Cli.v
Threads.v
Service.v
Sample.v
Jetson.v
Routes.v
Program.v
Denote.v
Ready.v
Whole.v
Serving.v
