(* ===== verification/Prelude.v ===== *)
(** * reflex-llm: a verification library for the Jetson LLM runtime

    reflex-llm serves one language model from one board.  It maps a GGUF file,
    keeps its weights where the GPU can read them, answers prompts token by
    token over a pre-allocated KV cache, remembers conversations in files, and
    offers this as a command line tool and as an HTTP server.  The library
    translates the host code and the kernels of the repository into executable
    definitions and states what makes each part, and their composition,
    correct.  All file names below are relative to [src/].

    ** How the program is put together

    [main.cpp] and [main_server.cpp] build an [Engine] ([jllm_engine.h]), call
    [Engine::load], then [Engine::generate] for every prompt, and
    [Engine::unload].  [load] reads the configuration and the tensor directory
    of the file ([engine/model.cpp]) and its vocabulary
    ([engine/tokenizer.cpp]), chooses a context length within the memory budget
    ([memory/budget.cpp]), allocates the KV pool ([memory/kv_cache.cpp]) and
    the scratch pool ([memory/pool.cpp]), and moves or registers the weights
    ([engine/decode.cu]).  [generate] encodes the prompt, takes over the longest
    prefix that a cache file of the conversation still covers
    ([persistence/kv_cache_file.cpp]), runs the forward pass on the rest, then
    samples ([engine/sample.cpp]), decodes and delivers one token after the
    other, and saves the KV cache at the end.  The server
    ([server/http_server.cpp]) formats a chat request as a prompt, runs
    [generate] under one mutex, and splits the answer into reasoning and
    content.  [jetson/*.cpp] reads the sensors of the board.

    ** What models what

    Generic parts.
    - [Prelude] (this file): machine integers, byte strings, option monad,
      lemmas and tactics used everywhere.
    - [CLib]: character classes, [strtol], [atoi], [fgets], [strstr] and the
      decimal printer.
    - [Cuda]: the classes [CudaMem] and [CudaMemLaws] for [cudaMemcpy] and
      [cudaMemset] over byte blocks.

    Memory.
    - [Budget]: [memory/budget.cpp] and [MemoryBudget] of [jllm_memory.h].
    - [ScratchPool]: [memory/pool.cpp]; the live blocks are ghost state.
    - [KVCache]: [memory/kv_cache.cpp]; state [KVCache.t] (configuration and
      bases) with the contents of its two pools and its scale table.

    The model file.
    - [Gguf]: [fread]/[fseek] readers of [engine/model.cpp], and the abstract
      file they are stated against.
    - [ModelFile]: [load_gguf_config], [parse_tensor_infos],
      [load_and_map_weights] and the mapped regions of [engine/model.cpp].
    - [TokenizerFile]: [Tokenizer::load_from_gguf].
    - [Weights]: the placement of the weights ([decode.cu], 329 to 806;
      [register_mapped_weight_region] with its callers); the state is the set
      of resources of the process ([World]), the functions are in a small
      state-and-abort monad.
    - [Engine]: [Engine::load], [Engine::unload], [load_gguf_weights]; the
      record [Engine.Engine] holds the fields of the class.

    Text.
    - [Bpe], [Tokenizer]: byte alphabet, pre-tokenizer, merges, [encode] and
      [decode] of [engine/tokenizer.cpp].
    - [Chat]: [ThinkSplit] of [server/http_server.cpp].

    Computation.
    - [Kernels]: [rope.cu], the RMSNorm kernel of [fused_norm.cu],
      [convert.cu], [vec_add].
    - [Norm]: the launcher of [fused_norm.cu] and its fallback on the host.
    - [Softmax]: [softmax.cu] as a transition system of eight warps.
    - [Quant]: [fp16_to_float] and [dequant_embedding] of [decode.cu].
    - [Bridge]: [gemv_q4.cu] and [attention.cu], the calls of the external
      library reflex-infer.
    - [Forward]: [transformer_layer], [transformer_prefill], both prefill
      loops and the logits, down to the bytes of the KV pool; [Cells]: the map
      these bytes are; [Prefill]: the specification of the forward pass on it.
    - [Sample]: [engine/sample.cpp].

    Requests.
    - [KVFile], [KVDir]: [persistence/kv_cache_file.cpp], one file and the
      directory.
    - [Session]: [Engine::try_hydrate_kv] and the save that ends [generate].
    - [Generate]: [Engine::generate].
    - [Server]: the chat endpoint; [Threads]: its requests on threads of their
      own; [Service]: both on top of [Generate]; [Routes]: the other endpoints.
    - [Cli]: both [main] functions over the interface [EngineOps]; [Program]:
      the same over [Engine], with the process resources.
    - [Jetson]: [jetson/power.cpp], [thermal.cpp], [sysinfo.cpp].

    The whole.
    - [Denote]: the matrices, norms and embedding rows that the bytes of a
      model file contain, and what a loaded engine reads in their place.
    - [Ready]: what [load] leaves for the requests of either program.
    - [Whole]: [main.cpp] with everything it calls, one function from the
      command line and the files to standard output.
    - [Serving]: [main_server.cpp] with everything it calls, from the command
      line and the bodies of the requests to the replies.

    ** What the theorems show

    The programs, end to end.  [Whole.tool_answers]: for a command line that
    names a model file that loads, [reflex-llm] prints, prompt by prompt, the
    tokens that the bytes of the file determine, exits with 0 and holds nothing
    at its end; [Serving.server_answers]: so do all replies of
    [reflex-llm-server], in every interleaving of its requests.  Both compose
    the theorems below through [Ready.loaded_ready].
    [Denote.engine_denotes_file]: the tokens of a loaded engine are a function
    of the bytes of the file, not of where [load] has put the weights.  All of
    them, and those about requests, hold for both formats of the cache, [half]
    and INT8 with a table of scales: [Prefill.becomes] relates the pool and the
    table to a map from (layer, position, key or value) to entries, on which
    the forward pass is specified.

    Requests.  [Generate.generate_correct]: the code of [generate],
    with hydration, either prefill and the decode loop, delivers a prefix of
    the tokens that a reference transformer without a cache would generate, and
    the whole of them when nothing interrupts it; [Generate.conversation_correct]:
    so do all requests of a conversation, whatever the cache directory did in
    between; [Service.service_correct]: so do concurrent requests of the
    server, in every interleaving.  [Threads.requests_serialize] and
    [Threads.requests_complete] are the mutex alone.
    [Program.program_releases]: however the two programs end, all device
    memory, mappings and registrations are given back.

    Loading.  [Engine.load_unload_balanced] (also on every failing path),
    [Engine.weights_resident] (after a load every weight of the model denotes
    the bytes of the file), [ModelFile.load_and_map_weights_binds],
    [ModelFile.parse_tensor_infos_exact], [ModelFile.load_gguf_config_exact],
    [TokenizerFile.load_from_gguf_exact].

    Memory.  [KVCache.kv_slots_disjoint], [KVCache.init_pool_ok],
    [KVCache.gather_scatter_roundtrip], [ScratchPool.scratch_run_safe],
    [Budget.max_context_maximal].

    Persistence.  [KVFile.save_atomic] (a crash or failure at any call leaves
    the old file or the complete new one), [KVFile.save_load_roundtrip],
    [KVFile.load_sound], [KVDir.conv_id_path_safe], [Session.session_resumes].

    Text.  [Bpe.bpe_merge_refines] (the merge loop is the rewriting relation
    of byte-pair encoding), [Tokenizer.encode_decode_roundtrip],
    [Tokenizer.special_tokens_atomic], [Chat.split_answer_spec],
    [Server.stream_frames], [Server.chat_template_roundtrip].

    Numerics.  [Prefill.batched_prefill_is_per_token],
    [Quant.dequant_embedding_exact], [Quant.fp16_to_float_exact],
    [Norm.norm_paths_agree], [Softmax.softmax_ordered],
    [Bridge.bridge_refines] and [Bridge.loaded_product] (the calls of the
    library compute the products of the model's weights, wherever they were
    placed), [Sample.sample_token_safe], [Sample.heap_keeps_best].

    Defects.  A theorem that ends in a wrong result describes code that has
    it: [Softmax.softmax_race], [Session.hydrate_reads_past_body],
    [Cells.attention_misses_overflow], [KVCache.evict_misplaces_values],
    [KVFile.peek_accepts_wrapped_size], [ModelFile.config_loses_place_on_bool],
    [TokenizerFile.scan_loses_place_on_bool_array],
    [Chat.separator_depends_on_chunks], [Server.stream_cuts_characters],
    [Sample.nucleus_unsorted], [Generate.zero_limit_delivers],
    [Prefill.request_format_overruns], [Forward.int8_without_scales],
    [Routes.bad_name_fails].

    ** Parameters

    Code outside the repository is named by type classes; each has a class of
    laws that state its documented behaviour, and an instance that satisfies
    them in the witnesses.
    - [CudaMem] (copies), [KVCache.Alloc] and [Weights.Runtime] ([cudaMalloc],
      [mmap], [cudaHostRegister] and the rest of the CUDA runtime): any call
      may fail; what a successful one has done is the law.
    - [KVFile.OS] and [KVFile.Reader]: the answers of the file system, short
      reads, short writes and failures included.
    - [Forward.ReflexInfer], [Bridge.Products], [Bridge.Infer]: the library
      reflex-infer (a git submodule): products, attention, row decoding.  The
      laws say that a result depends on the arguments the call is given, that
      a batch is its rows, and that a call that reports success has written
      its result.  [Bridge.ProductLaws] says of the arithmetic what the forward
      pass relies on, [Bridge.rows_decoded] that the library decodes an
      embedding row as the host does.
    - [Kernels.Floats], [Quant.HostFloats]: device and host arithmetic without
      laws, so nothing depends on rounding.  [Sample.SampleFloats] has laws
      that binary32 is proved to satisfy.  A contraction of [a * b + c] by the
      compiler of the host is outside [Quant].
    - [Server.Json] (nlohmann), [KVDir.StdSort] and [Sample.Algorithms]
      ([<algorithm>]), [atof], the random engine.
    - [Serving.listens]: the listen loop of the HTTP library.

    ** Bounds and fuel

    Integers are [Z] with the wrap of their C++ type written out ([u32], [i32],
    [u64], [i64]); the theorems carry the ranges under which nothing wraps.
    Loops that shorten a list recurse on it.  The others count down from a
    number that is enough: the length of the input for the scans of [CLib],
    [Bpe], [Tokenizer] and [Jetson] (every iteration consumes a byte), the
    number of symbols for the merge loop, [max_tokens] for the decode loop,
    the bytes that are left for the read and write loops of [KVFile] (every
    call that succeeds transfers one), three rounds for [ThinkSplit::feed].
    The theorems about them are about the result, never only about runs that
    have one.  The step relations of [Softmax] and [Threads] come with a theorem
    that every run ends.

    ** Not modelled

    - [build_cuda_graph] of [decode.cu]: nothing calls it.  [map_weights] of
      [model.cpp] and [fp16_to_fp32] of [decode.cu]: unused.
      [OOMGuard::emergency_free]: unused, it writes to two files of the kernel.
    - Messages, profiles, timing and [GenStats] rates; the pauses of
      [check_memory_and_thermal]; [madvise] on the
      private read-only mapping, which changes no contents.
    - The signal handlers: that of the tool sets the stop flag, which is part
      of [Generate.Events]; that of the server calls [exit], after which the
      system takes everything back.
    - The HTTP library (matching of paths, sockets, timeouts, the listen loop),
      the JSON library, the kernels of reflex-infer, the tests, the scripts.
    - The status of kernel launches and of scratch allocations inside the
      forward pass, which the code does not look at. *)

From stdpp Require Export base numbers list gmap strings.
From Stdlib Require Export ZArith Lia.
From Stdlib Require Export Strings.Byte.
From Stdlib Require Strings.String.

Open Scope Z_scope.

(** ** Machine integers

    A C++ integer of width [w] is a [Z]; every arithmetic expression of the
    source is wrapped where the C++ type makes it wrap.  Signed overflow,
    undefined in ISO C++, is modelled as the two's complement wrap of the
    target; the theorems carry range hypotheses under which no wrap occurs. *)

Definition u32 (x : Z) : Z := x mod 2 ^ 32.
Definition u64 (x : Z) : Z := x mod 2 ^ 64.
Definition i32 (x : Z) : Z := (x + 2 ^ 31) mod 2 ^ 32 - 2 ^ 31.
Definition i64 (x : Z) : Z := (x + 2 ^ 63) mod 2 ^ 64 - 2 ^ 63.

Definition INT_MAX : Z := 2147483647.
Definition INT64_MAX : Z := 9223372036854775807.

Lemma u32_id x : 0 <= x < 2 ^ 32 -> u32 x = x.
Proof. intros; unfold u32; apply Z.mod_small; lia. Qed.

Lemma u64_id x : 0 <= x < 2 ^ 64 -> u64 x = x.
Proof. intros; unfold u64; apply Z.mod_small; lia. Qed.

Lemma i32_id x : - 2 ^ 31 <= x < 2 ^ 31 -> i32 x = x.
Proof. intros; unfold i32; rewrite Z.mod_small; lia. Qed.

Lemma i64_id x : - 2 ^ 63 <= x < 2 ^ 63 -> i64 x = x.
Proof. intros; unfold i64; rewrite Z.mod_small; lia. Qed.

Lemma u32_range x : 0 <= u32 x < 2 ^ 32.
Proof. unfold u32; apply Z.mod_pos_bound; lia. Qed.

Lemma u64_range x : 0 <= u64 x < 2 ^ 64.
Proof. unfold u64; apply Z.mod_pos_bound; lia. Qed.

Lemma i32_range x : - 2 ^ 31 <= i32 x < 2 ^ 31.
Proof. unfold i32; pose proof (Z.mod_pos_bound (x + 2 ^ 31) (2 ^ 32)); lia. Qed.

Lemma i64_range x : - 2 ^ 63 <= i64 x < 2 ^ 63.
Proof. unfold i64; pose proof (Z.mod_pos_bound (x + 2 ^ 63) (2 ^ 64)); lia. Qed.

(** [nowrap] removes every wrap whose argument [lia] can bound. *)
Ltac nowrap :=
  repeat match goal with
  | |- context [i64 ?x] => rewrite (i64_id x) by lia
  | |- context [i32 ?x] => rewrite (i32_id x) by lia
  | |- context [u64 ?x] => rewrite (u64_id x) by lia
  | |- context [u32 ?x] => rewrite (u32_id x) by lia
  end.

Create HintDb width.
#[export] Hint Resolve u32_range u64_range i32_range i64_range : width.

(** ** Bytes

    A C++ [char], [uint8_t] or raw memory cell is a [Byte.byte]; a
    [std::string] and a memory block are lists of bytes. *)

Abbreviation byte := Byte.byte.
Abbreviation bytes := (list Byte.byte).

#[global] Instance byte_eq_dec : EqDecision byte.
Proof. intros a b; apply Byte.byte_eq_dec. Defined.

Lemma byte_of_to_N (b : byte) : Byte.of_N (Byte.to_N b) = Some b.
Proof. apply Byte.of_to_N. Qed.

#[global] Instance byte_countable : Countable byte :=
  inj_countable Byte.to_N Byte.of_N byte_of_to_N.

(** [bz]: the unsigned value of a byte; [zb]: the byte of an integer, reduced
    modulo 256 as a cast to [uint8_t] does. *)
Definition bz (b : byte) : Z := Z.of_N (Byte.to_N b).
Definition zb (z : Z) : byte := default Byte.x00 (Byte.of_N (Z.to_N (z mod 256))).

Lemma bz_range b : 0 <= bz b < 256.
Proof. unfold bz. pose proof (Byte.to_N_bounded b). lia. Qed.

Lemma bz_inj a b : bz a = bz b -> a = b.
Proof.
  unfold bz; intros H. apply N2Z.inj in H.
  apply (inj Some). by rewrite <- !byte_of_to_N, H.
Qed.

Lemma zb_bz b : zb (bz b) = b.
Proof.
  unfold zb. rewrite Z.mod_small by apply bz_range.
  unfold bz. by rewrite N2Z.id, byte_of_to_N.
Qed.

Lemma bz_zb z : bz (zb z) = z mod 256.
Proof.
  unfold zb. pose proof (Z.mod_pos_bound z 256).
  destruct (Byte.of_N (Z.to_N (z mod 256))) as [b|] eqn:E; simpl.
  - apply Byte.to_of_N in E. unfold bz. lia.
  - apply Byte.of_N_None_iff in E. lia.
Qed.

Lemma bz_zb_small z : 0 <= z < 256 -> bz (zb z) = z.
Proof. intros. rewrite bz_zb. apply Z.mod_small; lia. Qed.

#[export] Hint Resolve bz_range : width.

(** A C string literal as a list of bytes. *)
Definition str (s : String.string) : bytes := String.list_byte_of_string s.

#[global] Arguments str : simpl never.

(** Length as a [Z], as the source compares it. *)
Definition zlen {A} (l : list A) : Z := Z.of_nat (length l).

Lemma zlen_nonneg {A} (l : list A) : 0 <= zlen l.
Proof. unfold zlen; lia. Qed.

Lemma zlen_app {A} (l k : list A) : zlen (l ++ k) = zlen l + zlen k.
Proof. unfold zlen; rewrite length_app; lia. Qed.

Lemma zlen_cons {A} (x : A) l : zlen (x :: l) = 1 + zlen l.
Proof. unfold zlen; simpl; lia. Qed.

Lemma zlen_nil {A} : zlen (@nil A) = 0.
Proof. reflexivity. Qed.

Create Rewrite HintDb len.
#[export] Hint Rewrite @zlen_app @zlen_cons @zlen_nil : len.

(** ** Memory blocks

    Reads and writes of a block are bounds checked: [None] is an access
    outside the block, which C++ leaves undefined.  A theorem that concludes
    [Some] is therefore also a memory-safety statement. *)

Definition in_block {A} (m : list A) (off n : Z) : bool :=
  (0 <=? off) && (0 <=? n) && (off + n <=? zlen m).

Definition peek_at {A} (m : list A) (off n : Z) : option (list A) :=
  if in_block m off n then Some (take (Z.to_nat n) (drop (Z.to_nat off) m)) else None.

Definition poke_at {A} (m : list A) (off : Z) (d : list A) : option (list A) :=
  if in_block m off (zlen d) then
    Some (take (Z.to_nat off) m ++ d ++ drop (Z.to_nat off + length d) m)
  else None.

Lemma in_block_true {A} (m : list A) off n :
  in_block m off n = true <-> 0 <= off /\ 0 <= n /\ off + n <= zlen m.
Proof. unfold in_block. rewrite !andb_true_iff, !Z.leb_le. tauto. Qed.

Lemma peek_at_Some {A} (m : list A) off n :
  0 <= off -> 0 <= n -> off + n <= zlen m ->
  peek_at m off n = Some (take (Z.to_nat n) (drop (Z.to_nat off) m)).
Proof. intros. unfold peek_at. by rewrite (proj2 (in_block_true m off n)). Qed.

Lemma peek_at_inv {A} (m : list A) off n d :
  peek_at m off n = Some d ->
  (0 <= off /\ 0 <= n /\ off + n <= zlen m) /\
  d = take (Z.to_nat n) (drop (Z.to_nat off) m).
Proof.
  unfold peek_at. destruct (in_block m off n) eqn:E; [|done].
  intros [= <-]. by apply in_block_true in E.
Qed.

Lemma poke_at_inv {A} (m : list A) off d m' :
  poke_at m off d = Some m' ->
  (0 <= off /\ off + zlen d <= zlen m) /\
  m' = take (Z.to_nat off) m ++ d ++ drop (Z.to_nat off + length d) m.
Proof.
  unfold poke_at. destruct (in_block m off (zlen d)) eqn:E; [|done].
  intros [= <-]. apply in_block_true in E. split; [lia|done].
Qed.

Lemma poke_at_is_Some {A} (m : list A) off d :
  0 <= off -> off + zlen d <= zlen m -> is_Some (poke_at m off d).
Proof.
  intros. unfold poke_at. rewrite (proj2 (in_block_true m off (zlen d))); [eauto|].
  pose proof (zlen_nonneg d). lia.
Qed.

Lemma peek_at_length {A} (m : list A) off n d : peek_at m off n = Some d -> zlen d = n.
Proof.
  intros [? ->]%peek_at_inv. unfold zlen in *. rewrite length_take, length_drop. lia.
Qed.

Lemma poke_at_length {A} (m : list A) off d m' :
  poke_at m off d = Some m' -> zlen m' = zlen m.
Proof.
  intros [? ->]%poke_at_inv. unfold zlen in *.
  rewrite !length_app, length_take, length_drop. lia.
Qed.

(** The pointwise reading of [poke_at] and [peek_at]; every statement about
    the contents of a block goes through these two. *)
Lemma poke_at_lookup {A} (m : list A) off d m' (i : nat) :
  poke_at m off d = Some m' ->
  m' !! i = if decide (off <= Z.of_nat i < off + zlen d)
            then d !! (i - Z.to_nat off)%nat else m !! i.
Proof.
  intros [H ->]%poke_at_inv. unfold zlen in *.
  destruct (decide (Z.of_nat i < off)).
  { rewrite decide_False by lia. rewrite lookup_app_l by (rewrite length_take; lia).
    apply lookup_take_lt; lia. }
  rewrite lookup_app_r by (rewrite length_take; lia).
  rewrite length_take. replace (Z.to_nat off `min` length m)%nat with (Z.to_nat off) by lia.
  case_decide.
  - apply lookup_app_l; lia.
  - rewrite lookup_app_r by lia. rewrite lookup_drop. f_equal; lia.
Qed.

Lemma peek_at_lookup {A} (m : list A) off n d (i : nat) :
  peek_at m off n = Some d -> Z.of_nat i < n -> d !! i = m !! (Z.to_nat off + i)%nat.
Proof.
  intros [H ->]%peek_at_inv Hi. rewrite lookup_take_lt by lia. by rewrite lookup_drop.
Qed.

Lemma peek_at_ext {A} (m m' : list A) off n :
  zlen m = zlen m' ->
  (forall i : nat, off <= Z.of_nat i < off + n -> m !! i = m' !! i) ->
  peek_at m off n = peek_at m' off n.
Proof.
  intros Hl H. unfold peek_at, in_block. rewrite Hl.
  destruct ((0 <=? off) && (0 <=? n) && (off + n <=? zlen m')) eqn:E; [|done].
  rewrite !andb_true_iff, !Z.leb_le in E. unfold zlen in *.
  f_equal. apply list_eq; intros i.
  destruct (decide (i < Z.to_nat n)%nat).
  - rewrite !lookup_take_lt, !lookup_drop by lia. apply H; lia.
  - by rewrite !lookup_take_ge by lia.
Qed.

Lemma peek_poke_same {A} (m : list A) off d m' :
  poke_at m off d = Some m' -> peek_at m' off (zlen d) = Some d.
Proof.
  intros H. pose proof (poke_at_length _ _ _ _ H) as Hl.
  pose proof (poke_at_inv _ _ _ _ H) as [? _].
  rewrite peek_at_Some by (pose proof (zlen_nonneg d); lia). f_equal.
  apply list_eq; intros i. unfold zlen in *. destruct (decide (i < length d)%nat).
  - rewrite lookup_take_lt, lookup_drop by lia.
    rewrite (poke_at_lookup _ _ _ _ _ H), decide_True by (unfold zlen; lia).
    f_equal; lia.
  - rewrite lookup_take_ge by lia. symmetry; apply lookup_ge_None; lia.
Qed.

Lemma peek_poke_disjoint {A} (m : list A) off d m' o n :
  poke_at m off d = Some m' -> o + n <= off \/ off + zlen d <= o ->
  peek_at m' o n = peek_at m o n.
Proof.
  intros H D. apply peek_at_ext; [by eapply poke_at_length|].
  intros i Hi. rewrite (poke_at_lookup _ _ _ _ _ H), decide_False by lia. done.
Qed.

(** Two half-open byte ranges that share no cell. *)
Definition disjoint_ranges (a n b m : Z) : Prop := a + n <= b \/ b + m <= a.

(** ** Little-endian integers

    [le n z] is the [n]-byte little-endian image of [z] ([fwrite] or [memcpy]
    of an unsigned integer on the target); [unle] reads it back. *)
Fixpoint le (n : nat) (z : Z) : bytes :=
  match n with
  | O => []
  | S n => zb z :: le n (z / 256)
  end.

Fixpoint unle (bs : bytes) : Z :=
  match bs with
  | [] => 0
  | b :: bs => bz b + 256 * unle bs
  end.

Lemma length_le n z : length (le n z) = n.
Proof. revert z; induction n; simpl; auto. Qed.

Lemma zlen_le n z : zlen (le n z) = Z.of_nat n.
Proof. unfold zlen; by rewrite length_le. Qed.

Lemma unle_le n z : unle (le n z) = z mod 256 ^ Z.of_nat n.
Proof.
  revert z; induction n as [|n IH]; intros z.
  - cbn. by rewrite Z.mod_1_r.
  - cbn [le unle]. rewrite IH, bz_zb.
    rewrite Nat2Z.inj_succ, Z.pow_succ_r by lia.
    assert (0 < 256 ^ Z.of_nat n) by (apply Z.pow_pos_nonneg; lia).
    rewrite (Z.rem_mul_r z) by lia. done.
Qed.

Lemma unle_le_small n z : 0 <= z < 256 ^ Z.of_nat n -> unle (le n z) = z.
Proof. intros. rewrite unle_le. apply Z.mod_small; lia. Qed.

Lemma unle_range bs : 0 <= unle bs < 256 ^ zlen bs.
Proof.
  induction bs as [|b bs IH]; [by cbn|].
  cbn [unle]. autorewrite with len.
  rewrite (Z.pow_add_r 256 1) by (pose proof (zlen_nonneg bs); lia).
  rewrite Z.pow_1_r. pose proof (bz_range b). lia.
Qed.

Lemma le_unle bs : le (length bs) (unle bs) = bs.
Proof.
  induction bs as [|b bs IH]; [done|]. cbn [length le unle].
  pose proof (bz_range b). f_equal.
  - apply bz_inj. rewrite bz_zb, Z.mul_comm, Z.mod_add by lia. apply Z.mod_small; lia.
  - rewrite Z.mul_comm, Z.div_add, Z.div_small by lia. exact IH.
Qed.

#[export] Hint Rewrite @zlen_le : len.

(** ** Lists *)

(** Sum of a list of integers. *)
Definition zsum (l : list Z) : Z := foldr Z.add 0 l.

Lemma zsum_app l k : zsum (l ++ k) = zsum l + zsum k.
Proof. unfold zsum. induction l as [|x l IH]; simpl; lia. Qed.

Lemma zsum_permutation l k : l ≡ₚ k -> zsum l = zsum k.
Proof. unfold zsum. induction 1; simpl; lia. Qed.

(** The first [n] naturals as integers: the range of a [for (i = 0; i < n; i++)]. *)
Definition upto (n : Z) : list Z := Z.of_nat <$> seq 0 (Z.to_nat n).

Lemma elem_of_upto i n : i ∈ upto n <-> 0 <= i < n.
Proof.
  unfold upto. rewrite list_elem_of_fmap. split.
  - intros (k & -> & Hk%elem_of_seq). lia.
  - intros. exists (Z.to_nat i). rewrite elem_of_seq. lia.
Qed.

(** Reading inside a range that has already been read. *)
Lemma peek_sub {A} (m : list A) o n d k j :
  peek_at m o n = Some d -> 0 <= k -> 0 <= j -> k + j <= n ->
  peek_at m (o + k) j = peek_at d k j.
Proof.
  intros H Hk Hj Hkj. pose proof (peek_at_length _ _ _ _ H) as Hl.
  destruct (peek_at_inv _ _ _ _ H) as [(? & ? & ?) ->].
  rewrite (peek_at_Some m) by lia. rewrite (peek_at_Some (take _ _)) by lia.
  f_equal. rewrite skipn_firstn_comm, drop_drop, take_take. f_equal; [lia|]. f_equal; lia.
Qed.

(** Equal ranges have equal sub-ranges. *)
Lemma peek_sub_eq {A} (m m' : list A) o o' n k j :
  peek_at m o n = peek_at m' o' n -> is_Some (peek_at m o n) ->
  0 <= k -> 0 <= j -> k + j <= n ->
  peek_at m (o + k) j = peek_at m' (o' + k) j.
Proof.
  intros E [d Hd] ? ? ?. rewrite (peek_sub m o n d k j) by done.
  rewrite E in Hd. by rewrite (peek_sub m' o' n d k j).
Qed.

Lemma in_block_peek {A} (m : list A) off n :
  in_block m off n = true -> is_Some (peek_at m off n).
Proof. intros H. unfold peek_at. rewrite H. eauto. Qed.

(** [m'] agrees with [m] on every range that avoids [[lo, hi)]. *)
Definition same_outside {A} (m m' : list A) (lo hi : Z) : Prop :=
  forall o n, o + n <= lo \/ hi <= o -> peek_at m' o n = peek_at m o n.

Lemma poke_same_outside {A} (m : list A) off d m' :
  poke_at m off d = Some m' -> same_outside m m' off (off + zlen d).
Proof. intros H o n Ho. eapply peek_poke_disjoint; [done|lia]. Qed.

Lemma same_outside_trans {A} (m1 m2 m3 : list A) lo hi :
  same_outside m1 m2 lo hi -> same_outside m2 m3 lo hi -> same_outside m1 m3 lo hi.
Proof. intros H1 H2 o n Ho. by rewrite H2, H1. Qed.

Lemma same_outside_weaken {A} (m m' : list A) lo hi lo' hi' :
  lo' <= lo -> hi <= hi' -> same_outside m m' lo hi -> same_outside m m' lo' hi'.
Proof. intros ? ? H o n Ho. apply H. lia. Qed.

(** Closing a ground goal: arithmetic facts, computed equalities and ranges. *)
Ltac ground :=
  repeat match goal with
  | |- _ /\ _ => split
  | |- Forall _ [] => constructor
  | |- Forall _ (_ :: _) => constructor
  end;
  first [ done | lia | vm_compute; done | vm_compute; repeat split; (done || discriminate) ].
