(* ===== verification/CLib.v ===== *)
(** * CLib: the C and C++ library functions the sources call on text

    Character classes of the "C" locale, [strtol]/[strtoll]/[atoi],
    [strncmp]-style prefix tests, [strstr]/[std::string::find], [fgets], and
    the decimal printer used by the round-trip statements.  Text is a list of
    bytes; a C string ends where the list ends. *)

From S2P Require Import Prelude.

(** ** Character classes *)

Definition between (lo hi : Z) (b : byte) : bool := (lo <=? bz b) && (bz b <=? hi).

Definition isspace (b : byte) : bool := between 9 13 b || (bz b =? 32).
Definition isdigit (b : byte) : bool := between 48 57 b.
Definition isupper (b : byte) : bool := between 65 90 b.
Definition islower (b : byte) : bool := between 97 122 b.
Definition isalpha (b : byte) : bool := isupper b || islower b.
Definition tolower (b : byte) : byte := if isupper b then zb (bz b + 32) else b.

(** ** Spans: the [while (p(c)) ++i] loops *)

Fixpoint span {A} (p : A -> bool) (s : list A) : list A * list A :=
  match s with
  | [] => ([], [])
  | b :: s' => if p b then let '(a, r) := span p s' in (b :: a, r) else ([], s)
  end.

Lemma span_app {A} (p : A -> bool) s : (span p s).1 ++ (span p s).2 = s.
Proof.
  induction s as [|b s IH]; [done|]. simpl. destruct (p b); [|done].
  destruct (span p s) as [a r]. simpl in *. by rewrite IH.
Qed.

Lemma span_all {A} (p : A -> bool) s : Forall (fun b => p b = true) (span p s).1.
Proof.
  induction s as [|b s IH]; simpl; [done|]. destruct (p b) eqn:E; [|done].
  destruct (span p s). simpl in *. by constructor.
Qed.

Lemma span_stop {A} (p : A -> bool) s b r : (span p s).2 = b :: r -> p b = false.
Proof.
  induction s as [|c s IH]; simpl; [done|]. destruct (p c) eqn:E.
  - destruct (span p s). simpl in *. done.
  - simpl. by intros [= -> ->].
Qed.

(** [span] on a string whose prefix satisfies [p] and is followed by a stop. *)
Lemma span_prefix {A} (p : A -> bool) a r :
  Forall (fun b => p b = true) a ->
  (forall b r', r = b :: r' -> p b = false) -> span p (a ++ r) = (a, r).
Proof.
  intros Ha Hr. induction Ha as [|b a Hb _ IH]; simpl.
  - destruct r as [|c r]; [done|]. simpl. by rewrite (Hr c r).
  - by rewrite Hb, IH.
Qed.

Lemma span_length {A} (p : A -> bool) s : (length (span p s).2 <= length s)%nat.
Proof.
  rewrite <- (span_app p s) at 2. rewrite length_app. lia.
Qed.

(** ** Prefix tests and substring search *)

Fixpoint starts_with (p s : bytes) : bool :=
  match p, s with
  | [], _ => true
  | a :: p, b :: s => Byte.eqb a b && starts_with p s
  | _, [] => false
  end.

Lemma byte_eqb_eq a b : Byte.eqb a b = true <-> a = b.
Proof. split; [apply Byte.byte_dec_bl|apply Byte.byte_dec_lb]. Qed.

Lemma starts_with_spec p s : starts_with p s = true <-> exists r, s = p ++ r.
Proof.
  revert s; induction p as [|a p IH]; intros s; simpl.
  - split; eauto.
  - destruct s as [|b s]; [split; [done|intros [r Hr]; done]|].
    rewrite andb_true_iff, byte_eqb_eq, IH. split.
    + intros [-> [r ->]]. by exists r.
    + intros [r [= -> ->]]. eauto.
Qed.

Lemma starts_with_app p r : starts_with p (p ++ r) = true.
Proof. apply starts_with_spec. by exists r. Qed.

Lemma starts_with_length p s : starts_with p s = true -> (length p <= length s)%nat.
Proof. intros [r ->]%starts_with_spec. rewrite length_app. lia. Qed.

(** [std::string::find(needle, 0)]; [strstr(s, needle) != nullptr] is
    [isSome (find needle s)]. *)
Fixpoint find (needle s : bytes) : option nat :=
  if starts_with needle s then Some 0%nat
  else match s with
       | [] => None
       | _ :: s' => S <$> find needle s'
       end.

Definition strstr (s needle : bytes) : bool := bool_decide (is_Some (find needle s)).

Lemma find_Some needle s i :
  find needle s = Some i ->
  exists r, s = take i s ++ needle ++ r /\ (i + length needle <= length s)%nat.
Proof.
  revert i; induction s as [|b s IH]; intros i; simpl.
  - destruct (starts_with needle []) eqn:E; [|done]. intros [= <-].
    pose proof (starts_with_length _ _ E) as Hl. apply starts_with_spec in E as [r E].
    exists r. simpl in *. split; [done|lia].
  - destruct (starts_with needle (b :: s)) eqn:E.
    + intros [= <-]. pose proof (starts_with_length _ _ E) as Hl.
      apply starts_with_spec in E as [r E]. exists r. simpl in *. split; [done|lia].
    + intros (j & Hj & ->)%fmap_Some. destruct (IH j Hj) as (r & Hr & Hl).
      exists r. simpl. split; [by rewrite <- Hr|lia].
Qed.

Lemma find_None needle s i r :
  find needle s = None -> drop i s = needle ++ r -> (i <= length s)%nat -> False.
Proof.
  revert i; induction s as [|b s IH]; intros i; simpl.
  - destruct (starts_with needle []) eqn:E; [done|]. intros _ H _.
    rewrite drop_nil in H. rewrite H, starts_with_app in E. done.
  - destruct (starts_with needle (b :: s)) eqn:E; [done|]. intros H%fmap_None Hd Hi.
    destruct i as [|i].
    + rewrite drop_0 in Hd. rewrite Hd, starts_with_app in E. done.
    + apply (IH i H); [done|lia].
Qed.

(** No occurrence lies before the position [find] reports. *)
Lemma find_first needle s i j r :
  find needle s = Some i -> drop j s = needle ++ r -> (j <= length s)%nat -> (i <= j)%nat.
Proof.
  revert i j; induction s as [|b s IH]; intros i j; simpl.
  - destruct (starts_with needle []); [|done]. intros [= <-]. lia.
  - destruct (starts_with needle (b :: s)) eqn:E; [intros [= <-]; lia|].
    intros (k & Hk & ->)%fmap_Some Hd Hj. destruct j as [|j].
    + rewrite drop_0 in Hd. rewrite Hd, starts_with_app in E. done.
    + specialize (IH k j Hk Hd). lia.
Qed.

Lemma starts_with_long needle s r :
  (length needle <= length s)%nat -> starts_with needle (s ++ r) = starts_with needle s.
Proof.
  revert s. induction needle as [|c needle IH]; intros [|b s] H; cbn in *; [done..|lia|].
  by rewrite IH by lia.
Qed.

(** What follows the occurrence does not matter. *)
Lemma find_app needle s r i : find needle s = Some i -> find needle (s ++ r) = Some i.
Proof.
  revert i. induction s as [|b s IH]; intros i H.
  - cbn in H. destruct (starts_with needle []) eqn:E; [|done]. injection H as <-.
    destruct needle; [|done]. by destruct r.
  - cbn [find app] in *. destruct (find_Some needle (b :: s) i) as (_ & _ & Hl); [exact H|].
    change (b :: s ++ r) with ((b :: s) ++ r). rewrite starts_with_long by lia.
    destruct (starts_with needle (b :: s)); [done|].
    apply fmap_Some in H as (j & Hj & ->). by rewrite (IH j Hj).
Qed.

Lemma find_cut needle s i : find needle s = Some i -> find needle (take (i + length needle) s) = Some i.
Proof.
  revert i. induction s as [|b s IH]; intros i H.
  - by rewrite take_nil.
  - cbn [find] in H. destruct (starts_with needle (b :: s)) eqn:E.
    + injection H as <-. apply starts_with_spec in E as [r ->]. rewrite Nat.add_0_l, take_app_length.
      destruct needle as [|c needle]; [done|]. cbn [find].
      rewrite <- (app_nil_r (c :: needle)) at 2. by rewrite starts_with_app.
    + apply fmap_Some in H as (j & Hj & ->). destruct (find_Some _ _ _ Hj) as (_ & _ & Hl).
      cbn [Nat.add take find].
      rewrite <- (starts_with_long needle (b :: take (j + length needle) s) (drop (j + length needle) s))
        by (cbn; rewrite length_take; lia).
      cbn [app]. rewrite take_drop, E. by rewrite (IH j Hj).
Qed.

(** An occurrence after a text that holds none, for a needle whose first byte
    does not come back. *)
Lemma find_after needle x t c r :
  needle = x :: t -> x ∉ t -> find needle c = None -> find needle (c ++ needle ++ r) = Some (length c).
Proof.
  intros Hn Hx Hc. destruct (find needle (c ++ needle ++ r)) as [i|] eqn:E.
  2: { exfalso. apply (find_None _ _ (length c) r E); [apply drop_app_length|rewrite length_app; lia]. }
  f_equal. assert (i <= length c)%nat.
  { eapply find_first; [exact E|apply drop_app_length|rewrite length_app; lia]. }
  destruct (decide (i = length c)) as [|Hi]; [done|exfalso].
  destruct (find_Some _ _ _ E) as (r' & Er & Hl).
  assert (Hd : drop i (c ++ needle ++ r) = needle ++ r').
  { rewrite Er at 1. rewrite drop_app_ge by (rewrite length_take; lia).
    by rewrite length_take, Nat.min_l, Nat.sub_diag by lia. }
  rewrite drop_app_le in Hd by lia. set (c2 := drop i c) in *.
  assert (Hc2 : length c2 = (length c - i)%nat) by (unfold c2; by rewrite length_drop).
  destruct (le_lt_dec (length needle) (length c2)) as [Hlen|Hlen].
  - apply (find_None _ _ i (drop (length needle) c2) Hc); [|lia].
    fold c2. apply (f_equal (take (length needle))) in Hd. rewrite take_app_le, take_app_length in Hd by done.
    rewrite <- Hd at 1. by rewrite take_drop.
  - apply Hx. assert (Ht : (needle ++ r') !! length c2 = Some x).
    { rewrite <- Hd, lookup_app_r, Nat.sub_diag, Hn by lia. done. }
    rewrite lookup_app_l in Ht by lia. rewrite Hn in Ht. destruct (length c2) as [|n] eqn:En; [lia|].
    cbn in Ht. by eapply list_elem_of_lookup_2.
Qed.

(** ** Decimal numbers *)

Definition digits_value (ds : bytes) : Z := foldl (fun a d => 10 * a + (bz d - 48)) 0 ds.

Definition clamp (lo hi x : Z) : Z := Z.max lo (Z.min hi x).

(** [strtol(s, &end, 10)] on a 64-bit [long] (and [strtoll]): skip white
    space, an optional sign, the longest run of digits; saturate at the ends
    of the range.  With no digit the value is 0 and [end = s]. *)
Definition strtol (s : bytes) : Z * bytes :=
  let body := (span isspace s).2 in
  let '(neg, body) :=
    match body with
    | b :: body' => if Byte.eqb b "-"%byte then (true, body')
                    else if Byte.eqb b "+"%byte then (false, body') else (false, body)
    | [] => (false, [])
    end in
  let '(ds, rest) := span isdigit body in
  match ds with
  | [] => (0, s)
  | _ => (clamp (- INT64_MAX - 1) INT64_MAX
            (if neg then - digits_value ds else digits_value ds), rest)
  end.

(** The C string at the start of a buffer: it ends at the first zero byte. *)
Definition c_string (s : bytes) : bytes := (span (fun c => negb (Byte.eqb c Byte.x00)) s).1.

(** [fscanf(f, "%d", &x)]: [None] when nothing is converted. *)
Definition scan_int (s : bytes) : option Z :=
  let '(v, rest) := strtol s in if (length rest =? length s)%nat then None else Some (i32 v).

(** [atoi]: [(int) strtol(s, nullptr, 10)]. *)
Definition atoi (s : bytes) : Z := i32 (strtol s).1.

(** The decimal image of a non-negative integer (the [%d] of [printf]). *)
Fixpoint dec_fuel (k : nat) (n : Z) : bytes :=
  match k with
  | O => []
  | S k => if n <? 10 then [zb (48 + n)] else dec_fuel k (n / 10) ++ [zb (48 + n mod 10)]
  end.

Definition dec (n : Z) : bytes := dec_fuel (S (Z.to_nat n)) n.

Lemma digit_of n : 0 <= n < 10 -> isdigit (zb (48 + n)) = true /\ bz (zb (48 + n)) - 48 = n.
Proof.
  intros. unfold isdigit, between. rewrite bz_zb_small by lia.
  rewrite andb_true_iff, !Z.leb_le. lia.
Qed.

Lemma dec_fuel_spec k n :
  0 <= n -> (Z.to_nat n < k)%nat ->
  Forall (fun b => isdigit b = true) (dec_fuel k n) /\
  digits_value (dec_fuel k n) = n /\ dec_fuel k n <> [].
Proof.
  revert n; induction k as [|k IH]; intros n Hn Hk; [lia|]. simpl.
  destruct (Z.ltb_spec n 10).
  - destruct (digit_of n) as [Hd Hv]; [lia|]. repeat split; [by constructor| |done].
    unfold digits_value. simpl foldl. rewrite Hv. lia.
  - destruct (IH (n / 10)) as (Hd & Hv & Hne).
    { apply Z.div_pos; lia. }
    { assert (n / 10 < n) by (apply Z.div_lt; lia).
      pose proof (Z.div_pos n 10). lia. }
    pose proof (Z.mod_pos_bound n 10).
    destruct (digit_of (n mod 10)) as [Hd' Hv']; [lia|]. repeat split.
    + apply Forall_app. split; [done|by constructor].
    + unfold digits_value in *. rewrite foldl_app, Hv. simpl foldl. rewrite Hv'.
      pose proof (Z.div_mod n 10). lia.
    + by destruct (dec_fuel k (n / 10)).
Qed.

Lemma dec_spec n :
  0 <= n -> Forall (fun b => isdigit b = true) (dec n) /\ digits_value (dec n) = n /\ dec n <> [].
Proof. intros. apply dec_fuel_spec; lia. Qed.

(** A byte is decided by an exhaustive check over the 256 values. *)
Lemma isdigit_facts b :
  isdigit b = true ->
  isspace b = false /\ Byte.eqb b "-"%byte = false /\ Byte.eqb b "+"%byte = false.
Proof. destruct b; vm_compute; intros H; try discriminate H; auto. Qed.

(** Reading back a printed number that is followed by a non-digit. *)
Lemma strtol_dec n rest :
  0 <= n <= INT64_MAX -> (forall b r, rest = b :: r -> isdigit b = false) ->
  strtol (dec n ++ rest) = (n, rest).
Proof.
  intros Hn Hr. destruct (dec_spec n) as (Hd & Hv & Hne); [lia|].
  unfold strtol. destruct (dec n) as [|c ds] eqn:E; [done|].
  pose proof (proj1 (Forall_cons _ _ _) Hd) as [Hc _].
  destruct (isdigit_facts c Hc) as (Hs & Hm & Hp).
  assert (span isspace ((c :: ds) ++ rest) = ([], (c :: ds) ++ rest)) as ->
    by (simpl; by rewrite Hs).
  change (([], (c :: ds) ++ rest).2) with (c :: (ds ++ rest)). cbv iota zeta beta.
  rewrite Hm, Hp. change (c :: (ds ++ rest)) with ((c :: ds) ++ rest).
  rewrite span_prefix by done. f_equal. rewrite Hv.
  unfold clamp, INT64_MAX in *. lia.
Qed.

(** ** Reading a text file line by line

    [fgets(line, size, f)]: at most [size - 1] bytes, stopping after a
    newline; [None] at the end of the file. *)
Fixpoint fgets_take (n : nat) (s : bytes) : bytes * bytes :=
  match n, s with
  | S n, b :: s => if Byte.eqb b "010"%byte then ([b], s)
                   else let '(l, r) := fgets_take n s in (b :: l, r)
  | _, _ => ([], s)
  end.

Definition fgets (size : nat) (s : bytes) : option (bytes * bytes) :=
  match s with
  | [] => None
  | _ => Some (fgets_take (size - 1) s)
  end.

Lemma fgets_take_line n l r :
  Forall (fun b => Byte.eqb b "010"%byte = false) l -> (length l < n)%nat ->
  fgets_take n (l ++ "010"%byte :: r) = (l ++ ["010"%byte], r).
Proof.
  intros Hl. revert n; induction Hl as [|b l Hb _ IH]; intros n Hn; simpl in *.
  - destruct n; [lia|done].
  - destruct n; [lia|]. simpl. by rewrite Hb, IH by lia.
Qed.

(** All the lines a [while (fgets(line, size, f))] loop sees.  Every [fgets]
    with [size >= 2] consumes a byte, so [length s] iterations are enough. *)
Fixpoint lines_fuel (k size : nat) (s : bytes) : list bytes :=
  match k with
  | O => []
  | S k => match fgets size s with
           | None => []
           | Some (l, r) => l :: lines_fuel k size r
           end
  end.

Definition lines (size : nat) (s : bytes) : list bytes := lines_fuel (length s) size s.

Lemma fgets_take_app n s : (fgets_take n s).1 ++ (fgets_take n s).2 = s.
Proof.
  revert s; induction n as [|n IH]; intros [|b s]; simpl; try done.
  destruct (Byte.eqb b "010"%byte); [done|].
  specialize (IH s). destruct (fgets_take n s). simpl in *. by rewrite IH.
Qed.

Lemma fgets_shrinks size s l r :
  (2 <= size)%nat -> fgets size s = Some (l, r) -> (length r < length s)%nat.
Proof.
  intros Hs. destruct s as [|b s]; [done|]. unfold fgets. intros [= E].
  destruct (size - 1)%nat as [|m] eqn:Em; [lia|]. simpl in E.
  destruct (Byte.eqb b "010"%byte); [inversion E; subst; simpl; lia|].
  pose proof (fgets_take_app m s) as Ha. destruct (fgets_take m s) as [l' r'].
  inversion E; subst. simpl in *. rewrite length_app. lia.
Qed.

(** Any fuel beyond the file's length gives the same lines. *)
Lemma lines_fuel_enough size k1 k2 s :
  (2 <= size)%nat -> (length s <= k1)%nat -> (length s <= k2)%nat ->
  lines_fuel k1 size s = lines_fuel k2 size s.
Proof.
  intros Hs. revert k2 s; induction k1 as [|k1 IH]; intros k2 s H1 H2.
  { destruct s; [|simpl in *; lia]. by destruct k2. }
  destruct k2 as [|k2]; [by destruct s; simpl in *; [|lia]|]. simpl.
  destruct (fgets size s) as [[l r]|] eqn:E; [|done].
  apply fgets_shrinks in E; [|done]. f_equal. apply IH; lia.
Qed.

Lemma lines_cons size l r :
  (length l + 2 <= size)%nat -> Forall (fun b => Byte.eqb b "010"%byte = false) l ->
  lines size (l ++ "010"%byte :: r) = (l ++ ["010"%byte]) :: lines size r.
Proof.
  intros Hs Hl. unfold lines at 1. rewrite length_app. simpl length.
  rewrite <- plus_n_Sm. simpl lines_fuel.
  assert (fgets size (l ++ "010"%byte :: r) = Some (l ++ ["010"%byte], r)) as ->.
  { unfold fgets. rewrite fgets_take_line by (done || lia). by destruct l. }
  f_equal. apply lines_fuel_enough; lia.
Qed.
