(* ===== verification/Budget.v ===== *)
(** * Budget: memory accounting of [include/jllm_memory.h] and
    [src/memory/budget.cpp]

    [MemoryBudget] and its arithmetic on [int64_t], the reader of
    [/proc/meminfo] and the out-of-memory guard.  The text of
    [/proc/meminfo] is an argument: [None] is a failing [fopen]. *)

From S2P Require Import Prelude CLib.

Module Budget.

(** ** [struct MemoryBudget] *)

Record MemoryBudget := mkBudget {
  total_mb : Z; os_mb : Z; cma_mb : Z; cuda_ctx_mb : Z;
  model_mb : Z; kv_cache_mb : Z; scratch_mb : Z; safety_mb : Z }.

Definition used_mb (b : MemoryBudget) : Z :=
  i64 (os_mb b + cma_mb b + cuda_ctx_mb b + model_mb b + kv_cache_mb b + scratch_mb b).

Definition free_mb (b : MemoryBudget) : Z := i64 (total_mb b - used_mb b - safety_mb b).

Definition can_allocate (b : MemoryBudget) (request_mb : Z) : bool :=
  request_mb <=? free_mb b.

Definition max_kv_mb (b : MemoryBudget) : Z :=
  i64 (total_mb b - os_mb b - cma_mb b - cuda_ctx_mb b - model_mb b - scratch_mb b
       - safety_mb b).

Definition max_context (b : MemoryBudget) (n_layers n_kv_heads head_dim kv_bytes : Z) : Z :=
  let bytes_per_token := i64 (2 * n_layers * n_kv_heads * head_dim * kv_bytes) in
  if bytes_per_token =? 0 then 0
  else i32 (Z.quot (i64 (max_kv_mb b * 1024 * 1024)) bytes_per_token).

(** ** Reading [/proc/meminfo] *)

Definition skip_sep (b : byte) : bool := Byte.eqb b " "%byte || Byte.eqb b ":"%byte.

(** The loop of [parse_meminfo_field] over the lines of the file. *)
Fixpoint scan_lines (field : bytes) (ls : list bytes) : Z :=
  match ls with
  | [] => -1
  | line :: ls =>
      if starts_with field line
      then Z.quot (strtol (span skip_sep (drop (length field) line)).2).1 1024
      else scan_lines field ls
  end.

Definition parse_meminfo_field (meminfo : option bytes) (field : bytes) : Z :=
  match meminfo with
  | None => -1
  | Some text => scan_lines field (lines 256 text)
  end.

Definition probe_system_memory (meminfo : option bytes) : MemoryBudget :=
  let total := parse_meminfo_field meminfo (str "MemTotal") in
  let available := parse_meminfo_field meminfo (str "MemAvailable") in
  let cma := parse_meminfo_field meminfo (str "CmaTotal") in
  let os := i64 (total - available - cma) in
  let os := if os <? 0 then 500 else os in
  mkBudget total os cma 300 0 0 0 256.

(** ** [class OOMGuard] *)

Definition real_free_mb (meminfo : option bytes) : Z :=
  parse_meminfo_field meminfo (str "MemAvailable").

Definition can_extend (safety : Z) (meminfo : option bytes) (additional_bytes : Z) : bool :=
  let free := real_free_mb meminfo in
  let needed_mb := i64 (Z.quot additional_bytes (1024 * 1024) + 1) in
  i64 (needed_mb + safety) <? free.

(** ** Specification of the file: the lines the kernel prints *)

Record entry := Entry { name : bytes; pad : nat; kb : Z }.

Definition space : byte := " "%byte.

(** ["Name:      12345 kB"] *)
Definition entry_line (e : entry) : bytes :=
  name e ++ str ":" ++ replicate (pad e) space ++ dec (kb e) ++ str " kB".

Definition render (es : list entry) : bytes :=
  concat ((fun e => entry_line e ++ ["010"%byte]) <$> es).

(** A line fits the 256-byte buffer and contains no newline. *)
Definition entry_ok (e : entry) : Prop :=
  (length (entry_line e) <= 254)%nat /\
  Forall (fun b => Byte.eqb b "010"%byte = false) (entry_line e) /\
  0 <= kb e <= INT64_MAX.

Lemma lines_render es :
  Forall entry_ok es -> lines 256 (render es) = (fun e => entry_line e ++ ["010"%byte]) <$> es.
Proof.
  induction 1 as [|e es (Hl & Hn & _) _ IH]; [done|].
  unfold render. simpl. rewrite <- app_assoc. simpl.
  rewrite lines_cons by (done || lia). f_equal. exact IH.
Qed.

Lemma scan_cons field line ls :
  scan_lines field (line :: ls) =
  if starts_with field line
  then Z.quot (strtol (span skip_sep (drop (length field) line)).2).1 1024
  else scan_lines field ls.
Proof. done. Qed.

Lemma scan_entry field e rest :
  name e = field -> 0 <= kb e <= INT64_MAX ->
  scan_lines field ((entry_line e ++ ["010"%byte]) :: rest) = kb e / 1024.
Proof.
  intros <- Hk. unfold entry_line. rewrite <- !app_assoc, scan_cons.
  rewrite starts_with_app, drop_app_length.
  rewrite (app_assoc (str ":")).
  rewrite (span_prefix skip_sep (str ":" ++ replicate (pad e) space)).
  - simpl snd. rewrite strtol_dec; [|done|].
    + simpl. apply Z.quot_div_nonneg; lia.
    + intros b r [= <- _]. done.
  - apply Forall_app. split; [by repeat constructor|]. by apply Forall_replicate.
  - intros b r E. destruct (dec_spec (kb e)) as (Hd & _ & Hne); [lia|].
    destruct (dec (kb e)) as [|c ds]; [done|]. simpl in E. injection E as <- _.
    apply Forall_cons in Hd as [Hd _]. revert Hd. destruct c; vm_compute; done.
Qed.

(** Reading a field from [/proc/meminfo] returns the kilobytes of the first
    line that starts with the field's name, divided by 1024, whatever precedes
    and follows that line. *)
Theorem parse_meminfo_render (pre post : list entry) (e : entry) (field : bytes) :
  Forall entry_ok (pre ++ e :: post) -> name e = field ->
  Forall (fun p => starts_with field (entry_line p ++ ["010"%byte]) = false) pre ->
  parse_meminfo_field (Some (render (pre ++ e :: post))) field = kb e / 1024.
Proof.
  intros Hok Hn Hpre. unfold parse_meminfo_field. rewrite lines_render by done.
  assert (Hk : 0 <= kb e <= INT64_MAX).
  { apply Forall_app in Hok as [_ Hok]. apply Forall_cons in Hok as [(_ & _ & ?) _]. done. }
  clear Hok. induction Hpre as [|p pre Hp _ IH].
  - by apply scan_entry.
  - rewrite <- app_comm_cons, fmap_cons, scan_cons, Hp. exact IH.
Qed.

(** ** The budget probed from a readable file *)

(** On a machine whose /proc/meminfo lists MemTotal, MemAvailable and
    CmaTotal (first lines of those names, available plus CMA not above the
    total), the probed budget leaves exactly MemAvailable minus the 300 MB
    CUDA estimate minus the 256 MB safety margin. *)
Theorem probe_free (meminfo : bytes) (total avail cma : Z) :
  parse_meminfo_field (Some meminfo) (str "MemTotal") = total ->
  parse_meminfo_field (Some meminfo) (str "MemAvailable") = avail ->
  parse_meminfo_field (Some meminfo) (str "CmaTotal") = cma ->
  0 <= total < 2 ^ 60 -> 0 <= avail -> 0 <= cma -> avail + cma <= total ->
  free_mb (probe_system_memory (Some meminfo)) = avail - 556.
Proof.
  intros H1 H2 H3 ? ? ? ?. unfold probe_system_memory. rewrite H1, H2, H3.
  cbv zeta. nowrap. destruct (Z.ltb_spec (total - avail - cma) 0); [lia|].
  unfold free_mb, used_mb; simpl. nowrap. lia.
Qed.

(** ** Context sizing *)

(** Shapes for which one token's KV bytes fit [int64_t]. *)
Definition shape_ok (n_layers n_kv_heads head_dim kv_bytes : Z) : Prop :=
  0 < 2 * n_layers * n_kv_heads * head_dim * kv_bytes < 2 ^ 63.

(** C28: [max_context] is the largest number of tokens whose KV bytes fit the
    megabytes the budget leaves for the cache; a budget with nothing left gives
    no positive context. *)
Theorem max_context_maximal (b : MemoryBudget) (n_layers n_kv_heads head_dim kv_bytes : Z) :
  shape_ok n_layers n_kv_heads head_dim kv_bytes ->
  - 2 ^ 43 <= max_kv_mb b < 2 ^ 43 ->
  let per_token := 2 * n_layers * n_kv_heads * head_dim * kv_bytes in
  Z.abs (max_kv_mb b) * 2 ^ 20 < 2 ^ 31 * per_token ->
  let ctx := max_context b n_layers n_kv_heads head_dim kv_bytes in
  (0 <= max_kv_mb b ->
     0 <= ctx /\ ctx * per_token <= max_kv_mb b * 2 ^ 20 < (ctx + 1) * per_token) /\
  (max_kv_mb b < 0 -> ctx <= 0).
Proof.
  intros Hs Hm per_token Hq ctx. unfold shape_ok in Hs. fold per_token in Hs.
  unfold ctx, max_context. fold per_token. cbv zeta. nowrap.
  destruct (Z.eqb_spec per_token 0); [lia|].
  replace (max_kv_mb b * 1024 * 1024) with (max_kv_mb b * 2 ^ 20) by lia.
  assert (Hr : Z.abs (Z.quot (max_kv_mb b * 2 ^ 20) per_token) < 2 ^ 31).
  { rewrite <- Z.quot_abs, Z.abs_mul by done. rewrite (Z.abs_eq per_token) by lia.
    rewrite Z.quot_div_nonneg by lia. apply Z.div_lt_upper_bound; lia. }
  nowrap. split; intros.
  - rewrite Z.quot_div_nonneg by lia.
    pose proof (Z.div_mod (max_kv_mb b * 2 ^ 20) per_token).
    pose proof (Z.mod_pos_bound (max_kv_mb b * 2 ^ 20) per_token).
    pose proof (Z.div_pos (max_kv_mb b * 2 ^ 20) per_token). lia.
  - rewrite <- (Z.opp_involutive (max_kv_mb b * 2 ^ 20)), Z.quot_opp_l by lia.
    pose proof (Z.quot_pos (- (max_kv_mb b * 2 ^ 20)) per_token). lia.
Qed.

(** ** The guard *)

(** The guard lets a KV extension through only when the kernel reports at
    least the requested bytes plus the safety margin as available, and never
    when /proc/meminfo cannot be read. *)
Theorem can_extend_sound (safety : Z) (meminfo : option bytes) (additional_bytes : Z) :
  0 <= safety < 2 ^ 40 -> 0 <= additional_bytes < 2 ^ 60 ->
  can_extend safety meminfo additional_bytes = true ->
  additional_bytes + safety * 2 ^ 20 < real_free_mb meminfo * 2 ^ 20 /\ meminfo <> None.
Proof.
  intros Hs Ha. unfold can_extend. cbv zeta.
  rewrite Z.quot_div_nonneg by lia.
  pose proof (Z.div_mod additional_bytes (1024 * 1024)).
  pose proof (Z.mod_pos_bound additional_bytes (1024 * 1024)).
  assert (0 <= additional_bytes / (1024 * 1024) < 2 ^ 40).
  { split; [apply Z.div_pos; lia|apply Z.div_lt_upper_bound; lia]. }
  nowrap. intros Hf%Z.ltb_lt. split; [lia|]. intros ->. cbn in Hf. lia.
Qed.

(** ** Concrete inputs *)

Definition demo_entries : list entry :=
  [Entry (str "MemTotal") 8 7990000; Entry (str "MemFree") 9 1000000;
   Entry (str "MemAvailable") 4 5120000; Entry (str "CmaTotal") 7 524288].

Definition demo_meminfo : bytes := render demo_entries.

Lemma demo_entries_ok : Forall entry_ok demo_entries.
Proof.
  repeat constructor; try (vm_compute; discriminate); vm_compute; repeat constructor.
Qed.

Lemma parse_meminfo_render_witness :
  parse_meminfo_field (Some demo_meminfo) (str "MemAvailable") = 5000.
Proof.
  apply (parse_meminfo_render
    [Entry (str "MemTotal") 8 7990000; Entry (str "MemFree") 9 1000000]
    [Entry (str "CmaTotal") 7 524288] (Entry (str "MemAvailable") 4 5120000) (str "MemAvailable")).
  - exact demo_entries_ok.
  - reflexivity.
  - repeat constructor.
Defined.

Lemma probe_free_witness : free_mb (probe_system_memory (Some demo_meminfo)) = 4444.
Proof.
  apply (probe_free demo_meminfo 7802 5000 512);
    [vm_compute; reflexivity..|lia|lia|lia|lia].
Defined.

Definition demo_budget : MemoryBudget := mkBudget 7990 1500 512 300 2400 0 0 256.

Lemma max_context_maximal_witness :
  let ctx := max_context demo_budget 28 8 128 2 in
  ctx = 27629 /\ ctx * (2 * 28 * 8 * 128 * 2) <= max_kv_mb demo_budget * 2 ^ 20.
Proof.
  split; [vm_compute; reflexivity|].
  apply (max_context_maximal demo_budget 28 8 128 2); vm_compute;
    repeat split; reflexivity || discriminate.
Defined.

Lemma can_extend_sound_witness :
  can_extend 256 (Some demo_meminfo) (2 ^ 30) = true /\
  2 ^ 30 + 256 * 2 ^ 20 < real_free_mb (Some demo_meminfo) * 2 ^ 20.
Proof.
  split; [vm_compute; reflexivity|].
  apply (can_extend_sound 256 (Some demo_meminfo) (2 ^ 30)); [lia|lia|vm_compute; reflexivity].
Defined.

End Budget.
