(* ===== verification/Cuda.v ===== *)
(** * Cuda: the CUDA runtime calls that move bytes

    [cudaMemcpy] and [cudaMemset] are not part of the repository.  The class
    [CudaMem] names them as parameters, the class [CudaMemLaws] states the
    documented behaviour the sources rely on: a call that returns
    [cudaSuccess] on ranges inside the two blocks has written exactly the
    requested bytes, and no call ever changes the size of a block.  Nothing is
    assumed of a failing call, nor of a call that leaves a block.

    A block is a list of bytes, an address a block with an offset.  One
    instance stands for the device during one operation of the runtime; the
    calls an operation makes are distinguished by their arguments. *)

From S2P Require Import Prelude.

Class CudaMem := {
  (** [cudaMemcpy(dst + d, src + s, n, kind)]: success, and [dst] afterwards. *)
  cudaMemcpy : bytes -> Z -> bytes -> Z -> Z -> bool * bytes;
  (** [cudaMemset(dst + d, b, n)] *)
  cudaMemset : bytes -> Z -> byte -> Z -> bool * bytes
}.

Class CudaMemLaws `{CudaMem} : Prop := {
  cudaMemcpy_ok dst d src s n bs dst' :
    cudaMemcpy dst d src s n = (true, dst') ->
    peek_at src s n = Some bs -> d + n <= zlen dst -> 0 <= d ->
    poke_at dst d bs = Some dst';
  cudaMemset_ok dst d b n dst' :
    cudaMemset dst d b n = (true, dst') ->
    0 <= d -> 0 <= n -> d + n <= zlen dst ->
    poke_at dst d (replicate (Z.to_nat n) b) = Some dst';
  cudaMemcpy_length dst d src s n r dst' :
    cudaMemcpy dst d src s n = (r, dst') -> zlen dst' = zlen dst;
  cudaMemset_length dst d b n r dst' :
    cudaMemset dst d b n = (r, dst') -> zlen dst' = zlen dst
}.

(** A concrete device on which every in-range call succeeds and every other
    call fails without effect; the witnesses run on it. *)
Definition sim_memcpy (dst : bytes) (d : Z) (src : bytes) (s n : Z) : bool * bytes :=
  match peek_at src s n with
  | None => (false, dst)
  | Some bs => match poke_at dst d bs with
               | Some dst' => (true, dst')
               | None => (false, dst)
               end
  end.

Definition sim_memset (dst : bytes) (d : Z) (b : byte) (n : Z) : bool * bytes :=
  match poke_at dst d (replicate (Z.to_nat n) b) with
  | Some dst' => (true, dst')
  | None => (false, dst)
  end.

Definition sim_cuda : CudaMem := {| cudaMemcpy := sim_memcpy; cudaMemset := sim_memset |}.

Lemma sim_cuda_laws : @CudaMemLaws sim_cuda.
Proof.
  constructor; simpl; unfold sim_memcpy, sim_memset; intros *.
  - intros E Hbs _ _. rewrite Hbs in E.
    destruct (poke_at dst d bs) eqn:E'; simplify_eq. done.
  - intros E _ _ _. destruct (poke_at dst d _) eqn:E'; simplify_eq. done.
  - destruct (peek_at src s n) as [bs|]; [|intros; by simplify_eq].
    destruct (poke_at dst d bs) eqn:E'; intros; simplify_eq; [|done].
    by eapply poke_at_length.
  - destruct (poke_at dst d _) eqn:E'; intros; simplify_eq; [|done].
    by eapply poke_at_length.
Qed.
