(* ===== verification/KVCache.v ===== *)
(** * KVCache: the pre-allocated KV cache of [src/memory/kv_cache.cpp]

    [KVCachePool] of [include/jllm_memory.h]: its configuration, the address
    arithmetic of the fast (device) and overflow (host) pools, the INT8 scale
    table, and the operations that move cache contents.  The pools are byte
    blocks; an address is a tier and an offset.  The answers of [cudaMalloc],
    [malloc] and the CUDA copies are parameters ([Alloc], [CudaMem]). *)

From S2P Require Import Prelude Cuda.

Module KVCache.

Record Config := mkConfig {
  n_layers : Z; n_kv_heads : Z; head_dim : Z;
  max_context : Z; overflow_context : Z; kv_type_bytes : Z }.

Record t := mkPool {
  cfg_ : Config;
  gpu_pool_ : option bytes;
  cpu_pool_ : option bytes;
  kv_scales_ : option bytes;
  used_tokens_ : Z;
  gpu_tokens_ : Z }.

Definition fresh : t := mkPool (mkConfig 0 0 0 0 0 0) None None None 0 0.

(** Addresses: into the device pool, the host pool, or the scale table (in
    units of [float]); [Null] is [nullptr]. *)
Inductive ptr := Gpu (off : Z) | Cpu (off : Z) | Scale (idx : Z) | Null.

(** ** Sizes *)

Definition entry_bytes (c : Config) : Z :=
  i64 (2 * n_kv_heads c * head_dim c * kv_type_bytes c).

Definition gpu_pool_bytes (c : Config) : Z :=
  i64 (n_layers c * max_context c * entry_bytes c).

Definition packed_used_bytes (c : Config) (used_tokens : Z) : Z :=
  if used_tokens <=? 0 then 0 else i64 (n_layers c * used_tokens * entry_bytes c).

Definition kv_scales_bytes (c : Config) : Z :=
  if kv_type_bytes c =? 1
  then i64 (2 * n_layers c * max_context c * n_kv_heads c * 4) else 0.

Definition max_tokens (p : t) : Z := i32 (max_context (cfg_ p) + overflow_context (cfg_ p)).

Definition used_bytes (p : t) : Z :=
  i64 (used_tokens_ p * entry_bytes (cfg_ p) * n_layers (cfg_ p)).

Definition capacity_bytes (p : t) : Z :=
  i64 (max_tokens p * entry_bytes (cfg_ p) * n_layers (cfg_ p)).

Definition is_fast_position (p : t) (pos : Z) : bool := pos <? max_context (cfg_ p).

(** ** Construction and destruction *)

(** The answers of the allocators during one [init]: [cudaMalloc] of the
    pool, [malloc] of the overflow pool, [cudaMalloc] of the scales. *)
Record Alloc := {
  cudaMalloc_pool : Z -> option bytes;
  malloc_overflow : Z -> option bytes;
  cudaMalloc_scales : Z -> option bytes }.

Section Operations.
Context `{cuda : CudaMem}.

Definition with_overflow_disabled (c : Config) : Config :=
  mkConfig (n_layers c) (n_kv_heads c) (head_dim c) (max_context c) 0 (kv_type_bytes c).

Definition init (a : Alloc) (p : t) (cfg : Config) : bool * t :=
  let fast_bytes := i64 (n_layers cfg * entry_bytes cfg * max_context cfg) in
  let overflow_bytes := i64 (n_layers cfg * entry_bytes cfg * overflow_context cfg) in
  match cudaMalloc_pool a fast_bytes with
  | None => (false, mkPool cfg (gpu_pool_ p) (cpu_pool_ p) (kv_scales_ p)
                           (used_tokens_ p) (gpu_tokens_ p))
  | Some block =>
      match cudaMemset block 0 Byte.x00 fast_bytes with
      | (false, _) => (false, mkPool cfg None (cpu_pool_ p) (kv_scales_ p)
                                     (used_tokens_ p) (gpu_tokens_ p))
      | (true, gpu) =>
          let '(cfg', cpu) :=
            if (0 <? overflow_context cfg) && (0 <? overflow_bytes) then
              match malloc_overflow a overflow_bytes with
              | None => (with_overflow_disabled cfg, None)
              | Some blk => (cfg, Some (replicate (length blk) Byte.x00))
              end
            else (cfg, cpu_pool_ p) in
          let scales :=
            if kv_type_bytes cfg =? 1 then
              match cudaMalloc_scales a (kv_scales_bytes cfg') with
              | None => None
              | Some blk => Some (cudaMemset blk 0 Byte.x00 (kv_scales_bytes cfg')).2
              end
            else kv_scales_ p in
          (true, mkPool cfg' (Some gpu) cpu scales 0 0)
      end
  end.

Definition destroy (p : t) : t := mkPool (cfg_ p) None None None 0 0.

Definition clear (p : t) : t :=
  mkPool (cfg_ p) (gpu_pool_ p) (cpu_pool_ p) (kv_scales_ p) 0 0.

(** ** Addresses *)

Definition key_ptr (p : t) (layer pos : Z) : ptr :=
  let c := cfg_ p in
  let eb := Z.quot (entry_bytes c) 2 in
  if pos <? max_context c then
    let layer_stride := i64 (max_context c * entry_bytes c) in
    Gpu (i64 (layer * layer_stride + pos * eb))
  else
    let overflow_pos := pos - max_context c in
    let layer_stride := i64 (overflow_context c * entry_bytes c) in
    Cpu (i64 (layer * layer_stride + overflow_pos * eb)).

Definition val_ptr (p : t) (layer pos : Z) : ptr :=
  let c := cfg_ p in
  let eb := Z.quot (entry_bytes c) 2 in
  if pos <? max_context c then
    let layer_stride := i64 (max_context c * entry_bytes c) in
    let key_offset := i64 (max_context c * eb) in
    Gpu (i64 (layer * layer_stride + key_offset + pos * eb))
  else
    let overflow_pos := pos - max_context c in
    let layer_stride := i64 (overflow_context c * entry_bytes c) in
    let key_offset := i64 (overflow_context c * eb) in
    Cpu (i64 (layer * layer_stride + key_offset + overflow_pos * eb)).

Definition kv_scale_ptr (p : t) (layer pos : Z) (is_value : bool) : ptr :=
  let c := cfg_ p in
  match kv_scales_ p with
  | None => Null
  | Some _ =>
      if negb (kv_type_bytes c =? 1) then Null
      else if (layer <? 0) || (n_layers c <=? layer) then Null
      else if (pos <? 0) || (max_context c <=? pos) then Null
      else
        let per_kv_region := i64 (max_context c * n_kv_heads c) in
        let per_layer := i64 (2 * per_kv_region) in
        let per_pos := n_kv_heads c in
        Scale (i64 (layer * per_layer + (if is_value then per_kv_region else 0)
                    + pos * per_pos))
  end.

(** ** Gather: device pool to a packed host buffer *)

(** One iteration of the layer loop; [false] is the early [return false]. *)
Definition gather_layer (c : Config) (gpu : bytes) (used_tokens l : Z) (d : bytes)
  : bool * bytes :=
  let eb := entry_bytes c in
  let half_eb := Z.quot eb 2 in
  let layer_in_stride := i64 (max_context c * eb) in
  let layer_out_stride := i64 (used_tokens * eb) in
  let key_used_bytes := i64 (used_tokens * half_eb) in
  let src_keys := i64 (l * layer_in_stride) in
  let src_vals := i64 (src_keys + max_context c * half_eb) in
  let dst_keys := i64 (l * layer_out_stride) in
  let dst_vals := i64 (dst_keys + key_used_bytes) in
  match cudaMemcpy d dst_keys gpu src_keys key_used_bytes with
  | (false, d) => (false, d)
  | (true, d) => cudaMemcpy d dst_vals gpu src_vals key_used_bytes
  end.

Fixpoint layer_loop (body : Z -> bytes -> bool * bytes) (ls : list Z) (d : bytes)
  : bool * bytes :=
  match ls with
  | [] => (true, d)
  | l :: ls => match body l d with
               | (false, d) => (false, d)
               | (true, d) => layer_loop body ls d
               end
  end.

Definition gather_used_to_host (p : t) (dst : bytes) (used_tokens : Z) : bool * bytes :=
  match gpu_pool_ p with
  | None => (false, dst)
  | Some gpu =>
      if used_tokens <=? 0 then (false, dst)
      else if max_context (cfg_ p) <? used_tokens then (false, dst)
      else layer_loop (gather_layer (cfg_ p) gpu used_tokens) (upto (n_layers (cfg_ p))) dst
  end.

(** ** Scatter: packed host buffer to the device pool *)

Definition scatter_layer (c : Config) (s : bytes) (used_tokens : Z) (zero_remaining : bool)
  (l : Z) (gpu : bytes) : bool * bytes :=
  let eb := entry_bytes c in
  let half_eb := Z.quot eb 2 in
  let layer_out_stride := i64 (max_context c * eb) in
  let layer_in_stride := i64 (used_tokens * eb) in
  let key_used_bytes := i64 (used_tokens * half_eb) in
  let key_unused_bytes := i64 ((max_context c - used_tokens) * half_eb) in
  let dst_keys := i64 (l * layer_out_stride) in
  let dst_vals := i64 (dst_keys + max_context c * half_eb) in
  let src_keys := i64 (l * layer_in_stride) in
  let src_vals := i64 (src_keys + key_used_bytes) in
  match cudaMemcpy gpu dst_keys s src_keys key_used_bytes with
  | (false, gpu) => (false, gpu)
  | (true, gpu) =>
      match cudaMemcpy gpu dst_vals s src_vals key_used_bytes with
      | (false, gpu) => (false, gpu)
      | (true, gpu) =>
          if zero_remaining && (0 <? key_unused_bytes) then
            match cudaMemset gpu (i64 (dst_keys + key_used_bytes)) Byte.x00 key_unused_bytes with
            | (false, gpu) => (false, gpu)
            | (true, gpu) =>
                cudaMemset gpu (i64 (dst_vals + key_used_bytes)) Byte.x00 key_unused_bytes
            end
          else (true, gpu)
      end
  end.

Definition scatter_from_host (p : t) (src : bytes) (used_tokens : Z) (zero_remaining : bool)
  : bool * t :=
  match gpu_pool_ p with
  | None => (false, p)
  | Some gpu =>
      if used_tokens <=? 0 then (false, p)
      else if max_context (cfg_ p) <? used_tokens then (false, p)
      else match layer_loop (scatter_layer (cfg_ p) src used_tokens zero_remaining)
                   (upto (n_layers (cfg_ p))) gpu with
           | (false, gpu) => (false, mkPool (cfg_ p) (Some gpu) (cpu_pool_ p) (kv_scales_ p)
                                            (used_tokens_ p) (gpu_tokens_ p))
           | (true, gpu) => (true, mkPool (cfg_ p) (Some gpu) (cpu_pool_ p) (kv_scales_ p)
                                          used_tokens used_tokens)
           end
  end.

(** ** Eviction (the copies' error codes are not looked at) *)

Definition evict_layer (p : t) (n_tokens l : Z) (pools : bytes * bytes) : bytes * bytes :=
  let '(gpu, cpu) := pools in
  let c := cfg_ p in
  let eb := entry_bytes c in
  let src := i64 (l * i64 (max_context c * eb)) in
  let dst := i64 (l * i64 (overflow_context c * eb)) in
  let cpu := (cudaMemcpy cpu dst gpu src (i64 (n_tokens * eb))).2 in
  let remaining := i32 (gpu_tokens_ p - n_tokens) in
  let gpu :=
    if 0 <? remaining
    then (cudaMemcpy gpu src gpu (i64 (src + n_tokens * eb)) (i64 (remaining * eb))).2
    else gpu in
  (gpu, cpu).

Definition evict (p : t) (n_tokens : Z) : t :=
  match cpu_pool_ p, gpu_pool_ p with
  | Some cpu, Some gpu =>
      if n_tokens <=? 0 then p
      else
        let '(gpu, cpu) :=
          foldl (fun pools l => evict_layer p n_tokens l pools) (gpu, cpu)
                (upto (n_layers (cfg_ p))) in
        mkPool (cfg_ p) (Some gpu) (Some cpu) (kv_scales_ p)
               (used_tokens_ p) (i32 (gpu_tokens_ p - n_tokens))
  | _, _ => p
  end.

End Operations.

(** ** Valid configurations *)

(** Bytes of one key (or one value) of one token in one layer. *)
Definition half (c : Config) : Z := n_kv_heads c * head_dim c * kv_type_bytes c.

Record cfg_ok (c : Config) : Prop := {
  ok_layers : 0 < n_layers c;
  ok_heads : 0 < n_kv_heads c;
  ok_dim : 0 < head_dim c;
  ok_type : 0 < kv_type_bytes c;
  ok_ctx : 0 <= max_context c;
  ok_overflow : 0 <= overflow_context c;
  ok_tokens : max_context c + overflow_context c < 2 ^ 31;
  ok_entry : 2 * half c < 2 ^ 63;
  ok_bytes : n_layers c * (max_context c + overflow_context c) * (2 * half c) < 2 ^ 63 }.

Lemma half_pos c : cfg_ok c -> 0 < half c.
Proof. intros []. unfold half. nia. Qed.

Lemma entry_bytes_eq c : cfg_ok c -> entry_bytes c = 2 * half c.
Proof.
  intros H. pose proof (half_pos c H). destruct H. unfold entry_bytes.
  replace (2 * n_kv_heads c * head_dim c * kv_type_bytes c) with (2 * half c)
    by (unfold half; lia). by nowrap.
Qed.

Lemma half_entry c : cfg_ok c -> Z.quot (entry_bytes c) 2 = half c.
Proof.
  intros H. rewrite entry_bytes_eq by done. pose proof (half_pos c H).
  rewrite Z.quot_div_nonneg by lia. rewrite Z.mul_comm. apply Z.div_mul. lia.
Qed.

(** Products of the configuration stay below [2^63]. *)
Lemma pool_bound c n k :
  cfg_ok c -> 0 <= n <= n_layers c -> 0 <= k <= max_context c + overflow_context c ->
  0 <= n * k * (2 * half c) < 2 ^ 63.
Proof.
  intros H Hn Hk. pose proof (half_pos c H). destruct H.
  assert (n * k <= n_layers c * (max_context c + overflow_context c)) by nia. nia.
Qed.

(** ** Layout: every address is the half-entry size times a slot number *)

Definition slot_off (h ctx l pos : Z) (v : bool) : Z :=
  h * (2 * ctx * l + (if v then ctx else 0) + pos).

Lemma slot_off_bound h n ctx l pos v :
  0 < h -> 0 <= l < n -> 0 <= pos < ctx ->
  0 <= slot_off h ctx l pos v /\ slot_off h ctx l pos v + h <= n * ctx * (2 * h).
Proof.
  intros. unfold slot_off.
  assert (0 <= 2 * ctx * l + (if v then ctx else 0) + pos) by (destruct v; nia).
  assert (2 * ctx * l + (if v then ctx else 0) + pos + 1 <= 2 * ctx * n) by (destruct v; nia).
  split; [nia|].
  replace (n * ctx * (2 * h)) with (h * (2 * ctx * n)) by lia. nia.
Qed.

Lemma slot_off_disjoint h ctx l pos v l' pos' v' :
  0 < h -> 0 <= l -> 0 <= l' -> 0 <= pos < ctx -> 0 <= pos' < ctx ->
  (l, pos, v) <> (l', pos', v') ->
  disjoint_ranges (slot_off h ctx l pos v) h (slot_off h ctx l' pos' v') h.
Proof.
  intros Hh Hl Hl' Hp Hp' Hne. unfold slot_off, disjoint_ranges.
  set (i := 2 * ctx * l + (if v then ctx else 0) + pos).
  set (j := 2 * ctx * l' + (if v' then ctx else 0) + pos').
  assert (i <> j).
  { intros E. apply Hne. assert (l = l') by (unfold i, j in E; destruct v, v'; nia).
    subst l'. unfold i, j in E. destruct v, v'; repeat f_equal; lia. }
  assert (i + 1 <= j \/ j + 1 <= i) as [?|?] by lia; [left|right]; nia.
Qed.

(** The address of the key ([v = false]) or value ([v = true]) of a token. *)
Definition slot_ptr (p : t) (l pos : Z) (v : bool) : ptr :=
  if v then val_ptr p l pos else key_ptr p l pos.

Lemma slot_ptr_eq p l pos v :
  cfg_ok (cfg_ p) -> 0 <= l < n_layers (cfg_ p) ->
  0 <= pos < max_context (cfg_ p) + overflow_context (cfg_ p) ->
  slot_ptr p l pos v =
  if pos <? max_context (cfg_ p)
  then Gpu (slot_off (half (cfg_ p)) (max_context (cfg_ p)) l pos v)
  else Cpu (slot_off (half (cfg_ p)) (overflow_context (cfg_ p)) l
                     (pos - max_context (cfg_ p)) v).
Proof.
  intros H Hl Hp. pose proof (half_pos _ H) as Hh. set (c := cfg_ p) in *.
  pose proof (ok_ctx c H). pose proof (ok_overflow c H). pose proof (ok_layers c H).
  assert (Hb : forall ctx q, 0 <= ctx <= max_context c + overflow_context c -> 0 <= q < ctx ->
    0 <= l * (ctx * (2 * half c)) /\ 0 <= ctx * half c /\ 0 <= q * half c /\
    l * (ctx * (2 * half c)) + ctx * half c + q * half c < 2 ^ 63 /\
    ctx * (2 * half c) < 2 ^ 63).
  { intros ctx q Hc Hq. pose proof (pool_bound c (n_layers c) ctx H).
    assert (l * ctx + ctx <= n_layers c * ctx) by nia.
    assert (ctx <= n_layers c * ctx) by nia. nia. }
  unfold slot_ptr, key_ptr, val_ptr, slot_off. fold c.
  rewrite half_entry, entry_bytes_eq by done. cbv zeta.
  destruct (Z.ltb_spec pos (max_context c)) as [Hlt|Hge].
  - destruct (Hb (max_context c) pos) as (? & ? & ? & ? & ?); [lia..|].
    destruct v; nowrap; f_equal; lia.
  - destruct (Hb (overflow_context c) (pos - max_context c)) as (? & ? & ? & ? & ?); [lia..|].
    destruct v; nowrap; f_equal; lia.
Qed.

(** An address with its tier, and the bytes of a tier. *)
Definition ptr_disjoint (a b : ptr) (n : Z) : Prop :=
  match a, b with
  | Gpu x, Gpu y | Cpu x, Cpu y => disjoint_ranges x n y n
  | _, _ => True
  end.

Definition ptr_in_pool (c : Config) (a : ptr) (n : Z) : Prop :=
  match a with
  | Gpu x => 0 <= x /\ x + n <= n_layers c * max_context c * entry_bytes c
  | Cpu x => 0 <= x /\ x + n <= n_layers c * overflow_context c * entry_bytes c
  | _ => False
  end.

(** C22: Every key and every value of every layer and token position lies inside
    the pool its position belongs to, and the slots of two different
    (layer, position, key-or-value) triples never overlap. *)
Theorem kv_slots_disjoint (p : t) (l pos l' pos' : Z) (v v' : bool) :
  cfg_ok (cfg_ p) ->
  0 <= l < n_layers (cfg_ p) -> 0 <= l' < n_layers (cfg_ p) ->
  0 <= pos < max_tokens p -> 0 <= pos' < max_tokens p ->
  (l, pos, v) <> (l', pos', v') ->
  ptr_in_pool (cfg_ p) (slot_ptr p l pos v) (half (cfg_ p)) /\
  ptr_disjoint (slot_ptr p l pos v) (slot_ptr p l' pos' v') (half (cfg_ p)).
Proof.
  intros H Hl Hl' Hp Hp' Hne. pose proof (half_pos _ H) as Hh.
  assert (Hm : max_tokens p = max_context (cfg_ p) + overflow_context (cfg_ p)).
  { unfold max_tokens. destruct H. by nowrap. }
  rewrite Hm in *. rewrite !slot_ptr_eq by done. split.
  - destruct (Z.ltb_spec pos (max_context (cfg_ p))); simpl;
      rewrite entry_bytes_eq by done; apply slot_off_bound; lia.
  - destruct (Z.ltb_spec pos (max_context (cfg_ p))),
      (Z.ltb_spec pos' (max_context (cfg_ p))); simpl; try done;
      apply slot_off_disjoint; try lia; try done.
    intros [= -> E ->]. apply Hne. repeat f_equal; lia.
Qed.

(** ** Contents *)

Record pool_ok (p : t) (gpu : bytes) : Prop := {
  pool_cfg : cfg_ok (cfg_ p);
  pool_gpu : gpu_pool_ p = Some gpu;
  pool_len : zlen gpu = n_layers (cfg_ p) * (max_context (cfg_ p) * (2 * half (cfg_ p))) }.

(** The bytes stored for the key or value of a token. *)
Definition read_slot (p : t) (l pos : Z) (v : bool) : option bytes :=
  match slot_ptr p l pos v with
  | Gpu o => g ← gpu_pool_ p; peek_at g o (half (cfg_ p))
  | Cpu o => m ← cpu_pool_ p; peek_at m o (half (cfg_ p))
  | _ => None
  end.

Section Contents.
Context `{cuda : CudaMem} {cuda_laws : CudaMemLaws}.

Lemma memcpy_effect d o src s n d' :
  cudaMemcpy d o src s n = (true, d') ->
  0 <= s -> 0 <= n -> s + n <= zlen src -> 0 <= o -> o + n <= zlen d ->
  zlen d' = zlen d /\ same_outside d d' o (o + n) /\
  peek_at d' o n = peek_at src s n.
Proof.
  intros E ? ? ? ? ?.
  destruct (in_block_peek src s n) as [bs Hbs]; [by apply in_block_true|].
  pose proof (peek_at_length _ _ _ _ Hbs) as Hl.
  pose proof (cudaMemcpy_ok _ _ _ _ _ _ _ E Hbs) as Hp. specialize (Hp ltac:(lia) ltac:(lia)).
  split_and!.
  - by eapply poke_at_length.
  - rewrite <- Hl. by apply poke_same_outside.
  - rewrite Hbs, <- Hl. by eapply peek_poke_same.
Qed.

Lemma memset_effect d o b n d' :
  cudaMemset d o b n = (true, d') -> 0 <= n -> 0 <= o -> o + n <= zlen d ->
  zlen d' = zlen d /\ same_outside d d' o (o + n) /\
  peek_at d' o n = Some (replicate (Z.to_nat n) b).
Proof.
  intros E ? ? ?. pose proof (cudaMemset_ok _ _ _ _ _ E) as Hp.
  specialize (Hp ltac:(lia) ltac:(lia) ltac:(lia)).
  assert (Hl : zlen (replicate (Z.to_nat n) b) = n)
    by (unfold zlen; rewrite length_replicate; lia).
  split_and!.
  - by eapply poke_at_length.
  - apply poke_same_outside in Hp. by rewrite Hl in Hp.
  - apply peek_poke_same in Hp. by rewrite Hl in Hp.
Qed.

(** A loop whose iteration [l] rewrites only the slab [[l*S, (l+1)*S)] relates
    every slab before and after, and leaves the other slabs alone. *)
Lemma layer_loop_spec body S L (R : Z -> bytes -> bytes -> Prop) ls d d' :
  0 <= S -> NoDup ls -> Forall (fun l => 0 <= l /\ l * S + S <= L) ls ->
  (forall l m m', l ∈ ls -> zlen m = L -> body l m = (true, m') ->
     zlen m' = L /\ same_outside m m' (l * S) (l * S + S) /\
     forall b b', peek_at m (l * S) S = Some b -> peek_at m' (l * S) S = Some b' -> R l b b') ->
  zlen d = L -> layer_loop body ls d = (true, d') ->
  zlen d' = L /\
  (forall l b b', l ∈ ls -> peek_at d (l * S) S = Some b ->
                  peek_at d' (l * S) S = Some b' -> R l b b') /\
  (forall l, 0 <= l -> l ∉ ls -> peek_at d' (l * S) S = peek_at d (l * S) S).
Proof.
  intros HS Hnd Hin Hbody. revert d. induction ls as [|l ls IH]; intros d Hd E.
  { simpl in E. simplify_eq. split_and!; [done| |done]. intros l b b' []%not_elem_of_nil. }
  simpl in E. destruct (body l d) as [[] d1] eqn:E1; [|done].
  apply NoDup_cons in Hnd as [Hnl Hnd]. apply Forall_cons in Hin as [[Hl0 Hl1] Hin].
  destruct (Hbody l d d1) as (Hd1 & Hout & HR); [by left|done..|].
  destruct (IH Hnd Hin) with (d := d1) as (Hd' & HR' & Hrest);
    [intros; apply Hbody; [by right|done..]|done..|].
  split_and!; [done| |].
  - intros k b b' [->|Hk]%elem_of_cons Hb Hb'.
    + apply HR; [done|]. rewrite <- Hrest by done. done.
    + apply (HR' k); [done| |done]. rewrite Hout; [done|].
      rewrite Forall_forall in Hin. destruct (Hin k Hk) as [? _].
      assert (k <> l) by congruence. assert (k < l \/ l < k) as [?|?] by lia; [left|right]; nia.
  - intros k Hk0 Hk. apply not_elem_of_cons in Hk as [Hne Hk]. rewrite Hrest by done.
    apply Hout. assert (k < l \/ l < k) as [?|?] by lia; [left|right]; nia.
Qed.

Lemma NoDup_upto n : NoDup (upto n).
Proof. apply NoDup_fmap_2; [apply _|apply NoDup_seq]. Qed.

Lemma slab_bounds c l k :
  cfg_ok c -> 0 <= l < n_layers c -> 0 <= k <= max_context c + overflow_context c ->
  0 <= k * half c /\ 0 <= l * (k * (2 * half c)) /\
  l * (k * (2 * half c)) + k * (2 * half c) <= n_layers c * (k * (2 * half c)) < 2 ^ 63 /\
  k * (2 * half c) < 2 ^ 63.
Proof.
  intros H Hl Hk. pose proof (half_pos c H). pose proof (pool_bound c (n_layers c) k H).
  pose proof (ok_layers c H). assert (0 <= k * (2 * half c)) by nia.
  assert (k * (2 * half c) <= n_layers c * (k * (2 * half c))) by nia. nia.
Qed.

(** The sub-range of a slab. *)
Lemma slab_sub (m : bytes) o S b k j :
  peek_at m o S = Some b -> 0 <= k -> 0 <= j -> k + j <= S ->
  peek_at b k j = peek_at m (o + k) j.
Proof. intros. symmetry. by eapply peek_sub. Qed.

Lemma gather_layer_spec c gpu n l d d' :
  cfg_ok c -> 0 < n <= max_context c -> 0 <= l < n_layers c ->
  zlen gpu = n_layers c * (max_context c * (2 * half c)) ->
  n_layers c * (n * (2 * half c)) <= zlen d ->
  gather_layer c gpu n l d = (true, d') ->
  zlen d' = zlen d /\
  same_outside d d' (l * (n * (2 * half c))) (l * (n * (2 * half c)) + n * (2 * half c)) /\
  (forall v : bool,
     peek_at d' (l * (n * (2 * half c)) + (if v then n * half c else 0)) (n * half c) =
     peek_at gpu (l * (max_context c * (2 * half c)) +
                  (if v then max_context c * half c else 0)) (n * half c)).
Proof.
  intros H Hn Hl Hg Hd. pose proof (half_pos c H). pose proof (ok_overflow c H).
  destruct (slab_bounds c l n) as (? & ? & ? & ?); [done|lia..|].
  destruct (slab_bounds c l (max_context c)) as (? & ? & ? & ?); [done|lia..|].
  unfold gather_layer. rewrite half_entry, entry_bytes_eq by done. cbv zeta. nowrap.
  assert (n * half c <= max_context c * half c) by nia.
  destruct (cudaMemcpy d _ gpu _ _) as [[] d1] eqn:E1; [|done]. intros E2.
  apply memcpy_effect in E1 as (L1 & O1 & P1); [|lia..].
  apply memcpy_effect in E2 as (L2 & O2 & P2); [|lia..].
  split_and!; [lia| |].
  - intros o k Ho. rewrite O2, O1 by lia. done.
  - intros [].
    + done.
    + rewrite !Z.add_0_r, O2 by lia. done.
Qed.

(** The contents of a gathered buffer, slot by slot. *)
Lemma gather_slot p gpu dst n buf l pos v :
  pool_ok p gpu -> n_layers (cfg_ p) * (n * (2 * half (cfg_ p))) <= zlen dst ->
  gather_used_to_host p dst n = (true, buf) ->
  0 <= l < n_layers (cfg_ p) -> 0 <= pos < n ->
  0 < n <= max_context (cfg_ p) /\ zlen buf = zlen dst /\
  peek_at buf (slot_off (half (cfg_ p)) n l pos v) (half (cfg_ p)) = read_slot p l pos v.
Proof.
  intros [H Hg Hlen] Hd E Hl Hpos. unfold gather_used_to_host in E. rewrite Hg in E.
  destruct (Z.leb_spec n 0); [done|].
  destruct (Z.ltb_spec (max_context (cfg_ p)) n); [done|].
  pose proof (ok_overflow _ H). pose proof (half_pos _ H) as Hh.
  unfold read_slot. rewrite slot_ptr_eq by (done || lia).
  destruct (Z.ltb_spec pos (max_context (cfg_ p))); [|lia]. rewrite Hg. simpl.
  set (c := cfg_ p) in *. set (S := n * (2 * half c)).
  destruct (slab_bounds c l n) as (? & ? & ? & ?); [done|lia..|].
  destruct (layer_loop_spec (gather_layer c gpu n) S (zlen dst)
    (fun l _ b => forall v : bool,
       peek_at b (if v then n * half c else 0) (n * half c) =
       peek_at gpu (l * (max_context c * (2 * half c)) +
                    (if v then max_context c * half c else 0)) (n * half c))
    (upto (n_layers c)) dst buf) as (Hbuf & HR & _).
  - unfold S; lia.
  - apply NoDup_upto.
  - apply Forall_forall. intros k Hk%elem_of_upto.
    destruct (slab_bounds c k n) as (? & ? & ? & ?); [done|lia..|]. unfold S; lia.
  - intros k m m' Hk%elem_of_upto Hm Eb.
    destruct (gather_layer_spec c gpu n k m m') as (? & ? & Hv); [done|lia..|done|].
    split_and!; [lia|done|]. intros b b' _ Hb' w. rewrite <- Hv.
    apply (slab_sub m' _ S); [done|destruct w; unfold S; lia..].
  - done.
  - done.
  - split_and!; [lia..|].
    destruct (in_block_peek dst (l * S) S) as [b0 Hb0]; [apply in_block_true; unfold S; lia|].
    destruct (in_block_peek buf (l * S) S) as [b1 Hb1]; [apply in_block_true; unfold S; lia|].
    specialize (HR l b0 b1 ltac:(by apply elem_of_upto) Hb0 Hb1 v).
    rewrite (slab_sub buf (l * S) S b1) in HR; [|done|destruct v; unfold S; lia..].
    replace (slot_off (half c) n l pos v)
      with (l * S + (if v then n * half c else 0) + pos * half c)
      by (unfold slot_off, S; destruct v; lia).
    replace (slot_off (half c) (max_context c) l pos v)
      with (l * (max_context c * (2 * half c)) +
            (if v then max_context c * half c else 0) + pos * half c)
      by (unfold slot_off; destruct v; lia).
    apply (peek_sub_eq _ _ _ _ (n * half c)); [done| |nia..].
    apply in_block_peek, in_block_true. unfold S in *. destruct v; lia.
Qed.

(** What one layer of [scatter_from_host] leaves in its slab. *)
Lemma scatter_layer_spec c s n zr l m m' :
  cfg_ok c -> 0 < n <= max_context c -> 0 <= l < n_layers c ->
  n_layers c * (n * (2 * half c)) <= zlen s ->
  zlen m = n_layers c * (max_context c * (2 * half c)) ->
  scatter_layer c s n zr l m = (true, m') ->
  let S := max_context c * (2 * half c) in
  let at_ v := l * S + (if v : bool then max_context c * half c else 0) in
  zlen m' = zlen m /\ same_outside m m' (l * S) (l * S + S) /\
  forall v : bool,
    peek_at m' (at_ v) (n * half c) =
      peek_at s (l * (n * (2 * half c)) + (if v then n * half c else 0)) (n * half c) /\
    peek_at m' (at_ v + n * half c) ((max_context c - n) * half c) =
      if zr then Some (replicate (Z.to_nat ((max_context c - n) * half c)) Byte.x00)
      else peek_at m (at_ v + n * half c) ((max_context c - n) * half c).
Proof.
  intros H Hn Hl Hs Hm E S at_. pose proof (half_pos c H). pose proof (ok_overflow c H).
  destruct (slab_bounds c l n) as (? & ? & ? & ?); [done|lia..|].
  destruct (slab_bounds c l (max_context c)) as (? & ? & ? & ?); [done|lia..|].
  assert (n * half c <= max_context c * half c) by nia.
  assert (Hrest : (max_context c - n) * half c = max_context c * half c - n * half c) by lia.
  unfold scatter_layer in E. rewrite half_entry, entry_bytes_eq in E by done.
  cbv zeta in E. revert E. nowrap. fold S.
  destruct (cudaMemcpy m _ s _ _) as [[] m1] eqn:E1; [|done].
  destruct (cudaMemcpy m1 _ s _ _) as [[] m2] eqn:E2; [|done].
  apply memcpy_effect in E1 as (L1 & O1 & P1); [|unfold S in *; lia..].
  apply memcpy_effect in E2 as (L2 & O2 & P2); [|unfold S in *; lia..].
  destruct (zr && (0 <? (max_context c - n) * half c)) eqn:Ez.
  - apply andb_true_iff in Ez as [-> Ez%Z.ltb_lt].
    destruct (cudaMemset m2 _ _ _) as [[] m3] eqn:E3; [|done]. intros E4.
    apply memset_effect in E3 as (L3 & O3 & P3); [|unfold S in *; lia..].
    apply memset_effect in E4 as (L4 & O4 & P4); [|unfold S in *; lia..].
    split_and!; [lia| |].
    + intros o k Ho. rewrite O4, O3, O2, O1 by (unfold S in *; lia). done.
    + unfold at_. intros []; rewrite ?Z.add_0_r; split.
      * rewrite O4, O3 by (unfold S in *; lia). done.
      * done.
      * rewrite O4, O3, O2 by (unfold S in *; lia). done.
      * rewrite O4 by (unfold S in *; lia). done.
  - intros [= <-]. split_and!; [lia| |].
    + intros o k Ho. rewrite O2, O1 by (unfold S in *; lia). done.
    + assert (Hz : forall v : bool,
        peek_at m2 (at_ v + n * half c) ((max_context c - n) * half c) =
        peek_at m (at_ v + n * half c) ((max_context c - n) * half c)).
      { unfold at_. intros []; rewrite ?Z.add_0_r, O2, O1 by (unfold S in *; lia); done. }
      intros v. split.
      * unfold at_. destruct v; rewrite ?Z.add_0_r; [done|].
        rewrite O2 by (unfold S in *; lia). done.
      * destruct zr; [|by apply Hz]. simpl in Ez. apply Z.ltb_ge in Ez.
        replace ((max_context c - n) * half c) with 0 by lia.
        rewrite peek_at_Some by (unfold at_, S in *; destruct v; lia). done.
Qed.

(** What a successful scatter leaves in the slab of a layer. *)
Lemma scatter_slabs c src n zr gpu gpu' :
  cfg_ok c -> 0 < n <= max_context c -> zlen gpu = n_layers c * (max_context c * (2 * half c)) ->
  n_layers c * (n * (2 * half c)) <= zlen src ->
  layer_loop (scatter_layer c src n zr) (upto (n_layers c)) gpu = (true, gpu') ->
  let M := max_context c in let h := half c in let S := M * (2 * h) in
  zlen gpu' = zlen gpu /\
  forall l b b', l ∈ upto (n_layers c) -> peek_at gpu (l * S) S = Some b -> peek_at gpu' (l * S) S = Some b' -> forall v : bool,
    peek_at b' (if v then M * h else 0) (n * h) =
      peek_at src (l * (n * (2 * h)) + (if v then n * h else 0)) (n * h) /\
    peek_at b' ((if v then M * h else 0) + n * h) ((M - n) * h) =
      if zr then Some (replicate (Z.to_nat ((M - n) * h)) Byte.x00)
      else peek_at b ((if v then M * h else 0) + n * h) ((M - n) * h).
Proof.
  intros H Hn Hlen Hs EL M h S. pose proof (half_pos _ H) as Hh. pose proof (ok_overflow _ H). fold h M S in Hh, Hlen, Hs, Hn. assert (0 <= M * h) by nia.
  destruct (layer_loop_spec (scatter_layer c src n zr) S (zlen gpu)
    (fun l b b' => forall v : bool,
       peek_at b' (if v then M * h else 0) (n * h) =
         peek_at src (l * (n * (2 * h)) + (if v then n * h else 0)) (n * h) /\
       peek_at b' ((if v then M * h else 0) + n * h) ((M - n) * h) =
         if zr then Some (replicate (Z.to_nat ((M - n) * h)) Byte.x00)
         else peek_at b ((if v then M * h else 0) + n * h) ((M - n) * h))
    (upto (n_layers c)) gpu gpu') as (Hgl & HR & _); try done.
  - unfold S; nia.
  - apply NoDup_upto.
  - apply Forall_forall. intros k Hk%elem_of_upto.
    destruct (slab_bounds c k M) as (? & ? & ? & ?); [done|lia..|]. unfold S, h; lia.
  - intros k m m' Hk%elem_of_upto Hm Eb.
    destruct (scatter_layer_spec c src n zr k m m') as (? & ? & Hv);
      [done|lia..|unfold h in *; lia|done|].
    fold M h S in Hv. split_and!; [lia|done|]. intros b b' Hb Hb' v.
    destruct (Hv v) as [Hv1 Hv2].
    assert (0 <= (if v then M * h else 0) <= M * h) by (destruct v; lia).
    assert (0 <= n * h /\ 0 <= (M - n) * h /\ n * h + (M - n) * h = M * h) by nia.
    rewrite !(slab_sub m' (k * S) S b'), (slab_sub m (k * S) S b)
      by (done || (unfold S; lia)).
    rewrite !Z.add_assoc. by rewrite Hv1, Hv2.
Qed.

(** The contents of the device pool after a successful scatter. *)
Lemma scatter_slot p gpu src n zr p' :
  pool_ok p gpu -> n_layers (cfg_ p) * (n * (2 * half (cfg_ p))) <= zlen src ->
  scatter_from_host p src n zr = (true, p') ->
  0 < n <= max_context (cfg_ p) /\ cfg_ p' = cfg_ p /\
  (exists gpu', pool_ok p' gpu') /\ used_tokens_ p' = n /\ gpu_tokens_ p' = n /\
  forall l pos v, 0 <= l < n_layers (cfg_ p) -> 0 <= pos < max_context (cfg_ p) ->
    read_slot p' l pos v =
    if pos <? n then peek_at src (slot_off (half (cfg_ p)) n l pos v) (half (cfg_ p))
    else if zr then Some (replicate (Z.to_nat (half (cfg_ p))) Byte.x00)
    else read_slot p l pos v.
Proof.
  intros [H Hg Hlen] Hs E. unfold scatter_from_host in E. rewrite Hg in E.
  destruct (Z.leb_spec n 0); [done|].
  destruct (Z.ltb_spec (max_context (cfg_ p)) n); [done|].
  pose proof (ok_overflow _ H). pose proof (half_pos _ H) as Hh.
  set (c := cfg_ p) in *. set (M := max_context c) in *. set (h := half c) in *.
  set (S := M * (2 * h)) in *.
  assert (0 <= M * h) by nia.
  destruct (layer_loop _ _ _) as [[] gpu'] eqn:EL; simplify_eq. simpl.
  destruct (scatter_slabs c src n zr gpu gpu') as (Hgl & HR); try done.
  fold M h S in HR, Hgl.
  assert (Hok : cfg_ok c) by done.
  split_and!; try lia; try done.
  { exists gpu'. constructor; simpl; try done. fold c M h. fold S. lia. }
  intros l pos v Hl Hpos. unfold read_slot.
  assert (0 <= pos < M + overflow_context c) as Hpos' by lia.
  rewrite (slot_ptr_eq p l pos v Hok Hl Hpos').
  rewrite slot_ptr_eq by done. simpl. fold c M h. destruct (Z.ltb_spec pos M); [|lia]. rewrite Hg. simpl.
  destruct (slab_bounds c l M) as (? & ? & ? & ?); [done|lia..|].
  fold h S in H4, H5, H6, H7.
  destruct (in_block_peek gpu (l * S) S) as [b0 Hb0]; [apply in_block_true; lia|].
  destruct (in_block_peek gpu' (l * S) S) as [b1 Hb1]; [apply in_block_true; lia|].
  destruct (HR l b0 b1 ltac:(by apply elem_of_upto) Hb0 Hb1 v) as [HR1 HR2].
  assert (0 <= (if v then M * h else 0) <= M * h) by (destruct v; lia).
  assert (0 <= n * h /\ 0 <= (M - n) * h /\ n * h + (M - n) * h = M * h) by nia.
  rewrite (slab_sub gpu' (l * S) S b1) in HR1, HR2 by (done || (unfold S; lia)).
  rewrite (slab_sub gpu (l * S) S b0) in HR2 by (done || (unfold S; lia)).
  replace (slot_off h M l pos v) with (l * S + (if v then M * h else 0) + pos * h)
    by (unfold slot_off, S; destruct v; lia).
  destruct (Z.ltb_spec pos n).
  + replace (slot_off h n l pos v)
      with (l * (n * (2 * h)) + (if v then n * h else 0) + pos * h)
      by (unfold slot_off; destruct v; lia).
    apply (peek_sub_eq _ _ _ _ (n * h)); [done| |nia..].
    apply in_block_peek, in_block_true. unfold S in *. lia.
  + assert (Hsub : forall m : bytes,
      peek_at m (l * S + (if v then M * h else 0) + pos * h) h =
      peek_at m (l * S + ((if v then M * h else 0) + n * h) + (pos - n) * h) h)
      by (intros; f_equal; lia).
    rewrite !Hsub. destruct zr.
    * rewrite (peek_sub _ _ _ _ _ _ HR2) by nia.
      rewrite peek_at_Some; [|nia|nia|unfold zlen; rewrite length_replicate; nia].
      rewrite drop_replicate, take_replicate. do 2 f_equal. nia.
    * apply (peek_sub_eq _ _ _ _ ((M - n) * h)); [done| |nia..].
      apply in_block_peek, in_block_true. unfold S in *. lia.
Qed.

(** Whatever the device answers, a scatter keeps the shape of the pool. *)
Lemma scatter_keeps_pool p gpu src n zr :
  pool_ok p gpu -> exists gpu', pool_ok (scatter_from_host p src n zr).2 gpu' /\
    cfg_ (scatter_from_host p src n zr).2 = cfg_ p.
Proof.
  intros [H Hg Hlen]. unfold scatter_from_host. rewrite Hg.
  destruct (n <=? 0); [by exists gpu|]. destruct (max_context (cfg_ p) <? n); [by exists gpu|].
  assert (Hb : forall l m, zlen (scatter_layer (cfg_ p) src n zr l m).2 = zlen m).
  { intros l m. unfold scatter_layer. cbv zeta.
    destruct (cudaMemcpy m _ _ _ _) as [[] m1] eqn:E1; apply cudaMemcpy_length in E1; [|done].
    destruct (cudaMemcpy m1 _ _ _ _) as [[] m2] eqn:E2; apply cudaMemcpy_length in E2; [|cbn; lia].
    destruct (zr && _); [|cbn; lia].
    destruct (cudaMemset m2 _ _ _) as [[] m3] eqn:E3; apply cudaMemset_length in E3; [|cbn; lia].
    destruct (cudaMemset m3 _ _ _) as [b m4] eqn:E4; apply cudaMemset_length in E4. cbn; lia. }
  assert (Hl : forall ls m, zlen (layer_loop (scatter_layer (cfg_ p) src n zr) ls m).2 = zlen m).
  { induction ls as [|l ls IH]; intros m; [done|]. cbn. specialize (Hb l m).
    destruct (scatter_layer _ _ _ _ l m) as [[] m']; cbn in *; [rewrite IH; lia|done]. }
  specialize (Hl (upto (n_layers (cfg_ p))) gpu).
  destruct (layer_loop _ _ gpu) as [[] gpu'] eqn:E; cbn in *; exists gpu'; split; try done;
    constructor; cbn; try done; lia.
Qed.

(** C23: Gathering the first [n] tokens of one pool and scattering the packed
    buffer into another pool of the same shape restores the key and the value
    of every layer for those tokens byte for byte; the positions beyond are
    zeroed when asked for, and otherwise keep what they held. *)
Theorem gather_scatter_roundtrip (p q : t) (gp gq dst buf : bytes) (n : Z) (zr : bool) (q' : t) :
  pool_ok p gp -> pool_ok q gq -> cfg_ q = cfg_ p ->
  zlen dst = packed_used_bytes (cfg_ p) n ->
  gather_used_to_host p dst n = (true, buf) ->
  scatter_from_host q buf n zr = (true, q') ->
  forall l pos v, 0 <= l < n_layers (cfg_ p) -> 0 <= pos < max_context (cfg_ p) ->
    read_slot q' l pos v =
    if pos <? n then read_slot p l pos v
    else if zr then Some (replicate (Z.to_nat (half (cfg_ p))) Byte.x00)
    else read_slot q l pos v.
Proof.
  intros Hp Hq Hc Hd EG ES l pos v Hl Hpos.
  pose proof (pool_cfg _ _ Hp) as H. pose proof (ok_overflow _ H).
  assert (Hn : 0 < n <= max_context (cfg_ p)).
  { revert EG. unfold gather_used_to_host. rewrite (pool_gpu _ _ Hp).
    destruct (Z.leb_spec n 0), (Z.ltb_spec (max_context (cfg_ p)) n); done || lia. }
  destruct (slab_bounds (cfg_ p) l n) as (? & ? & ? & ?); [done|lia..|].
  assert (Hdst : n_layers (cfg_ p) * (n * (2 * half (cfg_ p))) = zlen dst).
  { rewrite Hd. unfold packed_used_bytes. destruct (Z.leb_spec n 0); [lia|].
    rewrite entry_bytes_eq by done. rewrite i64_id; lia. }
  destruct (gather_slot p gp dst n buf l 0 v) as (_ & Hbuf & _); [done|lia|done|done|lia|].
  destruct (scatter_slot q gq buf n zr q') as (_ & _ & _ & _ & _ & Hslot);
    [done|rewrite Hc; lia|done|].
  rewrite Hc in Hslot. rewrite Hslot by done.
  destruct (Z.ltb_spec pos n); [|done].
  by destruct (gather_slot p gp dst n buf l pos v) as (_ & _ & ->); [done|lia|done|done|lia|].
Qed.

(** ** Initialisation *)

Lemma cfg_ok_no_overflow c : cfg_ok c -> cfg_ok (with_overflow_disabled c).
Proof.
  intros H. pose proof (half_pos c H). pose proof (pool_bound c (n_layers c) (max_context c) H).
  destruct H. constructor; simpl; try done; try lia.
  unfold half in *; simpl. lia.
Qed.

Lemma init_ok (a : Alloc) (p p' : t) (cfg : Config) :
  cfg_ok cfg -> (forall n b, cudaMalloc_pool a n = Some b -> zlen b = n) ->
  init a p cfg = (true, p') ->
  (cfg_ p' = cfg \/ cfg_ p' = with_overflow_disabled cfg) /\
  (exists gpu, pool_ok p' gpu) /\ used_tokens_ p' = 0 /\
  forall l pos v, 0 <= l < n_layers cfg -> 0 <= pos < max_context cfg ->
    read_slot p' l pos v = Some (replicate (Z.to_nat (half cfg)) Byte.x00).
Proof.
  intros H Ha E. pose proof (pool_bound cfg (n_layers cfg) (max_context cfg) H) as Hb.
  pose proof (half_pos cfg H). pose proof (ok_overflow cfg H). pose proof (ok_ctx cfg H).
  pose proof (ok_layers cfg H). unfold init in E.
  rewrite entry_bytes_eq in E by done. cbv zeta in E.
  rewrite (i64_id (n_layers cfg * (2 * half cfg) * max_context cfg)) in E by lia.
  set (fb := n_layers cfg * (2 * half cfg) * max_context cfg) in *.
  destruct (cudaMalloc_pool a fb) as [blk|] eqn:EM; [|done].
  apply Ha in EM. destruct (cudaMemset blk 0 Byte.x00 fb) as [[] gpu] eqn:ES; [|done].
  apply memset_effect in ES as (HL & _ & HP); [|unfold fb in *; lia..].
  assert (Hz : forall o k, 0 <= o -> 0 <= k -> o + k <= fb ->
    peek_at gpu o k = Some (replicate (Z.to_nat k) Byte.x00)).
  { intros o k ? ? ?. rewrite <- (Z.add_0_l o), (peek_sub _ _ _ _ _ _ HP) by lia.
    rewrite peek_at_Some; [|lia|lia|unfold zlen; rewrite length_replicate; lia].
    rewrite drop_replicate, take_replicate. do 2 f_equal. lia. }
  assert (Hlen : zlen gpu = n_layers cfg * (max_context cfg * (2 * half cfg)))
    by (unfold fb in *; lia).
  assert (Hslots : forall c' cpu sc, c' = cfg \/ c' = with_overflow_disabled cfg ->
    let r := mkPool c' (Some gpu) cpu sc 0 0 in
    (exists gpu, pool_ok r gpu) /\
    forall l pos v, 0 <= l < n_layers cfg -> 0 <= pos < max_context cfg ->
      read_slot r l pos v = Some (replicate (Z.to_nat (half cfg)) Byte.x00)).
  { intros c' cpu sc Hc' r.
    assert (Hc : cfg_ok c' /\ n_layers c' = n_layers cfg /\ max_context c' = max_context cfg
                 /\ half c' = half cfg).
    { destruct Hc' as [->| ->]; [done|]. split; [by apply cfg_ok_no_overflow|done]. }
    destruct Hc as (Hok & E1 & E2 & E3). split.
    { exists gpu. constructor; simpl; [done|done|]. by rewrite E1, E2, E3. }
    intros l pos v Hl Hpos. pose proof (ok_overflow _ Hok). unfold read_slot.
    rewrite slot_ptr_eq by (simpl; done || lia). simpl. rewrite E2, E3.
    destruct (Z.ltb_spec pos (max_context cfg)); [|lia].
    destruct (slot_off_bound (half cfg) (n_layers cfg) (max_context cfg) l pos v); [done..|].
    apply Hz; unfold fb; lia. }
  destruct ((0 <? overflow_context cfg) && _); [destruct (malloc_overflow a _)|];
    simplify_eq; simpl; (split_and!; [by auto|apply Hslots; by auto|done|apply Hslots; by auto]).
Qed.

(** C29: A successful [init] leaves a well-formed pool for the requested shape
    (or the same shape without the overflow pool when [malloc] failed), with no
    committed token and every key and value of the fast pool zeroed. *)
Theorem init_pool_ok (a : Alloc) (p p' : t) (cfg : Config) :
  cfg_ok cfg -> (forall n b, cudaMalloc_pool a n = Some b -> zlen b = n) ->
  init a p cfg = (true, p') ->
  (cfg_ p' = cfg \/ cfg_ p' = with_overflow_disabled cfg) /\
  (exists gpu, pool_ok p' gpu) /\ used_tokens_ p' = 0 /\
  forall l pos v, 0 <= l < n_layers cfg -> 0 <= pos < max_context cfg ->
    read_slot p' l pos v = Some (replicate (Z.to_nat (half cfg)) Byte.x00).
Proof. exact (init_ok a p p' cfg). Qed.

End Contents.

(** ** INT8 scales *)

(** The table has a row of scales for every slot of the pool. *)
Record table_ok (p : t) (table : bytes) : Prop := {
  tb_type : kv_type_bytes (cfg_ p) = 1;
  tb_table : kv_scales_ p = Some table;
  tb_len : zlen table = n_layers (cfg_ p) * (max_context (cfg_ p) * (2 * (4 * n_kv_heads (cfg_ p))));
  tb_bytes : zlen table < 2 ^ 63 }.

Lemma scale_ptr_eq (p : t) l pos v :
  cfg_ok (cfg_ p) -> kv_type_bytes (cfg_ p) = 1 ->
  2 * n_layers (cfg_ p) * max_context (cfg_ p) * n_kv_heads (cfg_ p) * 4 < 2 ^ 63 -> is_Some (kv_scales_ p) ->
  0 <= l < n_layers (cfg_ p) -> 0 <= pos < max_context (cfg_ p) ->
  kv_scale_ptr p l pos v = Scale (slot_off (n_kv_heads (cfg_ p)) (max_context (cfg_ p)) l pos v).
Proof.
  intros H Ht Hb [sc Hsc] Hk Hq. set (c := cfg_ p) in *. pose proof (ok_heads c H). pose proof (ok_layers c H).
  unfold kv_scale_ptr. fold c. rewrite Hsc, Ht. simpl.
  destruct (Z.ltb_spec l 0), (Z.leb_spec (n_layers c) l); try lia. simpl.
  destruct (Z.ltb_spec pos 0), (Z.leb_spec (max_context c) pos); try lia. simpl.
  destruct (slot_off_bound (n_kv_heads c) (n_layers c) (max_context c) l pos v); [lia..|].
  assert (0 <= max_context c * n_kv_heads c) by nia.
  assert (max_context c * n_kv_heads c * 2 <= n_layers c * (max_context c * n_kv_heads c * 2)) by nia.
  unfold slot_off in *. destruct v; nowrap; f_equal; lia.
Qed.

(** What [init] leaves when the table could be allocated. *)
Lemma init_table `{cuda_laws : CudaMemLaws} (a : Alloc) (p p' : t) (cfg : Config) :
  cfg_ok cfg -> (forall n b, cudaMalloc_scales a n = Some b -> zlen b = n) -> kv_type_bytes cfg = 1 ->
  2 * n_layers cfg * max_context cfg * n_kv_heads cfg * 4 < 2 ^ 63 ->
  init a p cfg = (true, p') -> is_Some (kv_scales_ p') -> exists table, table_ok p' table.
Proof.
  intros Hok Ha Ht Hb E [table Htab]. pose proof (ok_heads cfg Hok). pose proof (ok_layers cfg Hok). pose proof (ok_ctx cfg Hok).
  exists table. unfold init in E. rewrite Ht, Z.eqb_refl in E. cbv zeta in E.
  destruct (cudaMalloc_pool a _) as [blk|]; [|done]. destruct (cudaMemset blk _ _ _) as [[] gpu]; [|done].
  assert (Hc : exists cfg' cpu, (cfg' = cfg \/ cfg' = with_overflow_disabled cfg) /\
    p' = mkPool cfg' (Some gpu) cpu (match cudaMalloc_scales a (kv_scales_bytes cfg') with
                                     | None => None
                                     | Some blk => Some (cudaMemset blk 0 Byte.x00 (kv_scales_bytes cfg')).2 end) 0 0).
  { revert E. destruct (_ && _); [destruct (malloc_overflow _ _)|]; intros [= <-]; eexists _, _; (split; [|done]); auto. }
  destruct Hc as (cfg' & cpu & Hc & ->). cbn [kv_scales_] in Htab.
  assert (Es : kv_scales_bytes cfg' = n_layers cfg * (max_context cfg * (2 * (4 * n_kv_heads cfg)))).
  { unfold kv_scales_bytes. assert (0 <= 2 * n_layers cfg * max_context cfg * n_kv_heads cfg * 4) by nia.
    destruct Hc as [->| ->]; cbn; rewrite Ht, Z.eqb_refl, i64_id; lia. }
  destruct (cudaMalloc_scales a (kv_scales_bytes cfg')) as [sb|] eqn:EM; [|done]. apply Some_inj in Htab. apply Ha in EM.
  destruct (cudaMemset sb 0 Byte.x00 (kv_scales_bytes cfg')) as [r sb'] eqn:ES. apply cudaMemset_length in ES. cbn [snd] in Htab. subst sb'.
  rewrite Es in EM. split; cbn; [by destruct Hc as [->| ->]|done|destruct Hc as [->| ->]; cbn; lia|lia].
Qed.

(** In INT8 mode with an allocated table, the row of [n_kv_heads] scales of
    every (layer, position, key-or-value) lies inside the table and two
    different rows never overlap; an index outside the fast pool or a missing
    table gives [nullptr]. *)
Theorem kv_scale_rows (p : t) (l pos l' pos' : Z) (v v' : bool) :
  cfg_ok (cfg_ p) -> kv_type_bytes (cfg_ p) = 1 ->
  2 * n_layers (cfg_ p) * max_context (cfg_ p) * n_kv_heads (cfg_ p) * 4 < 2 ^ 63 ->
  let inside a b := 0 <= a < n_layers (cfg_ p) /\ 0 <= b < max_context (cfg_ p) in
  (kv_scales_ p = None \/ ~ inside l pos -> kv_scale_ptr p l pos v = Null) /\
  (is_Some (kv_scales_ p) -> inside l pos ->
     exists i, kv_scale_ptr p l pos v = Scale i /\
       0 <= i /\ (i + n_kv_heads (cfg_ p)) * 4 <= kv_scales_bytes (cfg_ p) /\
       (inside l' pos' -> (l, pos, v) <> (l', pos', v') ->
          exists j, kv_scale_ptr p l' pos' v' = Scale j /\
            disjoint_ranges i (n_kv_heads (cfg_ p)) j (n_kv_heads (cfg_ p)))).
Proof.
  intros H Ht Hb inside. set (c := cfg_ p) in *.
  pose proof (ok_heads c H). pose proof (ok_layers c H).
  assert (Hptr : forall l pos v, is_Some (kv_scales_ p) -> inside l pos ->
    kv_scale_ptr p l pos v = Scale (slot_off (n_kv_heads c) (max_context c) l pos v))
    by (intros k q w Hs [Hk Hq]; by apply scale_ptr_eq).
  split.
  - unfold kv_scale_ptr. fold c. intros [->|Hn]; [done|].
    destruct (kv_scales_ p); [|done]. rewrite Ht. simpl. unfold inside in Hn.
    destruct (Z.ltb_spec l 0), (Z.leb_spec (n_layers c) l); try done. simpl.
    destruct (Z.ltb_spec pos 0), (Z.leb_spec (max_context c) pos); try done. lia.
  - intros Hs Hin. rewrite Hptr by done. eexists. split; [done|].
    destruct Hin as [Hl Hp].
    destruct (slot_off_bound (n_kv_heads c) (n_layers c) (max_context c) l pos v); [lia..|].
    split; [done|]. split.
    + unfold kv_scales_bytes. rewrite Ht. simpl. rewrite i64_id; nia.
    + intros Hin' Hne. rewrite Hptr by done. eexists. split; [done|].
      destruct Hin'. by apply slot_off_disjoint; try lia.
Qed.

(** ** Concrete pools

    One byte per key, two layers, three positions: small enough to run. *)

Definition demo_cfg : Config := mkConfig 2 1 1 3 0 1.
Definition demo_gpu : bytes := (fun i => zb (16 + i)) <$> upto 12.
Definition demo_pool : t := mkPool demo_cfg (Some demo_gpu) None None 2 2.
Definition demo_blank : t :=
  mkPool demo_cfg (Some (replicate 12 Byte.xff)) None None 0 0.

Definition demo_packed : bytes :=
  (gather_used_to_host (cuda := sim_cuda) demo_pool (replicate 8 Byte.x00) 2).2.
Definition demo_restored : t :=
  (scatter_from_host (cuda := sim_cuda) demo_blank demo_packed 2 true).2.

Lemma demo_cfg_ok : cfg_ok demo_cfg.
Proof. constructor; ground. Qed.

Lemma kv_slots_disjoint_witness :
  ptr_in_pool demo_cfg (slot_ptr demo_pool 1 2 true) 1 /\
  ptr_disjoint (slot_ptr demo_pool 1 2 true) (slot_ptr demo_pool 1 2 false) 1.
Proof.
  apply (kv_slots_disjoint demo_pool 1 2 1 2 true false); [apply demo_cfg_ok|ground..].
Defined.

Lemma gather_scatter_roundtrip_witness :
  read_slot demo_restored 1 1 true = read_slot demo_pool 1 1 true /\
  read_slot demo_restored 1 2 true = Some [Byte.x00].
Proof.
  assert (Hp : pool_ok demo_pool demo_gpu) by (constructor; [apply demo_cfg_ok|ground..]).
  assert (Hq : pool_ok demo_blank (replicate 12 Byte.xff))
    by (constructor; [apply demo_cfg_ok|ground..]).
  pose proof (gather_scatter_roundtrip (cuda_laws := sim_cuda_laws) demo_pool demo_blank
    demo_gpu (replicate 12 Byte.xff) (replicate 8 Byte.x00) demo_packed 2 true demo_restored
    Hp Hq ltac:(done) ltac:(ground) ltac:(ground) ltac:(ground)) as W.
  split; [apply (W 1 1 true); ground|apply (W 1 2 true); ground].
Defined.

Definition demo_alloc : Alloc :=
  {| cudaMalloc_pool := fun n => if n <? 0 then None else Some (replicate (Z.to_nat n) Byte.xff);
     malloc_overflow := fun _ => None;
     cudaMalloc_scales := fun n => if n <? 0 then None else Some (replicate (Z.to_nat n) Byte.xff) |}.

Lemma init_pool_ok_witness :
  read_slot (init (cuda := sim_cuda) demo_alloc fresh demo_cfg).2 1 2 true = Some [Byte.x00].
Proof.
  assert (Hinit : init (cuda := sim_cuda) demo_alloc fresh demo_cfg =
    (true, (init (cuda := sim_cuda) demo_alloc fresh demo_cfg).2)) by ground.
  destruct (init_pool_ok (cuda_laws := sim_cuda_laws) demo_alloc fresh
    (init (cuda := sim_cuda) demo_alloc fresh demo_cfg).2 (mkConfig 2 1 1 3 0 1))
    as (_ & _ & _ & Hs).
  - apply demo_cfg_ok.
  - intros n b. simpl. destruct (Z.ltb_spec n 0); [done|]. intros [= <-].
    unfold zlen. rewrite length_replicate. lia.
  - exact Hinit.
  - apply (Hs 1 2 true); ground.
Defined.

Lemma kv_scale_rows_witness :
  let p := mkPool demo_cfg (Some demo_gpu) None (Some (replicate 48 Byte.x00)) 2 2 in
  exists i j, kv_scale_ptr p 1 2 false = Scale i /\ kv_scale_ptr p 0 2 true = Scale j /\
    disjoint_ranges i 1 j 1.
Proof.
  intros p. destruct (kv_scale_rows p 1 2 0 2 false true) as [_ Hr];
    [apply demo_cfg_ok|ground..|].
  destruct Hr as (i & Hi & _ & _ & Hj); [by eexists|ground|].
  destruct Hj as (j & Hj & Hd); [ground|done|]. exists i, j. done.
Defined.

(** ** Eviction

    [evict] moves whole entries from the front of a layer, as if key and value
    of a token were adjacent.  The pool stores all keys of a layer before all
    values, so what moves is a run of keys. *)

Definition evict_cfg : Config := mkConfig 1 1 1 2 2 1.
(** Keys 10, 11 and values 20, 21 of two tokens. *)
Definition evict_pool : t :=
  mkPool evict_cfg (Some [zb 10; zb 11; zb 20; zb 21]) (Some (replicate 4 Byte.x00)) None 2 2.

(** Evicting the oldest of two tokens does not keep the cache coherent: the
    value of the evicted token never reaches the overflow pool, and the slot
    that should now hold the key of the remaining token holds the value of the
    evicted one. *)
Theorem evict_misplaces_values :
  let p' := evict (cuda := sim_cuda) evict_pool 1 in
  cfg_ok evict_cfg /\
  read_slot evict_pool 0 0 true = Some [zb 20] /\
  read_slot evict_pool 0 1 false = Some [zb 11] /\
  read_slot p' 0 2 true = Some [zb 0] /\
  read_slot p' 0 0 false = Some [zb 20].
Proof. split; [constructor; ground|by vm_compute]. Qed.

End KVCache.
