(* ===== verification/ScratchPool.v ===== *)
(** * ScratchPool: the bump allocator of [src/memory/pool.cpp]

    The pool hands out device addresses from one block obtained by
    [cudaMalloc].  A pointer is a [Z]; [0] is [nullptr].  The answer of
    [cudaMalloc] is an argument of [init].  [live] below is ghost state: the
    blocks handed out and not yet released by a reset or a rewind. *)

From S2P Require Import Prelude.

Module ScratchPool.

Record t := mk { base_ : Z; capacity_ : Z; offset_ : Z }.

Definition empty : t := mk 0 0 0.

(** [bool ScratchPool::init(int64_t size_bytes)] with the block address that
    [cudaMalloc] returned, or [None] for an error code. *)
Definition init (p : t) (size_bytes : Z) (cudaMalloc_result : option Z) : bool * t :=
  match cudaMalloc_result with
  | None => (false, p)
  | Some b => (true, mk b size_bytes 0)
  end.

Definition destroy (p : t) : t := mk 0 0 0.

(** [size = (size + 255) & ~255LL] *)
Definition align256 (size : Z) : Z := Z.land (i64 (size + 255)) (Z.lnot 255).

(** [void* ScratchPool::get(int64_t size)]: the pointer, and the new state. *)
Definition get (p : t) (size : Z) : Z * t :=
  let size := align256 size in
  if capacity_ p <? i64 (offset_ p + size) then (0, p)
  else (base_ p + offset_ p, mk (base_ p) (capacity_ p) (i64 (offset_ p + size))).

Definition reset (p : t) : t := mk (base_ p) (capacity_ p) 0.
Definition mark (p : t) : Z := offset_ p.

Definition rewind_to (p : t) (saved_offset : Z) : t :=
  if (saved_offset <? 0) || (capacity_ p <? saved_offset) then p
  else mk (base_ p) (capacity_ p) saved_offset.

Definition used (p : t) : Z := offset_ p.
Definition capacity (p : t) : Z := capacity_ p.

(** ** The pool as a transition system with ghost live blocks *)

Inductive op := Get (size : Z) | Reset | RewindTo (saved : Z).

(** A live block: its address and its (aligned) size. *)
Definition block : Type := Z * Z.

Record state := St { pool : t; live : list block }.

(** Which blocks survive a rewind: those that end at or below the cursor. *)
Definition below (p : t) (saved : Z) (b : block) : bool :=
  fst b + snd b <=? base_ p + saved.

Definition step (s : state) (o : op) : state :=
  match o with
  | Get size =>
      let '(ptr, p') := get (pool s) size in
      if decide (ptr = 0) then St p' (live s)
      else St p' ((ptr, align256 size) :: live s)
  | Reset => St (reset (pool s)) []
  | RewindTo saved =>
      let p' := rewind_to (pool s) saved in
      St p' (filter (fun b => below p' (offset_ p') b = true) (live s))
  end.

Definition run (s : state) (ops : list op) : state := foldl step s ops.

(** The requests the engine makes: a non-negative size that does not exhaust
    [int64_t], and a rewind to a cursor obtained from [mark]. *)
Definition op_ok (o : op) : Prop :=
  match o with
  | Get size => 0 <= size < 2 ^ 61
  | Reset => True
  | RewindTo saved => 0 <= saved /\ (256 | saved)
  end.

(** ** Invariant *)

Definition disjoint_blocks (a b : block) : Prop :=
  disjoint_ranges (fst a) (snd a) (fst b) (snd b).

Record inv (s : state) : Prop := {
  inv_base : 0 < base_ (pool s) /\ (256 | base_ (pool s));
  inv_offset : 0 <= offset_ (pool s) <= capacity_ (pool s);
  inv_aligned : (256 | offset_ (pool s));
  inv_capacity : capacity_ (pool s) < 2 ^ 62;
  inv_live : Forall (fun b => base_ (pool s) <= fst b /\ 0 <= snd b /\
                              (256 | fst b) /\
                              fst b + snd b <= base_ (pool s) + offset_ (pool s))
                    (live s);
  inv_disjoint : ForallOrdPairs disjoint_blocks (live s)
}.

(** *** Arithmetic of the alignment *)

Lemma land_not255 x : Z.land x (Z.lnot 255) = 256 * (x / 256).
Proof.
  change 255 with (Z.ones 8). rewrite <- Z.ldiff_land, Z.ldiff_ones_r by lia.
  rewrite Z.shiftl_mul_pow2, Z.shiftr_div_pow2 by lia.
  change (2 ^ 8) with 256. apply Z.mul_comm.
Qed.

Lemma align256_eq size :
  0 <= size < 2 ^ 61 -> align256 size = 256 * ((size + 255) / 256).
Proof. intros. unfold align256. nowrap. apply land_not255. Qed.

Lemma align256_bounds size :
  0 <= size < 2 ^ 61 -> size <= align256 size < size + 256 /\ (256 | align256 size).
Proof.
  intros. rewrite align256_eq by done. split; [|apply Z.divide_factor_l].
  Z.to_euclidean_division_equations; lia.
Qed.

(** *** Preservation *)

Lemma get_cases (p : t) size :
  0 <= size < 2 ^ 61 -> 0 <= offset_ p <= capacity_ p -> capacity_ p < 2 ^ 62 ->
  (capacity_ p < offset_ p + align256 size /\ get p size = (0, p)) \/
  (offset_ p + align256 size <= capacity_ p /\
   get p size = (base_ p + offset_ p,
                 mk (base_ p) (capacity_ p) (offset_ p + align256 size))).
Proof.
  intros Hs Ho Hc. pose proof (align256_bounds size Hs) as [Ha _].
  unfold get. cbv zeta. nowrap.
  destruct (Z.ltb_spec (capacity_ p) (offset_ p + align256 size)); [left|right]; done.
Qed.

Lemma FOP_filter {A} (R : A -> A -> Prop) (P : A -> Prop) `{!forall x, Decision (P x)} l :
  ForallOrdPairs R l -> ForallOrdPairs R (filter P l).
Proof.
  induction 1 as [|x l Hx _ IH]; [constructor|].
  rewrite filter_cons. case_decide; [constructor; [|done]|done].
  apply Forall_forall. intros y [_ Hy]%list_elem_of_filter.
  rewrite Forall_forall in Hx. by apply Hx.
Qed.

Lemma inv_get s size : inv s -> 0 <= size < 2 ^ 61 -> inv (step s (Get size)).
Proof.
  intros [Hb Ho Ha Hc Hl Hd] Hs. pose proof (align256_bounds size Hs) as [Hal Hdiv].
  destruct (get_cases (pool s) size) as [[_ E]|[Hfit E]]; [lia..| |]; simpl; rewrite E.
  - by constructor.
  - rewrite decide_False by lia. constructor; simpl; try done; try lia.
    + by apply Z.divide_add_r.
    + constructor; simpl.
      * repeat split; try lia. apply Z.divide_add_r; tauto.
      * eapply Forall_impl; [exact Hl|]. intros b (? & ? & ? & ?).
        simpl. repeat split; done || lia.
    + constructor; [|done]. eapply Forall_impl; [exact Hl|].
      intros b (? & ? & ? & ?). unfold disjoint_blocks, disjoint_ranges; simpl. lia.
Qed.

Lemma inv_rewind s saved : inv s -> op_ok (RewindTo saved) -> inv (step s (RewindTo saved)).
Proof.
  intros [Hb Ho Ha Hc Hl Hd] [Hs Hdiv]. simpl. unfold rewind_to.
  destruct (Z.ltb_spec saved 0); [lia|]. simpl.
  destruct (Z.ltb_spec (capacity_ (pool s)) saved); constructor; simpl; try done; try lia;
    try by apply FOP_filter.
  all: apply Forall_forall; intros b Hin%list_elem_of_filter.
  all: destruct Hin as [Hbelow Hin]; unfold below in Hbelow; simpl in Hbelow.
  all: rewrite Forall_forall in Hl; apply Hl in Hin as (? & ? & ? & ?);
    repeat split; done || lia.
Qed.

Lemma inv_step s o : inv s -> op_ok o -> inv (step s o).
Proof.
  intros H Ho. destruct o as [size| |saved].
  - by apply inv_get.
  - destruct H. constructor; simpl; try done; try lia; [apply Z.divide_0_r|constructor..].
  - by apply inv_rewind.
Qed.

Lemma inv_run s ops : inv s -> Forall op_ok ops -> inv (run s ops).
Proof.
  intros H Hops. revert s H. induction Hops as [|o ops Ho _ IH]; intros s H; [done|].
  simpl. apply IH. by apply inv_step.
Qed.

Lemma inv_init p size b :
  0 < b -> (256 | b) -> 0 <= size < 2 ^ 62 ->
  inv (St (snd (init p size (Some b))) []).
Proof.
  intros. constructor; simpl; try done; try lia; [apply Z.divide_0_r|constructor..].
Qed.

(** ** Properties *)

(** C24: Whatever sequence of requests, resets and rewinds the engine makes on
    a freshly initialised pool, the blocks that are still live lie inside the
    device allocation, are 256-byte aligned, and no two of them overlap. *)
Theorem scratch_run_safe (p : t) (size b : Z) (ops : list op) :
  0 < b -> (256 | b) -> 0 <= size < 2 ^ 62 -> Forall op_ok ops ->
  let s := run (St (snd (init p size (Some b))) []) ops in
  ForallOrdPairs disjoint_blocks (live s) /\
  Forall (fun k => b <= fst k /\ fst k + snd k <= b + size /\ (256 | fst k)) (live s).
Proof.
  intros Hb Hd Hs Hops s.
  assert (Hbc : base_ (pool s) = b /\ capacity_ (pool s) = size).
  { unfold s. clear s. generalize (eq_refl : base_ (snd (init p size (Some b))) = b).
    generalize (eq_refl : capacity_ (snd (init p size (Some b))) = size).
    generalize (snd (init p size (Some b))). generalize (@nil block) as l0.
    induction ops as [|o ops IH]; intros l0 q Hq1 Hq2; [done|].
    apply Forall_cons in Hops as [_ Hops]. simpl.
    destruct o as [sz| |sv]; simpl; [|by apply IH|].
    - unfold get. repeat (case_match || case_decide); simplify_eq; by apply IH.
    - unfold rewind_to. case_match; by apply IH. }
  pose proof (inv_run _ ops (inv_init p size b Hb Hd Hs) Hops) as [_ Ho _ _ Hl Hdj].
  fold s in Ho, Hl, Hdj. split; [done|].
  eapply Forall_impl; [exact Hl|]. simpl. destruct Hbc as [-> Hcap]. rewrite Hcap in Ho.
  intros k (? & ? & ? & ?); repeat split; done || lia.
Qed.

(** ** Concrete runs *)

Lemma scratch_run_safe_witness :
  let s := run (St (snd (init empty 1024 (Some 4096))) []) [Get 100; Get 300; RewindTo 256; Get 1] in
  live s = [(4352, 256); (4096, 256)] /\ ForallOrdPairs disjoint_blocks (live s).
Proof.
  split; [vm_compute; reflexivity|].
  apply (scratch_run_safe empty 1024 4096 [Get 100; Get 300; RewindTo 256; Get 1]);
    [lia|exists 16; lia|lia|].
  repeat constructor; simpl; try lia. exists 1; lia.
Defined.

End ScratchPool.
