(* ===== verification/KVFile.v ===== *)
(** * KVFile: saving and loading one KV cache file
    ([src/persistence/kv_cache_file.h], [src/persistence/kv_cache_file.cpp])

    The packed 128-byte header, the save path (write a temporary file, sync,
    rename), the load and peek paths with their size checks, and the model
    fingerprint.  A file system is a map from paths to contents.  What the
    operating system answers to each call is a parameter: [OS] for the calls
    of a save, numbered in the order they are made, and [Reader] for the calls
    of a load.  Short reads, short writes and failures are all possible
    answers. *)

From S2P Require Import Prelude.

Module KVFile.

(** ** The header *)

Definition KVCACHE_MAGIC : Z := 0x4D4C4C4A.
Definition KVCACHE_VERSION : Z := 2.

Record KVCacheFileHeader := mkHeader {
  magic : Z; version : Z; n_layers : Z; n_kv_heads : Z; head_dim : Z;
  kv_type_bytes : Z; max_context : Z; used_tokens : Z; body_bytes : Z;
  model_hash : bytes; reserved : bytes }.

(** [sizeof(hdr)] *)
Definition header_size : Z := 128.

(** The image of the packed struct in memory. *)
Definition header_bytes (h : KVCacheFileHeader) : bytes :=
  le 4 (magic h) ++ le 4 (version h) ++ le 4 (n_layers h) ++ le 4 (n_kv_heads h) ++
  le 4 (head_dim h) ++ le 4 (kv_type_bytes h) ++ le 4 (max_context h) ++
  le 4 (used_tokens h) ++ le 8 (body_bytes h) ++ model_hash h ++ reserved h.

Definition field (bs : bytes) (off n : nat) : bytes := take n (drop off bs).

Definition header_of (bs : bytes) : KVCacheFileHeader :=
  mkHeader (unle (field bs 0 4)) (unle (field bs 4 4)) (unle (field bs 8 4))
    (unle (field bs 12 4)) (unle (field bs 16 4)) (unle (field bs 20 4))
    (unle (field bs 24 4)) (unle (field bs 28 4)) (unle (field bs 32 8))
    (field bs 40 32) (field bs 72 56).

Record header_ok (h : KVCacheFileHeader) : Prop := {
  h_magic : 0 <= magic h < 2 ^ 32; h_version : 0 <= version h < 2 ^ 32;
  h_layers : 0 <= n_layers h < 2 ^ 32; h_heads : 0 <= n_kv_heads h < 2 ^ 32;
  h_dim : 0 <= head_dim h < 2 ^ 32; h_type : 0 <= kv_type_bytes h < 2 ^ 32;
  h_ctx : 0 <= max_context h < 2 ^ 32; h_used : 0 <= used_tokens h < 2 ^ 32;
  h_body : 0 <= body_bytes h < 2 ^ 64;
  h_hash : length (model_hash h) = 32%nat; h_reserved : length (reserved h) = 56%nat }.

(** ** Token identifiers on disk *)

Definition tokens_image (ts : list Z) : bytes := concat (le 4 <$> ts).

Fixpoint words (k : nat) (bs : bytes) : list Z :=
  match k with
  | O => []
  | S k => unle (take 4 bs) :: words k (drop 4 bs)
  end.

(** The complete file. *)
Definition image (h : KVCacheFileHeader) (ts : list Z) (body : bytes) : bytes :=
  header_bytes h ++ tokens_image ts ++ body.

(** ** The save path *)

(** Answers of the operating system: [sys_ok i] tells whether the [i]-th call
    (an [open], [fsync], [rename] or [unlink]) succeeds, [sys_count i] bounds
    the bytes a [write] transfers; a negative count is an error return. *)
Record OS := { sys_ok : nat -> bool; sys_count : nat -> Z }.

(** The files now, and every earlier state a crash could have exposed. *)
Record world := W { files : gmap bytes bytes; past : list (gmap bytes bytes) }.

Definition calls (w : world) : nat := length (past w).
Definition tick (w : world) (fs : gmap bytes bytes) : world := W fs (files w :: past w).
Definition visited (w : world) : list (gmap bytes bytes) := files w :: past w.

Section Save.
Context (os : OS).

(** [open(p, O_WRONLY | O_CREAT | O_TRUNC)] *)
Definition sys_open_trunc (p : bytes) (w : world) : bool * world :=
  if sys_ok os (calls w) then (true, tick w (<[p := []]> (files w)))
  else (false, tick w (files w)).

(** [write(fd, data, |data|)]: the count returned; what was transferred is
    appended (the descriptor is only written sequentially). *)
Definition sys_write (p : bytes) (data : bytes) (w : world) : Z * world :=
  let n := Z.min (sys_count os (calls w)) (zlen data) in
  (n, tick w (if 0 <? n
              then <[p := default [] (files w !! p) ++ take (Z.to_nat n) data]> (files w)
              else files w)).

Definition sys_fsync (w : world) : bool * world :=
  (sys_ok os (calls w), tick w (files w)).

Definition sys_unlink (p : bytes) (w : world) : world :=
  tick w (if sys_ok os (calls w) then delete p (files w) else files w).

Definition sys_rename (p q : bytes) (w : world) : bool * world :=
  match sys_ok os (calls w), files w !! p with
  | true, Some c => (true, tick w (<[q := c]> (delete p (files w))))
  | _, _ => (false, tick w (files w))
  end.

(** The loop of [write_all]; every iteration writes at least one byte, so the
    length of the buffer is enough fuel ([write_loop_fuel]). *)
Fixpoint write_loop (k : nat) (p : bytes) (data : bytes) (w : world) : bool * world :=
  match data with
  | [] => (true, w)
  | _ => match k with
         | O => (false, w)
         | S k => let '(n, w) := sys_write p data w in
                  if n <=? 0 then (false, w) else write_loop k p (drop (Z.to_nat n) data) w
         end
  end.

Definition write_all (p : bytes) (data : bytes) (w : world) : bool * world :=
  write_loop (length data) p data w.

Definition tmp_of (path : bytes) : bytes := path ++ str ".tmp".

(** [tokens = None] is a null pointer. *)
Definition save_kv_to_file (path : bytes) (hdr : KVCacheFileHeader)
  (tokens : option (list Z)) (n_tokens : Z) (host_kv : bytes) (n_body : Z)
  (w : world) : bool * world :=
  if negb (body_bytes hdr =? n_body) then (false, w)
  else if negb (used_tokens hdr =? n_tokens) then (false, w)
  else if (0 <? n_tokens) && negb (bool_decide (is_Some tokens)) then (false, w)
  else
    let tmp_path := tmp_of path in
    match sys_open_trunc tmp_path w with
    | (false, w) => (false, w)
    | (true, w) =>
        let '(n, w) := sys_write tmp_path (header_bytes hdr) w in
        if negb (n =? header_size) then (false, sys_unlink tmp_path w)
        else
          let '(ok, w) :=
            if 0 <? n_tokens
            then write_all tmp_path (tokens_image (take (Z.to_nat n_tokens) (default [] tokens))) w
            else (true, w) in
          if negb ok then (false, sys_unlink tmp_path w)
          else match write_all tmp_path (take (Z.to_nat n_body) host_kv) w with
               | (false, w) => (false, sys_unlink tmp_path w)
               | (true, w) =>
                   match sys_fsync w with
                   | (false, w) => (false, sys_unlink tmp_path w)
                   | (true, w) =>
                       match sys_rename tmp_path path w with
                       | (false, w) => (false, sys_unlink tmp_path w)
                       | (true, w) => (true, w)
                       end
                   end
               end
    end.

End Save.

(** ** The load path *)

(** Answers during one load: [open] and [fstat] and [lseek], and the bytes a
    [read] at a given file offset transfers (0 or negative: it fails). *)
Record Reader := { open_ok : bool; fstat_ok : bool; lseek_ok : bool; read_count : Z -> Z }.

Section Load.
Context (rd : Reader).

(** [read(fd, buf, n)] at offset [off] of a file holding [c]. *)
Definition sys_read (c : bytes) (off n : Z) : Z * bytes :=
  let k := Z.min (read_count rd off) (Z.min n (zlen c - off)) in
  (k, take (Z.to_nat k) (drop (Z.to_nat off) c)).

(** The loop of [read_all]: at least one byte per iteration. *)
Fixpoint read_loop (fuel : nat) (c : bytes) (off n : Z) : option bytes :=
  if n <=? 0 then Some []
  else match fuel with
       | O => None
       | S fuel =>
           let '(k, bs) := sys_read c off n in
           if k <=? 0 then None
           else rest ← read_loop fuel c (off + k) (n - k); Some (bs ++ rest)
       end.

Definition read_all (c : bytes) (off n : Z) : option bytes := read_loop (Z.to_nat n) c off n.

(** [sizeof(hdr) + used_tokens * 4 + body_bytes] in [size_t]. *)
Definition expected_size (h : KVCacheFileHeader) : Z :=
  u64 (header_size + u64 (used_tokens h * 4) + body_bytes h).

(** The checks shared by [load_kv_from_file] and [peek_kv_header]: the header
    read in one call, its magic and its version. *)
Definition read_header (c : bytes) : option KVCacheFileHeader :=
  let '(k, bs) := sys_read c 0 header_size in
  if negb (k =? header_size) then None
  else
    let hdr := header_of bs in
    if negb (magic hdr =? KVCACHE_MAGIC) then None
    else if negb (version hdr =? KVCACHE_VERSION) then None
    else Some hdr.

(** [file = None]: no such file.  [want_tokens = false]: [out_tokens] is
    null.  [None] is [false]; what the out-parameters hold then is not
    modelled (no caller reads them). *)
Definition load_kv_from_file (file : option bytes) (want_tokens : bool) (kv_capacity : Z)
  : option (KVCacheFileHeader * list Z * bytes) :=
  if negb (open_ok rd) then None
  else
    c ← file;
    hdr ← read_header c;
    if kv_capacity <? body_bytes hdr then None
    else
      let tokens_bytes := u64 (used_tokens hdr * 4) in
      if negb (fstat_ok rd) then None
      else if negb (zlen c =? expected_size hdr) then None
      else
        tokens ←
          (if want_tokens then
             if 0 <? used_tokens hdr
             then words (Z.to_nat (used_tokens hdr)) <$> read_all c header_size tokens_bytes
             else Some []
           else if (0 <? tokens_bytes) && negb (lseek_ok rd) then None else Some []);
        body ← read_all c (header_size + tokens_bytes) (body_bytes hdr);
        Some (hdr, tokens, body).

Definition peek_kv_header (file : option bytes) : option KVCacheFileHeader :=
  if negb (open_ok rd) then None
  else
    c ← file;
    hdr ← read_header c;
    if negb (fstat_ok rd) then None
    else if negb (zlen c =? expected_size hdr) then None
    else Some hdr.

End Load.

(** ** The model fingerprint *)

Definition FNV_OFFSET : Z := 0xcbf29ce484222325.
Definition FNV_PRIME : Z := 0x100000001b3.

(** [h ^= b; h *= FNV_PRIME] *)
Definition fnv_step (h : Z) (b : Z) : Z := u64 (Z.lxor h b * FNV_PRIME).

Definition fnv1a (h : Z) (bs : list Z) : Z := foldl fnv_step h bs.

(** [file = None]: [open] fails. *)
Definition compute_model_fingerprint (rd : Reader) (file : option bytes) : option bytes :=
  if negb (open_ok rd) then None
  else
    c ← file;
    if negb (fstat_ok rd) then None
    else if zlen c <? 256 then None
    else
      let '(k, head) := sys_read rd c 0 256 in
      if negb (k =? 256) then None
      else
        let sz := zlen c in
        let h := fnv1a FNV_OFFSET ((fun i => Z.land (Z.shiftr sz (i * 8)) 255) <$> upto 8) in
        let h := fnv1a h (bz <$> head) in
        Some (le 8 h ++ replicate 24 Byte.x00).

(** ** Codec lemmas *)

Lemma field_app_l (a r : bytes) off n :
  (off + n <= length a)%nat -> field (a ++ r) off n = field a off n.
Proof. intros. unfold field. rewrite drop_app_le, take_app_le by (rewrite ?length_drop; lia). done. Qed.

Lemma field_skip (a r : bytes) off n :
  (length a <= off)%nat -> field (a ++ r) off n = field r (off - length a) n.
Proof. intros. unfold field. by rewrite drop_app_ge by lia. Qed.

Lemma field_here (a r : bytes) n : length a = n -> field (a ++ r) 0 n = a.
Proof. intros <-. unfold field. by rewrite drop_0, take_app_length. Qed.

Lemma length_header_bytes h : header_ok h -> length (header_bytes h) = 128%nat.
Proof.
  intros [_ _ _ _ _ _ _ _ _ H1 H2]. unfold header_bytes.
  rewrite !length_app, !length_le, H1, H2. done.
Qed.

Lemma header_of_bytes h r : header_ok h -> header_of (header_bytes h ++ r) = h.
Proof.
  intros [H1 H2 H3 H4 H5 H6 H7 H8 H9 HH HR]. unfold header_bytes, header_of.
  rewrite <- !app_assoc.
  repeat match goal with
  | |- context [field (le ?n ?z ++ ?r) (S ?o) ?m] =>
      rewrite (field_skip (le n z) r (S o) m) by (rewrite length_le; lia);
      rewrite length_le; cbn [Nat.sub]
  end.
  rewrite (field_skip (model_hash h) _ 32) by lia. rewrite HH. cbn [Nat.sub].
  rewrite !field_here by (rewrite ?length_le; done).
  rewrite !unle_le_small by (cbn; lia). by destruct h.
Qed.

Lemma unle_field bs off n :
  (off + n <= length bs)%nat -> le n (unle (field bs off n)) = field bs off n.
Proof.
  intros. assert (Hl : length (field bs off n) = n)
    by (unfold field; rewrite length_take, length_drop; lia).
  rewrite <- Hl at 1. apply le_unle.
Qed.

Lemma field_join bs off n m :
  field bs off n ++ field bs (off + n) m = field bs off (n + m).
Proof.
  unfold field. rewrite <- drop_drop.
  generalize (drop off bs) as l. intros l.
  rewrite <- (take_take_drop l n m). done.
Qed.

(** Decoding then encoding any 128 bytes gives them back. *)
Lemma header_bytes_of bs : length bs = 128%nat -> header_bytes (header_of bs) = bs.
Proof.
  intros Hl. unfold header_bytes, header_of.
  cbn [magic version n_layers n_kv_heads head_dim kv_type_bytes max_context used_tokens
       body_bytes model_hash reserved].
  rewrite !unle_field by lia. rewrite (field_join bs 40 32 56 : _ ++ field bs 72 56 = _).
  repeat match goal with
  | |- context [field bs ?o ?n ++ field bs ?o' ?m] =>
      rewrite (field_join bs o n m : _ ++ field bs o' m = _)
  end.
  unfold field. rewrite drop_0. apply take_ge. simpl. lia.
Qed.

Lemma unle_field_range bs off n :
  0 <= unle (field bs off n) < 256 ^ Z.of_nat n.
Proof.
  pose proof (unle_range (field bs off n)) as H. split; [lia|].
  eapply Z.lt_le_trans; [apply H|]. apply Z.pow_le_mono_r; [lia|].
  unfold zlen, field. rewrite length_take. lia.
Qed.

Lemma header_of_ok bs : length bs = 128%nat -> header_ok (header_of bs).
Proof.
  intros Hl. constructor; simpl;
    try (pose proof (unle_field_range bs) as H; first
      [ apply (H _ 4%nat) | apply (H _ 8%nat) ]);
    unfold field; rewrite length_take, length_drop; lia.
Qed.

Lemma length_tokens_image ts : length (tokens_image ts) = (4 * length ts)%nat.
Proof.
  induction ts as [|t ts IH]; [done|]. unfold tokens_image in *.
  rewrite fmap_cons. cbn [concat length]. rewrite length_app, length_le, IH. lia.
Qed.

Lemma words_tokens ts r :
  Forall (fun t => 0 <= t < 2 ^ 32) ts -> words (length ts) (tokens_image ts ++ r) = ts.
Proof.
  induction 1 as [|t ts Ht _ IH]; [done|]. unfold tokens_image. rewrite fmap_cons.
  cbn [concat]. rewrite <- app_assoc. cbn [length words].
  rewrite take_app_length', drop_app_length' by (by rewrite length_le).
  rewrite unle_le_small by (cbn; lia). f_equal. exact IH.
Qed.

Lemma tokens_words k bs :
  length bs = (4 * k)%nat ->
  tokens_image (words k bs) = bs /\ Forall (fun t => 0 <= t < 2 ^ 32) (words k bs) /\
  length (words k bs) = k.
Proof.
  revert bs; induction k as [|k IH]; intros bs Hl.
  - destruct bs; [by repeat constructor|done].
  - cbn [words]. destruct (IH (drop 4 bs)) as (IH1 & IH2 & IH3); [rewrite length_drop; lia|].
    split_and!.
    + unfold tokens_image in *. rewrite fmap_cons. cbn [concat]. rewrite IH1.
      change (take 4 bs) with (field bs 0 4).
      rewrite unle_field by lia. unfold field. rewrite drop_0. apply take_drop.
    + constructor; [|done]. change (take 4 bs) with (field bs 0 4). apply (unle_field_range bs 0 4).
    + simpl. by rewrite IH3.
Qed.

(** The 128-byte header survives a round trip through its packed image
    whatever follows it in the file, and every 128 bytes are the image of the
    header they decode to. *)
Theorem header_roundtrip (h : KVCacheFileHeader) (rest bs : bytes) :
  header_ok h -> length bs = 128%nat ->
  length (header_bytes h) = 128%nat /\ header_of (header_bytes h ++ rest) = h /\
  header_ok (header_of bs) /\ header_bytes (header_of bs) = bs.
Proof.
  intros Hh Hb. split_and!; [by apply length_header_bytes|by apply header_of_bytes|
    by apply header_of_ok|by apply header_bytes_of].
Qed.

(** ** What a save can do to the file system *)

Section SaveFacts.
Context (os : OS).

(** Everything that happened between [w] and [w'] left every path except [p]
    alone, in every state along the way. *)
Definition only_touches (p : bytes) (w w' : world) : Prop :=
  exists new, visited w' = new ++ visited w /\
    Forall (fun s => forall q, q <> p -> s !! q = files w !! q) new.

Lemma only_touches_refl p w : only_touches p w w.
Proof. exists []. split; [done|constructor]. Qed.

Lemma only_touches_now p w w' q :
  only_touches p w w' -> q <> p -> files w' !! q = files w !! q.
Proof.
  intros (new & Hv & Hn) Hq. destruct new as [|s new]; inversion Hv as [[E1 E2]]; [done|].
  apply Forall_cons in Hn as [Hs _]. rewrite E1. by apply Hs.
Qed.

Lemma only_touches_trans p w1 w2 w3 :
  only_touches p w1 w2 -> only_touches p w2 w3 -> only_touches p w1 w3.
Proof.
  intros H12 (n2 & V2 & F2). pose proof H12 as (n1 & V1 & F1).
  exists (n2 ++ n1). split; [by rewrite V2, V1, app_assoc|].
  apply Forall_app. split; [|done]. eapply Forall_impl; [exact F2|].
  intros s Hs q Hq. rewrite Hs by done. by eapply only_touches_now.
Qed.

Lemma only_touches_tick p w fs :
  (forall q, q <> p -> fs !! q = files w !! q) -> only_touches p w (tick w fs).
Proof. intros H. exists [fs]. split; [done|]. by constructor. Qed.

Lemma touch_open p w : only_touches p w (sys_open_trunc os p w).2.
Proof.
  unfold sys_open_trunc. destruct (sys_ok os _); apply only_touches_tick; [|done].
  intros. by rewrite lookup_insert_ne.
Qed.

Lemma touch_write p d w : only_touches p w (sys_write os p d w).2.
Proof.
  unfold sys_write. apply only_touches_tick. intros. case_match; [|done].
  by rewrite lookup_insert_ne.
Qed.

Lemma touch_unlink p w : only_touches p w (sys_unlink os p w).
Proof.
  apply only_touches_tick. intros. case_match; [|done]. by rewrite lookup_delete_ne.
Qed.

Lemma touch_fsync p w : only_touches p w (sys_fsync os w).2.
Proof. by apply only_touches_tick. Qed.

Lemma touch_write_loop k p d w : only_touches p w (write_loop os k p d w).2.
Proof.
  revert d w; induction k as [|k IH]; intros [|b d] w; try apply only_touches_refl.
  cbn [write_loop]. pose proof (touch_write p (b :: d) w) as H.
  destruct (sys_write os p (b :: d) w) as [n w1]. simpl in H.
  destruct (n <=? 0); [done|]. eapply only_touches_trans; [exact H|apply IH].
Qed.

(** A loop that reports success has appended the whole buffer. *)
Lemma write_loop_appends k p d w w' c :
  write_loop os k p d w = (true, w') -> files w !! p = Some c ->
  files w' !! p = Some (c ++ d).
Proof.
  revert d w c; induction k as [|k IH]; intros [|b d] w c.
  1,3: intros [= <-] ->; by rewrite app_nil_r.
  { done. }
  cbn [write_loop]. unfold sys_write.
  set (n := Z.min _ _). destruct (Z.leb_spec n 0) as [|Hn]; [done|].
  destruct (Z.ltb_spec 0 n); [|lia]. intros E Hc. rewrite Hc in E. simpl default in E.
  apply IH with (c := c ++ take (Z.to_nat n) (b :: d)) in E.
  - by rewrite E, <- app_assoc, take_drop.
  - simpl. by rewrite lookup_insert_eq.
Qed.

(** The fuel of [write_all] is enough: when every [write] transfers at least
    one byte, the loop reports success. *)
Lemma write_loop_live k p d w :
  (forall i, 0 < sys_count os i) -> (length d <= k)%nat ->
  (write_loop os k p d w).1 = true.
Proof.
  intros Hc. revert d w; induction k as [|k IH]; intros [|b d] w Hk; try done;
    [simpl in Hk; lia|].
  cbn [write_loop]. unfold sys_write. specialize (Hc (calls w)).
  set (n := Z.min _ _). assert (0 < n) by (unfold n; autorewrite with len; pose proof (zlen_nonneg d); lia).
  destruct (Z.leb_spec n 0); [lia|]. apply IH. rewrite length_drop. simpl in *. lia.
Qed.

Lemma tmp_of_ne path : tmp_of path <> path.
Proof.
  unfold tmp_of. intros E. apply (f_equal length) in E. rewrite length_app in E.
  simpl in E. lia.
Qed.

(** Either nothing but the temporary file was touched, or the last step of
    the call renamed a complete image over [path]. *)
Lemma save_cases path hdr tokens n_tokens host_kv n_body w r w' :
  header_ok hdr -> 0 <= n_tokens ->
  save_kv_to_file os path hdr tokens n_tokens host_kv n_body w = (r, w') ->
  (r = false /\ only_touches (tmp_of path) w w') \/
  (r = true /\ exists w1, only_touches (tmp_of path) w w1 /\
     w' = tick w1 (<[path := image hdr (take (Z.to_nat n_tokens) (default [] tokens))
                                       (take (Z.to_nat n_body) host_kv)]>
                   (delete (tmp_of path) (files w1)))).
Proof.
  intros Hh Hn. unfold save_kv_to_file.
  pose proof (only_touches_refl (tmp_of path) w) as T0.
  repeat (case_match; [intros; simplify_eq; by left|]).
  set (p := tmp_of path) in *. pose proof (touch_open p w) as T1.
  unfold sys_open_trunc in *. destruct (sys_ok os (calls w)); [|intros; simplify_eq; by left].
  simpl in T1. set (w1 := tick w (<[p := []]> (files w))) in *.
  assert (Hc1 : files w1 !! p = Some []) by apply lookup_insert_eq.
  pose proof (touch_write p (header_bytes hdr) w1) as T2.
  destruct (sys_write os p (header_bytes hdr) w1) as [n w2] eqn:E2. simpl in T2.
  pose proof (only_touches_trans _ _ _ _ T1 T2) as T12.
  assert (Hu : forall v, only_touches p w v -> only_touches p w (sys_unlink os p v))
    by (intros v Hv; eapply only_touches_trans; [exact Hv|apply touch_unlink]).
  destruct (Z.eqb_spec n header_size) as [->|]; cbn [negb];
    [|intros; simplify_eq; left; split; [done|by apply Hu]].
  assert (Hc2 : files w2 !! p = Some (header_bytes hdr)).
  { unfold sys_write in E2. rewrite Hc1 in E2.
    injection E2 as En <-. rewrite En. change (0 <? header_size) with true.
    cbn [files tick default]. rewrite lookup_insert_eq. rewrite take_ge; [done|].
    by rewrite length_header_bytes. }
  clear E2. set (ts := take _ _).
  assert (exists ok w3, (if 0 <? n_tokens then write_all os p (tokens_image ts) w2 else (true, w2))
      = (ok, w3) /\ only_touches p w w3 /\
      (ok = true -> files w3 !! p = Some (header_bytes hdr ++ tokens_image ts)))
    as (ok & w3 & -> & T3 & Hc3).
  { destruct (Z.ltb_spec 0 n_tokens).
    - pose proof (touch_write_loop (length (tokens_image ts)) p (tokens_image ts) w2) as T3.
      unfold write_all. destruct (write_loop _ _ _ _ w2) as [ok w3] eqn:E3.
      exists ok, w3. split_and!; [done|by eapply only_touches_trans|].
      intros ->. by eapply write_loop_appends.
    - exists true, w2. split_and!; [done..|]. intros _. rewrite Hc2. f_equal.
      unfold ts. replace n_tokens with 0 by lia. by rewrite app_nil_r. }
  destruct ok; cbn [negb]; [|intros; simplify_eq; left; split; [done|by apply Hu]].
  specialize (Hc3 eq_refl). set (body := take _ _).
  pose proof (touch_write_loop (length body) p body w3) as T4. unfold write_all.
  destruct (write_loop os (length body) p body w3) as [[] w4] eqn:E4; simpl in T4;
    pose proof (only_touches_trans _ _ _ _ T3 T4) as T34;
    [|intros; simplify_eq; left; split; [done|by apply Hu]].
  eapply write_loop_appends in E4; [|exact Hc3].
  pose proof (only_touches_trans _ _ _ _ T34 (touch_fsync p w4)) as T5.
  unfold sys_fsync in *. simpl in T5.
  destruct (sys_ok os (calls w4)); [|intros; simplify_eq; left; split; [done|by apply Hu]].
  unfold sys_rename. cbn [files tick]. rewrite E4, <- app_assoc.
  destruct (sys_ok os _).
  - intros; simplify_eq. right. split; [done|]. eexists. split; [exact T5|done].
  - intros; simplify_eq. left. split; [done|]. apply Hu.
    eapply only_touches_trans; [exact T5|]. by apply only_touches_tick.
Qed.

Lemma write_all_live p d w :
  (forall i, 0 < sys_count os i) -> is_Some (files w !! p) ->
  exists w', write_all os p d w = (true, w') /\ is_Some (files w' !! p).
Proof.
  intros Hc [c Hf]. unfold write_all.
  pose proof (write_loop_live (length d) p d w Hc (le_n _)) as E.
  destruct (write_loop os (length d) p d w) as [ok w'] eqn:E'. simpl in E. subst ok.
  exists w'. split; [done|]. rewrite (write_loop_appends _ _ _ _ _ _ E' Hf). eauto.
Qed.

(** With an operating system that refuses nothing and transfers at least one
    byte per call (and the header in one piece), a consistent save succeeds. *)
Lemma save_succeeds path hdr ts body w :
  header_ok hdr -> body_bytes hdr = zlen body -> used_tokens hdr = zlen ts ->
  (forall i, sys_ok os i = true) -> (forall i, 0 < sys_count os i) ->
  header_size <= sys_count os (S (calls w)) ->
  (save_kv_to_file os path hdr (Some ts) (zlen ts) body (zlen body) w).1 = true.
Proof.
  intros Hh Hb Hu Hok Hc H128. unfold save_kv_to_file.
  rewrite Hb, Hu, !Z.eqb_refl. cbn [negb]. rewrite bool_decide_true by eauto.
  rewrite andb_false_r. unfold sys_open_trunc. rewrite Hok.
  set (p := tmp_of path). set (w1 := tick w _).
  assert (exists w2, sys_write os p (header_bytes hdr) w1 = (header_size, w2) /\
                     is_Some (files w2 !! p)) as (w2 & -> & H2).
  { unfold sys_write. replace (zlen (header_bytes hdr)) with header_size
      by (unfold zlen; by rewrite length_header_bytes).
    change (calls w1) with (S (calls w)).
    rewrite Z.min_r by done. eexists. split; [done|].
    change (0 <? header_size) with true. cbn [files tick]. rewrite lookup_insert_eq. eauto. }
  rewrite Z.eqb_refl. cbn [negb]. set (d := tokens_image _).
  assert (exists w3, (if 0 <? zlen ts then write_all os p d w2 else (true, w2)) = (true, w3) /\
                     is_Some (files w3 !! p)) as (w3 & -> & H3).
  { destruct (0 <? zlen ts); [by apply write_all_live|eauto]. }
  cbn [negb]. set (b := take _ _).
  destruct (write_all_live p b w3) as (w4 & -> & [c H4]); [done..|].
  unfold sys_fsync. rewrite Hok. unfold sys_rename. rewrite Hok. cbn [files tick]. by rewrite H4.
Qed.

(** The states between two system calls, when only a temporary is written and
    when it is renamed at the end. *)
Lemma touched_states p fs w' s q :
  only_touches p (W fs []) w' -> s ∈ visited w' -> q <> p -> s !! q = fs !! q.
Proof.
  intros (new & -> & HF) [Hs|Hs]%elem_of_app Hq; [rewrite Forall_forall in HF; by apply HF|].
  by apply list_elem_of_singleton in Hs as ->.
Qed.

Lemma renamed_states p path img fs w1 s q :
  only_touches p (W fs []) w1 -> s ∈ visited (tick w1 (<[path := img]> (delete p (files w1)))) ->
  q <> p -> s !! q = fs !! q \/ q = path /\ s !! q = Some img.
Proof.
  intros T [->|Hs]%elem_of_cons Hq; [|left; by eapply touched_states].
  cbn [tick files]. destruct (decide (q = path)) as [->|]; [right; by rewrite lookup_insert_eq|left].
  rewrite lookup_insert_ne, lookup_delete_ne by done. by eapply (only_touches_now p (W fs [])).
Qed.

(** C16: A save is atomic.  In every file system state between the first and the
    last system call, and so after a crash at any point, [path] holds either
    exactly what it held before or one complete image, and no file other than
    [path] and its temporary is affected; a failed save leaves [path] as it
    was, a successful one leaves the complete image there. *)
Theorem save_atomic (path : bytes) (hdr : KVCacheFileHeader) (tokens : option (list Z))
  (n_tokens : Z) (host_kv : bytes) (n_body : Z) (fs : gmap bytes bytes) (r : bool) (w' : world) :
  header_ok hdr -> 0 <= n_tokens ->
  save_kv_to_file os path hdr tokens n_tokens host_kv n_body (W fs []) = (r, w') ->
  let img := image hdr (take (Z.to_nat n_tokens) (default [] tokens))
                   (take (Z.to_nat n_body) host_kv) in
  (forall s, s ∈ visited w' ->
     (s !! path = fs !! path \/ s !! path = Some img) /\
     (forall q, q <> path -> q <> tmp_of path -> s !! q = fs !! q)) /\
  files w' !! path = (if r then Some img else fs !! path).
Proof.
  intros Hh Hn E img. pose proof (tmp_of_ne path) as Hp.
  destruct (save_cases _ _ _ _ _ _ _ _ _ Hh Hn E) as [[-> T]|(-> & w1 & T & ->)].
  - split; [|by apply (only_touches_now _ _ _ _ T)]. intros s Hs.
    split; [left|intros q _ Hq]; by eapply touched_states.
  - split; [|simpl; by rewrite lookup_insert_eq]. intros s Hs. split.
    + destruct (renamed_states _ _ _ _ _ _ path T Hs) as [?|[_ ?]]; auto.
    + intros q Hq Hq'. by destruct (renamed_states _ _ _ _ _ _ q T Hs) as [?|[? _]].
Qed.

End SaveFacts.

(** ** What a load can return *)

Section LoadFacts.
Context (rd : Reader).

Lemma sys_read_data c off n k bs :
  sys_read rd c off n = (k, bs) -> 0 <= off -> 0 < k ->
  k <= n /\ off + k <= zlen c /\ bs = take (Z.to_nat k) (drop (Z.to_nat off) c).
Proof. unfold sys_read. intros [= <- <-] ? ?. split_and!; [lia..|done]. Qed.

Lemma read_loop_sound fuel c off n bs :
  read_loop rd fuel c off n = Some bs -> 0 <= off -> 0 <= n ->
  bs = take (Z.to_nat n) (drop (Z.to_nat off) c) /\ (n = 0 \/ off + n <= zlen c).
Proof.
  revert off n bs; induction fuel as [|fuel IH]; intros off n bs; cbn [read_loop];
    destruct (Z.leb_spec n 0).
  { intros [= <-] ? ?. assert (n = 0) as -> by lia. auto. }
  { done. }
  { intros [= <-] ? ?. assert (n = 0) as -> by lia. auto. }
  destruct (sys_read rd c off n) as [k b] eqn:E. destruct (Z.leb_spec k 0); [done|].
  intros (r & Hr & [= <-])%bind_Some Ho Hn.
  apply sys_read_data in E as (Hk & Hl & ->); [|lia..].
  apply IH in Hr as [-> Hn']; [|lia..]. split; [|lia].
  replace (Z.to_nat n) with (Z.to_nat k + Z.to_nat (n - k))%nat by lia.
  rewrite <- take_take_drop, drop_drop. do 3 f_equal. lia.
Qed.

(** The fuel is enough: positive counts read the whole range. *)
Lemma read_loop_live fuel c off n :
  (forall o, 0 < read_count rd o) -> 0 <= off -> off + n <= zlen c -> (Z.to_nat n <= fuel)%nat ->
  is_Some (read_loop rd fuel c off n).
Proof.
  intros Hc. revert off n; induction fuel as [|fuel IH]; intros off n Ho Hl Hf; cbn [read_loop];
    destruct (Z.leb_spec n 0); eauto; [lia|].
  destruct (sys_read rd c off n) as [k b] eqn:E. unfold sys_read in E. specialize (Hc off).
  destruct (Z.leb_spec k 0); [simplify_eq; lia|].
  destruct (IH (off + k) (n - k)) as [r ->]; [simplify_eq; lia..|]. eauto.
Qed.

Lemma read_all_sound c off n bs :
  read_all rd c off n = Some bs -> 0 <= off -> 0 <= n ->
  bs = take (Z.to_nat n) (drop (Z.to_nat off) c) /\ (n = 0 \/ off + n <= zlen c).
Proof. apply read_loop_sound. Qed.

Lemma read_all_live c off n :
  (forall o, 0 < read_count rd o) -> 0 <= off -> 0 <= n -> off + n <= zlen c ->
  read_all rd c off n = Some (take (Z.to_nat n) (drop (Z.to_nat off) c)).
Proof.
  intros Hc Ho Hn Hl. destruct (read_loop_live (Z.to_nat n) c off n Hc Ho Hl) as [bs E]; [done|].
  destruct (read_loop_sound _ _ _ _ _ E Ho Hn) as [-> _]. exact E.
Qed.

Lemma read_header_sound c h :
  read_header rd c = Some h ->
  header_size <= zlen c /\ h = header_of (take 128 c) /\ header_ok h /\
  take 128 c = header_bytes h /\ magic h = KVCACHE_MAGIC /\ version h = KVCACHE_VERSION.
Proof.
  unfold read_header. destruct (sys_read rd c 0 header_size) as [k bs] eqn:E.
  destruct (Z.eqb_spec k header_size) as [->|]; [|done]. cbn [negb].
  apply sys_read_data in E as (_ & Hl & ->); [|done..].
  rewrite drop_0. change (Z.to_nat header_size) with 128%nat.
  destruct (Z.eqb_spec (magic (header_of (take 128 c))) KVCACHE_MAGIC); [|done].
  destruct (Z.eqb_spec (version (header_of (take 128 c))) KVCACHE_VERSION); [|done].
  cbn [negb]. intros [= <-]. unfold header_size, zlen in *.
  assert (length (take 128 c) = 128%nat) by (rewrite length_take; lia).
  split_and!; try done; [by apply header_of_ok|by rewrite header_bytes_of].
Qed.

Lemma read_header_live h rest :
  header_ok h -> magic h = KVCACHE_MAGIC -> version h = KVCACHE_VERSION ->
  header_size <= read_count rd 0 ->
  read_header rd (header_bytes h ++ rest) = Some h.
Proof.
  intros Hh Hm Hv Hc. pose proof (length_header_bytes h Hh) as Hl.
  assert (Hz : zlen (header_bytes h) = header_size) by (unfold zlen; by rewrite Hl).
  unfold read_header, sys_read. autorewrite with len. rewrite Hz.
  pose proof (zlen_nonneg rest). rewrite !Z.min_r by (unfold header_size in *; lia).
  rewrite Z.min_l by (unfold header_size in *; lia).
  rewrite Z.eqb_refl. cbn [negb]. rewrite drop_0. change (Z.to_nat header_size) with 128%nat.
  rewrite take_app_length' by done. rewrite <- (app_nil_r (header_bytes h)).
  rewrite header_of_bytes by done. by rewrite Hm, Hv.
Qed.

Lemma expected_size_eq h :
  header_ok h -> body_bytes h < 2 ^ 63 ->
  expected_size h = header_size + used_tokens h * 4 + body_bytes h /\
  u64 (used_tokens h * 4) = used_tokens h * 4.
Proof.
  intros [] ?. unfold expected_size, header_size. nowrap. lia.
Qed.

(** C30: Whatever the answers to the individual reads, a load that returns true
    has found at the path exactly one complete image: its header carries the
    right magic and version, its token region decodes to the tokens returned,
    and what follows is the body returned, so a truncated, extended or foreign
    file is refused. *)
Theorem load_sound (file : option bytes) (cap : Z) (h : KVCacheFileHeader) (ts : list Z) (b : bytes) :
  cap < 2 ^ 63 -> load_kv_from_file rd file true cap = Some (h, ts, b) ->
  file = Some (image h ts b) /\ header_ok h /\
  magic h = KVCACHE_MAGIC /\ version h = KVCACHE_VERSION /\
  zlen ts = used_tokens h /\ Forall (fun t => 0 <= t < 2 ^ 32) ts /\
  zlen b = body_bytes h /\ body_bytes h <= cap.
Proof.
  intros Hcap. unfold load_kv_from_file. destruct (open_ok rd); [|done]. cbn [negb].
  intros (c & -> & (hdr & Hr & E)%bind_Some)%bind_Some.
  apply read_header_sound in Hr as (Hl & _ & Hok & Hhd & Hm & Hv).
  destruct (Z.ltb_spec cap (body_bytes hdr)); [done|].
  destruct (expected_size_eq hdr Hok) as [Hex H4]; [lia|].
  rewrite H4 in E. destruct (fstat_ok rd); [|done]. cbn [negb] in E.
  rewrite Hex in E. destruct (Z.eqb_spec (zlen c) (header_size + used_tokens hdr * 4 + body_bytes hdr))
    as [Hlen|]; [|done]. cbn [negb] in E.
  apply bind_Some in E as (ts' & Ht & E). apply bind_Some in E as (b' & Hb & E). simplify_eq.
  pose proof (h_used h Hok). pose proof (h_body h Hok). unfold header_size in *.
  assert (tokens_image ts = take (Z.to_nat (used_tokens h * 4)) (drop 128 c) /\
    Forall (fun t => 0 <= t < 2 ^ 32) ts /\ zlen ts = used_tokens h) as (Hti & Hf & Hn).
  { destruct (Z.ltb_spec 0 (used_tokens h)).
    - apply fmap_Some in Ht as (tb & Htb & ->).
      apply read_all_sound in Htb as [-> _]; [|lia..].
      change (Z.to_nat 128) with 128%nat.
      destruct (tokens_words (Z.to_nat (used_tokens h))
        (take (Z.to_nat (used_tokens h * 4)) (drop 128 c))) as (-> & ? & Hk).
      { unfold zlen in *. rewrite length_take, length_drop. lia. }
      split_and!; [done..|]. unfold zlen. rewrite Hk. lia.
    - replace (used_tokens h) with 0 by lia. injection Ht as <-. by repeat constructor. }
  apply read_all_sound in Hb as [-> _]; [|lia..].
  split_and!; try done.
  - f_equal. unfold image. rewrite <- Hhd, Hti.
    rewrite <- (take_drop 128 c) at 1. f_equal.
    rewrite <- (take_drop (Z.to_nat (used_tokens h * 4)) (drop 128 c)) at 1. f_equal.
    rewrite drop_drop. replace (Z.to_nat (128 + used_tokens h * 4))
      with (128 + Z.to_nat (used_tokens h * 4))%nat by lia.
    symmetry. apply take_ge. unfold zlen in *. rewrite length_drop. lia.
  - unfold zlen in *. rewrite length_take, length_drop. lia.
Qed.

Lemma peek_inv file h :
  peek_kv_header rd file = Some h ->
  exists c, file = Some c /\ read_header rd c = Some h /\ open_ok rd = true /\
    fstat_ok rd = true /\ zlen c = expected_size h.
Proof.
  unfold peek_kv_header. destruct (open_ok rd); [|done]. cbn [negb].
  intros (c & -> & (hdr & Hr & E)%bind_Some)%bind_Some. exists c.
  destruct (fstat_ok rd); [|done]. cbn [negb] in E.
  destruct (Z.eqb_spec (zlen c) (expected_size hdr)); [|done]. injection E as <-. by split_and!.
Qed.

(** A reader whose every call succeeds, with reads of at least one byte and
    the header in one piece. *)
Record reader_ok : Prop := {
  rd_open : open_ok rd = true; rd_fstat : fstat_ok rd = true;
  rd_count : forall o, 0 < read_count rd o; rd_header : header_size <= read_count rd 0 }.

(** What [peek_kv_header] accepts, [load_kv_from_file] then loads: with
    reads that make progress and a buffer of the advertised size (below 2^63
    bytes) the load returns true with the header that was peeked, as many
    tokens as it announces and a body of the advertised size. *)
Theorem peek_then_load (file : option bytes) (h : KVCacheFileHeader) (cap : Z) :
  reader_ok -> peek_kv_header rd file = Some h ->
  body_bytes h <= cap -> body_bytes h < 2 ^ 63 ->
  exists ts b, load_kv_from_file rd file true cap = Some (h, ts, b) /\
    zlen ts = used_tokens h /\ zlen b = body_bytes h.
Proof.
  intros [Ho Hs Hc _] Hp Hcap Hb63.
  apply peek_inv in Hp as (c & -> & Hr & _ & _ & Hlen).
  destruct (read_header_sound _ _ Hr) as (_ & _ & Hok & _).
  destruct (expected_size_eq h Hok Hb63) as [Hex H4].
  pose proof (h_used h Hok). pose proof (h_body h Hok).
  unfold load_kv_from_file. rewrite Ho, Hs. cbn [negb mbind option_bind]. rewrite Hr.
  cbn [mbind option_bind]. destruct (Z.ltb_spec cap (body_bytes h)); [lia|].
  rewrite Hlen, Z.eqb_refl. cbn [negb]. rewrite H4. rewrite Hex in Hlen.
  unfold header_size in *.
  assert (exists ts, (if 0 <? used_tokens h then
      words (Z.to_nat (used_tokens h)) <$> read_all rd c 128 (used_tokens h * 4)
      else Some []) = Some ts /\ zlen ts = used_tokens h) as (ts & -> & Hts).
  { destruct (Z.ltb_spec 0 (used_tokens h)).
    - rewrite read_all_live by (done || lia). eexists. split; [done|].
      destruct (tokens_words (Z.to_nat (used_tokens h))
        (take (Z.to_nat (used_tokens h * 4)) (drop (Z.to_nat 128) c))) as (_ & _ & Hk).
      { unfold zlen in *. rewrite length_take, length_drop. lia. }
      unfold zlen. rewrite Hk. lia.
    - exists []. rewrite zlen_nil. split; [done|lia]. }
  cbn [mbind option_bind]. rewrite read_all_live by (done || lia). cbn [mbind option_bind].
  do 2 eexists. split_and!; [done..|].
  unfold zlen in *. rewrite length_take, length_drop. lia.
Qed.

Lemma load_image h ts b cap :
  reader_ok -> header_ok h -> magic h = KVCACHE_MAGIC -> version h = KVCACHE_VERSION ->
  used_tokens h = zlen ts -> body_bytes h = zlen b -> Forall (fun t => 0 <= t < 2 ^ 32) ts ->
  zlen b <= cap -> zlen b < 2 ^ 63 ->
  load_kv_from_file rd (Some (image h ts b)) true cap = Some (h, ts, b) /\
  peek_kv_header rd (Some (image h ts b)) = Some h.
Proof.
  intros [Ho Hs Hc H1] Hok Hm Hv Hu Hb Hf Hcap H63.
  destruct (expected_size_eq h Hok) as [Hex H4]; [lia|].
  pose proof (length_header_bytes h Hok) as Hl. pose proof (length_tokens_image ts) as Hlt.
  assert (Hz : zlen (image h ts b) = expected_size h).
  { rewrite Hex. unfold image, header_size, zlen in *. rewrite !length_app. lia. }
  assert (Hr : read_header rd (image h ts b) = Some h) by by apply read_header_live.
  unfold peek_kv_header, load_kv_from_file. rewrite Ho, Hs. cbn [negb mbind option_bind].
  rewrite Hr. cbn [mbind option_bind]. rewrite Hz, Z.eqb_refl. cbn [negb]. split; [|done].
  destruct (Z.ltb_spec cap (body_bytes h)); [lia|]. rewrite H4. rewrite Hex in Hz.
  unfold header_size in *. pose proof (zlen_nonneg b). pose proof (zlen_nonneg ts).
  assert (Hd1 : drop (Z.to_nat 128) (image h ts b) = tokens_image ts ++ b)
    by (apply drop_app_length'; done).
  assert (Hd2 : drop (Z.to_nat (128 + used_tokens h * 4)) (image h ts b) = b).
  { replace (Z.to_nat (128 + used_tokens h * 4))
      with (Z.to_nat 128 + length (tokens_image ts))%nat by (unfold zlen in *; lia).
    rewrite <- drop_drop, Hd1. by apply drop_app_length. }
  assert ((if 0 <? used_tokens h then
      words (Z.to_nat (used_tokens h)) <$> read_all rd (image h ts b) 128 (used_tokens h * 4)
      else Some []) = Some ts) as ->.
  { destruct (Z.ltb_spec 0 (used_tokens h)).
    - rewrite read_all_live by (done || lia). rewrite Hd1. simpl. f_equal.
      rewrite take_app_length' by (unfold zlen in *; lia).
      replace (Z.to_nat (used_tokens h)) with (length ts) by (unfold zlen in *; lia).
      rewrite <- (app_nil_r (tokens_image ts)). by apply words_tokens.
    - destruct ts; [done|]. autorewrite with len in *. pose proof (zlen_nonneg ts). lia. }
  cbn [mbind option_bind]. rewrite read_all_live by (done || lia). rewrite Hd2.
  cbn [mbind option_bind]. do 2 f_equal. apply take_ge. unfold zlen in *. lia.
Qed.

End LoadFacts.

(** C25: A conversation that is saved comes back: on an operating system that
    refuses nothing (short reads and short writes allowed), saving succeeds,
    and peeking and loading the path afterwards return the same header, the
    same tokens and the same body. *)
Theorem save_load_roundtrip (os : OS) (rd : Reader) (path : bytes) (hdr : KVCacheFileHeader)
  (ts : list Z) (body : bytes) (fs : gmap bytes bytes) (cap : Z) :
  header_ok hdr -> magic hdr = KVCACHE_MAGIC -> version hdr = KVCACHE_VERSION ->
  used_tokens hdr = zlen ts -> body_bytes hdr = zlen body ->
  Forall (fun t => 0 <= t < 2 ^ 32) ts -> zlen body <= cap -> zlen body < 2 ^ 63 ->
  (forall i, sys_ok os i = true) -> (forall i, 0 < sys_count os i) ->
  header_size <= sys_count os 1 -> reader_ok rd ->
  exists w', save_kv_to_file os path hdr (Some ts) (zlen ts) body (zlen body) (W fs []) = (true, w') /\
    load_kv_from_file rd (files w' !! path) true cap = Some (hdr, ts, body) /\
    peek_kv_header rd (files w' !! path) = Some hdr.
Proof.
  intros Hh Hm Hv Hu Hb Hf Hcap H63 Hok Hc H1 Hrd.
  pose proof (save_succeeds os path hdr ts body (W fs []) Hh Hb Hu Hok Hc H1) as E.
  destruct (save_kv_to_file _ _ _ _ _ _ _ _) as [r w'] eqn:Es. simpl in E. subst r.
  exists w'. split; [done|].
  apply save_cases in Es as [[? _]|(_ & w1 & _ & ->)]; [done| |done|apply zlen_nonneg].
  simpl. rewrite lookup_insert_eq. unfold zlen. rewrite !Nat2Z.id, !take_ge by done.
  by apply load_image.
Qed.

(** ** The fingerprint *)

(** The inverse of [FNV_PRIME] modulo [2^64]. *)
Definition FNV_INVERSE : Z := 0xce965057aff6957b.

Lemma fnv_mul_inj x y :
  0 <= x < 2 ^ 64 -> 0 <= y < 2 ^ 64 ->
  u64 (x * FNV_PRIME) = u64 (y * FNV_PRIME) -> x = y.
Proof.
  intros Hx Hy E.
  assert (Hinv : forall z, 0 <= z < 2 ^ 64 -> u64 (u64 (z * FNV_PRIME) * FNV_INVERSE) = z).
  { intros z Hz. unfold u64. rewrite Z.mul_mod_idemp_l, <- Z.mul_assoc by lia.
    rewrite <- Z.mul_mod_idemp_r by lia.
    change ((FNV_PRIME * FNV_INVERSE) mod 2 ^ 64) with 1. rewrite Z.mul_1_r.
    by apply Z.mod_small. }
  rewrite <- (Hinv x), <- (Hinv y) by done. by rewrite E.
Qed.

Lemma lxor_range h b : 0 <= h < 2 ^ 64 -> 0 <= b < 256 -> 0 <= Z.lxor h b < 2 ^ 64.
Proof.
  intros Hh Hb. assert (0 <= Z.lxor h b) by (apply Z.lxor_nonneg; lia). split; [done|].
  destruct (Z.eq_dec (Z.lxor h b) 0) as [->|]; [lia|].
  apply Z.log2_lt_pow2; [lia|]. eapply Z.le_lt_trans; [apply Z.log2_lxor; lia|].
  apply Z.max_lub_lt.
  - destruct (Z.eq_dec h 0) as [->|]; [done|]. apply Z.log2_lt_pow2; lia.
  - destruct (Z.eq_dec b 0) as [->|]; [done|]. apply Z.log2_lt_pow2; lia.
Qed.

Lemma fnv_step_inj h h' b b' :
  0 <= h < 2 ^ 64 -> 0 <= h' < 2 ^ 64 -> 0 <= b < 256 -> 0 <= b' < 256 ->
  fnv_step h b = fnv_step h' b' -> Z.lxor h b = Z.lxor h' b'.
Proof. intros. apply fnv_mul_inj; [by apply lxor_range..|done]. Qed.

Lemma lxor_cancel a b c : Z.lxor a b = Z.lxor a c -> b = c.
Proof.
  intros E. apply (f_equal (Z.lxor a)) in E.
  by rewrite <- !Z.lxor_assoc, !Z.lxor_nilpotent, !Z.lxor_0_l in E.
Qed.

(** Different states stay different over equal bytes. *)
Lemma fnv1a_inj_state bs h h' :
  0 <= h < 2 ^ 64 -> 0 <= h' < 2 ^ 64 -> Forall (fun b => 0 <= b < 256) bs ->
  fnv1a h bs = fnv1a h' bs -> h = h'.
Proof.
  intros Hh Hh' Hbs. revert h h' Hh Hh'. induction Hbs as [|b bs Hb _ IH]; [done|].
  intros h h' Hh Hh' E. simpl in E. apply IH in E; [|apply u64_range..].
  apply fnv_step_inj in E; [|done..]. rewrite !(Z.lxor_comm _ b) in E.
  by apply lxor_cancel in E.
Qed.

Lemma fnv1a_range h bs : 0 <= h < 2 ^ 64 -> 0 <= fnv1a h bs < 2 ^ 64.
Proof.
  revert h; induction bs as [|b bs IH]; intros h Hh; [done|].
  simpl. apply IH, u64_range.
Qed.

Lemma fingerprint_eq rd c :
  open_ok rd = true -> fstat_ok rd = true -> 256 <= read_count rd 0 -> 256 <= zlen c ->
  exists h0, 0 <= h0 < 2 ^ 64 /\
    h0 = fnv1a FNV_OFFSET ((fun i => Z.land (Z.shiftr (zlen c) (i * 8)) 255) <$> upto 8) /\
    compute_model_fingerprint rd (Some c) =
      Some (le 8 (fnv1a h0 (bz <$> take 256 c)) ++ replicate 24 Byte.x00).
Proof.
  intros Ho Hs Hr Hc. exists (fnv1a FNV_OFFSET
    ((fun i => Z.land (Z.shiftr (zlen c) (i * 8)) 255) <$> upto 8)). split; [|split; [done|]].
  - apply fnv1a_range. unfold FNV_OFFSET. lia.
  - unfold compute_model_fingerprint, sys_read. rewrite Ho, Hs. cbn [negb mbind option_bind].
    destruct (Z.ltb_spec (zlen c) 256); [lia|].
    rewrite Z.min_r by lia. rewrite Z.min_l by lia. rewrite drop_0. done.
Qed.

Lemma bytes_range bs : Forall (fun b => 0 <= b < 256) (bz <$> bs).
Proof. apply Forall_fmap, Forall_forall. intros b _. apply bz_range. Qed.

(** The fingerprint tells model files apart as documented: two files of the
    same size whose first 256 bytes differ in exactly one byte have different
    fingerprints, and the rest of the file has no influence beyond its size. *)
Theorem fingerprint_detects_change (rd : Reader) (pre post1 post2 : bytes) (x y : byte) :
  open_ok rd = true -> fstat_ok rd = true -> 256 <= read_count rd 0 ->
  (length pre < 256)%nat -> (256 <= length (pre ++ x :: post1))%nat ->
  length post1 = length post2 -> take (255 - length pre) post1 = take (255 - length pre) post2 ->
  is_Some (compute_model_fingerprint rd (Some (pre ++ x :: post1))) /\
  (compute_model_fingerprint rd (Some (pre ++ x :: post1)) =
   compute_model_fingerprint rd (Some (pre ++ y :: post2)) <-> x = y).
Proof.
  intros Ho Hs Hr Hp Hl Hlen Htk.
  assert (Hz : zlen (pre ++ y :: post2) = zlen (pre ++ x :: post1))
    by (unfold zlen; rewrite !length_app; simpl; lia).
  assert (Hz1 : 256 <= zlen (pre ++ x :: post1)) by (unfold zlen; lia).
  destruct (fingerprint_eq rd (pre ++ x :: post1)) as (h & Hh & Eh & ->); [done..|].
  destruct (fingerprint_eq rd (pre ++ y :: post2)) as (h' & _ & Eh' & ->); [done..|lia|].
  rewrite Hz, <- Eh in Eh'. subst h'. split; [eauto|].
  assert (Ht : forall z r, take 256 (pre ++ z :: r) = pre ++ z :: take (255 - length pre) r).
  { intros. rewrite take_app_ge by lia.
    replace (256 - length pre)%nat with (S (255 - length pre)) by lia. done. }
  rewrite !Ht, Htk. split; [|by intros ->].
  intros E%(inj Some)%app_inv_tail%(f_equal unle).
  rewrite !unle_le_small in E by (change (256 ^ Z.of_nat 8) with (2 ^ 64); by apply fnv1a_range).
  rewrite !fmap_app, !fmap_cons in E. unfold fnv1a in E. rewrite !foldl_app in E.
  cbn [foldl] in E. fold fnv1a in E.
  apply fnv1a_inj_state in E; [|apply u64_range..|apply bytes_range].
  apply fnv_step_inj in E; [|first [by apply fnv1a_range|apply bz_range]..].
  by apply lxor_cancel, bz_inj in E.
Qed.

(** ** Concrete files *)

Definition demo_header : KVCacheFileHeader :=
  mkHeader KVCACHE_MAGIC KVCACHE_VERSION 2 1 1 1 3 2 8
    (replicate 32 Byte.x61) (replicate 56 Byte.x00).
Definition demo_tokens : list Z := [151644; 8948].
Definition demo_body : bytes := zb <$> [1; 2; 3; 4; 5; 6; 7; 8].
Definition demo_path : bytes := str "/data/c1.bin".
Definition demo_fs : gmap bytes bytes := {[ demo_path := str "old" ]}.

(** Ten bytes at a time after the header; the second instance fails the
    [fsync] (call 8 of the save). *)
Definition demo_os : OS :=
  {| sys_ok := fun _ => true; sys_count := fun i => if (i =? 1)%nat then 128 else 10 |}.
Definition demo_os_fail : OS :=
  {| sys_ok := fun i => negb (i =? 4)%nat; sys_count := fun _ => 200 |}.
Definition demo_reader : Reader :=
  {| open_ok := true; fstat_ok := true; lseek_ok := true;
     read_count := fun o => if o =? 0 then 256 else 3 |}.

Lemma demo_header_ok : header_ok demo_header.
Proof. constructor; ground. Qed.

Lemma demo_reader_ok : reader_ok demo_reader.
Proof. constructor; [done..| |done]. intros o. simpl. destruct (o =? 0); lia. Qed.

Lemma header_roundtrip_witness :
  header_of (header_bytes demo_header ++ str "tail") = demo_header.
Proof.
  apply (header_roundtrip demo_header (str "tail") (replicate 128 Byte.x00));
    [apply demo_header_ok|reflexivity].
Defined.

Lemma save_atomic_witness :
  let '(r, w) := save_kv_to_file demo_os_fail demo_path demo_header (Some demo_tokens) 2
                   demo_body 8 (W demo_fs []) in
  r = false /\ files w !! demo_path = Some (str "old").
Proof.
  destruct (save_kv_to_file demo_os_fail demo_path demo_header (Some demo_tokens) 2
              demo_body 8 (W demo_fs [])) as [r w] eqn:E.
  assert (r = false) as ->.
  { apply (f_equal fst) in E. vm_compute in E. by symmetry. }
  split; [done|].
  apply (save_atomic demo_os_fail demo_path demo_header (Some demo_tokens) 2 demo_body 8
           demo_fs false w demo_header_ok ltac:(lia) E).
Defined.

Lemma load_sound_witness :
  load_kv_from_file demo_reader (Some (image demo_header demo_tokens demo_body)) true 64 =
    Some (demo_header, demo_tokens, demo_body) /\ zlen demo_body = body_bytes demo_header.
Proof.
  assert (E : load_kv_from_file demo_reader (Some (image demo_header demo_tokens demo_body))
    true 64 = Some (demo_header, demo_tokens, demo_body)) by (vm_compute; reflexivity).
  split; [exact E|].
  apply (load_sound demo_reader _ 64 demo_header demo_tokens demo_body ltac:(lia) E).
Defined.

Lemma peek_then_load_witness :
  exists ts b, load_kv_from_file demo_reader (Some (image demo_header demo_tokens demo_body))
    true 8 = Some (demo_header, ts, b).
Proof.
  destruct (peek_then_load demo_reader (Some (image demo_header demo_tokens demo_body))
    demo_header 8 demo_reader_ok) as (ts & b & E & _); [vm_compute; reflexivity|ground|ground|].
  exists ts, b. exact E.
Defined.

Lemma save_load_roundtrip_witness :
  exists w', load_kv_from_file demo_reader (files w' !! demo_path) true 8 =
    Some (demo_header, demo_tokens, demo_body).
Proof.
  destruct (save_load_roundtrip demo_os demo_reader demo_path demo_header demo_tokens demo_body
    demo_fs 8) as (w' & _ & E & _).
  1: apply demo_header_ok.
  1-4: reflexivity.
  1: repeat (apply Forall_cons; split; [lia|]); by constructor.
  1,2: vm_compute; done.
  1: reflexivity.
  1: intros i; simpl; destruct (i =? 1)%nat; lia.
  1: ground.
  1: apply demo_reader_ok.
  exists w'. exact E.
Defined.

Lemma fingerprint_detects_change_witness :
  let file x := replicate 100 Byte.x00 ++ x :: replicate 300 Byte.x01 in
  compute_model_fingerprint demo_reader (Some (file Byte.x02)) <>
  compute_model_fingerprint demo_reader (Some (file Byte.x03)).
Proof.
  intros file. unfold file.
  destruct (fingerprint_detects_change demo_reader (replicate 100 Byte.x00)
    (replicate 300 Byte.x01) (replicate 300 Byte.x01) Byte.x02 Byte.x03) as [_ [Hne _]].
  1,2,6,7: reflexivity.
  - simpl. lia.
  - rewrite length_replicate. lia.
  - rewrite length_app, length_cons, !length_replicate. lia.
  - intros E. discriminate (Hne E).
Defined.

(** ** The size check wraps *)

(** A header that announces one token and [2^64 - 4] bytes of body: the sum of
    the region sizes is 128 modulo [2^64]. *)
Definition wrapping_header : KVCacheFileHeader :=
  mkHeader KVCACHE_MAGIC KVCACHE_VERSION 2 1 1 1 3 1 (2 ^ 64 - 4)
    (replicate 32 Byte.x61) (replicate 56 Byte.x00).

(** The size computation of [peek_kv_header] wraps in [size_t]: a file that
    holds nothing but 128 header bytes is accepted although its header
    announces a token and 2^64 - 4 bytes of body. *)
Theorem peek_accepts_wrapped_size :
  zlen (header_bytes wrapping_header) = header_size /\
  peek_kv_header demo_reader (Some (header_bytes wrapping_header)) = Some wrapping_header /\
  header_size + used_tokens wrapping_header * 4 + body_bytes wrapping_header = 2 ^ 64 + 128.
Proof. vm_compute. repeat split. Qed.

End KVFile.
