(* ===== verification/KVDir.v ===== *)
(** * KVDir: the cache directory ([src/persistence/kv_cache_file.cpp] and
    [validate_conversation_id] of [src/engine/decode.cu])

    Which file a conversation uses, the environment settings, and the two
    housekeeping passes that run after a save: the size budget on the cache
    files and the removal of stale temporaries.  A directory listing is a
    list of entries with what [stat] says of each; [std::sort] is a parameter
    with its documented contract, because it leaves the order of equal
    elements open. *)

From stdpp Require Import sorting.
From S2P Require Import Prelude CLib KVFile.

Module KVDir.

(** ** Conversation identifiers *)

Definition id_char (c : byte) : bool :=
  ((97 <=? bz c) && (bz c <=? 122)) || ((65 <=? bz c) && (bz c <=? 90)) ||
  ((48 <=? bz c) && (bz c <=? 57)) || Byte.eqb c "_"%byte || Byte.eqb c "-"%byte.

Definition validate_conversation_id (id : bytes) : bool :=
  match id with
  | [] => true
  | _ => if 64 <? zlen id then false else forallb id_char id
  end.

(** ** Paths *)

Definition slash : byte := "/"%byte.

Definition default_kv_cache_dir (env : option bytes) : bytes :=
  match env with
  | Some (b :: s) => b :: s
  | _ => str "/opt/jllm/data/kv-cache"
  end.

Lemma default_kv_cache_dir_nonempty env : default_kv_cache_dir env <> [].
Proof. destruct env as [[|b s]|]; discriminate. Qed.

(** [std::filesystem::create_directories] reports an error or not. *)
Definition ensure_dir (create_directories_error : bool) : bool := negb create_directories_error.

Definition path_for_conv_id (dir conv_id : bytes) : bytes :=
  match dir, conv_id with
  | [], _ | _, [] => []
  | _, _ => if decide (last dir = Some slash) then dir ++ conv_id ++ str ".bin"
            else dir ++ str "/" ++ conv_id ++ str ".bin"
  end.

(** ** Environment settings *)

Definition default_kv_cache_max_mb (env : option bytes) : Z :=
  match env with
  | None | Some [] => 1024
  | Some v => let n := (strtol v).1 in if n <? 0 then 0 else n
  end.

Definition default_kv_cache_stale_tmp_s (env : option bytes) : Z :=
  match env with
  | None | Some [] => 60
  | Some v => let n := (strtol v).1 in if n <? 0 then 0 else i32 n
  end.

(** ** Listing *)

Record CacheEntry := mkEntry { path : bytes; mtime : Z; size_bytes : Z }.

#[global] Instance CacheEntry_eq_dec : EqDecision CacheEntry.
Proof. solve_decision. Defined.

(** What the directory iterator yields: the path, whether it is a regular
    file, and the answer of [stat] (modification time and size). *)
Record dirent := mkDirent { de_path : bytes; de_regular : bool; de_stat : option (Z * Z) }.

(** [std::filesystem::path::filename] and [extension]: the text after the last
    separator, and its tail from the last period unless that period starts it
    or the name is a dot name. *)
Definition filename (p : bytes) : bytes := reverse (span (fun b => negb (Byte.eqb b slash)) (reverse p)).1.

Definition dot : byte := "."%byte.

Definition extension (p : bytes) : bytes :=
  let f := filename p in
  if decide (f = str "." \/ f = str "..") then []
  else
    let '(tail, rest) := span (fun b => negb (Byte.eqb b dot)) (reverse f) in
    match rest with
    | _ :: _ :: _ => dot :: reverse tail
    | _ => []
    end.

(** [dir = None]: the directory does not exist or cannot be opened. *)
Definition list_kv_files (dir : option (list dirent)) (suffix : bytes) : list CacheEntry :=
  match dir with
  | None => []
  | Some ds =>
      omap (fun de =>
        if negb (de_regular de) then None
        else if decide (extension (de_path de) <> suffix) then None
        else match de_stat de with
             | None => None
             | Some (m, s) => Some (mkEntry (de_path de) m s)
             end) ds
  end.

(** ** Housekeeping *)

Class StdSort := { std_sort : list CacheEntry -> list CacheEntry }.

Class StdSortLaws `{StdSort} : Prop := {
  std_sort_perm l : std_sort l ≡ₚ l;
  std_sort_sorted l : StronglySorted (fun a b => mtime a <= mtime b) (std_sort l) }.

Section Housekeeping.
Context `{sorting : StdSort}.
(** Does [unlink] of a path succeed? *)
Context (unlink_ok : bytes -> bool).

(** The eviction loop: the entries it unlinks, in order. *)
Fixpoint evict_loop (keep_path : bytes) (max_bytes total : Z) (es : list CacheEntry)
  : list CacheEntry :=
  match es with
  | [] => []
  | e :: es =>
      if total <=? max_bytes then []
      else if decide (path e = keep_path) then evict_loop keep_path max_bytes total es
      else if unlink_ok (path e)
           then e :: evict_loop keep_path max_bytes (i64 (total - size_bytes e)) es
           else evict_loop keep_path max_bytes total es
  end.

Definition total_size (es : list CacheEntry) : Z :=
  foldl (fun total e => i64 (total + size_bytes e)) 0 es.

Definition enforce_kv_cache_budget (dir : option (list dirent)) (max_bytes : Z)
  (keep_path : bytes) : list CacheEntry :=
  if max_bytes <=? 0 then []
  else
    let entries := list_kv_files dir (str ".bin") in
    let total := total_size entries in
    if total <=? max_bytes then []
    else evict_loop keep_path max_bytes total (std_sort entries).

(** The paths unlinked by the cleanup, at wall-clock time [now]. *)
Definition cleanup_stale_tmp_files (dir : option (list dirent)) (now max_age_seconds : Z)
  : list bytes :=
  if max_age_seconds <=? 0 then []
  else
    let entries := list_kv_files dir (str ".tmp") in
    path <$> filter (fun e => ~ (now - mtime e < max_age_seconds) /\ unlink_ok (path e) = true) entries.

End Housekeeping.

(** ** Paths and identifiers *)

Lemma id_char_facts c : id_char c = true -> Byte.eqb c slash = false /\ Byte.eqb c dot = false.
Proof. destruct c; vm_compute; intros H; try discriminate H; auto. Qed.

Lemma validate_chars id :
  validate_conversation_id id = true -> Forall (fun c => id_char c = true) id.
Proof.
  unfold validate_conversation_id. destruct id as [|c id]; [constructor|].
  destruct (64 <? _); [done|]. intros H. apply Forall_forall. intros x Hx.
  rewrite forallb_forall in H. apply H. by apply list_elem_of_In.
Qed.

Lemma filename_app d f :
  Forall (fun b => Byte.eqb b slash = false) f -> filename (d ++ slash :: f) = f.
Proof.
  intros Hf. unfold filename. rewrite reverse_app, reverse_cons, <- app_assoc.
  rewrite span_prefix.
  - simpl. apply reverse_involutive.
  - apply Forall_reverse. eapply Forall_impl; [exact Hf|]. by intros b ->.
  - by intros b r [= <- _].
Qed.

(** A name with something before its last period. *)
Lemma extension_app d f e :
  Forall (fun b => Byte.eqb b slash = false) (f ++ dot :: e) -> f <> [] ->
  Forall (fun b => Byte.eqb b dot = false) e -> e <> [] ->
  extension (d ++ slash :: f ++ dot :: e) = dot :: e.
Proof.
  intros Hs Hf He Hne. unfold extension. rewrite filename_app by done.
  rewrite decide_False.
  - rewrite reverse_app, reverse_cons, <- app_assoc, span_prefix.
    + simpl. destruct (reverse f) as [|x r] eqn:E; [|by rewrite reverse_involutive].
      apply (f_equal reverse) in E. by rewrite reverse_involutive in E.
    + apply Forall_reverse. eapply Forall_impl; [exact He|]. by intros b ->.
    + by intros b r [= <- _].
  - destruct f as [|x [|y f]]; [done|..]; intros [E|E]; try discriminate E.
    + injection E as _ E. by destruct e.
    + injection E as _ _ E. by destruct f.
Qed.

Lemma path_for_conv_id_shape dir :
  dir <> [] ->
  exists d, (dir = d \/ dir = d ++ [slash]) /\
    forall id, id <> [] -> path_for_conv_id dir id = d ++ slash :: id ++ str ".bin".
Proof.
  intros Hd. unfold path_for_conv_id. destruct dir as [|x dir0] eqn:E; [done|]. rewrite <- E.
  destruct (decide (last dir = Some slash)) as [Hl|].
  - apply last_Some in Hl as [d ->]. exists d. split; [by right|]. intros [|y id] Hi; [done|].
    by rewrite <- app_assoc.
  - exists dir. split; [by left|]. by intros [|y id] Hi.
Qed.

Lemma id_no_sep id :
  validate_conversation_id id = true -> Forall (fun b => Byte.eqb b slash = false) id.
Proof. intros H%validate_chars. eapply Forall_impl; [exact H|]. by intros c []%id_char_facts. Qed.

(** Different identifiers have different files, and none of them is a
    temporary of another. *)
Lemma path_for_conv_id_inj dir id id' :
  dir <> [] -> id <> [] -> id' <> [] -> path_for_conv_id dir id' = path_for_conv_id dir id -> id' = id.
Proof.
  intros Hd Hi Hi'. destruct (path_for_conv_id_shape dir Hd) as (d & _ & E). rewrite !E by done.
  intros F. apply app_inv_head in F. injection F as F. by apply app_inv_tail in F.
Qed.

Lemma path_for_conv_id_tmp dir id p :
  dir <> [] -> id <> [] -> path_for_conv_id dir id <> KVFile.tmp_of p.
Proof.
  intros Hd Hi. destruct (path_for_conv_id_shape dir Hd) as (d & _ & E). rewrite E by done.
  unfold KVFile.tmp_of. intros F. apply (f_equal reverse) in F.
  replace (d ++ slash :: id ++ str ".bin") with ((d ++ slash :: id) ++ str ".bin") in F
    by by rewrite <- app_assoc.
  rewrite !reverse_app in F. discriminate F.
Qed.

(** C31: A validated conversation identifier names one file directly inside the
    cache directory, whatever bytes the client sent: the name holds no
    separator, different identifiers never share a file, the budget pass
    recognises the file as a cache file and its temporary is recognised as a
    temporary. *)
Theorem conv_id_path_safe (dir id id' : bytes) :
  dir <> [] -> id <> [] -> id' <> [] ->
  validate_conversation_id id = true -> validate_conversation_id id' = true ->
  let p := path_for_conv_id dir id in
  (exists d, p = d ++ slash :: id ++ str ".bin" /\ (dir = d \/ dir = d ++ [slash])) /\
  filename p = id ++ str ".bin" /\
  extension p = str ".bin" /\ extension (KVFile.tmp_of p) = str ".tmp" /\
  (path_for_conv_id dir id' = p -> id' = id).
Proof.
  intros Hd Hi Hi' Hv Hv'. pose proof (id_no_sep id Hv) as Hs.
  assert (Hb : Forall (fun b => Byte.eqb b slash = false) (id ++ str ".bin"))
    by (apply Forall_app; split; [done|by repeat constructor]).
  destruct (path_for_conv_id_shape dir Hd) as (d & Hdir & E).
  cbv zeta. rewrite !E by done. split_and!.
  - eauto.
  - by apply filename_app.
  - by apply (extension_app d id (str "bin")); [..|repeat constructor|].
  - unfold KVFile.tmp_of. rewrite <- app_assoc. simpl app. rewrite <- app_assoc.
    change (str ".bin" ++ str ".tmp") with (str ".bin" ++ dot :: str "tmp"). rewrite app_assoc.
    apply (extension_app d (id ++ str ".bin") (str "tmp")); [|by destruct id|by repeat constructor|done].
    apply Forall_app. split; [done|by repeat constructor].
  - intros F. apply (path_for_conv_id_inj dir); [done..|]. by rewrite !E by done.
Qed.

(** ** The size budget *)

Definition sizes (es : list CacheEntry) : Z := zsum (size_bytes <$> es).

Lemma sizes_app a b : sizes (a ++ b) = sizes a + sizes b.
Proof. unfold sizes. by rewrite fmap_app, zsum_app. Qed.

Lemma sizes_cons e es : sizes (e :: es) = size_bytes e + sizes es.
Proof. done. Qed.

Lemma sizes_perm a b : a ≡ₚ b -> sizes a = sizes b.
Proof. intros H. apply zsum_permutation. by rewrite H. Qed.

Definition nonneg (es : list CacheEntry) : Prop := Forall (fun e => 0 <= size_bytes e) es.

Lemma sizes_nonneg es : nonneg es -> 0 <= sizes es.
Proof. induction 1; [done|]. rewrite sizes_cons. lia. Qed.

Lemma total_size_from a es :
  0 <= a -> nonneg es -> a + sizes es < 2 ^ 63 ->
  foldl (fun total e => i64 (total + size_bytes e)) a es = a + sizes es.
Proof.
  intros Ha Hn. revert a Ha. induction Hn as [|e es He Hn IH]; intros a Ha Hb.
  - cbn. lia.
  - rewrite sizes_cons in *. pose proof (sizes_nonneg es Hn). cbn [foldl]. nowrap.
    rewrite IH; lia.
Qed.

Lemma total_size_eq es : nonneg es -> sizes es < 2 ^ 63 -> total_size es = sizes es.
Proof. intros. unfold total_size. rewrite total_size_from by (done || lia). lia. Qed.

Section Budget.
Context `{laws : StdSortLaws}.
Context (unlink_ok : bytes -> bool).

(** May the pass delete this file? *)
Definition evictable (keep_path : bytes) (e : CacheEntry) : Prop :=
  path e <> keep_path /\ unlink_ok (path e) = true.

#[local] Instance evictable_dec keep e : Decision (evictable keep e).
Proof. unfold evictable. apply _. Defined.

(** The loop deletes the evictable entries of a prefix, and stops early only
    when the budget is met. *)
Lemma evict_loop_split keep max total es :
  nonneg es -> sizes es <= total < 2 ^ 63 ->
  exists pre post, es = pre ++ post /\
    evict_loop unlink_ok keep max total es = filter (evictable keep) pre /\
    (post = [] \/ total - sizes (filter (evictable keep) pre) <= max).
Proof.
  intros Hn. revert total; induction Hn as [|e es He Hn IH]; intros total Ht.
  { exists [], []. auto. }
  rewrite sizes_cons in Ht. pose proof (sizes_nonneg es Hn). cbn [evict_loop].
  destruct (Z.leb_spec total max).
  { exists [], (e :: es). split_and!; [done..|]. right. cbn. lia. }
  destruct (decide (evictable keep e)) as [Hev|Hev].
  - pose proof Hev as [Hk Hu]. rewrite decide_False, Hu by done. nowrap.
    destruct (IH (total - size_bytes e)) as (pre & post & -> & -> & Hp); [lia|].
    exists (e :: pre), post. rewrite filter_cons_True by done. rewrite sizes_cons.
    split_and!; [done..|]. destruct Hp; [by left|right; lia].
  - assert ((if decide (path e = keep) then evict_loop unlink_ok keep max total es
      else if unlink_ok (path e) then e :: evict_loop unlink_ok keep max (i64 (total - size_bytes e)) es
      else evict_loop unlink_ok keep max total es) = evict_loop unlink_ok keep max total es) as ->.
    { unfold evictable in Hev. repeat case_match; try done. naive_solver. }
    destruct (IH total) as (pre & post & -> & -> & Hp); [lia|].
    exists (e :: pre), post. rewrite filter_cons_False by done. auto.
Qed.

Lemma filter_notin_sizes (del es : list CacheEntry) :
  NoDup es -> NoDup del -> (forall e, e ∈ del -> e ∈ es) ->
  sizes (filter (fun e => e ∉ del) es) = sizes es - sizes del.
Proof.
  intros Hes Hdel Hin.
  assert (sizes es = sizes (filter (fun e => e ∈ del) es) + sizes (filter (fun e => e ∉ del) es))
    as ->.
  { rewrite <- sizes_app. symmetry. apply sizes_perm, filter_app_complement. }
  rewrite (sizes_perm (filter (fun e => e ∈ del) es) del); [lia|].
  apply NoDup_Permutation; [by apply NoDup_filter|done|].
  intros e. rewrite list_elem_of_filter. naive_solver.
Qed.

Lemma StronglySorted_split (l1 l2 : list CacheEntry) a b :
  StronglySorted (fun a b => mtime a <= mtime b) (l1 ++ l2) -> a ∈ l1 -> b ∈ l2 ->
  mtime a <= mtime b.
Proof.
  induction l1 as [|x l1 IH]; [set_solver|].
  intros [Hs Hf]%StronglySorted_inv [->|Ha]%elem_of_cons Hb; [|by apply IH].
  rewrite Forall_forall in Hf. apply Hf. apply elem_of_app. by right.
Qed.

(** The eviction pass, whatever the order [std::sort] gives files of equal
    age and whatever [unlink] refuses: it never deletes the file just saved; it
    deletes in order of age (no file it could have deleted and kept is older
    than one it deleted); and afterwards the cache fits the budget unless all
    that is left are the kept file and files that cannot be unlinked. *)
Theorem enforce_budget (dir : option (list dirent)) (max : Z) (keep : bytes) :
  let es := list_kv_files dir (str ".bin") in
  0 < max -> NoDup es -> nonneg es -> sizes es < 2 ^ 63 ->
  let del := enforce_kv_cache_budget unlink_ok dir max keep in
  let kept := filter (fun e => e ∉ del) es in
  (forall e, e ∈ del -> e ∈ es /\ path e <> keep /\ unlink_ok (path e) = true) /\
  (forall e e', e ∈ del -> e' ∈ kept -> evictable keep e' -> mtime e <= mtime e') /\
  (sizes kept <= max \/ forall e, e ∈ kept -> ~ evictable keep e).
Proof.
  intros es Hmax Hnd Hnn Hb del kept.
  assert (exists pre post, std_sort es = pre ++ post /\
    ((sizes es <= max /\ del = []) \/
     (del = filter (evictable keep) pre /\ (post = [] \/ sizes es - sizes del <= max))))
    as (pre & post & Hsp & Hcase).
  { unfold del, enforce_kv_cache_budget. destruct (Z.leb_spec max 0); [lia|].
    fold es. rewrite total_size_eq by done. destruct (Z.leb_spec (sizes es) max).
    - exists [], (std_sort es). auto.
    - destruct (evict_loop_split keep max (sizes es) (std_sort es)) as (pre & post & E & -> & Hp).
      + unfold nonneg. by rewrite std_sort_perm.
      + rewrite (sizes_perm _ es) by apply std_sort_perm. lia.
      + exists pre, post. split; [done|]. right. auto. }
  assert (Hperm : pre ++ post ≡ₚ es) by (rewrite <- Hsp; apply std_sort_perm).
  assert (Hdel : forall e, e ∈ del -> e ∈ pre /\ evictable keep e).
  { destruct Hcase as [[_ ->]|[-> _]]; intros e He; [set_solver|].
    apply list_elem_of_filter in He. tauto. }
  assert (Hin : forall e, e ∈ del -> e ∈ es)
    by (intros e [He _]%Hdel; rewrite <- Hperm; apply elem_of_app; by left).
  assert (Hndd : NoDup del).
  { destruct Hcase as [[_ ->]|[-> _]]; [constructor|]. apply NoDup_filter.
    rewrite <- Hperm in Hnd. by apply NoDup_app in Hnd as [? _]. }
  assert (Hsz : sizes kept = sizes es - sizes del) by by apply filter_notin_sizes.
  (* an evictable survivor was never reached by the loop *)
  assert (Hpost : forall e', del = filter (evictable keep) pre -> e' ∈ kept -> evictable keep e' ->
    e' ∈ post).
  { intros e' Hd [Hn He']%list_elem_of_filter Hev. rewrite <- Hperm in He'.
    apply elem_of_app in He' as [He'|]; [|done]. destruct Hn. rewrite Hd.
    by apply list_elem_of_filter. }
  split_and!.
  - intros e He. split; [by apply Hin|]. by apply Hdel.
  - intros e e' He He' Hev. destruct Hcase as [[_ ->]|[Hd _]]; [set_solver|].
    eapply (StronglySorted_split pre post); [|by apply Hdel|by apply Hpost].
    rewrite <- Hsp. apply std_sort_sorted.
  - destruct Hcase as [[Hle Hd]|[Hd [Hp|Hle]]].
    + left. rewrite Hsz, Hd. unfold sizes at 2. simpl. lia.
    + right. intros e' He' Hev. apply (Hpost e' Hd He') in Hev. rewrite Hp in Hev. set_solver.
    + left. lia.
Qed.

End Budget.

(** A sort that satisfies the contract. *)
Definition by_mtime (a b : CacheEntry) : Prop := mtime a <= mtime b.

#[local] Instance by_mtime_dec a b : Decision (by_mtime a b).
Proof. unfold by_mtime. apply _. Defined.

#[local] Instance by_mtime_total : Total by_mtime.
Proof. intros a b. unfold by_mtime. lia. Qed.

#[local] Instance by_mtime_trans : Transitive by_mtime.
Proof. intros a b c. unfold by_mtime. lia. Qed.

Definition merge_std_sort : StdSort := {| std_sort := merge_sort by_mtime |}.

Lemma merge_std_sort_laws : @StdSortLaws merge_std_sort.
Proof.
  constructor; intros l; simpl; [apply merge_sort_Permutation|].
  apply (StronglySorted_merge_sort by_mtime).
Qed.

(** The clean-up after a save removes a temporary only when it is at least
    the threshold old, so the temporary of a save in progress survives, and it
    never removes a cache file: a path with another extension than [.tmp] is
    untouched.  A temporary old enough that [unlink] accepts is removed. *)
Theorem cleanup_exact (unlink_ok : bytes -> bool) (ds : list dirent) (now age : Z) (p : bytes) :
  0 < age ->
  p ∈ cleanup_stale_tmp_files unlink_ok (Some ds) now age <->
  exists m s, mkDirent p true (Some (m, s)) ∈ ds /\ extension p = str ".tmp" /\
              age <= now - m /\ unlink_ok p = true.
Proof.
  intros Ha. unfold cleanup_stale_tmp_files. destruct (Z.leb_spec age 0); [lia|].
  rewrite list_elem_of_fmap. unfold list_kv_files. split.
  - intros (e & -> & [[Hage Hu] He]%list_elem_of_filter).
    apply list_elem_of_omap in He as (d & Hd & E). destruct d as [dp [] [[m s]|]]; simpl in E;
      [|try case_decide; done..]. case_decide as Hx; [done|]. simplify_eq. simpl in *.
    exists m, s. split_and!; [done| |lia|done]. destruct (decide (extension dp = str ".tmp")); [done|]. by destruct Hx.
  - intros (m & s & Hin & Hx & Hage & Hu). exists (mkEntry p m s). split; [done|].
    apply list_elem_of_filter. split; [simpl; split; [lia|done]|].
    apply list_elem_of_omap. eexists. split; [exact Hin|]. simpl.
    rewrite decide_False by (intros Hn; by apply Hn). done.
Qed.

(** ** A concrete directory *)

Definition demo_dir : list dirent :=
  [mkDirent (str "/k/a.bin") true (Some (30, 400)); mkDirent (str "/k/b.bin") true (Some (10, 500));
   mkDirent (str "/k/c.bin") true (Some (20, 300)); mkDirent (str "/k/c.bin.tmp") true (Some (5, 7));
   mkDirent (str "/k/d.bin.tmp") true (Some (95, 7)); mkDirent (str "/k/sub") false None].

Lemma conv_id_path_safe_witness :
  path_for_conv_id (str "/k") (str "chat_1") = str "/k/chat_1.bin" /\
  extension (path_for_conv_id (str "/k") (str "chat_1")) = str ".bin".
Proof.
  split; [reflexivity|].
  apply (conv_id_path_safe (str "/k") (str "chat_1") (str "b")); done.
Defined.

Lemma enforce_budget_witness :
  let del := enforce_kv_cache_budget (sorting := merge_std_sort) (fun _ => true) (Some demo_dir)
               800 (str "/k/b.bin") in
  del = [mkEntry (str "/k/c.bin") 20 300; mkEntry (str "/k/a.bin") 30 400] /\
  forall e, e ∈ del -> path e <> str "/k/b.bin".
Proof.
  split; [vm_compute; reflexivity|]. intros e He.
  destruct (enforce_budget (laws := merge_std_sort_laws) (fun _ => true) (Some demo_dir) 800
    (str "/k/b.bin")) as (H & _ & _); [lia| | | |].
  - apply (bool_decide_unpack _). vm_compute. done.
  - repeat constructor; simpl; lia.
  - vm_compute. done.
  - by apply (H e He).
Defined.

Lemma cleanup_exact_witness :
  str "/k/c.bin.tmp" ∈ cleanup_stale_tmp_files (fun _ => true) (Some demo_dir) 100 60.
Proof.
  apply (cleanup_exact (fun _ => true) demo_dir 100 60 (str "/k/c.bin.tmp")); [lia|].
  exists 5, 7. split_and!; [|done|lia|done]. unfold demo_dir. set_solver.
Defined.

End KVDir.
