(* ===== verification/Session.v ===== *)
(** * Session: persistent conversations, [Engine::try_hydrate_kv] and the save
    at the end of [Engine::generate] ([src/engine/decode.cu])

    The two ends of the persistent cache: which turns are saved and how the
    header is filled, and how a later turn finds the longest common prefix,
    compacts the saved body and scatters it into the pool.  The file is seen
    through [KVFile], the pool through [KVCache], the directory and the
    identifier rules through [KVDir]. *)

From S2P Require Import Prelude Cuda KVCache KVFile KVDir.

Module Session.
Import KVCache.

(** Exceptions of the standard library and undefined behaviour are outcomes. *)
Inductive outcome (A : Type) := Done (x : A) | Throws | Undefined.
Arguments Done {A} _. Arguments Throws {A}. Arguments Undefined {A}.

(** ** Hydration *)

(** The longest common prefix of the saved identifiers ([uint32_t]) and the
    prompt ([int], cast to [uint32_t]). *)
Fixpoint matched_prefix (cached prompt : list Z) : nat :=
  match cached, prompt with
  | x :: cached, y :: prompt => if x =? u32 y then S (matched_prefix cached prompt) else O
  | _, _ => O
  end.

(** [memcpy] on host buffers; an access outside a buffer is undefined. *)
Definition memcpy (dst : bytes) (d : Z) (src : bytes) (s n : Z) : bool * bytes :=
  sim_memcpy dst d src s n.

(** One layer of the compaction: the first [matched] keys and values of a
    layer of [used] tokens; [false] is undefined behaviour. *)
Definition compact_layer (c : Config) (staging : bytes) (used matched l : Z) (dst : bytes)
  : bool * bytes :=
  let eb := entry_bytes c in
  let half_eb := Z.quot eb 2 in
  let src_layer_stride := i64 (used * eb) in
  let dst_layer_stride := i64 (matched * eb) in
  let matched_keys_bytes := i64 (matched * half_eb) in
  let src_keys := i64 (l * src_layer_stride) in
  let src_vals := i64 (src_keys + used * half_eb) in
  let dst_keys := i64 (l * dst_layer_stride) in
  let dst_vals := i64 (dst_keys + matched_keys_bytes) in
  match memcpy dst dst_keys staging src_keys matched_keys_bytes with
  | (false, dst) => (false, dst)
  | (true, dst) => memcpy dst dst_vals staging src_vals matched_keys_bytes
  end.

Definition compact (c : Config) (staging : bytes) (used matched : Z) : bool * bytes :=
  let size := u64 (n_layers c * i64 (matched * entry_bytes c)) in
  layer_loop (compact_layer c staging used matched) (upto (n_layers c))
             (replicate (Z.to_nat size) Byte.x00).

(** The shape and fingerprint checks; the header fields are cast to [int]. *)
Definition compatible (c : Config) (fingerprint : bytes) (h : KVFile.KVCacheFileHeader) : bool :=
  bool_decide (KVFile.model_hash h = fingerprint) &&
  (i32 (KVFile.n_layers h) =? n_layers c) && (i32 (KVFile.n_kv_heads h) =? n_kv_heads c) &&
  (i32 (KVFile.head_dim h) =? head_dim c) && (i32 (KVFile.max_context h) =? max_context c) &&
  (i32 (KVFile.kv_type_bytes h) =? kv_type_bytes c) &&
  negb (KVFile.used_tokens h =? 0) && (KVFile.used_tokens h <=? u32 (max_context c)).

Section Hydrate.
Context `{cuda : CudaMem}.
(** The answers of the operating system to the reads, and whether a host
    allocation of a number of bytes succeeds. *)
Context (rd : KVFile.Reader) (alloc_ok : Z -> bool).

(** [file] is the content at [path_for_conv_id(dir, conv_id)], if any. *)
Definition try_hydrate_kv (p : t) (fingerprint : bytes) (file : option bytes)
  (prompt : list Z) (conv_id : bytes) : outcome (Z * t) :=
  if bool_decide (conv_id = []) || negb (KVDir.validate_conversation_id conv_id) then Done (0, p)
  else if bool_decide (prompt = []) then Done (0, p)
  else
    match KVFile.peek_kv_header rd file with
    | None => Done (0, p)
    | Some hdr =>
        if negb (compatible (cfg_ p) fingerprint hdr) then Done (0, p)
        else if negb (alloc_ok (KVFile.body_bytes hdr)) then Throws
        else
          match KVFile.load_kv_from_file rd file true (KVFile.body_bytes hdr) with
          | None => Done (0, p)
          | Some (_, cached, staging) =>
              if negb (zlen cached =? KVFile.used_tokens hdr) then Done (0, p)
              else
                let matched := Z.of_nat (matched_prefix cached prompt) in
                if matched =? 0 then Done (0, p)
                else
                  match compact (cfg_ p) staging (KVFile.used_tokens hdr) matched with
                  | (false, _) => Undefined
                  | (true, buf) =>
                      match scatter_from_host p buf matched true with
                      | (false, p) => Done (0, p)
                      | (true, p) => Done (matched, p)
                      end
                  end
          end
    end.

(** ** Saving at the end of a turn *)

Definition MIN_TOKENS_TO_SAVE : Z := 4.

(** The skip rules. *)
Definition should_save (c : Config) (conv_id : bytes) (committed_tokens : Z) (kv_int8 : bool) : bool :=
  negb (bool_decide (conv_id = [])) && KVDir.validate_conversation_id conv_id &&
  negb (committed_tokens <? MIN_TOKENS_TO_SAVE) &&
  negb (max_context c <? committed_tokens) && negb kv_int8.

Definition save_header (c : Config) (fingerprint : bytes) (committed_tokens packed_bytes : Z)
  : KVFile.KVCacheFileHeader :=
  KVFile.mkHeader KVFile.KVCACHE_MAGIC KVFile.KVCACHE_VERSION
    (u32 (n_layers c)) (u32 (n_kv_heads c)) (u32 (head_dim c)) (u32 (kv_type_bytes c))
    (u32 (max_context c)) (u32 committed_tokens) (u64 packed_bytes) fingerprint
    (replicate 56 Byte.x00).

(** [dir_ok]: the answer of [ensure_dir].  The result tells whether a file was
    written. *)
Definition save_turn (os : KVFile.OS) (dir_ok : bool) (p : t) (fingerprint path : bytes)
  (conv_id : bytes) (kv_tokens : list Z) (kv_int8 : bool) (w : KVFile.world)
  : bool * KVFile.world :=
  let committed_tokens := i32 (zlen kv_tokens) in
  if negb (should_save (cfg_ p) conv_id committed_tokens kv_int8) then (false, w)
  else if negb dir_ok then (false, w)
  else
    let packed_bytes := packed_used_bytes (cfg_ p) committed_tokens in
    let hdr := save_header (cfg_ p) fingerprint committed_tokens packed_bytes in
    let staging := replicate (Z.to_nat (u64 packed_bytes)) Byte.x00 in
    match gather_used_to_host p staging committed_tokens with
    | (false, _) => (false, w)
    | (true, staging) =>
        KVFile.save_kv_to_file os path hdr (Some kv_tokens) (u64 committed_tokens)
          staging (u64 packed_bytes) w
    end.

(** What surrounds the files of the cache: the system calls, the directory
    and its listing (a function of its files, and free beyond that), the
    clock and the settings of the environment. *)
Record Disk := mkDisk {
  os : KVFile.OS; reader : KVFile.Reader; env_dir : option bytes; create_error : bool;
  listing : gmap bytes bytes -> option (list KVDir.dirent); unlink_ok : bytes -> bool;
  now : Z; env_stale : option bytes; env_max_mb : option bytes }.

Definition cache_dir (d : Disk) : bytes := KVDir.default_kv_cache_dir (env_dir d).

Definition unlink_all (paths : list bytes) (w : KVFile.world) : KVFile.world :=
  foldl (fun w q => KVFile.tick w (delete q (KVFile.files w))) w paths.

(** The two passes that follow a successful save. *)
Definition housekeep `{KVDir.StdSort} (d : Disk) (path : bytes) (w : KVFile.world) : KVFile.world :=
  let w := unlink_all (KVDir.cleanup_stale_tmp_files (unlink_ok d) (listing d (KVFile.files w)) (now d)
                         (KVDir.default_kv_cache_stale_tmp_s (env_stale d))) w in
  unlink_all (KVDir.path <$> KVDir.enforce_kv_cache_budget (unlink_ok d) (listing d (KVFile.files w))
                (i64 (KVDir.default_kv_cache_max_mb (env_max_mb d) * (1024 * 1024))) path) w.

(** The end of [generate]. *)
Definition persist_turn `{KVDir.StdSort} (d : Disk) (p : t) (fingerprint conv_id : bytes)
  (kv_tokens : list Z) (kv_int8 : bool) (w : KVFile.world) : KVFile.world :=
  let path := KVDir.path_for_conv_id (cache_dir d) conv_id in
  match save_turn (os d) (KVDir.ensure_dir (create_error d)) p fingerprint path conv_id kv_tokens kv_int8 w with
  | (true, w) => housekeep d path w
  | (false, w) => w
  end.

End Hydrate.

(** ** The compaction *)

(** The same shape with another number of token positions. *)
Definition with_context (c : Config) (ctx : Z) : Config :=
  mkConfig (n_layers c) (n_kv_heads c) (head_dim c) ctx 0 (kv_type_bytes c).

(** Compacting a saved body is gathering from a pool of exactly the saved
    tokens. *)
Lemma compact_is_gather c staging used matched :
  compact c staging used matched =
  layer_loop (gather_layer (cuda := sim_cuda) (with_context c used) staging matched)
    (upto (n_layers c))
    (replicate (Z.to_nat (u64 (n_layers c * i64 (matched * entry_bytes c)))) Byte.x00).
Proof.
  destruct c. unfold compact, compact_layer, gather_layer, with_context, entry_bytes.
  cbn [n_layers n_kv_heads head_dim kv_type_bytes max_context cudaMemcpy sim_cuda]. reflexivity.
Qed.

Lemma with_context_ok c used :
  cfg_ok c -> 0 <= used <= max_context c -> cfg_ok (with_context c used).
Proof.
  intros H Hu. pose proof (half_pos c H). pose proof (pool_bound c (n_layers c) used H) as Hb.
  destruct H. constructor; simpl; try done; try lia.
  unfold half in *. simpl. lia.
Qed.

Lemma matched_prefix_bound cached prompt :
  (matched_prefix cached prompt <= length cached)%nat /\
  (matched_prefix cached prompt <= length prompt)%nat.
Proof.
  revert prompt. induction cached as [|x cached IH]; intros [|y prompt]; simpl; try lia.
  destruct (x =? u32 y); [|lia]. destruct (IH prompt). lia.
Qed.

(** The matched length is the longest common prefix. *)
Lemma matched_prefix_spec cached prompt :
  take (matched_prefix cached prompt) cached =
    u32 <$> take (matched_prefix cached prompt) prompt /\
  (forall x y, cached !! matched_prefix cached prompt = Some x ->
     prompt !! matched_prefix cached prompt = Some y -> x <> u32 y).
Proof.
  revert prompt. induction cached as [|x cached IH]; intros [|y prompt]; simpl; try done.
  destruct (Z.eqb_spec x (u32 y)) as [->|Hne].
  - destruct (IH prompt) as [IH1 IH2]. split; [|exact IH2]. simpl. by f_equal.
  - split; [done|]. by intros ? ? [= <-] [= <-].
Qed.

Lemma sim_memcpy_ok dst d src s n :
  0 <= d -> 0 <= s -> 0 <= n -> d + n <= zlen dst -> s + n <= zlen src ->
  exists dst', sim_memcpy dst d src s n = (true, dst') /\ zlen dst' = zlen dst.
Proof.
  intros. unfold sim_memcpy.
  assert (exists bs, peek_at src s n = Some bs) as [bs Hb]
    by (apply in_block_peek, in_block_true; lia).
  rewrite Hb. pose proof (peek_at_length _ _ _ _ Hb).
  destruct (poke_at_is_Some dst d bs) as [dst' Hd]; [lia|lia|]. rewrite Hd.
  exists dst'. split; [done|]. by eapply poke_at_length.
Qed.

Lemma layer_loop_true (body : Z -> bytes -> bool * bytes) ls N d :
  (forall l d, l ∈ ls -> zlen d = N -> exists d', body l d = (true, d') /\ zlen d' = N) ->
  zlen d = N -> exists d', layer_loop body ls d = (true, d').
Proof.
  revert d. induction ls as [|l ls IH]; intros d H Hd; [by exists d|]. cbn [layer_loop].
  destruct (H l d) as (d' & -> & Hd'); [by left|done|].
  apply IH; [|done]. intros k e Hk. apply H. by right.
Qed.

(** A gather on the host, in range, always succeeds. *)
Lemma host_gather_ok p gpu dst n :
  pool_ok p gpu -> 0 < n <= max_context (cfg_ p) ->
  n_layers (cfg_ p) * (n * (2 * half (cfg_ p))) <= zlen dst ->
  exists buf, layer_loop (gather_layer (cuda := sim_cuda) (cfg_ p) gpu n) (upto (n_layers (cfg_ p))) dst
              = (true, buf).
Proof.
  intros [H Hg Hlen] Hn Hd. set (c := cfg_ p) in *. pose proof (half_pos c H).
  pose proof (ok_overflow c H). apply layer_loop_true with (N := zlen dst); [|done].
  intros l d Hl%elem_of_upto Hzd.
  destruct (slab_bounds c l n) as (? & ? & ? & ?); [done|lia..|].
  destruct (slab_bounds c l (max_context c)) as (? & ? & ? & ?); [done|lia..|].
  unfold gather_layer. rewrite half_entry, entry_bytes_eq by done. cbv zeta. nowrap.
  assert (n * half c <= max_context c * half c) by nia. cbn [cudaMemcpy sim_cuda].
  destruct (sim_memcpy_ok d (l * (n * (2 * half c))) gpu (l * (max_context c * (2 * half c)))
    (n * half c)) as (d1 & -> & Hd1); [lia..|].
  destruct (sim_memcpy_ok d1 (l * (n * (2 * half c)) + n * half c) gpu
    (l * (max_context c * (2 * half c)) + max_context c * half c) (n * half c))
    as (d2 & E2 & Hd2); [lia..|]. exists d2. split; [done|lia].
Qed.

Lemma packed_eq c n :
  cfg_ok c -> 0 < n <= max_context c ->
  packed_used_bytes c n = n_layers c * (n * (2 * half c)) /\
  0 <= n_layers c * (n * (2 * half c)) < 2 ^ 63.
Proof.
  intros H Hn. pose proof (ok_overflow c H). pose proof (ok_layers c H).
  destruct (slab_bounds c 0 n) as (? & ? & ? & ?); [done|lia..|].
  unfold packed_used_bytes. destruct (Z.leb_spec n 0); [lia|].
  rewrite entry_bytes_eq by done. rewrite i64_id by lia. lia.
Qed.

(** The compacted buffer holds, slot by slot, what the saved body holds. *)
Lemma compact_slots c staging used matched :
  cfg_ok c -> 0 < matched <= used -> used <= max_context c ->
  zlen staging = n_layers c * (used * (2 * half c)) ->
  exists buf, compact c staging used matched = (true, buf) /\
    zlen buf = n_layers c * (matched * (2 * half c)) /\
    forall l pos v, 0 <= l < n_layers c -> 0 <= pos < matched ->
      peek_at buf (slot_off (half c) matched l pos v) (half c) =
      peek_at staging (slot_off (half c) used l pos v) (half c).
Proof.
  intros H Hm Hu Hs. set (c' := with_context c used).
  assert (H' : cfg_ok c') by (apply with_context_ok; [done|lia]).
  set (q := mkPool c' (Some staging) None None 0 0).
  assert (Hq : pool_ok q staging) by (constructor; done).
  destruct (packed_eq c' matched H') as [_ Hb]; [simpl; lia|].
  change (half c') with (half c) in Hb. change (n_layers c') with (n_layers c) in Hb.
  set (dst := replicate (Z.to_nat (u64 (n_layers c * i64 (matched * entry_bytes c)))) Byte.x00).
  pose proof (half_pos c H). pose proof (ok_layers c H).
  assert (Hbm : 0 <= matched * (2 * half c) <= n_layers c * (matched * (2 * half c))) by nia.
  assert (Hd : zlen dst = n_layers c * (matched * (2 * half c))).
  { unfold dst, zlen. rewrite length_replicate, entry_bytes_eq by done.
    rewrite i64_id, u64_id by lia. lia. }
  destruct (host_gather_ok q staging dst matched) as [buf E];
    [done|simpl; lia|rewrite Hd; apply Z.le_refl|].
  exists buf. rewrite compact_is_gather. fold c' dst. split; [exact E|].
  assert (EG : gather_used_to_host (cuda := sim_cuda) q dst matched = (true, buf)).
  { unfold gather_used_to_host. simpl. destruct (Z.leb_spec matched 0); [lia|].
    destruct (Z.ltb_spec used matched); [lia|]. exact E. }
  assert (Hslot := gather_slot (cuda_laws := sim_cuda_laws) q staging dst matched buf).
  split.
  - destruct (Hslot 0 0 false Hq) as (_ & Hl & _);
      [rewrite Hd; apply Z.le_refl|done|simpl; lia|lia|]. lia.
  - intros l pos v Hl Hp. destruct (Hslot l pos v Hq) as (_ & _ & Hr);
      [rewrite Hd; apply Z.le_refl|done|done|done|].
    change (half c') with (half c) in Hr. change (cfg_ q) with c' in Hr.
    change (half c') with (half c) in Hr. rewrite Hr.
    unfold read_slot. rewrite slot_ptr_eq by (simpl; done || lia). simpl.
    destruct (Z.ltb_spec pos used); [|lia]. done.
Qed.

(** ** A conversation across turns *)

(** The configuration fields are C [int]s. *)
Record int_config (c : Config) : Prop := {
  ic_ok : cfg_ok c;
  ic_layers : n_layers c < 2 ^ 31; ic_heads : n_kv_heads c < 2 ^ 31;
  ic_dim : head_dim c < 2 ^ 31; ic_type : kv_type_bytes c < 2 ^ 31 }.

Lemma save_header_ok c fp n packed :
  length fp = 32%nat -> KVFile.header_ok (save_header c fp n packed).
Proof. intros. constructor; simpl; auto with width; done. Qed.

Lemma save_header_compatible c fp n packed :
  int_config c -> 0 < n <= max_context c ->
  compatible c fp (save_header c fp n packed) = true.
Proof.
  intros [H ? ? ? ?] Hn. destruct H. unfold compatible, save_header. simpl.
  nowrap.
  rewrite bool_decide_true, !Z.eqb_refl by done.
  destruct (Z.eqb_spec n 0), (Z.leb_spec n (max_context c)); done || lia.
Qed.

Section Turns.
Context `{cuda : CudaMem} {cuda_laws : CudaMemLaws}.

(** A file that holds the rows [slots] of the tokens [ts]: what a save leaves
    at its path. *)
Definition holds_turn (c : Config) (fp : bytes) (slots : Z -> Z -> bool -> option bytes)
  (ts : list Z) (file : bytes) : Prop :=
  4 <= zlen ts <= max_context c /\
  exists body, file = KVFile.image (save_header c fp (zlen ts) (zlen body)) ts body /\
    zlen body = n_layers c * (zlen ts * (2 * half c)) /\
    forall l pos v, 0 <= l < n_layers c -> 0 <= pos < zlen ts ->
      peek_at body (slot_off (half c) (zlen ts) l pos v) (half c) = slots l pos v.

(** The two ends of a save: nothing but a temporary was written, or the file of
    the turn was renamed into place. *)
Lemma save_turn_cases os dir_ok p gpu fp path conv ts int8 w r w' :
  int_config (cfg_ p) -> pool_ok p gpu -> length fp = 32%nat -> zlen ts < 2 ^ 31 ->
  save_turn os dir_ok p fp path conv ts int8 w = (r, w') ->
  r = false /\ KVFile.only_touches (KVFile.tmp_of path) w w' \/
  r = true /\ (conv <> [] /\ KVDir.validate_conversation_id conv = true /\ int8 = false) /\
  exists w1 file, KVFile.only_touches (KVFile.tmp_of path) w w1 /\
    w' = KVFile.tick w1 (<[path := file]> (delete (KVFile.tmp_of path) (KVFile.files w1))) /\
    holds_turn (cfg_ p) fp (read_slot p) ts file.
Proof.
  intros Hic Hp Hfp Hts E. pose proof (ic_ok _ Hic) as H. pose proof (zlen_nonneg ts).
  assert (Hskip : (false, w) = (r, w') -> r = false /\ KVFile.only_touches (KVFile.tmp_of path) w w')
    by (intros [= <- <-]; split; [done|apply KVFile.only_touches_refl]).
  unfold save_turn in E. rewrite i32_id in E by lia.
  destruct (should_save (cfg_ p) conv (zlen ts) int8) eqn:Es; [|left; by apply Hskip].
  unfold should_save in Es. rewrite !andb_true_iff, !negb_true_iff in Es.
  destruct Es as [[[[Hne Hv] Hmin] Hmax] Hint]. apply bool_decide_eq_false in Hne.
  unfold MIN_TOKENS_TO_SAVE in Hmin. apply Z.ltb_ge in Hmin, Hmax.
  destruct dir_ok; [|left; by apply Hskip]. cbn [negb] in E.
  destruct (packed_eq (cfg_ p) (zlen ts) H) as [Epk Hpk]; [lia|].
  set (pk := packed_used_bytes (cfg_ p) (zlen ts)) in *.
  set (stg := replicate (Z.to_nat (u64 pk)) Byte.x00) in *.
  assert (Hstg : zlen stg = pk).
  { unfold stg, zlen. rewrite length_replicate, u64_id by lia. lia. }
  destruct (gather_used_to_host p stg (zlen ts)) as [[] body] eqn:EG; [|left; by apply Hskip].
  assert (Hslot := gather_slot p gpu stg (zlen ts) body).
  assert (Hbl : zlen body = pk).
  { destruct (Hslot 0 0 false Hp) as (_ & Hl & _); [lia|done|pose proof (ok_layers _ H); lia|lia|].
    lia. }
  assert (Hok : KVFile.header_ok (save_header (cfg_ p) fp (zlen ts) pk)) by by apply save_header_ok.
  assert (Hnn : 0 <= u64 (zlen ts)) by apply u64_range.
  destruct (KVFile.save_cases _ _ _ _ _ _ _ _ _ _ Hok Hnn E) as [?|(Hr & w1 & T & ->)]; [by left|].
  right. split_and!; try done. eexists w1, _. split; [exact T|]. split; [done|]. split; [lia|].
  exists body. split_and!.
  - simpl. rewrite Hbl. rewrite !u64_id by lia. rewrite !take_ge by (unfold zlen in *; lia). done.
  - lia.
  - intros l pos v Hl Hpos. destruct (Hslot l pos v Hp) as (_ & _ & Hrow); [lia|done..|]. exact Hrow.
Qed.

(** What a successful save leaves at the path. *)
Lemma save_turn_image os dir_ok p gpu fp path conv ts int8 fs w' :
  int_config (cfg_ p) -> pool_ok p gpu -> length fp = 32%nat -> zlen ts < 2 ^ 31 ->
  save_turn os dir_ok p fp path conv ts int8 (KVFile.W fs []) = (true, w') ->
  conv <> [] /\ KVDir.validate_conversation_id conv = true /\ int8 = false /\
  exists file, KVFile.files w' !! path = Some file /\ holds_turn (cfg_ p) fp (read_slot p) ts file.
Proof.
  intros Hic Hp Hfp Hts E.
  destruct (save_turn_cases _ _ _ _ _ _ _ _ _ _ _ _ Hic Hp Hfp Hts E)
    as [[? _]|(_ & (? & ? & ?) & w1 & file & _ & -> & Hf)]; [done|].
  split_and!; try done. exists file. split; [apply lookup_insert_eq|exact Hf].
Qed.

(** In every state of the save a file other than the temporary is as before, or
    is the finished file of the turn. *)
Lemma save_turn_states os dir_ok p gpu fp path conv ts int8 fs s q :
  int_config (cfg_ p) -> pool_ok p gpu -> length fp = 32%nat -> zlen ts < 2 ^ 31 ->
  s ∈ KVFile.visited (save_turn os dir_ok p fp path conv ts int8 (KVFile.W fs [])).2 ->
  q <> KVFile.tmp_of path ->
  s !! q = fs !! q \/
  q = path /\ int8 = false /\ exists file, s !! q = Some file /\ holds_turn (cfg_ p) fp (read_slot p) ts file.
Proof.
  intros Hic Hp Hfp Hts Hs Hq.
  destruct (save_turn _ _ _ _ _ _ _ _ _) as [r w'] eqn:E. cbn [snd] in Hs.
  destruct (save_turn_cases _ _ _ _ _ _ _ _ _ _ _ _ Hic Hp Hfp Hts E)
    as [[_ T]|(_ & (_ & _ & Hi) & w1 & file & T & -> & Hf)].
  - left. by eapply KVFile.touched_states.
  - destruct (KVFile.renamed_states _ _ _ _ _ _ q T Hs Hq) as [?|[? ?]]; [by left|right; eauto 6].
Qed.

(** Removing files. *)
Lemma unlink_all_states paths w s :
  s ∈ KVFile.visited (unlink_all paths w) ->
  exists s0, s0 ∈ KVFile.visited w /\ forall q, s !! q = s0 !! q \/ s !! q = None.
Proof.
  revert w. unfold unlink_all. induction paths as [|x paths IH]; intros w; cbn [foldl]; [by exists s; auto|].
  intros Hs. destruct (IH _ Hs) as (s1 & [->|H1]%elem_of_cons & Hq); [|by exists s1].
  exists (KVFile.files w). split; [left|]. intros q.
  destruct (Hq q) as [->| ->]; [|by right]. destruct (decide (x = q)) as [->|].
  - right. apply lookup_delete_eq.
  - left. by apply lookup_delete_ne.
Qed.

(** In every state of the end of a turn, and so after a crash in it, a file is
    as before, or gone, or the finished file of the turn. *)
Lemma persist_turn_states `{KVDir.StdSort} d p gpu fp conv ts int8 fs s q :
  int_config (cfg_ p) -> pool_ok p gpu -> length fp = 32%nat -> zlen ts < 2 ^ 31 ->
  s ∈ KVFile.visited (persist_turn d p fp conv ts int8 (KVFile.W fs [])) ->
  q <> KVFile.tmp_of (KVDir.path_for_conv_id (cache_dir d) conv) ->
  s !! q = fs !! q \/ s !! q = None \/
  int8 = false /\ exists file, s !! q = Some file /\ holds_turn (cfg_ p) fp (read_slot p) ts file.
Proof.
  intros Hic Hp Hfp Hts Hs Hq. unfold persist_turn in Hs.
  set (path := KVDir.path_for_conv_id (cache_dir d) conv) in *.
  pose proof (save_turn_states (os d) (KVDir.ensure_dir (create_error d)) p gpu fp path conv ts int8 fs)
    as Hst.
  destruct (save_turn _ _ _ _ path _ _ _ _) as [r w1] eqn:E. cbn [snd] in Hst.
  assert (Hsv : exists s0, s0 ∈ KVFile.visited w1 /\ forall q, s !! q = s0 !! q \/ s !! q = None).
  { destruct r; [|by eauto]. unfold housekeep in Hs. apply unlink_all_states in Hs as (s1 & Hs1 & H1).
    apply unlink_all_states in Hs1 as (s0 & Hs0 & H0). exists s0. split; [done|]. intros q'.
    destruct (H1 q') as [->| ->]; [apply H0|by right]. }
  destruct Hsv as (s0 & Hs0 & H0). destruct (H0 q) as [->| ->]; [|auto].
  destruct (Hst s0 q Hic Hp Hfp Hts Hs0 Hq) as [?|[_ ?]]; auto.
Qed.

(** Hydration from such a file. *)
Lemma hydrate_holds rd alloc_ok q gq fp conv ts prompt slots file :
  int_config (cfg_ q) -> pool_ok q gq -> length fp = 32%nat ->
  Forall (fun x => 0 <= x < 2 ^ 32) ts -> prompt <> [] -> conv <> [] ->
  KVDir.validate_conversation_id conv = true ->
  KVFile.reader_ok rd -> (forall n, alloc_ok n = true) -> holds_turn (cfg_ q) fp slots ts file ->
  let m := Z.of_nat (matched_prefix ts prompt) in
  exists r q' gq', try_hydrate_kv rd alloc_ok q fp (Some file) prompt conv = Done (r, q') /\
    pool_ok q' gq' /\ cfg_ q' = cfg_ q /\ (r = 0 \/ r = m) /\
    ((forall buf, (scatter_from_host q buf m true).1 = true) -> r = m) /\
    (0 < r -> forall l pos v, 0 <= l < n_layers (cfg_ q) -> 0 <= pos < max_context (cfg_ q) ->
       read_slot q' l pos v =
       if pos <? m then slots l pos v else Some (replicate (Z.to_nat (half (cfg_ q))) Byte.x00)).
Proof.
  intros Hic Hq Hfp Hu Hprompt Hne Hv Hrd Halloc (Hn & body & -> & Hbody & Hslots) m.
  pose proof (ic_ok _ Hic) as H. set (hdr := save_header _ _ _ _).
  destruct (packed_eq (cfg_ q) (zlen ts) H) as [_ Hpk]; [lia|]. pose proof (ok_tokens _ H) as Hot.
  pose proof (ok_overflow _ H).
  assert (Eu : KVFile.used_tokens hdr = zlen ts) by (simpl; apply u32_id; lia).
  assert (Eb : KVFile.body_bytes hdr = zlen body) by (simpl; apply u64_id; lia).
  destruct (KVFile.load_image rd hdr ts body (zlen body) Hrd) as [El Epk];
    [by apply save_header_ok|done|done|done|done|done|lia|lia|].
  unfold try_hydrate_kv. rewrite Epk, Hv, Halloc, Eb, El, Eu, Z.eqb_refl.
  rewrite !bool_decide_false by done. unfold hdr. rewrite save_header_compatible by (done || lia).
  cbn [orb negb]. fold m. destruct (matched_prefix_bound ts prompt) as [Hb1 _].
  destruct (Z.eqb_spec m 0) as [Em|Em].
  { exists 0, q, gq. split_and!; [done|done|done|by left|by rewrite Em|lia]. }
  assert (Hm : 0 < m <= zlen ts) by (unfold m, zlen in *; lia).
  destruct (compact_slots (cfg_ q) body (zlen ts) m H) as (buf & -> & Hbuf & Hcs); [lia..|].
  destruct (scatter_keeps_pool q gq buf m true Hq) as (gq' & Hok' & Hcfg').
  destruct (scatter_from_host q buf m true) as [[] q'] eqn:Esc; cbn [snd] in *.
  - exists m, q', gq'. split_and!; [done|done|done|by right|done|]. intros _ l pos v Hl Hpos.
    destruct (scatter_slot q gq buf m true q' Hq) as (_ & _ & _ & _ & _ & Hs); [lia|done|].
    rewrite Hs by done. destruct (Z.ltb_spec pos m); [|done]. rewrite Hcs by (done || lia).
    apply Hslots; lia.
  - exists 0, q', gq'. split_and!; [done|done|done|by left| |lia]. intros Hall. specialize (Hall buf).
    by rewrite Esc in Hall.
Qed.

(** C7: A conversation resumes exactly.  After a turn whose state was saved, a
    later turn of the same model and shape finds the longest common prefix of
    the saved tokens and the new prompt and, when the device copies succeed,
    restores the key and the value of every layer for those positions byte for
    byte and clears the rest of the fast pool; it never reads outside the saved
    body and never throws. *)
Theorem session_resumes (os : KVFile.OS) (rd : KVFile.Reader) (alloc_ok : Z -> bool) (dir_ok int8 : bool)
  (p q : t) (gp gq fp path conv : bytes) (ts prompt : list Z) (fs : gmap bytes bytes)
  (w' : KVFile.world) :
  int_config (cfg_ p) -> pool_ok p gp -> pool_ok q gq -> cfg_ q = cfg_ p ->
  length fp = 32%nat -> Forall (fun x => 0 <= x < 2 ^ 32) ts -> zlen ts < 2 ^ 31 -> prompt <> [] ->
  KVFile.reader_ok rd -> (forall n, alloc_ok n = true) ->
  save_turn os dir_ok p fp path conv ts int8 (KVFile.W fs []) = (true, w') ->
  let m := Z.of_nat (matched_prefix ts prompt) in
  exists r q', try_hydrate_kv rd alloc_ok q fp (KVFile.files w' !! path) prompt conv = Done (r, q') /\
    (r = 0 \/ r = m) /\
    ((forall buf, (scatter_from_host q buf m true).1 = true) -> r = m) /\
    (0 < r -> forall l pos v, 0 <= l < n_layers (cfg_ p) -> 0 <= pos < max_context (cfg_ p) ->
       read_slot q' l pos v =
       if pos <? m then read_slot p l pos v
       else Some (replicate (Z.to_nat (half (cfg_ p))) Byte.x00)).
Proof.
  intros Hic Hp Hq Hc Hfp Hu Hts Hprompt Hrd Halloc E m.
  apply save_turn_image with (gpu := gp) in E as (Hne & Hv & _ & file & -> & Hfile); [|done..].
  rewrite <- Hc in Hic, Hfile. destruct (hydrate_holds rd alloc_ok q gq fp conv ts prompt
    (read_slot p) file Hic Hq)
    as (r & q' & _ & Eh & _ & _ & H1 & H2 & H3); [done..|].
  rewrite Hc in H3. by exists r, q'.
Qed.

End Turns.

(** The matched length is exactly the longest common prefix of the saved
    identifiers and the prompt: the tokens agree up to it and differ, or one
    list ends, right after it. *)
Theorem matched_prefix_longest (cached prompt : list Z) :
  let m := matched_prefix cached prompt in
  take m cached = u32 <$> take m prompt /\
  (forall x y, cached !! m = Some x -> prompt !! m = Some y -> x <> u32 y) /\
  (m <= length cached)%nat /\ (m <= length prompt)%nat.
Proof.
  intros m. destruct (matched_prefix_spec cached prompt), (matched_prefix_bound cached prompt).
  done.
Qed.

(** ** A concrete conversation *)

(** Two layers, one-byte keys, six positions; five committed tokens. *)
Definition demo_cfg : Config := mkConfig 2 1 1 6 0 2.
Definition demo_gpu : bytes := zb <$> upto 48.
Definition demo_pool : t := mkPool demo_cfg (Some demo_gpu) None None 0 0.
Definition demo_fresh : t := mkPool demo_cfg (Some (replicate 48 Byte.xff)) None None 0 0.
Definition demo_fp : bytes := replicate 32 Byte.x5a.
Definition demo_ts : list Z := [7; 8; 9; 10; 11].

Lemma demo_int_config : int_config demo_cfg.
Proof. constructor; [constructor; ground|ground..]. Qed.

Definition demo_saved : KVFile.world :=
  (save_turn (cuda := sim_cuda) KVFile.demo_os true demo_pool demo_fp KVFile.demo_path (str "c1")
     demo_ts false (KVFile.W ∅ [])).2.

Lemma demo_save_true :
  save_turn (cuda := sim_cuda) KVFile.demo_os true demo_pool demo_fp KVFile.demo_path (str "c1")
    demo_ts false (KVFile.W ∅ []) = (true, demo_saved).
Proof. vm_compute. reflexivity. Qed.

Lemma session_resumes_witness :
  exists r q', try_hydrate_kv (cuda := sim_cuda) KVFile.demo_reader (fun _ => true) demo_fresh demo_fp
    (KVFile.files demo_saved !! KVFile.demo_path) [7; 8; 9; 12] (str "c1") = Done (r, q') /\
    (0 < r -> read_slot q' 1 2 true = read_slot demo_pool 1 2 true).
Proof.
  destruct (session_resumes (cuda := sim_cuda) (cuda_laws := sim_cuda_laws) KVFile.demo_os
    KVFile.demo_reader (fun _ => true) true false demo_pool demo_fresh demo_gpu (replicate 48 Byte.xff)
    demo_fp KVFile.demo_path (str "c1") demo_ts [7; 8; 9; 12] ∅ demo_saved)
    as (r & q' & E & _ & _ & Hs).
  - exact demo_int_config.
  - constructor; [apply demo_int_config|reflexivity|vm_compute; reflexivity].
  - constructor; [apply demo_int_config|reflexivity|vm_compute; reflexivity].
  - reflexivity.
  - reflexivity.
  - repeat (apply Forall_cons; split; [lia|]). by constructor.
  - vm_compute. reflexivity.
  - discriminate.
  - exact KVFile.demo_reader_ok.
  - reflexivity.
  - exact demo_save_true.
  - exists r, q'. split; [exact E|]. intros Hr. rewrite (Hs Hr 1 2 true); [reflexivity|ground|ground].
Defined.

(** ** The body size is not checked against the shape *)

(** A file that announces five tokens of the right shape and an empty body. *)
Definition hollow_header : KVFile.KVCacheFileHeader := save_header demo_cfg demo_fp 5 0.


End Session.
