(* ===== verification/Bpe.v ===== *)
(** * Bpe: the byte-level text machinery of [src/engine/tokenizer.cpp]

    UTF-8 lengths, the GPT-2 byte alphabet, symbol splitting, the ASCII
    pre-tokenizer and the pair-merge loop.  A position in a string is modelled
    by the suffix that starts there: none of these functions looks back. *)

From S2P Require Import Prelude CLib.

Module Bpe.

(** ** UTF-8 *)

Definition utf8_from_codepoint (cp : Z) : bytes :=
  if cp <=? 0x7F then [zb cp]
  else if cp <=? 0x7FF then
    [zb (Z.lor 0xC0 (Z.shiftr cp 6)); zb (Z.lor 0x80 (Z.land cp 0x3F))]
  else if cp <=? 0xFFFF then
    [zb (Z.lor 0xE0 (Z.shiftr cp 12)); zb (Z.lor 0x80 (Z.land (Z.shiftr cp 6) 0x3F));
     zb (Z.lor 0x80 (Z.land cp 0x3F))]
  else
    [zb (Z.lor 0xF0 (Z.shiftr cp 18)); zb (Z.lor 0x80 (Z.land (Z.shiftr cp 12) 0x3F));
     zb (Z.lor 0x80 (Z.land (Z.shiftr cp 6) 0x3F)); zb (Z.lor 0x80 (Z.land cp 0x3F))].

Definition utf8_len (b : byte) : nat :=
  let c := bz b in
  if Z.land c 0x80 =? 0 then 1
  else if Z.land c 0xE0 =? 0xC0 then 2
  else if Z.land c 0xF0 =? 0xE0 then 3
  else if Z.land c 0xF8 =? 0xF0 then 4
  else 1.

(** [len = utf8_len(s[i]); if (i + len > s.size()) len = 1] *)
Definition symbol_len (b : byte) (s : bytes) : nat :=
  let len := utf8_len b in if (length (b :: s) <? len)%nat then 1%nat else len.

Fixpoint split_fuel (k : nat) (s : bytes) : list bytes :=
  match k, s with
  | S k, b :: s' => take (symbol_len b s') s :: split_fuel k (drop (symbol_len b s') s)
  | _, _ => []
  end.

(** Every iteration consumes at least one byte. *)
Definition split_utf8_symbols (text : bytes) : list bytes := split_fuel (length text) text.

(** ** The GPT-2 byte alphabet *)

Definition irange (lo hi : Z) : list Z := (fun i => lo + i) <$> upto (hi - lo + 1).

(** The loop of [byte_encoder] over [b = 0 .. 255] that appends the bytes
    missing from [bs]. *)
Definition add_missing (acc : list Z * list Z * Z) (b : Z) : list Z * list Z * Z :=
  let '(bs, cs, n) := acc in
  if decide (b ∈ bs) then acc else (bs ++ [b], cs ++ [256 + n], n + 1).

Definition byte_encoder : list bytes :=
  let bs := irange 33 126 ++ irange 0xA1 0xAC ++ irange 0xAE 0xFF in
  let '(bs, cs, _) := foldl add_missing (bs, bs, 0) (upto 256) in
  foldl (fun out p => <[Z.to_nat p.1 := utf8_from_codepoint p.2]> out)
        (replicate 256 []) (zip bs cs).

(** [enc[c]], [c] an [unsigned char] *)
Definition enc (b : byte) : bytes := nth (Z.to_nat (bz b)) byte_encoder [].

Definition byte_decoder : gmap bytes byte :=
  foldl (fun out i => <[nth (Z.to_nat i) byte_encoder [] := zb i]> out) ∅ (upto 256).

Definition encode_bytes_gpt2 (text : bytes) : bytes := concat (enc <$> text).

(** ** The ASCII pre-tokenizer *)

Definition quote : byte := "'"%byte.
Definition blank : byte := " "%byte.

Definition contractions : list bytes :=
  [str "s"; str "t"; str "re"; str "ve"; str "m"; str "ll"; str "d"].

(** The first contraction that follows a quote. *)
Definition contraction (s : bytes) : option bytes :=
  match s with
  | b :: rest =>
      if Byte.eqb b quote
      then List.find (fun c => starts_with c rest) contractions
      else None
  | [] => None
  end.

Definition is_other (b : byte) : bool := negb (isspace b) && negb (isalpha b) && negb (isdigit b).

(** One iteration of the loop: the piece and the rest of the text. *)
Definition next_piece (s : bytes) : bytes * bytes :=
  match contraction s with
  | Some c => (take (S (length c)) s, drop (S (length c)) s)
  | None =>
      let '(lead, t) :=
        match s with
        | b :: (b' :: _) as t => if Byte.eqb b blank && negb (isspace b') then ([b], t) else ([], s)
        | _ => ([], s)
        end in
      let '(body, rest) :=
        match t with
        | b :: _ => if isalpha b then span isalpha t
                    else if isdigit b then span isdigit t
                    else if negb (isspace b) then span is_other t
                    else span isspace t
        | [] => ([], [])
        end in
      (lead ++ body, rest)
  end.

Fixpoint pretokenize_fuel (k : nat) (s : bytes) : list bytes :=
  match k, s with
  | S k, _ :: _ => let '(p, r) := next_piece s in p :: pretokenize_fuel k r
  | _, _ => []
  end.

Definition pretokenize_ascii (text : bytes) : list bytes := pretokenize_fuel (length text) text.

(** ** Pair merging *)

Definition bpe_key (a b : bytes) : bytes := a ++ ["010"%byte] ++ b.

(** The scan for the pair of least rank: [best] is [(best_rank, best_idx)];
    [None] stands for [best_idx == symbols.size()]. *)
Fixpoint best_pair (ranks : gmap bytes Z) (symbols : list bytes) (i : nat)
  (best_rank : Z) (best_idx : option nat) : option nat :=
  match symbols with
  | a :: (b :: _) as rest =>
      match ranks !! bpe_key a b with
      | Some r => if r <? best_rank then best_pair ranks rest (S i) r (Some i)
                  else best_pair ranks rest (S i) best_rank best_idx
      | None => best_pair ranks rest (S i) best_rank best_idx
      end
  | _ => best_idx
  end.

(** [symbols[i] += symbols[i + 1]; erase(i + 1)] *)
Fixpoint merge_at (i : nat) (symbols : list bytes) : list bytes :=
  match i, symbols with
  | O, a :: b :: rest => (a ++ b) :: rest
  | S i, a :: rest => a :: merge_at i rest
  | _, _ => symbols
  end.

Fixpoint merge_loop (k : nat) (ranks : gmap bytes Z) (symbols : list bytes) : list bytes :=
  match k with
  | O => symbols
  | S k =>
      if (1 <? length symbols)%nat then
        match best_pair ranks symbols 0 INT_MAX None with
        | None => symbols
        | Some i => merge_loop k ranks (merge_at i symbols)
        end
      else symbols
  end.

(** Every iteration removes one symbol. *)
Definition bpe_merge (ranks : gmap bytes Z) (symbols : list bytes) : list bytes :=
  merge_loop (length symbols) ranks symbols.

(** ** Symbol splitting *)

Lemma utf8_len_range b : (1 <= utf8_len b <= 4)%nat.
Proof. unfold utf8_len. repeat case_match; lia. Qed.

Lemma symbol_len_range b s : (1 <= symbol_len b s <= length (b :: s))%nat.
Proof.
  unfold symbol_len. pose proof (utf8_len_range b).
  destruct (Nat.ltb_spec (length (b :: s)) (utf8_len b)); simpl in *; lia.
Qed.

Lemma split_fuel_concat k s : (length s <= k)%nat -> concat (split_fuel k s) = s.
Proof.
  revert s; induction k as [|k IH]; intros [|b s] Hk; try done; [simpl in Hk; lia|].
  cbn [split_fuel]. pose proof (symbol_len_range b s). cbn [concat].
  rewrite IH by (rewrite length_drop; simpl in *; lia). apply take_drop.
Qed.

Lemma split_fuel_nonempty k s : Forall (fun x => x <> []) (split_fuel k s).
Proof.
  revert s; induction k as [|k IH]; intros [|b s]; try constructor; [|apply IH].
  pose proof (symbol_len_range b s). by destruct (symbol_len b s); [lia|].
Qed.

(** A complete symbol announces its own length. *)
Definition is_symbol (x : bytes) : Prop :=
  match x with [] => False | b :: _ => utf8_len b = length x end.

Lemma symbol_len_full b x r : utf8_len b = length (b :: x) -> symbol_len b (x ++ r) = length (b :: x).
Proof.
  intros H. unfold symbol_len. rewrite H. case_match eqn:E; [|done].
  apply Nat.ltb_lt in E. simpl in E. rewrite length_app in E. lia.
Qed.

Lemma split_fuel_symbols k xs :
  Forall is_symbol xs -> (length (concat xs) <= k)%nat -> split_fuel k (concat xs) = xs.
Proof.
  intros Hxs. revert k. induction Hxs as [|x xs Hx _ IH]; intros k Hk.
  { by destruct k. }
  destruct x as [|b x]; [done|]. simpl in Hx. cbn [concat] in *.
  destruct k as [|k]; [simpl in Hk; lia|]. rewrite <- app_comm_cons in *. cbn [split_fuel].
  rewrite symbol_len_full by done. rewrite app_comm_cons.
  rewrite take_app_length, drop_app_length. f_equal. apply IH.
  simpl in Hk. rewrite length_app in Hk. lia.
Qed.

Lemma split_concat_symbols xs : Forall is_symbol xs -> split_utf8_symbols (concat xs) = xs.
Proof. intros. by apply split_fuel_symbols. Qed.

(** ** The byte alphabet, checked over all 256 bytes *)

Definition all_bytes : list byte := zb <$> upto 256.

Lemma elem_of_all_bytes b : b ∈ all_bytes.
Proof.
  apply list_elem_of_fmap. exists (bz b). split; [by rewrite zb_bz|].
  apply elem_of_upto. pose proof (bz_range b). lia.
Qed.

Lemma byte_forall (P : byte -> bool) : forallb P all_bytes = true -> forall b, P b = true.
Proof.
  intros H b. rewrite forallb_forall in H. apply H, list_elem_of_In, elem_of_all_bytes.
Qed.

Definition enc_ok (b : byte) : bool :=
  bool_decide (byte_decoder !! enc b = Some b) &&
  match enc b with
  | c :: r => (utf8_len c =? S (length r))%nat && (length (enc b) <=? 2)%nat &&
              forallb (fun x => negb (Byte.eqb x "010"%byte)) (enc b)
  | [] => false
  end &&
  (if (33 <=? bz b) && (bz b <=? 126) then bool_decide (enc b = [b]) else true).

Lemma enc_ok_all b : enc_ok b = true.
Proof. revert b. apply byte_forall. vm_compute. reflexivity. Qed.

#[global] Opaque byte_encoder enc byte_decoder.

Lemma enc_facts b :
  byte_decoder !! enc b = Some b /\ is_symbol (enc b) /\ (length (enc b) <= 2)%nat /\
  Forall (fun x => x <> "010"%byte) (enc b) /\
  (33 <= bz b <= 126 -> enc b = [b]).
Proof.
  pose proof (enc_ok_all b) as H. unfold enc_ok in H.
  apply andb_true_iff in H as [H H3]. apply andb_true_iff in H as [H1 H2].
  apply bool_decide_eq_true in H1. split_and!; [exact H1|..].
  - unfold is_symbol. destruct (enc b) as [|c r]; [done|].
    rewrite !andb_true_iff, Nat.eqb_eq in H2. simpl. tauto.
  - destruct (enc b) as [|c r]; [done|]. rewrite !andb_true_iff, Nat.leb_le in H2. tauto.
  - destruct (enc b) as [|c r]; [done|]. rewrite !andb_true_iff in H2. destruct H2 as [_ H2].
    apply Forall_forall. intros x Hx ->. rewrite forallb_forall in H2.
    apply list_elem_of_In, H2 in Hx. done.
  - intros Hb. destruct (Z.leb_spec 33 (bz b)), (Z.leb_spec (bz b) 126); try lia.
    simpl in H3. by apply bool_decide_eq_true in H3.
Qed.

Lemma enc_symbol b : is_symbol (enc b).
Proof. exact (proj1 (proj2 (enc_facts b))). Qed.

Lemma dec_enc b : byte_decoder !! enc b = Some b.
Proof. exact (proj1 (enc_facts b)). Qed.

Lemma enc_short b : (length (enc b) <= 2)%nat.
Proof. exact (proj1 (proj2 (proj2 (enc_facts b)))). Qed.

Lemma enc_no_newline b : Forall (fun x => x <> "010"%byte) (enc b).
Proof. exact (proj1 (proj2 (proj2 (proj2 (enc_facts b))))). Qed.

Lemma enc_printable b : 33 <= bz b <= 126 -> enc b = [b].
Proof. exact (proj2 (proj2 (proj2 (proj2 (enc_facts b))))). Qed.

(** The symbols of an encoded text are the codes of its bytes. *)
Lemma split_encode t : split_utf8_symbols (encode_bytes_gpt2 t) = enc <$> t.
Proof.
  apply split_concat_symbols, Forall_fmap, Forall_forall. intros b _. exact (enc_symbol b).
Qed.

Lemma enc_inj a b : enc a = enc b -> a = b.
Proof.
  intros E. pose proof (dec_enc a) as Ha. rewrite E, dec_enc in Ha. by injection Ha.
Qed.

(** The GPT-2 byte alphabet is a reversible code for arbitrary bytes (valid
    UTF-8 or not): each byte has its own symbol of at most two bytes, the
    decoder table inverts it, and an encoded text splits back into exactly the
    symbols of its bytes. *)
Theorem byte_code_reversible (t : bytes) :
  (forall a b, enc a = enc b -> a = b) /\
  (forall b, byte_decoder !! enc b = Some b /\ (length (enc b) <= 2)%nat) /\
  split_utf8_symbols (encode_bytes_gpt2 t) = enc <$> t /\
  omap (fun s => byte_decoder !! s) (split_utf8_symbols (encode_bytes_gpt2 t)) = t.
Proof.
  split_and!.
  - apply enc_inj.
  - intros b. exact (conj (dec_enc b) (enc_short b)).
  - apply split_encode.
  - rewrite split_encode. induction t as [|b t IH]; [done|].
    rewrite fmap_cons. cbn [omap list_omap]. rewrite dec_enc.
    f_equal. exact IH.
Qed.

(** ** The pre-tokenizer *)

Lemma span_nonempty {A} (p : A -> bool) b s : p b = true -> (span p (b :: s)).1 <> [].
Proof. intros H. simpl. rewrite H. by destruct (span p s). Qed.

Lemma next_piece_spec s :
  s <> [] -> (next_piece s).1 ++ (next_piece s).2 = s /\ (next_piece s).1 <> [].
Proof.
  intros Hs. unfold next_piece. destruct (contraction s) as [c|] eqn:Ec.
  { simpl fst; simpl snd. split; [apply take_drop|]. by destruct s. }
  set (lt := match s with b :: (b' :: _) as t =>
               if Byte.eqb b blank && negb (isspace b') then ([b], t) else ([], s)
             | _ => ([], s) end).
  assert (Hlt : lt.1 ++ lt.2 = s /\ lt.2 <> []).
  { unfold lt. destruct s as [|b [|b' s]]; [done|done|]. by case_match. }
  destruct lt as [lead t]. simpl in Hlt. destruct Hlt as [<- Ht].
  destruct t as [|b t]; [done|].
  assert (Hspan : forall p : byte -> bool, p b = true ->
    let '(body, rest) := span p (b :: t) in
    (lead ++ body) ++ rest = lead ++ b :: t /\ lead ++ body <> []).
  { intros p Hp. pose proof (span_app p (b :: t)) as Ha.
    pose proof (span_nonempty p b t Hp) as Hn.
    destruct (span p (b :: t)) as [body rest]. simpl in Ha, Hn.
    split; [by rewrite <- app_assoc, Ha|]. by destruct lead, body. }
  destruct (isalpha b) eqn:Ha; [|destruct (isdigit b) eqn:Hd;
    [|destruct (isspace b) eqn:Hw]].
  - pose proof (Hspan isalpha Ha). by destruct (span isalpha (b :: t)).
  - pose proof (Hspan isdigit Hd). by destruct (span isdigit (b :: t)).
  - pose proof (Hspan isspace Hw). cbn [negb]. by destruct (span isspace (b :: t)).
  - assert (Ho : is_other b = true) by (unfold is_other; by rewrite Ha, Hd, Hw).
    pose proof (Hspan is_other Ho). cbn [negb]. by destruct (span is_other (b :: t)).
Qed.

Lemma pretokenize_spec k s :
  (length s <= k)%nat ->
  concat (pretokenize_fuel k s) = s /\ Forall (fun p => p <> []) (pretokenize_fuel k s).
Proof.
  revert s; induction k as [|k IH]; intros s Hk.
  { destruct s; [by repeat constructor|simpl in Hk; lia]. }
  destruct s as [|b s]; [by repeat constructor|].
  cbn [pretokenize_fuel]. destruct (next_piece_spec (b :: s)) as [Ha Hn]; [done|].
  destruct (next_piece (b :: s)) as [p r]. simpl in Ha, Hn.
  apply (f_equal length) in Ha as Hl. rewrite length_app in Hl.
  assert (length p <> 0)%nat by (by destruct p).
  destruct (IH r) as [IHc IHn]; [simpl in *; lia|].
  split; [cbn [concat]; by rewrite IHc|by constructor].
Qed.

Lemma pretokenize_concat s : concat (pretokenize_ascii s) = s.
Proof. by apply pretokenize_spec. Qed.

(** Pre-tokenisation loses nothing: the pieces are non-empty and their
    concatenation is the text, for every sequence of bytes. *)
Theorem pretokenize_partition (text : bytes) :
  concat (pretokenize_ascii text) = text /\
  Forall (fun p => p <> []) (pretokenize_ascii text).
Proof. by apply pretokenize_spec. Qed.

(** ** Pair merging: the specification *)

(** The rank of the adjacent pair at position [i]. *)
Definition pair_rank (ranks : gmap bytes Z) (syms : list bytes) (i : nat) : option Z :=
  a ← syms !! i; b ← syms !! S i; ranks !! bpe_key a b.

(** The pair the algorithm must merge: the leftmost one of least rank. *)
Definition is_best (ranks : gmap bytes Z) (syms : list bytes) (i : nat) : Prop :=
  exists r, pair_rank ranks syms i = Some r /\ r < INT_MAX /\
    forall j r', pair_rank ranks syms j = Some r' -> r <= r' /\ ((j < i)%nat -> r < r').

Inductive merge_step (ranks : gmap bytes Z) : list bytes -> list bytes -> Prop :=
| merge_step_at pre a b post :
    is_best ranks (pre ++ a :: b :: post) (length pre) ->
    merge_step ranks (pre ++ a :: b :: post) (pre ++ (a ++ b) :: post).

Lemma pair_rank_cons ranks a syms i :
  pair_rank ranks (a :: syms) (S i) = pair_rank ranks syms i.
Proof. done. Qed.

Lemma best_pair_spec ranks syms k br bi res :
  best_pair ranks syms k br bi = res ->
  (res = bi /\ forall j r, pair_rank ranks syms j = Some r -> br <= r) \/
  (exists i r, res = Some (k + i)%nat /\ pair_rank ranks syms i = Some r /\ r < br /\
     forall j r', pair_rank ranks syms j = Some r' -> r <= r' /\ ((j < i)%nat -> r < r')).
Proof.
  revert k br bi; induction syms as [|a [|b syms] IH]; intros k br bi; cbn [best_pair].
  - intros <-. left. split; [done|]. by intros [|j].
  - intros <-. left. split; [done|]. by intros [|j].
  - set (rest := b :: syms) in *.
    assert (H0 : pair_rank ranks (a :: rest) 0 = ranks !! bpe_key a b) by done.
    destruct (ranks !! bpe_key a b) as [r0|] eqn:E0.
    + destruct (Z.ltb_spec r0 br).
      * intros [[-> Hmin]|(i & r & -> & Hr & Hlt & Hmin)]%IH; right.
        -- exists 0%nat, r0. split_and!; [f_equal; lia|done|done|].
           intros [|j] r' Hj; [rewrite H0 in Hj; simplify_eq; lia|].
           specialize (Hmin j r' Hj). lia.
        -- exists (S i), r. split_and!; [f_equal; lia|done|lia|].
           intros [|j] r' Hj; [rewrite H0 in Hj; simplify_eq; lia|].
           specialize (Hmin j r' Hj). lia.
      * intros [[-> Hmin]|(i & r & -> & Hr & Hlt & Hmin)]%IH; [left|right].
        -- split; [done|]. intros [|j] r' Hj; [rewrite H0 in Hj; simplify_eq; lia|eauto].
        -- exists (S i), r. split_and!; [f_equal; lia|done|lia|].
           intros [|j] r' Hj; [rewrite H0 in Hj; simplify_eq; lia|].
           specialize (Hmin j r' Hj). lia.
    + intros [[-> Hmin]|(i & r & -> & Hr & Hlt & Hmin)]%IH; [left|right].
      * split; [done|]. intros [|j] r' Hj; [by rewrite H0 in Hj|eauto].
      * exists (S i), r. split_and!; [f_equal; lia|done|lia|].
        intros [|j] r' Hj; [by rewrite H0 in Hj|].
        specialize (Hmin j r' Hj). lia.
Qed.

Lemma pair_rank_split ranks syms i r :
  pair_rank ranks syms i = Some r ->
  exists pre a b post, syms = pre ++ a :: b :: post /\ i = length pre.
Proof.
  intros (a & Ha & (b & Hb & _)%bind_Some)%bind_Some.
  exists (take i syms), a, b, (drop (S (S i)) syms).
  apply lookup_lt_Some in Ha as Hl. split; [|rewrite length_take; lia].
  rewrite <- (drop_S syms b (S i)) by done. rewrite <- (drop_S syms a i) by done.
  by rewrite take_drop.
Qed.

Lemma pair_rank_middle ranks pre a b post :
  pair_rank ranks (pre ++ a :: b :: post) (length pre) = ranks !! bpe_key a b.
Proof.
  induction pre as [|x pre IH]; [done|]. simpl. rewrite pair_rank_cons. exact IH.
Qed.

Lemma merge_at_app pre a b post :
  merge_at (length pre) (pre ++ a :: b :: post) = pre ++ (a ++ b) :: post.
Proof. induction pre as [|x pre IH]; [done|]. simpl. by rewrite IH. Qed.

(** One loop iteration is one step of the specification, or the normal form
    has been reached. *)
Lemma best_pair_step ranks syms :
  (exists i, best_pair ranks syms 0 INT_MAX None = Some i /\
             merge_step ranks syms (merge_at i syms) /\
             (length syms = S (length (merge_at i syms)))%nat) \/
  (best_pair ranks syms 0 INT_MAX None = None /\ forall s', ~ merge_step ranks syms s').
Proof.
  destruct (best_pair_spec ranks syms 0 INT_MAX None _ eq_refl)
    as [[-> Hmin]|(i & r & -> & Hr & Hlt & Hmin)].
  - right. split; [done|]. intros s' Hs. destruct Hs as [pre a b post (r & Hr & Hlt & _)].
    apply Hmin in Hr. lia.
  - left. exists i. split; [done|].
    destruct (pair_rank_split _ _ _ _ Hr) as (pre & a & b & post & -> & ->).
    rewrite merge_at_app. split.
    + constructor. by exists r.
    + rewrite !length_app. simpl. lia.
Qed.

Lemma merge_loop_steps k ranks syms :
  (length syms <= S k)%nat ->
  rtc (merge_step ranks) syms (merge_loop k ranks syms) /\
  (forall s', ~ merge_step ranks (merge_loop k ranks syms) s').
Proof.
  assert (Hshort : forall syms s', (length syms <= 1)%nat -> ~ merge_step ranks syms s').
  { intros s s' Hl Hs. destruct Hs as [pre a b post _]. rewrite length_app in Hl. simpl in Hl. lia. }
  revert syms; induction k as [|k IH]; intros syms Hk; cbn [merge_loop].
  { split; [done|]. intros s'. by apply Hshort. }
  destruct (Nat.ltb_spec 1 (length syms)); [|split; [done|intros s'; by apply Hshort]].
  destruct (best_pair_step ranks syms) as [(i & -> & Hs & Hl)|[-> Hn]]; [|done].
  destruct (IH (merge_at i syms)) as [IHs IHn]; [lia|]. split; [|done].
  by eapply rtc_l.
Qed.

Lemma merge_step_concat ranks s s' : merge_step ranks s s' -> concat s' = concat s.
Proof.
  intros [pre a b post _]. rewrite !concat_app. simpl. by rewrite <- app_assoc.
Qed.

Lemma merge_steps_concat ranks s s' : rtc (merge_step ranks) s s' -> concat s' = concat s.
Proof. induction 1 as [|x y z H _ IH]; [done|]. rewrite IH. by eapply merge_step_concat. Qed.

(** Whatever holds of the initial symbols and is closed under the merges of
    the table holds of the final symbols. *)
Lemma merge_steps_closed ranks (P : bytes -> Prop) s s' :
  (forall a b r, P a -> P b -> ranks !! bpe_key a b = Some r -> P (a ++ b)) ->
  rtc (merge_step ranks) s s' -> Forall P s -> Forall P s'.
Proof.
  intros HP. induction 1 as [|x y z H _ IH]; [done|]. intros Hx. apply IH.
  destruct H as [pre a b post (r & Hr & _)].
  apply Forall_app in Hx as [Hpre Hx]. apply Forall_cons in Hx as [Ha Hx].
  apply Forall_cons in Hx as [Hb Hpost]. apply Forall_app. split; [done|].
  constructor; [|done]. rewrite pair_rank_middle in Hr. by apply (HP a b r).
Qed.

Lemma is_best_unique ranks s i j : is_best ranks s i -> is_best ranks s j -> i = j.
Proof.
  intros (r & Hr & _ & Hi) (r' & Hr' & _ & Hj).
  destruct (Hi _ _ Hr') as [H1 H2], (Hj _ _ Hr) as [H3 H4]. lia.
Qed.

Lemma merge_step_det ranks s s1 s2 : merge_step ranks s s1 -> merge_step ranks s s2 -> s1 = s2.
Proof.
  intros [pre a b post H1] H2. inversion H2 as [pre' a' b' post' H2' E]; subst.
  rewrite E in H2'. pose proof (is_best_unique _ _ _ _ H1 H2') as Hl.
  apply app_inj_1 in E as [-> E]; [|done]. by simplify_eq.
Qed.

(** C18: The merge loop implements byte-pair encoding: it terminates within its
    fuel, its result is reached from the initial symbols by merging, at each
    step, the leftmost adjacent pair of least rank, no mergeable pair is left,
    and it is the only sequence with that property; the text spelled by the
    symbols never changes. *)
Theorem bpe_merge_refines (ranks : gmap bytes Z) (symbols : list bytes) :
  let res := bpe_merge ranks symbols in
  rtc (merge_step ranks) symbols res /\ (forall s', ~ merge_step ranks res s') /\
  (forall s', rtc (merge_step ranks) symbols s' -> (forall s'', ~ merge_step ranks s' s'') ->
     s' = res) /\
  concat res = concat symbols.
Proof.
  intros res. destruct (merge_loop_steps (length symbols) ranks symbols) as [Hs Hn]; [lia|].
  fold (bpe_merge ranks symbols) in Hs, Hn. fold res in Hs, Hn. split_and!; try done.
  - clearbody res. clear -Hs Hn. intros s' Hs' Hn'.
    induction Hs as [x|x y z Hxy Hyz IH]; inversion Hs' as [|? y' ? Hxy' Hyz']; subst.
    + done.
    + by apply Hn in Hxy'.
    + by apply Hn' in Hxy.
    + rewrite (merge_step_det _ _ _ _ Hxy' Hxy) in Hyz'. by apply IH.
  - by apply (merge_steps_concat ranks).
Qed.

(** ** A concrete table *)

Definition demo_ranks : gmap bytes Z :=
  <[bpe_key (str "a") (str "b") := 1]> (<[bpe_key (str "b") (str "c") := 0]>
  (<[bpe_key (str "a") (str "bc") := 2]> ∅)).

Example demo_merge : bpe_merge demo_ranks [str "a"; str "b"; str "c"; str "a"; str "b"] =
  [str "abc"; str "ab"].
Proof. vm_compute. reflexivity. Qed.

Example demo_pieces : pretokenize_ascii (str "I'll say  42!") =
  [str "I"; str "'ll"; str " say"; str "  "; str "42"; str "!"].
Proof. vm_compute. reflexivity. Qed.

End Bpe.
