(* ===== verification/Tokenizer.v ===== *)
(** * Tokenizer: [Tokenizer::encode] and [Tokenizer::decode] of
    [src/engine/tokenizer.cpp]

    Encoding splits off the special tokens, pre-tokenises the text between
    them, and turns each piece into vocabulary entries by pair merging, or by
    longest match when the model file carries no merges.  Decoding undoes the
    byte alphabet.  [std::sort] on the special tokens is a parameter of the
    index construction with its documented contract. *)

From stdpp Require Import sorting.
From S2P Require Import Prelude CLib Bpe.

Module Tokenizer.
Import Bpe.

Record t := mk {
  vocab : list bytes;
  token_to_id_ : gmap bytes Z;
  bpe_ranks_ : gmap bytes Z;
  special_tokens_ : list (bytes * Z);
  byte_encode_ : bool; add_bos_ : bool; add_eos_ : bool;
  bos_id : Z; eos_id : Z;
  max_token_len_ : Z }.

(** ** The indexes built at the end of [load_from_gguf] *)

Definition index_step (acc : gmap bytes Z * Z) (tok : bytes) : gmap bytes Z * Z :=
  (<[tok := acc.2]> acc.1, acc.2 + 1).

Definition index_tokens (vocab : list bytes) : gmap bytes Z := (foldl index_step (∅, 0) vocab).1.

Definition is_special (tok : bytes) : bool :=
  (5 <=? zlen tok) &&
  ((starts_with (str "<|") tok &&
    bool_decide (drop (length tok - 2) tok = str "|>")) ||
   bool_decide (tok = str "<think>") || bool_decide (tok = str "</think>")).

Definition collect_specials (vocab : list bytes) : list (bytes * Z) :=
  filter (fun p => is_special p.1 = true) (zip vocab (upto (zlen vocab))).

Definition longest (vocab : list bytes) : Z := foldl (fun m tok => Z.max m (zlen tok)) 0 vocab.

Definition build_indexes (sort_by_size : list (bytes * Z) -> list (bytes * Z)) (tk : t) : t :=
  mk (vocab tk) (index_tokens (vocab tk)) (bpe_ranks_ tk)
     (sort_by_size (collect_specials (vocab tk)))
     (byte_encode_ tk) (add_bos_ tk) (add_eos_ tk) (bos_id tk) (eos_id tk)
     (longest (vocab tk)).

(** ** Encoding *)

Section Encode.
Context (tk : t).

(** [for (len = try_len; len >= 1; len--)]: the longest entry that starts
    here. *)
Fixpoint best_match (len : nat) (s : bytes) : option (Z * nat) :=
  match len with
  | O => None
  | S len' => match token_to_id_ tk !! take len s with
              | Some id => Some (id, len)
              | None => best_match len' s
              end
  end.

(** The branch without merges; a byte that starts no entry is dropped. *)
Fixpoint greedy_loop (k : nat) (s : bytes) : list Z :=
  match k, s with
  | S k, b :: s' =>
      let try_len := Z.to_nat (Z.min (max_token_len_ tk) (zlen s)) in
      match best_match try_len s with
      | Some (id, len) =>
          if 0 <=? id then id :: greedy_loop k (drop len s)
          else greedy_loop k (drop (symbol_len b s') s)
      | None => greedy_loop k (drop (symbol_len b s') s)
      end
  | _, _ => []
  end.

(** The fallback for a merged symbol that is not an entry. *)
Definition encode_symbol (sym : bytes) : list Z :=
  match token_to_id_ tk !! sym with
  | Some id => [id]
  | None => omap (fun s => token_to_id_ tk !! s) (split_utf8_symbols sym)
  end.

Definition encode_piece (raw_piece : bytes) : list Z :=
  let piece := if byte_encode_ tk then encode_bytes_gpt2 raw_piece else raw_piece in
  if decide (bpe_ranks_ tk = ∅) then greedy_loop (length piece) piece
  else concat (encode_symbol <$> bpe_merge (bpe_ranks_ tk) (split_utf8_symbols piece)).

Definition encode_plain (plain : bytes) : list Z :=
  concat (encode_piece <$> pretokenize_ascii plain).

(** The first special token, in table order, that starts here. *)
Definition special_at (s : bytes) : option (bytes * Z) :=
  List.find (fun sp => starts_with sp.1 s) (special_tokens_ tk).

(** The distance to the next special token, or to the end. *)
Fixpoint scan_special (s : bytes) : nat :=
  match s with
  | [] => O
  | _ :: s' => match special_at s with Some _ => O | None => S (scan_special s') end
  end.

Fixpoint encode_loop (k : nat) (s : bytes) : list Z :=
  match k, s with
  | S k, _ :: s' =>
      match special_at s with
      | Some (sp, id) =>
          if 0 <=? id then id :: encode_loop k (drop (length sp) s)
          else let n := S (scan_special s') in
               encode_plain (take n s) ++ encode_loop k (drop n s)
      | None => let n := S (scan_special s') in
                encode_plain (take n s) ++ encode_loop k (drop n s)
      end
  | _, _ => []
  end.

(** The loop advances by at least one byte as special tokens are not empty. *)
Definition encode_body (text : bytes) : list Z := encode_loop (length text) text.

Definition encode (text : bytes) : list Z :=
  (if add_bos_ tk then [bos_id tk] else []) ++ encode_body text ++
  (if add_eos_ tk then [eos_id tk] else []).

(** ** Decoding *)

Definition hex_value (b : byte) : option Z :=
  let c := bz b in
  if (48 <=? c) && (c <=? 57) then Some (c - 48)
  else if (65 <=? c) && (c <=? 70) then Some (c - 55)
  else if (97 <=? c) && (c <=? 102) then Some (c - 87)
  else None.

(** [sscanf(s, "%02X", &v)]: white space, then at most two characters: an
    optional sign and hexadecimal digits. *)
Definition scan_hex2 (s : bytes) : option Z :=
  let f := take 2 (span isspace s).2 in
  let '(neg, ds) :=
    match f with
    | b :: r => if Byte.eqb b "-"%byte then (true, r)
                else if Byte.eqb b "+"%byte then (false, r) else (false, f)
    | [] => (false, [])
    end in
  match omap hex_value (take 1 ds) with
  | [] => None
  | _ =>
      let vs := omap hex_value (span (fun b => bool_decide (is_Some (hex_value b))) ds).1 in
      let v := foldl (fun a d => 16 * a + d) 0 vs in
      Some (u32 (if neg then - v else v))
  end.

(** Byte tokens such as [<0x0A>]. *)
Definition byte_token (tok : bytes) : option bytes :=
  if (zlen tok =? 6) && starts_with (str "<0x") tok
  then match scan_hex2 (drop 3 tok) with Some v => Some [zb v] | None => None end
  else None.

(** The decoding loop; [None] is the early [return tok]. *)
Fixpoint decode_symbols (syms : list bytes) (out : bytes) (decoded_any : bool) : option bytes :=
  match syms with
  | [] => Some out
  | cp :: syms =>
      match byte_decoder !! cp with
      | None => if negb decoded_any then None else decode_symbols syms (out ++ cp) decoded_any
      | Some b => decode_symbols syms (out ++ [b]) true
      end
  end.

Definition decode (token_id : Z) : bytes :=
  if (0 <=? token_id) && (token_id <? zlen (vocab tk)) then
    let tok := nth (Z.to_nat token_id) (vocab tk) [] in
    match byte_token tok with
    | Some b => b
    | None =>
        if byte_encode_ tk
        then default tok (decode_symbols (split_utf8_symbols tok) [] false)
        else tok
    end
  else [].

Definition decode_ids (ids : list Z) : bytes :=
  concat ((fun id => if (id =? bos_id tk) || (id =? eos_id tk) then [] else decode id) <$> ids).

End Encode.

(** ** The indexes *)

Lemma index_from vocab : forall (m : gmap bytes Z) i,
  (foldl index_step (m, i) vocab).2 = i + zlen vocab /\
  forall tok j, (foldl index_step (m, i) vocab).1 !! tok
    = Some j -> (exists n : nat, j = i + Z.of_nat n /\ vocab !! n = Some tok) \/ m !! tok = Some j.
Proof.
  induction vocab as [|w vocab IH]; intros m i.
  - split; [rewrite zlen_nil, Z.add_0_r; done|]. intros tok j H. by right.
  - cbn [foldl]. change (index_step (m, i) w) with (<[w := i]> m, i + 1). destruct (IH (<[w:=i]> m) (i + 1)) as [IH1 IH2]. split.
    + rewrite IH1, zlen_cons. lia.
    + intros tok j [(n & -> & Hn)|Hj]%IH2.
      * left. exists (S n). split; [lia|done].
      * destruct (decide (w = tok)) as [->|Hne].
        -- rewrite lookup_insert_eq in Hj. injection Hj as <-. left. exists 0%nat. split; [lia|done].
        -- rewrite lookup_insert_ne in Hj by done. by right.
Qed.

Lemma index_from_complete vocab : forall (m : gmap bytes Z) i tok,
  tok ∈ vocab \/ is_Some (m !! tok) ->
  is_Some ((foldl index_step (m, i) vocab).1 !! tok).
Proof.
  induction vocab as [|w vocab IH]; intros m i tok; cbn [foldl].
  - intros [H|H]; [set_solver|done].
  - intros H. change (index_step (m, i) w) with (<[w := i]> m, i + 1). apply IH. destruct (decide (w = tok)) as [->|Hne].
    + right. rewrite lookup_insert_eq. eauto.
    + rewrite lookup_insert_ne by done. set_solver.
Qed.

(** A vocabulary index points at the token it is stored under, and every
    token has one. *)
Lemma index_tokens_sound vocab tok i :
  index_tokens vocab !! tok = Some i -> 0 <= i < zlen vocab /\ vocab !! Z.to_nat i = Some tok.
Proof.
  intros H. apply index_from in H as [(n & -> & Hn)|H]; [|by rewrite lookup_empty in H].
  apply lookup_lt_Some in Hn as Hl. unfold zlen.
  split; [lia|]. by replace (Z.to_nat (0 + Z.of_nat n)) with n by lia.
Qed.

Lemma index_tokens_complete vocab tok : tok ∈ vocab -> is_Some (index_tokens vocab !! tok).
Proof. intros. apply index_from_complete. by left. Qed.

Lemma zip_upto_lookup (vocab : list bytes) tok i :
  (tok, i) ∈ zip vocab (upto (zlen vocab)) ->
  0 <= i < zlen vocab /\ vocab !! Z.to_nat i = Some tok.
Proof.
  intros [n Hn]%list_elem_of_lookup. apply lookup_zip_Some in Hn as [Hv Hi].
  unfold upto in Hi. rewrite list_lookup_fmap in Hi.
  apply fmap_Some in Hi as (m & Hm & ->). apply lookup_seq in Hm as [-> Hm]. unfold zlen in *.
  split; [lia|]. by replace (Z.to_nat (Z.of_nat (0 + n))) with n by lia.
Qed.

Lemma collect_specials_spec vocab sp i :
  (sp, i) ∈ collect_specials vocab ->
  is_special sp = true /\ 0 <= i < zlen vocab /\ vocab !! Z.to_nat i = Some sp.
Proof.
  intros [Hs Hin]%list_elem_of_filter. split; [done|]. by apply zip_upto_lookup.
Qed.

Lemma is_special_long sp : is_special sp = true -> (5 <= length sp)%nat.
Proof.
  unfold is_special. intros [H _]%andb_true_iff. apply Z.leb_le in H. unfold zlen in H. lia.
Qed.

(** ** Byte-level models *)

(** What a byte-level model file provides: the flag, a merge table, an index
    that points back into the vocabulary, an entry for each byte symbol and
    for every merge of encodable symbols, and special tokens made of printable
    characters.  No entry reachable by merges has the shape of a byte token. *)
Record byte_level (tk : t) : Prop := {
  bl_flag : byte_encode_ tk = true;
  bl_ranks : bpe_ranks_ tk <> ∅;
  bl_index tok i : token_to_id_ tk !! tok = Some i ->
    0 <= i < zlen (vocab tk) /\ vocab tk !! Z.to_nat i = Some tok;
  bl_alphabet b : is_Some (token_to_id_ tk !! enc b);
  bl_merges u v r :
    bpe_ranks_ tk !! bpe_key (encode_bytes_gpt2 u) (encode_bytes_gpt2 v) = Some r ->
    is_Some (token_to_id_ tk !! (encode_bytes_gpt2 (u ++ v))) /\
    byte_token (encode_bytes_gpt2 (u ++ v)) = None;
  bl_special sp id : (sp, id) ∈ special_tokens_ tk ->
    0 <= id < zlen (vocab tk) /\ vocab tk !! Z.to_nat id = Some sp /\
    sp <> [] /\ Forall (fun b => 33 <= bz b <= 126) sp /\ byte_token sp = None }.

Lemma encode_app u v : encode_bytes_gpt2 (u ++ v) = encode_bytes_gpt2 u ++ encode_bytes_gpt2 v.
Proof. unfold encode_bytes_gpt2. by rewrite fmap_app, concat_app. Qed.

Lemma encode_cons b v : encode_bytes_gpt2 (b :: v) = enc b ++ encode_bytes_gpt2 v.
Proof. done. Qed.

Lemma encode_inj u v : encode_bytes_gpt2 u = encode_bytes_gpt2 v -> u = v.
Proof.
  intros E. apply (f_equal split_utf8_symbols) in E. rewrite !split_encode in E.
  revert E. apply list_fmap_eq_inj. intros a b. apply enc_inj.
Qed.

Lemma encode_printable sp : Forall (fun b => 33 <= bz b <= 126) sp -> encode_bytes_gpt2 sp = sp.
Proof.
  induction 1 as [|b sp Hb _ IH]; [reflexivity|].
  rewrite encode_cons, IH, (enc_printable b Hb). reflexivity.
Qed.

Lemma decode_symbols_enc u : forall out d, decode_symbols (enc <$> u) out d = Some (out ++ u).
Proof.
  induction u as [|b u IH]; intros out d.
  - cbn. by rewrite app_nil_r.
  - rewrite fmap_cons. cbn [decode_symbols]. rewrite dec_enc, IH. by rewrite <- app_assoc.
Qed.

Section ByteLevel.
Context (tk : t) (Hbl : byte_level tk).

(** The entry that spells [u] in the byte alphabet decodes to [u]. *)
Lemma decode_entry id u :
  0 <= id < zlen (vocab tk) -> vocab tk !! Z.to_nat id = Some (encode_bytes_gpt2 u) ->
  byte_token (encode_bytes_gpt2 u) = None -> decode tk id = u.
Proof.
  intros Hid Hv Hb. unfold decode.
  destruct (Z.leb_spec 0 id), (Z.ltb_spec id (zlen (vocab tk))); try lia. cbn [andb].
  rewrite (nth_lookup_Some _ _ _ _ Hv), Hb, (bl_flag tk Hbl), split_encode, decode_symbols_enc.
  done.
Qed.

Lemma byte_token_short s : (length s <= 2)%nat -> byte_token s = None.
Proof.
  intros. unfold byte_token. destruct (Z.eqb_spec (zlen s) 6); [|done]. unfold zlen in *. lia.
Qed.

(** A symbol the merge loop can produce: the spelling of some bytes that is an
    entry. *)
Definition good_symbol (s : bytes) : Prop :=
  exists u, s = encode_bytes_gpt2 u /\ is_Some (token_to_id_ tk !! s) /\ byte_token s = None.

Lemma good_enc b : good_symbol (enc b).
Proof.
  exists [b]. split_and!.
  - rewrite encode_cons. cbn. by rewrite app_nil_r.
  - apply (bl_alphabet tk Hbl).
  - apply byte_token_short, enc_short.
Qed.

Lemma good_merged piece :
  Forall good_symbol (bpe_merge (bpe_ranks_ tk) (enc <$> piece)).
Proof.
  destruct (merge_loop_steps (length (enc <$> piece)) (bpe_ranks_ tk) (enc <$> piece)) as [Hs _];
    [lia|].
  eapply merge_steps_closed; [|exact Hs|].
  - intros a b r (u & -> & _) (v & -> & _) Hr. exists (u ++ v).
    rewrite <- encode_app. destruct (bl_merges tk Hbl u v r Hr). auto.
  - apply Forall_fmap, Forall_forall. intros b _. apply good_enc.
Qed.

Lemma encode_symbols_decode syms :
  Forall good_symbol syms ->
  encode_bytes_gpt2 (concat (decode tk <$> concat (encode_symbol tk <$> syms))) = concat syms.
Proof.
  induction 1 as [|s syms (u & -> & [id Hid] & Hb) _ IH]; [done|].
  rewrite fmap_cons. cbn [concat]. rewrite fmap_app, concat_app, encode_app, IH.
  f_equal. unfold encode_symbol. rewrite Hid. cbn. rewrite app_nil_r.
  apply (bl_index tk Hbl) in Hid as [Hr Hv]. by rewrite (decode_entry id u).
Qed.

Lemma encode_piece_decode piece : concat (decode tk <$> encode_piece tk piece) = piece.
Proof.
  apply encode_inj. unfold encode_piece. rewrite (bl_flag tk Hbl).
  rewrite decide_False by apply (bl_ranks tk Hbl).
  rewrite split_encode, encode_symbols_decode by apply good_merged.
  destruct (merge_loop_steps (length (enc <$> piece)) (bpe_ranks_ tk) (enc <$> piece)) as [Hs _];
    [lia|].
  apply merge_steps_concat in Hs. unfold bpe_merge. by rewrite Hs.
Qed.

Lemma encode_plain_decode s : concat (decode tk <$> encode_plain tk s) = s.
Proof.
  unfold encode_plain.
  assert (E : forall ps, concat (decode tk <$> concat (encode_piece tk <$> ps)) = concat ps).
  { induction ps as [|p ps IH]; [done|]. rewrite fmap_cons. cbn [concat].
    by rewrite fmap_app, concat_app, encode_piece_decode, IH. }
  rewrite E. apply pretokenize_concat.
Qed.

Lemma special_at_spec s sp id :
  special_at tk s = Some (sp, id) -> (sp, id) ∈ special_tokens_ tk /\ starts_with sp s = true.
Proof.
  intros [Hin Hs]%List.find_some. split; [by apply list_elem_of_In|done].
Qed.

Lemma decode_special sp id : (sp, id) ∈ special_tokens_ tk -> 0 <= id /\ decode tk id = sp.
Proof.
  intros Hin. destruct (bl_special tk Hbl sp id Hin) as (Hr & Hv & _ & Hp & Hb). split; [lia|].
  pose proof (encode_printable sp Hp) as He. apply decode_entry; [done|by rewrite He..].
Qed.

Lemma encode_loop_decode k s :
  (length s <= k)%nat -> concat (decode tk <$> encode_loop tk k s) = s.
Proof.
  revert s; induction k as [|k IH]; intros [|b s] Hk; try done; [simpl in Hk; lia|].
  cbn [encode_loop]. set (n := S (scan_special tk s)).
  assert (Hplain : concat (decode tk <$> (encode_plain tk (take n (b :: s)) ++
                     encode_loop tk k (drop n (b :: s)))) = b :: s).
  { rewrite fmap_app, concat_app, encode_plain_decode, IH; [apply take_drop|].
    rewrite length_drop. unfold n. simpl in *. lia. }
  destruct (special_at tk (b :: s)) as [[sp id]|] eqn:E; [|done].
  apply special_at_spec in E as [Hin Hs]. destruct (decode_special sp id Hin) as [Hid Hd].
  destruct (bl_special tk Hbl sp id Hin) as (_ & _ & Hne & _).
  destruct (Z.leb_spec 0 id); [|lia]. rewrite fmap_cons. cbn [concat].
  apply starts_with_spec in Hs as [r Hr]. rewrite Hr, drop_app_length, Hd, IH; [done|].
  apply (f_equal length) in Hr. rewrite length_app in Hr.
  assert (length sp <> 0)%nat by (by destruct sp). simpl in *. lia.
Qed.

End ByteLevel.

(** C17: A byte-level tokenizer loses nothing: for every text, valid UTF-8 or
    not and with or without special tokens in it, decoding the tokens of its
    body one by one, as generation does, gives back the text; decoding the
    whole encoded sequence does so too when the text does not itself contain
    the beginning- or end-of-sequence token. *)
Theorem encode_decode_roundtrip (tk : t) (text : bytes) :
  byte_level tk ->
  concat (decode tk <$> encode_body tk text) = text /\
  (bos_id tk ∉ encode_body tk text -> eos_id tk ∉ encode_body tk text ->
   decode_ids tk (encode tk text) = text).
Proof.
  intros Hbl. assert (E : concat (decode tk <$> encode_body tk text) = text)
    by by apply encode_loop_decode.
  split; [done|]. intros Hb He. unfold decode_ids, encode. rewrite !fmap_app, !concat_app.
  set (f := fun id : Z => _).
  assert (concat (f <$> (if add_bos_ tk then [bos_id tk] else [])) = []) as ->.
  { destruct (add_bos_ tk); [|done]. unfold f. cbn. by rewrite Z.eqb_refl. }
  assert (concat (f <$> (if add_eos_ tk then [eos_id tk] else [])) = []) as ->.
  { destruct (add_eos_ tk); [|done]. unfold f. cbn. by rewrite Z.eqb_refl, orb_true_r. }
  rewrite app_nil_r. cbn [app]. rewrite <- E at 2. f_equal.
  apply list_fmap_ext. intros i id Hi. apply list_elem_of_lookup_2 in Hi. unfold f.
  assert (id <> bos_id tk /\ id <> eos_id tk) as [Hnb Hne] by (split; intros ->; done).
  apply Z.eqb_neq in Hnb, Hne. by rewrite Hnb, Hne.
Qed.

(** ** Special tokens *)

Lemma scan_special_here tk s p : special_at tk s = Some p -> s <> [] -> scan_special tk s = 0%nat.
Proof. intros H Hs. destruct s; [done|]. cbn [scan_special]. by rewrite H. Qed.

(** The scan stops exactly where the next special token starts. *)
Lemma scan_special_app tk pre s p :
  (forall a b, pre = a ++ b -> b <> [] -> special_at tk (b ++ s) = None) ->
  special_at tk s = Some p -> s <> [] -> scan_special tk (pre ++ s) = length pre.
Proof.
  intros Hpre Hs Hne. induction pre as [|x pre IH]; [by eapply scan_special_here|].
  cbn [app scan_special length]. change (x :: pre ++ s) with ((x :: pre) ++ s).
  rewrite (Hpre [] (x :: pre)) by done. f_equal. apply IH.
  intros a b -> Hb. by apply (Hpre (x :: a) b).
Qed.

Lemma encode_loop_fuel tk k1 k2 s :
  (forall sp id, (sp, id) ∈ special_tokens_ tk -> sp <> []) ->
  (length s <= k1)%nat -> (length s <= k2)%nat -> encode_loop tk k1 s = encode_loop tk k2 s.
Proof.
  intros Hsp. revert k2 s; induction k1 as [|k1 IH]; intros k2 s H1 H2.
  { destruct s; [by destruct k2|simpl in H1; lia]. }
  destruct k2 as [|k2]; [destruct s; [done|simpl in H2; lia]|].
  destruct s as [|b s]; [done|]. cbn [encode_loop].
  set (n := S (scan_special tk s)).
  assert (Hp : encode_loop tk k1 (drop n (b :: s)) = encode_loop tk k2 (drop n (b :: s))).
  { apply IH; rewrite length_drop; unfold n; simpl in *; lia. }
  destruct (special_at tk (b :: s)) as [[sp id]|] eqn:E; [|by rewrite Hp].
  destruct (0 <=? id); [|by rewrite Hp]. f_equal.
  apply special_at_spec in E as [Hin _]. apply Hsp in Hin.
  assert (length sp <> 0)%nat by (by destruct sp).
  apply IH; rewrite length_drop; simpl in *; lia.
Qed.

(** C32: Special tokens are atomic: where a special token occurs, with no other
    one starting earlier, the text before it is encoded as plain text, the
    token becomes its own identifier, whatever pieces or merges would span its
    edges, and encoding goes on after it; when the table is sorted by
    decreasing length, as the loader leaves it, no longer special token matches
    there. *)
Theorem special_tokens_atomic (tk : t) (pre sp post : bytes) (id : Z) :
  (forall sp id, (sp, id) ∈ special_tokens_ tk -> sp <> [] /\ 0 <= id) ->
  StronglySorted (fun a b => (length b.1 <= length a.1)%nat) (special_tokens_ tk) ->
  (forall a b, pre = a ++ b -> b <> [] -> special_at tk (b ++ sp ++ post) = None) ->
  special_at tk (sp ++ post) = Some (sp, id) ->
  encode_body tk (pre ++ sp ++ post) =
    (if decide (pre = []) then [] else encode_plain tk pre) ++ id :: encode_body tk post /\
  (forall sp' id', (sp', id') ∈ special_tokens_ tk -> starts_with sp' (sp ++ post) = true ->
     (length sp' <= length sp)%nat).
Proof.
  intros Hsp Hsorted Hpre Hat.
  pose proof (special_at_spec _ _ _ _ Hat) as [Hin _]. destruct (Hsp _ _ Hin) as [Hne Hid].
  assert (Hf : forall sp id, (sp, id) ∈ special_tokens_ tk -> sp <> []) by (intros ? ? ?%Hsp; tauto).
  assert (Hspl : (length sp <> 0)%nat) by (by destruct sp).
  assert (Hhere : forall k, (length (sp ++ post) <= k)%nat ->
    encode_loop tk k (sp ++ post) = id :: encode_body tk post).
  { intros k Hk. destruct k as [|k]; [rewrite length_app in Hk; lia|].
    destruct (sp ++ post) as [|c r] eqn:E; [by destruct sp|]. cbn [encode_loop].
    rewrite Hat. destruct (Z.leb_spec 0 id); [|lia]. f_equal.
    rewrite <- E, drop_app_length. apply encode_loop_fuel; [done| |lia].
    rewrite <- E, length_app in Hk. lia. }
  split.
  - unfold encode_body at 1. destruct pre as [|x pre]; [by apply Hhere|].
    rewrite decide_False by done. rewrite length_app. cbn [length app Nat.add encode_loop].
    change (x :: pre ++ sp ++ post) with ((x :: pre) ++ sp ++ post).
    rewrite (Hpre [] (x :: pre)) by done.
    assert (scan_special tk (pre ++ sp ++ post) = length pre) as ->.
    { eapply scan_special_app; [|exact Hat|by destruct sp].
      intros a b -> Hb. by apply (Hpre (x :: a) b). }
    change (S (length pre)) with (length (x :: pre)).
    rewrite take_app_length, drop_app_length. f_equal. apply Hhere. lia.
  - intros sp' id' Hin' Hs'. clear -Hsorted Hat Hin' Hs'. unfold special_at in Hat.
    induction (special_tokens_ tk) as [|[q qi] l IH]; [set_solver|].
    apply StronglySorted_inv in Hsorted as [Hsorted Hall]. simpl in Hat.
    destruct (starts_with q (sp ++ post)) eqn:Eq.
    + injection Hat as -> ->. apply elem_of_cons in Hin' as [[= -> ->]|Hin']; [done|].
      rewrite Forall_forall in Hall. by apply (Hall (sp', id')).
    + apply elem_of_cons in Hin' as [[= -> ->]|Hin']; [by rewrite Eq in Hs'|].
      by apply IH.
Qed.

(** ** Models without merges *)

Lemma best_match_spec tk len s :
  match best_match tk len s with
  | Some (id, n) => (1 <= n <= len)%nat /\ token_to_id_ tk !! take n s = Some id /\
      forall m, (n < m <= len)%nat -> token_to_id_ tk !! take m s = None
  | None => forall m, (1 <= m <= len)%nat -> token_to_id_ tk !! take m s = None
  end.
Proof.
  induction len as [|len IH]; cbn [best_match]; [intros; lia|].
  destruct (token_to_id_ tk !! take (S len) s) as [id|] eqn:E.
  - split_and!; [lia|lia|done|intros; lia].
  - destruct (best_match tk len s) as [[id n]|].
    + destruct IH as (H1 & H2 & H3). split_and!; [lia|lia|done|].
      intros m Hm. destruct (decide (m = S len)) as [->|]; [done|]. apply H3; lia.
    + intros m Hm. destruct (decide (m = S len)) as [->|]; [done|]. apply IH; lia.
Qed.

(** Without merges each piece is cut by longest match: when every single
    byte is an entry, the entries emitted spell the piece exactly, and the
    first one is the longest entry that starts the piece. *)
Theorem greedy_longest_match (tk : t) (piece : bytes) :
  (forall tok i, token_to_id_ tk !! tok = Some i -> 0 <= i /\ vocab tk !! Z.to_nat i = Some tok) ->
  (forall b, is_Some (token_to_id_ tk !! [b])) -> 1 <= max_token_len_ tk ->
  concat ((fun i => nth (Z.to_nat i) (vocab tk) []) <$> greedy_loop tk (length piece) piece) = piece /\
  (forall i, head (greedy_loop tk (length piece) piece) = Some i ->
     exists tok, vocab tk !! Z.to_nat i = Some tok /\ starts_with tok piece = true /\
       forall m, (length tok < m)%nat -> Z.of_nat m <= max_token_len_ tk -> (m <= length piece)%nat ->
         token_to_id_ tk !! take m piece = None).
Proof.
  intros Hidx Hall Hmax.
  assert (Hstep : forall b s, exists id n,
    best_match tk (Z.to_nat (Z.min (max_token_len_ tk) (zlen (b :: s)))) (b :: s) = Some (id, n) /\
    (1 <= n <= length (b :: s))%nat /\ token_to_id_ tk !! take n (b :: s) = Some id /\
    (forall m, (n < m)%nat -> Z.of_nat m <= max_token_len_ tk -> (m <= length (b :: s))%nat ->
       token_to_id_ tk !! take m (b :: s) = None)).
  { intros b s. set (len := Z.to_nat _).
    assert (1 <= len <= length (b :: s))%nat
      by (unfold len, zlen; simpl length; lia).
    pose proof (best_match_spec tk len (b :: s)) as Hb.
    destruct (best_match tk len (b :: s)) as [[id n]|].
    - destruct Hb as (H1 & H2 & H3). exists id, n. split_and!; [done|lia|lia|done|].
      intros m Hm Hmm Hml. apply H3. unfold len, zlen. lia.
    - destruct (Hall b) as [i Hi]. specialize (Hb 1%nat ltac:(lia)). change (take 1 (b :: s)) with [b] in Hb. by rewrite Hi in Hb. }
  split.
  - assert (Hk : forall k s, (length s <= k)%nat ->
      concat ((fun i => nth (Z.to_nat i) (vocab tk) []) <$> greedy_loop tk k s) = s).
    { induction k as [|k IH]; intros [|b s] Hk; try done; [simpl in Hk; lia|].
      cbn [greedy_loop]. destruct (Hstep b s) as (id & n & -> & Hn & Hid & _).
      apply Hidx in Hid as [Hpos Hv]. destruct (Z.leb_spec 0 id); [|lia].
      rewrite fmap_cons. cbn [concat]. rewrite (nth_lookup_Some _ _ _ _ Hv), IH.
      - apply take_drop.
      - rewrite length_drop. simpl in *. lia. }
    by apply Hk.
  - intros i. destruct piece as [|b s]; [done|]. cbn [length greedy_loop].
    destruct (Hstep b s) as (id & n & -> & Hn & Hid & Hlong).
    apply Hidx in Hid as [Hpos Hv]. destruct (Z.leb_spec 0 id); [|lia].
    intros [= <-]. exists (take n (b :: s)). split_and!; [done| |].
    + apply starts_with_spec. exists (drop n (b :: s)). by rewrite take_drop.
    + intros m. rewrite length_take. intros. apply Hlong; simpl in *; lia.
Qed.

(** ** The merge table of the model file *)

Definition sep : bytes := str " ".

(** One iteration of the loop over [tokenizer.ggml.merges]: the table and the
    running index [m]. *)
Definition add_merge (acc : gmap bytes Z * Z) (merge : bytes) : gmap bytes Z * Z :=
  let '(ranks, m) := acc in
  match find sep merge with
  | Some sp => (<[bpe_key (take sp merge) (drop (S sp) merge) := i32 m]> ranks, m + 1)
  | None => (ranks, m + 1)
  end.

Definition ranks_of (merges : list bytes) : gmap bytes Z := (foldl add_merge (∅, 0) merges).1.

(** The line of the file for merging the spellings of [u] and [v]. *)
Definition merge_line (p : bytes * bytes) : bytes :=
  encode_bytes_gpt2 p.1 ++ sep ++ encode_bytes_gpt2 p.2.

Lemma ranks_from merges : forall (ranks : gmap bytes Z) m key r,
  (foldl add_merge (ranks, m) merges).1 !! key = Some r ->
  is_Some (ranks !! key) \/
  exists merge sp, merge ∈ merges /\ find sep merge = Some sp /\
    key = bpe_key (take sp merge) (drop (S sp) merge).
Proof.
  induction merges as [|merge merges IH]; intros ranks m key r H; [left; eauto|].
  cbn [foldl] in H. unfold add_merge at 2 in H.
  destruct (find sep merge) as [sp|] eqn:E.
  - apply IH in H as [[x H]|(mg & s & Hin & Hf & ->)].
    + destruct (decide (bpe_key (take sp merge) (drop (S sp) merge) = key)) as [<-|Hne].
      * right. exists merge, sp. split; [by left|done].
      * rewrite lookup_insert_ne in H by done. left. eauto.
    + right. exists mg, s. split; [by right|done].
  - apply IH in H as [H|(mg & s & Hin & Hf & ->)]; [by left|].
    right. exists mg, s. split; [by right|done].
Qed.

Definition enc_clean (b : byte) : bool :=
  forallb (fun x => negb (Byte.eqb x "010"%byte) && negb (Byte.eqb x " "%byte)) (enc b).

Lemma enc_clean_all b : enc_clean b = true.
Proof. revert b. apply byte_forall. vm_compute. reflexivity. Qed.

Lemma encode_clean u :
  Forall (fun x => x <> "010"%byte /\ x <> " "%byte) (encode_bytes_gpt2 u).
Proof.
  induction u as [|b u IH]; [constructor|]. rewrite encode_cons. apply Forall_app. split; [|done].
  pose proof (enc_clean_all b) as H. unfold enc_clean in H. rewrite forallb_forall in H.
  apply Forall_forall. intros x Hx%list_elem_of_In%H. apply andb_true_iff in Hx as [H1 H2].
  split; intros ->; [discriminate H1|discriminate H2].
Qed.

(** Two splits at the first separator agree. *)
Lemma split_unique (c : byte) a a' b b' :
  Forall (fun x => x <> c) a -> Forall (fun x => x <> c) a' ->
  a ++ c :: b = a' ++ c :: b' -> a = a' /\ b = b'.
Proof.
  revert a'. induction a as [|x a IH]; intros [|x' a'] Ha Ha' E; simplify_list_eq.
  - done.
  - apply Forall_cons in Ha' as [Hx _]. done.
  - apply Forall_cons in Ha as [Hx _]. done.
  - apply Forall_cons in Ha as [_ Ha], Ha' as [_ Ha'].
    destruct (IH a' Ha Ha') as [-> ->]; [|done]. done.
Qed.

Lemma bpe_key_inj u v u' v' :
  bpe_key (encode_bytes_gpt2 u) (encode_bytes_gpt2 v) =
  bpe_key (encode_bytes_gpt2 u') (encode_bytes_gpt2 v') -> u = u' /\ v = v'.
Proof.
  unfold bpe_key. intros E. apply split_unique in E as [E1 E2].
  - split; by apply encode_inj.
  - eapply Forall_impl; [apply encode_clean|by intros ? [? ?]].
  - eapply Forall_impl; [apply encode_clean|by intros ? [? ?]].
Qed.

Lemma find_sep a b :
  Forall (fun x => x <> " "%byte) a -> find sep (a ++ sep ++ b) = Some (length a).
Proof.
  induction 1 as [|x a Hx _ IH]; [by destruct b|].
  cbn [app find length]. rewrite IH. simpl starts_with.
  destruct (Byte.eqb " " x) eqn:E; [|done]. apply byte_eqb_eq in E. by subst.
Qed.

Lemma merge_line_key p sp :
  find sep (merge_line p) = Some sp ->
  bpe_key (take sp (merge_line p)) (drop (S sp) (merge_line p)) =
  bpe_key (encode_bytes_gpt2 p.1) (encode_bytes_gpt2 p.2).
Proof.
  unfold merge_line. rewrite find_sep by (eapply Forall_impl; [apply encode_clean|by intros ? [? ?]]).
  intros [= <-]. rewrite take_app_length. f_equal.
  replace (S (length (encode_bytes_gpt2 p.1))) with (length (encode_bytes_gpt2 p.1) + 1)%nat by lia.
  by rewrite <- drop_drop, drop_app_length.
Qed.

(** A decidable check of a model file's vocabulary and merges. *)
Definition byte_level_check (vocab : list bytes) (pairs : list (bytes * bytes)) : bool :=
  forallb (fun b => bool_decide (enc b ∈ vocab)) all_bytes &&
  forallb (fun p => bool_decide (encode_bytes_gpt2 (p.1 ++ p.2) ∈ vocab) &&
                    bool_decide (byte_token (encode_bytes_gpt2 (p.1 ++ p.2)) = None)) pairs &&
  forallb (fun tok => negb (is_special tok) ||
                      forallb (fun b => (33 <=? bz b) && (bz b <=? 126)) tok &&
                      bool_decide (byte_token tok = None)) vocab.

Lemma byte_level_check_true v pairs :
  byte_level_check v pairs = true ->
  (forall b, enc b ∈ v) /\
  (forall p, p ∈ pairs -> encode_bytes_gpt2 (p.1 ++ p.2) ∈ v /\
     byte_token (encode_bytes_gpt2 (p.1 ++ p.2)) = None) /\
  (forall tok, tok ∈ v -> is_special tok = true ->
     Forall (fun b => 33 <= bz b <= 126) tok /\ byte_token tok = None).
Proof.
  unfold byte_level_check. rewrite !andb_true_iff. intros [[H1 H2] H3]. split_and!.
  - intros b. pose proof (byte_forall _ H1 b) as H. by apply bool_decide_eq_true in H.
  - intros p Hp. rewrite forallb_forall in H2. apply list_elem_of_In, H2 in Hp.
    rewrite andb_true_iff, !bool_decide_eq_true in Hp. done.
  - intros tok Htok Hs. rewrite forallb_forall in H3. apply list_elem_of_In, H3 in Htok.
    rewrite Hs in Htok. apply andb_true_iff in Htok as [Hp Hb].
    apply bool_decide_eq_true in Hb. split; [|done].
    apply Forall_forall. intros b Hin. rewrite forallb_forall in Hp.
    apply list_elem_of_In, Hp in Hin. rewrite andb_true_iff, !Z.leb_le in Hin. done.
Qed.

(** The indexes built from a model file that passes the check satisfy
    [byte_level], for any sort. *)
Lemma build_byte_level (sort : list (bytes * Z) -> list (bytes * Z)) tk pairs :
  (forall l, sort l ≡ₚ l) -> byte_encode_ tk = true ->
  bpe_ranks_ tk = ranks_of (merge_line <$> pairs) -> bpe_ranks_ tk <> ∅ ->
  byte_level_check (vocab tk) pairs = true ->
  byte_level (build_indexes sort tk).
Proof.
  intros Hsort Hflag Hr Hne (H1 & H2 & H3)%byte_level_check_true.
  constructor; simpl; try done.
  - apply index_tokens_sound.
  - intros b. apply index_tokens_complete, H1.
  - intros u v r Hk. rewrite Hr in Hk.
    apply ranks_from in Hk as [[x Hk]|(merge & sp & Hin & Hf & E)];
      [by rewrite lookup_empty in Hk|].
    apply list_elem_of_fmap in Hin as (p & -> & Hp).
    rewrite merge_line_key in E by done. apply bpe_key_inj in E as [-> ->].
    destruct (H2 p Hp). split; [|done]. by apply index_tokens_complete.
  - intros sp id Hin. rewrite Hsort in Hin.
    apply collect_specials_spec in Hin as (Hs & Hid & Hv).
    destruct (H3 sp) as [Hp Hb]; [by eapply list_elem_of_lookup_2|done|].
    split_and!; try done; try lia. apply is_special_long in Hs. by destruct sp; [simpl in Hs; lia|].
Qed.

(** ** A concrete model file *)

Definition by_size (a b : bytes * Z) : Prop := (length b.1 <= length a.1)%nat.

#[local] Instance by_size_dec a b : Decision (by_size a b).
Proof. unfold by_size. apply _. Defined.

Definition demo_pairs : list (bytes * bytes) :=
  [(str "h", str "e"); (str "l", str "l"); (str "he", str "ll"); (str " ", str "hell")].

Definition demo_vocab : list bytes :=
  (enc <$> all_bytes) ++ (encode_bytes_gpt2 <$> [str "he"; str "ll"; str "hell"; str " hell"]) ++
  [str "<|im_end|>"; str "<|im_start|>"; str "<think>"].

Definition demo_base : t :=
  mk demo_vocab ∅ (ranks_of (merge_line <$> demo_pairs)) [] true false false 261 260 0.

Definition demo_tk : t := build_indexes (merge_sort by_size) demo_base.

Lemma demo_tk_byte_level : byte_level demo_tk.
Proof.
  apply build_byte_level with (pairs := demo_pairs).
  - apply merge_sort_Permutation.
  - reflexivity.
  - reflexivity.
  - intros E. apply (f_equal (fun m => m !! bpe_key (str "h") (str "e"))) in E.
    vm_compute in E. discriminate E.
  - vm_compute. reflexivity.
Qed.

Example demo_encode : encode demo_tk (str "hello<|im_start|> hell") = [258; 111; 261; 259].
Proof. vm_compute. reflexivity. Qed.

Lemma encode_decode_roundtrip_witness :
  decode_ids demo_tk (encode demo_tk (str "hello, hell <think>")) = str "hello, hell <think>".
Proof.
  apply (encode_decode_roundtrip demo_tk (str "hello, hell <think>") demo_tk_byte_level).
  all: apply (bool_decide_unpack _); vm_compute; exact I.
Defined.

Lemma special_tokens_atomic_witness :
  encode_body demo_tk (str "he" ++ str "<|im_end|>" ++ str "ll") =
    encode_plain demo_tk (str "he") ++ 260 :: encode_body demo_tk (str "ll").
Proof.
  apply (special_tokens_atomic demo_tk (str "he") (str "<|im_end|>") (str "ll") 260).
  - intros sp id H. destruct (bl_special _ demo_tk_byte_level sp id H) as (? & _ & ? & _).
    split; [done|lia].
  - assert (special_tokens_ demo_tk =
      [(str "<|im_start|>", 261); (str "<|im_end|>", 260); (str "<think>", 262)]) as ->
      by (vm_compute; reflexivity).
    repeat constructor; simpl; lia.
  - intros a b E Hb. destruct a as [|x [|y a]]; simpl in E.
    + subst b. vm_compute. reflexivity.
    + injection E as _ <-. vm_compute. reflexivity.
    + injection E as _ _ E. destruct a; [simpl in E; by subst|discriminate E].
  - vm_compute. reflexivity.
Defined.

(** Without merges: every byte is an entry. *)
Definition raw_vocab : list bytes := ((fun b => [b]) <$> all_bytes) ++ [str "he"; str "hello"].

Definition raw_tk : t :=
  build_indexes (fun l => l) (mk raw_vocab ∅ ∅ [] false false false 1 2 0).

Lemma raw_index tok i :
  token_to_id_ raw_tk !! tok = Some i -> 0 <= i /\ vocab raw_tk !! Z.to_nat i = Some tok.
Proof.
  unfold raw_tk, build_indexes. cbn [token_to_id_ vocab].
  intros H. apply index_tokens_sound in H. split; [lia|apply H].
Qed.

Lemma raw_alphabet b : is_Some (token_to_id_ raw_tk !! [b]).
Proof.
  unfold raw_tk, build_indexes. cbn [token_to_id_ vocab].
  apply index_tokens_complete, elem_of_app. left.
  apply list_elem_of_fmap. exists b. split; [done|apply elem_of_all_bytes].
Qed.

Lemma raw_max : 1 <= max_token_len_ raw_tk.
Proof. vm_compute. discriminate. Qed.

Lemma greedy_longest_match_witness :
  let ids := greedy_loop raw_tk (length (str "hellow")) (str "hellow") in
  ids = [257; 119] /\
  concat ((fun i => nth (Z.to_nat i) (vocab raw_tk) []) <$> ids) = str "hellow".
Proof.
  intros ids. split; [vm_compute; reflexivity|].
  exact (proj1 (greedy_longest_match raw_tk (str "hellow") raw_index raw_alphabet raw_max)).
Defined.

End Tokenizer.
