(* ===== verification/Gguf.v ===== *)
(** * Gguf: reading the binary model file

    The model file is read with [fread] and [fseek] on a [FILE].  A reader is
    a function from the position in the file to a result and a new position;
    [None] is a read past the end of the file, which leaves the program's
    locals uninitialised.  The second half is the abstract file: metadata
    values of every GGUF type with their byte image, against which the three
    readers of the source are stated. *)

From S2P Require Import Prelude.

Module Gguf.

Definition GGUF_MAGIC : Z := 0x46554747.

(** ** The reader monad *)

Definition R (A : Type) : Type := bytes -> Z -> option (A * Z).

Definition ret {A} (x : A) : R A := fun _ pos => Some (x, pos).

Definition bindR {A B} (m : R A) (k : A -> R B) : R B := fun file pos =>
  match m file pos with
  | Some (x, pos) => k x file pos
  | None => None
  end.

Notation "x <- m ;; k" := (bindR m (fun x => k))
  (at level 100, m at next level, right associativity).
Notation "m ;;; k" := (bindR m (fun _ => k)) (at level 100, right associativity).

(** [fread(&x, 1, n, f)] *)
Definition fread (n : Z) : R bytes := fun file pos =>
  match peek_at file pos n with
  | Some bs => Some (bs, pos + n)
  | None => None
  end.

Definition fread_u32 : R Z := bs <- fread 4 ;; ret (unle bs).
Definition fread_u64 : R Z := bs <- fread 8 ;; ret (unle bs).

(** [fseek(f, off, SEEK_CUR)]: [off] is converted to [long]; a seek before the
    start fails and leaves the position; a seek past the end is allowed. *)
Definition fseek (off : Z) : R unit := fun _ pos =>
  let pos' := pos + i64 off in
  Some (tt, if pos' <? 0 then pos else pos').

Definition ftell : R Z := fun _ pos => Some (pos, pos).

(** A loop of [n] iterations that threads a state. *)
Fixpoint repeatR {S} (n : nat) (body : S -> R S) (s : S) : R S :=
  match n with
  | O => ret s
  | Datatypes.S n => s <- body s ;; repeatR n body s
  end.

(** The same loop collecting a result per iteration. *)
Fixpoint collectR {A} (n : nat) (body : R A) : R (list A) :=
  match n with
  | O => ret []
  | S n => x <- body ;; xs <- collectR n body ;; ret (x :: xs)
  end.

(** [uint64_t len; fread(&len); std::string s(len); fread(&s[0], len)] *)
Definition fread_string : R bytes := n <- fread_u64 ;; fread n.

Definition skip_string : R unit := n <- fread_u64 ;; fseek n.

(** [sizeof] of a scalar value type; 0 for strings, arrays and unknown ones
    (the lambda [gguf_scalar_size]). *)
Definition gguf_scalar_size (type : Z) : Z :=
  if (type =? 0) || (type =? 1) || (type =? 7) then 1
  else if (type =? 2) || (type =? 3) then 2
  else if (type =? 4) || (type =? 5) || (type =? 6) then 4
  else if (type =? 10) || (type =? 11) || (type =? 12) then 8
  else 0.

(** ** What a reader does on an image

    [reads m b x]: wherever the bytes [b] stand in a file, [m] started at
    their first byte returns [x] and stops right after them. *)
Definition reads {A} (m : R A) (b : bytes) (x : A) : Prop :=
  forall pre post, m (pre ++ b ++ post) (zlen pre) = Some (x, zlen pre + zlen b).

Lemma reads_ret {A} (x : A) : reads (ret x) [] x.
Proof. intros pre post. unfold ret. by rewrite zlen_nil, Z.add_0_r. Qed.

Lemma reads_bind {A B} (m : R A) (k : A -> R B) b b' x y :
  reads m b x -> reads (k x) b' y -> reads (bindR m k) (b ++ b') y.
Proof.
  intros Hm Hk pre post. unfold bindR. rewrite <- app_assoc, Hm.
  specialize (Hk (pre ++ b) post). rewrite <- app_assoc in Hk.
  autorewrite with len in *. rewrite Hk. f_equal. f_equal. lia.
Qed.

Lemma reads_bind_nil {A B} (m : R A) (k : A -> R B) b x y :
  reads m b x -> reads (k x) [] y -> reads (bindR m k) b y.
Proof. intros Hm Hk. rewrite <- (app_nil_r b). by eapply reads_bind. Qed.

Lemma reads_fread n b : zlen b = n -> reads (fread n) b b.
Proof.
  intros <- pre post. unfold fread.
  rewrite peek_at_Some by (autorewrite with len; pose proof (zlen_nonneg pre);
    pose proof (zlen_nonneg b); pose proof (zlen_nonneg post); lia).
  unfold zlen. rewrite !Nat2Z.id, drop_app_length, take_app_length. done.
Qed.

Lemma reads_fseek n b : zlen b = n -> n < 2 ^ 63 -> reads (fseek n) b tt.
Proof.
  intros <- Hn pre post. unfold fseek. pose proof (zlen_nonneg pre).
  pose proof (zlen_nonneg b). rewrite i64_id by lia.
  destruct (Z.ltb_spec (zlen pre + zlen b) 0); [lia|done].
Qed.

Lemma reads_u32 z : 0 <= z < 2 ^ 32 -> reads fread_u32 (le 4 z) z.
Proof.
  intros. unfold fread_u32. eapply reads_bind_nil; [by apply reads_fread; rewrite zlen_le|].
  rewrite unle_le_small by (cbn; lia). apply reads_ret.
Qed.

Lemma reads_u64 z : 0 <= z < 2 ^ 64 -> reads fread_u64 (le 8 z) z.
Proof.
  intros. unfold fread_u64. eapply reads_bind_nil; [by apply reads_fread; rewrite zlen_le|].
  rewrite unle_le_small by (cbn; lia). apply reads_ret.
Qed.

Lemma reads_repeat {S A} (body : S -> R S) (f : S -> A -> S) (img : A -> bytes) xs s :
  (forall s x, x ∈ xs -> reads (body s) (img x) (f s x)) ->
  reads (repeatR (length xs) body s) (concat (img <$> xs)) (foldl f s xs).
Proof.
  revert s. induction xs as [|x xs IH]; intros s H; [apply reads_ret|].
  cbn [length repeatR foldl]. rewrite fmap_cons. cbn [concat].
  eapply reads_bind; [apply H; by left|]. apply IH. intros s' y Hy. apply H. by right.
Qed.

Lemma reads_collect {A B} (body : R A) (f : B -> A) (img : B -> bytes) xs :
  (forall x, x ∈ xs -> reads body (img x) (f x)) ->
  reads (collectR (length xs) body) (concat (img <$> xs)) (f <$> xs).
Proof.
  induction xs as [|x xs IH]; intros H; [apply reads_ret|].
  cbn [length collectR]. rewrite !fmap_cons. cbn [concat].
  eapply reads_bind; [apply H; by left|].
  eapply reads_bind_nil; [apply IH; intros y Hy; apply H; by right|]. apply reads_ret.
Qed.

(** ** The abstract file *)

(** A string of the file: eight bytes of length, then the text. *)
Definition string_image (s : bytes) : bytes := le 8 (zlen s) ++ s.

Definition string_ok (s : bytes) : Prop := zlen s < 2 ^ 62.

Lemma reads_string s : string_ok s -> reads fread_string (string_image s) s.
Proof.
  intros H. unfold fread_string, string_image. pose proof (zlen_nonneg s).
  unfold string_ok in H. eapply reads_bind; [apply reads_u64; lia|]. by apply reads_fread.
Qed.

Lemma reads_skip_string s : string_ok s -> reads skip_string (string_image s) tt.
Proof.
  intros H. unfold skip_string, string_image. pose proof (zlen_nonneg s). unfold string_ok in H.
  eapply reads_bind; [apply reads_u64; lia|]. apply reads_fseek; [done|lia].
Qed.

(** Metadata values: a scalar of type [ty] with its payload, a string, an
    array of scalars, an array of strings. *)
Inductive value :=
| Scalar (ty : Z) (payload : bytes)
| Str (s : bytes)
| Scalars (ty : Z) (elems : list bytes)
| Strs (elems : list bytes).

Definition value_type (v : value) : Z :=
  match v with Scalar ty _ => ty | Str _ => 8 | Scalars _ _ | Strs _ => 9 end.

Definition value_image (v : value) : bytes :=
  match v with
  | Scalar _ p => p
  | Str s => string_image s
  | Scalars ty es => le 4 ty ++ le 8 (zlen es) ++ concat es
  | Strs ss => le 4 8 ++ le 8 (zlen ss) ++ concat (string_image <$> ss)
  end.

Definition scalar_ok (ty : Z) (p : bytes) : Prop :=
  0 <= ty < 13 /\ 0 < gguf_scalar_size ty /\ zlen p = gguf_scalar_size ty.

Definition value_ok (v : value) : Prop :=
  match v with
  | Scalar ty p => scalar_ok ty p
  | Str s => string_ok s
  | Scalars ty es => 0 <= ty < 13 /\ 0 < gguf_scalar_size ty /\ zlen es < 2 ^ 58 /\
                     Forall (fun p => zlen p = gguf_scalar_size ty) es
  | Strs ss => zlen ss < 2 ^ 62 /\ Forall string_ok ss
  end.

Record kv := KV { key : bytes; val : value }.

Definition kv_image (e : kv) : bytes :=
  string_image (key e) ++ le 4 (value_type (val e)) ++ value_image (val e).

Definition kv_ok (e : kv) : Prop := string_ok (key e) /\ value_ok (val e).

Definition header_image (version n_tensors n_kv : Z) : bytes :=
  le 4 GGUF_MAGIC ++ le 4 version ++ le 8 n_tensors ++ le 8 n_kv.

Lemma scalar_size_le ty : gguf_scalar_size ty <= 8.
Proof. unfold gguf_scalar_size. repeat case_match; lia. Qed.

Lemma scalars_length ty (es : list bytes) :
  Forall (fun p => zlen p = gguf_scalar_size ty) es ->
  zlen (concat es) = zlen es * gguf_scalar_size ty.
Proof.
  induction 1 as [|p es Hp _ IH]; [done|]. cbn [concat].
  autorewrite with len. rewrite IH, Hp. lia.
Qed.

Lemma value_type_range v : value_ok v -> 0 <= value_type v < 2 ^ 32.
Proof. destruct v; simpl; unfold scalar_ok; intros; lia. Qed.

End Gguf.
