(* ===== verification/ModelFile.v ===== *)
(** * ModelFile: the GGUF loader of [src/engine/model.cpp]

    The configuration reader, the tensor directory and the mapping of tensor
    names to weight pointers, over the readers of [Gguf].  Floats are kept as
    their 32-bit patterns; a pointer into the mapped file is its offset from
    the start of the mapping. *)

From S2P Require Import Prelude CLib Gguf.

Module ModelFile.
Import Gguf.

(** ** Tensor types *)

Definition ggml_type_block_size (type : Z) : Z :=
  if (type =? 0) || (type =? 1) then 1
  else if (type =? 2) || (type =? 3) || (type =? 6) || (type =? 7) || (type =? 8) || (type =? 9)
  then 32
  else if (type =? 12) || (type =? 13) || (type =? 14) || (type =? 10) || (type =? 11) then 256
  else 1.

Definition ggml_type_bytes_per_block (type : Z) : Z :=
  if type =? 0 then 4 else if type =? 1 then 2
  else if type =? 2 then 18 else if type =? 3 then 20 else if type =? 6 then 22
  else if type =? 7 then 24 else if type =? 8 then 34 else if type =? 9 then 36
  else if type =? 12 then 144 else if type =? 13 then 176 else if type =? 14 then 210
  else if type =? 10 then 84 else if type =? 11 then 110
  else 4.

Definition tensor_bytes (type n_elements : Z) : Z :=
  let block_size := ggml_type_block_size type in
  let n_blocks := Z.quot (i64 (n_elements + block_size - 1)) block_size in
  i64 (n_blocks * ggml_type_bytes_per_block type).

(** ** The tensor directory *)

(** [name] is the [char[256]] up to its terminator; [shape] has four entries. *)
Record TensorInfo := mkTensor {
  name : bytes; n_dims : Z; shape : list Z; type : Z; offset : Z }.

(** A C string stops at its first zero byte. *)
Definition c_string (s : bytes) : bytes := (span (fun b => negb (Byte.eqb b Byte.x00)) s).1.

(** The metadata loop of [parse_tensor_infos]: one key and its value. *)
Definition skip_kv : R unit :=
  key_len <- fread_u64 ;;
  fseek key_len ;;;
  vtype <- fread_u32 ;;
  let scalar_sz := gguf_scalar_size vtype in
  if 0 <? scalar_sz then fseek scalar_sz
  else if vtype =? 8 then skip_string
  else if vtype =? 9 then
    atype <- fread_u32 ;;
    alen <- fread_u64 ;;
    let elem_sz := gguf_scalar_size atype in
    if 0 <? elem_sz then fseek (i64 (u64 (alen * elem_sz)))
    else if atype =? 8 then repeatR (Z.to_nat alen) (fun _ => skip_string) tt
    else repeatR (Z.to_nat alen) (fun _ => fseek 8) tt
  else fseek 8.

(** One tensor entry.  More than four dimensions write past [shape], which is
    left undefined. *)
Definition read_tensor : R TensorInfo :=
  name_len <- fread_u64 ;;
  nm <- fread (Z.min name_len 255) ;;
  (if 255 <? name_len then fseek (u64 (name_len - 255)) else ret tt) ;;;
  nd <- fread_u32 ;;
  (if 4 <? nd then fun _ _ => None else
     dims <- collectR (Z.to_nat nd) fread_u64 ;;
     ty <- fread_u32 ;;
     off <- fread_u64 ;;
     ret (mkTensor (c_string nm) nd ((i64 <$> dims) ++ replicate (4 - Z.to_nat nd) 1) ty off)).

Definition align32 (cur : Z) : Z := Z.quot (i64 (cur + 32 - 1)) 32 * 32.

(** Header, metadata and tensor entries. *)
Definition read_directory : R (list TensorInfo) :=
  fread_u32 ;;; fread_u32 ;;;
  n_tensors <- fread_u64 ;;
  n_kv <- fread_u64 ;;
  repeatR (Z.to_nat n_kv) (fun _ => skip_kv) tt ;;;
  collectR (Z.to_nat n_tensors) read_tensor.

Definition read_tensor_infos : R (Z * list TensorInfo) :=
  tensors <- read_directory ;; cur <- ftell ;; ret (align32 cur, tensors).

(** [file = None]: [fopen] fails and the result is [-1].  The outer [None] is
    a file too short for what it announces. *)
Definition parse_tensor_infos (file : option bytes) : option (Z * list TensorInfo) :=
  match file with
  | None => Some (-1, [])
  | Some f => match read_tensor_infos f 0 with Some (r, _) => Some r | None => None end
  end.

(** ** The configuration *)

Record ModelConfig := mkModel {
  cfg_name : bytes; n_layers : Z; n_heads : Z; n_kv_heads : Z; head_dim : Z; hidden_dim : Z;
  intermediate_dim : Z; vocab_size : Z; max_seq_len : Z; rope_theta : Z; rms_eps : Z;
  rope_neox : bool }.

(** [1e-5f] and [10000.0f] as bit patterns. *)
Definition float_1e_5 : Z := 0x3727C5AC.
Definition float_10000 : Z := 0x461C4000.

Definition config_init (path : bytes) : ModelConfig :=
  mkModel path 0 0 0 0 0 0 0 0 0 float_1e_5 false.

Definition gqa_group_size (c : ModelConfig) : Z :=
  if 0 <? n_kv_heads c then Z.quot (n_heads c) (n_kv_heads c) else 1.

Definition kv_per_token_bytes (c : ModelConfig) (kv_type_bytes : Z) : Z :=
  i64 (2 * n_layers c * n_kv_heads c * head_dim c * kv_type_bytes).

Definition weight_bytes (c : ModelConfig) : Z :=
  let params := i64 (n_layers c * (4 * hidden_dim c * hidden_dim c +
                                   2 * hidden_dim c * intermediate_dim c)) in
  let params := i64 (params + vocab_size c * hidden_dim c) in
  i64 (Z.quot params 2 + Z.quot params 32 * 2).

Definition set_u32 (key : bytes) (v : Z) (c : ModelConfig) : ModelConfig :=
  let '(mkModel nm nl nh nkv hd hid inter vs ms rt re rn) := c in
  let v := i32 v in
  if strstr key (str "block_count") then mkModel nm v nh nkv hd hid inter vs ms rt re rn
  else if strstr key (str "head_count_kv") then mkModel nm nl nh v hd hid inter vs ms rt re rn
  else if strstr key (str "head_count") then mkModel nm nl v nkv hd hid inter vs ms rt re rn
  else if strstr key (str "attention.key_length") then mkModel nm nl nh nkv v hid inter vs ms rt re rn
  else if strstr key (str "attention.value_length") then mkModel nm nl nh nkv v hid inter vs ms rt re rn
  else if strstr key (str "embedding_length") then mkModel nm nl nh nkv hd v inter vs ms rt re rn
  else if strstr key (str "feed_forward_length") then mkModel nm nl nh nkv hd hid v vs ms rt re rn
  else if strstr key (str "vocab_size") then mkModel nm nl nh nkv hd hid inter v ms rt re rn
  else if strstr key (str "context_length") then mkModel nm nl nh nkv hd hid inter vs v rt re rn
  else c.

Definition set_f32 (key : bytes) (v : Z) (c : ModelConfig) : ModelConfig :=
  let '(mkModel nm nl nh nkv hd hid inter vs ms rt re rn) := c in
  if strstr key (str "rope.freq_base") then mkModel nm nl nh nkv hd hid inter vs ms v re rn
  else if strstr key (str "layer_norm_rms_epsilon") || strstr key (str "rms_norm_eps")
  then mkModel nm nl nh nkv hd hid inter vs ms rt v rn
  else c.

Definition set_name (v : bytes) (c : ModelConfig) : ModelConfig :=
  let '(mkModel _ nl nh nkv hd hid inter vs ms rt re rn) := c in
  mkModel v nl nh nkv hd hid inter vs ms rt re rn.

Definition neox_archs : list bytes :=
  str <$> ["qwen"; "qwen2"; "qwen3"; "qwen2moe"; "qwen3moe"; "gemma"; "gemma2"; "gemma3";
           "phi2"; "phi3"; "gptneox"; "olmo"; "olmo2"]%string.

Definition set_arch (arch : bytes) (c : ModelConfig) : ModelConfig :=
  let '(mkModel nm nl nh nkv hd hid inter vs ms rt re _) := c in
  mkModel nm nl nh nkv hd hid inter vs ms rt re (bool_decide (arch ∈ neox_archs)).

(** Skipping the value of a key longer than 255 bytes. *)
Definition skip_long_value : R unit :=
  skip_type <- fread_u32 ;;
  if (skip_type <=? 1) || (skip_type =? 7) then fseek 1
  else if skip_type <=? 3 then fseek 2
  else if skip_type <=? 6 then fseek 4
  else if (10 <=? skip_type) && (skip_type <=? 12) then fseek 8
  else if skip_type =? 8 then skip_string
  else if skip_type =? 9 then
    at_ <- fread_u32 ;;
    al <- fread_u64 ;;
    if at_ =? 8 then repeatR (Z.to_nat al) (fun _ => skip_string) tt
    else
      let esz := if (at_ <=? 1) || (at_ =? 7) then 1
                 else if at_ <=? 3 then 2 else if at_ <=? 6 then 4 else 8 in
      fseek (i64 (u64 (al * esz)))
  else fseek 8.

(** One iteration of the metadata loop of [load_gguf_config]. *)
Definition config_kv (c : ModelConfig) : R ModelConfig :=
  key_len <- fread_u64 ;;
  if 255 <? key_len then
    fseek key_len ;;; skip_long_value ;;; ret c
  else
    k <- fread key_len ;;
    let key := c_string k in
    vtype <- fread_u32 ;;
    if vtype =? 4 then v <- fread_u32 ;; ret (set_u32 key v c)
    else if vtype =? 6 then v <- fread_u32 ;; ret (set_f32 key v c)
    else if vtype =? 8 then
      str_len <- fread_u64 ;;
      if strstr key (str "general.name") && (str_len <? 256)
      then v <- fread str_len ;; ret (set_name (c_string v) c)
      else if strstr key (str "general.architecture")
      then v <- fread str_len ;; ret (set_arch v c)
      else fseek str_len ;;; ret c
    else fseek 8 ;;; ret c.

(** [x == 0.0f] on a bit pattern: both zeros. *)
Definition is_zero_float (b : Z) : bool := (b =? 0) || (b =? 0x80000000).

(** The derived fields and defaults after the loop. *)
Definition derive (c : ModelConfig) : ModelConfig :=
  let '(mkModel nm nl nh nkv hd hid inter vs ms rt re rn) := c in
  let hd := if (hd =? 0) && (0 <? nh) && (0 <? hid) then Z.quot hid nh else hd in
  let rt := if is_zero_float rt then float_10000 else rt in
  let ms := if ms =? 0 then 2048 else ms in
  let nkv := if nkv =? 0 then nh else nkv in
  mkModel nm nl nh nkv hd hid inter vs ms rt re rn.

Definition set_vocab (v : Z) (c : ModelConfig) : ModelConfig :=
  let '(mkModel nm nl nh nkv hd hid inter _ ms rt re rn) := c in
  mkModel nm nl nh nkv hd hid inter v ms rt re rn.

(** The vocabulary size from the embedding's shape. *)
Definition vocab_from_shape (hidden : Z) (ti : TensorInfo) : Z :=
  let s0 := nth 0 (shape ti) 0 in
  let s1 := if 2 <=? n_dims ti then nth 1 (shape ti) 0 else 0 in
  if s0 =? hidden then s1 else if s1 =? hidden then s0 else Z.max s0 s1.

Definition derive_vocab (file : option bytes) (c : ModelConfig) : option ModelConfig :=
  if (vocab_size c =? 0) && (0 <? hidden_dim c) then
    match parse_tensor_infos file with
    | None => None
    | Some (r, tensors) =>
        let c := if 0 <=? r
                 then match List.find (fun ti => bool_decide (name ti = str "token_embd.weight")) tensors with
                      | Some ti => set_vocab (i32 (vocab_from_shape (hidden_dim c) ti)) c
                      | None => c
                      end
                 else c in
        Some (if vocab_size c =? 0 then set_vocab 32000 c else c)
    end
  else Some c.

(** At most 256 metadata entries are looked at. *)
Definition read_config (c : ModelConfig) : R (option ModelConfig) :=
  magic <- fread_u32 ;; fread_u32 ;;; fread_u64 ;;;
  n_kv <- fread_u64 ;;
  if negb (magic =? GGUF_MAGIC) then ret None
  else c <- repeatR (Z.to_nat (Z.min n_kv 256)) config_kv c ;; ret (Some (derive c)).

Definition load_gguf_config (path : bytes) (file : option bytes) : option ModelConfig :=
  let cfg := config_init path in
  match file with
  | None => Some cfg
  | Some f => match read_config cfg f 0 with
              | None => None
              | Some (None, _) => Some cfg
              | Some (Some c, _) => derive_vocab file c
              end
  end.

(** ** Mapping tensors to weight pointers *)

(** The fields of [LayerWeights] that come from the file. *)
Inductive slot := Wq | Wk | Wv | Wo | WGate | WUp | WDown | QNorm | KNorm | RmsAttn | RmsFfn.

#[global] Instance slot_eq_dec : EqDecision slot.
Proof. solve_decision. Defined.

(** Pointers are [option Z], [None] for null; a type is a GGML type. *)
Record LayerWeights := mkLayer {
  wq : option Z; wk : option Z; wv : option Z; wo : option Z;
  w_gate : option Z; w_up : option Z; w_down : option Z;
  rms_attn : option Z; rms_ffn : option Z; q_norm : option Z; k_norm : option Z;
  type_wq : Z; type_wk : Z; type_wv : Z; type_wo : Z;
  type_w_gate : Z; type_w_up : Z; type_w_down : Z;
  rms_type : Z; qk_norm_type : Z }.

(** After [memset(layers, 0, ...)]. *)
Definition zero_layer : LayerWeights :=
  mkLayer None None None None None None None None None None None 0 0 0 0 0 0 0 0 0.

Definition slot_ptr (s : slot) (lw : LayerWeights) : option Z :=
  match s with
  | Wq => wq lw | Wk => wk lw | Wv => wv lw | Wo => wo lw | WGate => w_gate lw | WUp => w_up lw
  | WDown => w_down lw | QNorm => q_norm lw | KNorm => k_norm lw
  | RmsAttn => rms_attn lw | RmsFfn => rms_ffn lw
  end.

Definition norm_type (type : Z) : Z := if type =? 0 then 0 else 1.

Definition set_slot (s : slot) (ptr type : Z) (lw : LayerWeights) : LayerWeights :=
  let '(mkLayer q k v o g u d ra rf qn kn tq tk tv to tg tu td rt nt) := lw in
  let p := Some ptr in
  match s with
  | Wq => mkLayer p k v o g u d ra rf qn kn type tk tv to tg tu td rt nt
  | Wk => mkLayer q p v o g u d ra rf qn kn tq type tv to tg tu td rt nt
  | Wv => mkLayer q k p o g u d ra rf qn kn tq tk type to tg tu td rt nt
  | Wo => mkLayer q k v p g u d ra rf qn kn tq tk tv type tg tu td rt nt
  | WGate => mkLayer q k v o p u d ra rf qn kn tq tk tv to type tu td rt nt
  | WUp => mkLayer q k v o g p d ra rf qn kn tq tk tv to tg type td rt nt
  | WDown => mkLayer q k v o g u p ra rf qn kn tq tk tv to tg tu type rt nt
  | QNorm => mkLayer q k v o g u d ra rf p kn tq tk tv to tg tu td rt (norm_type type)
  | KNorm => mkLayer q k v o g u d ra rf qn p tq tk tv to tg tu td rt (norm_type type)
  | RmsAttn => mkLayer q k v o g u d p rf qn kn tq tk tv to tg tu td (norm_type type) nt
  | RmsFfn => mkLayer q k v o g u d ra p qn kn tq tk tv to tg tu td (norm_type type) nt
  end.

Record ModelWeights := mkWeights {
  tok_embd : option Z; output_norm : option Z; embd_type : Z;
  output : option Z; output_type : Z; layers : list LayerWeights }.

(** [mw] as constructed, with its layers allocated and cleared. *)
Definition fresh_weights (nl : Z) : ModelWeights :=
  mkWeights None None 0 None 12 (replicate (Z.to_nat nl) zero_layer).

(** [sscanf(name, "blk.%d.", &layer) == 1] *)
Definition scan_layer (nm : bytes) : option Z :=
  if starts_with (str "blk.") nm then
    let s := drop 4 nm in
    let '(v, r) := strtol s in
    if decide (r = s) then None else Some (i32 v)
  else None.

(** The chain of [strstr] tests, in order. *)
Definition classify (nm : bytes) : option slot :=
  if strstr nm (str "attn_q.weight") then Some Wq
  else if strstr nm (str "attn_k.weight") then Some Wk
  else if strstr nm (str "attn_v.weight") then Some Wv
  else if strstr nm (str "attn_output.weight") then Some Wo
  else if strstr nm (str "ffn_gate.weight") then Some WGate
  else if strstr nm (str "ffn_up.weight") then Some WUp
  else if strstr nm (str "ffn_down.weight") then Some WDown
  else if strstr nm (str "attn_q_norm.weight") then Some QNorm
  else if strstr nm (str "attn_k_norm.weight") then Some KNorm
  else if strstr nm (str "attn_norm.weight") then Some RmsAttn
  else if strstr nm (str "ffn_norm.weight") then Some RmsFfn
  else None.

(** One iteration of the mapping loop: the weights and the counter [mapped]. *)
Definition map_tensor (data_offset : Z) (acc : ModelWeights * Z) (ti : TensorInfo)
  : ModelWeights * Z :=
  let '(mw, mapped) := acc in
  let ptr := data_offset + offset ti in
  let nl := zlen (layers mw) in
  let global :=
    let '(mkWeights te on et out ot ls) := mw in
    if decide (name ti = str "token_embd.weight")
    then (mkWeights (Some ptr) on (type ti) out ot ls, mapped + 1)
    else if decide (name ti = str "output_norm.weight")
    then (mkWeights te (Some ptr) et out ot ls, mapped + 1)
    else if decide (name ti = str "output.weight")
    then (mkWeights te on et (Some ptr) (type ti) ls, mapped + 1)
    else (mw, mapped) in
  match scan_layer (name ti) with
  | Some l =>
      if (0 <=? l) && (l <? nl) then
        match classify (name ti) with
        | Some s =>
            let '(mkWeights te on et out ot ls) := mw in
            (mkWeights te on et out ot (alter (set_slot s ptr (type ti)) (Z.to_nat l) ls), mapped + 1)
        | None => (mw, mapped)
        end
      else global
  | None => global
  end.

(** The alias for models that tie the output projection to the embedding. *)
Definition tie_output (mw : ModelWeights) : ModelWeights :=
  let '(mkWeights te on et out ot ls) := mw in
  match out, te with
  | None, Some p => mkWeights te on et (Some p) et ls
  | _, _ => mw
  end.

(** [mmap_ok = false]: [load_gguf_weights] fails.  The outer [None] is as in
    [parse_tensor_infos]. *)
Definition load_and_map_weights (file : option bytes) (mmap_ok : bool) (nl : Z)
  : option (bool * ModelWeights) :=
  match parse_tensor_infos file with
  | None => None
  | Some (data_offset, tensors) =>
      if data_offset <? 0 then Some (false, fresh_weights 0)
      else if negb mmap_ok then Some (false, fresh_weights 0)
      else
        let '(mw, mapped) := foldl (map_tensor data_offset) (fresh_weights nl, 0) tensors in
        Some (0 <? mapped, tie_output mw)
  end.

(** ** The device alias of the mapped file *)

Record region := mkRegion { host_base : Z; device_base : Z; region_bytes : Z }.

Definition no_region : region := mkRegion 0 0 0.

Definition clear_mapped_weight_region (g : region) (host : Z) : region :=
  if host_base g =? host then no_region else g.

(** 0 is a null pointer. *)
Definition resolve_mapped_weight_device_ptr (g : region) (host_ptr : Z) : Z :=
  if (host_ptr =? 0) || (host_base g =? 0) || (device_base g =? 0) then 0
  else if (host_ptr <? host_base g) || (host_base g + region_bytes g <=? host_ptr) then 0
  else device_base g + (host_ptr - host_base g).

Definition register_mapped_weight_region (host device n : Z) : region := mkRegion host device n.

(** ** Reading the directory *)

Lemma reads_skip_strings ss :
  Forall string_ok ss ->
  reads (repeatR (length ss) (fun _ => skip_string) tt) (concat (string_image <$> ss)) tt.
Proof.
  intros Hs. replace tt with (foldl (fun (u : unit) (_ : bytes) => u) tt ss) at 2
    by (by destruct (foldl _ tt ss)).
  apply reads_repeat. intros [] s Hin. rewrite Forall_forall in Hs. by apply reads_skip_string, Hs.
Qed.

Lemma reads_skip_value v :
  value_ok v ->
  reads (vtype <- fread_u32 ;;
    let scalar_sz := gguf_scalar_size vtype in
    if 0 <? scalar_sz then fseek scalar_sz
    else if vtype =? 8 then skip_string
    else if vtype =? 9 then
      atype <- fread_u32 ;; alen <- fread_u64 ;;
      let elem_sz := gguf_scalar_size atype in
      if 0 <? elem_sz then fseek (i64 (u64 (alen * elem_sz)))
      else if atype =? 8 then repeatR (Z.to_nat alen) (fun _ => skip_string) tt
      else repeatR (Z.to_nat alen) (fun _ => fseek 8) tt
    else fseek 8) (le 4 (value_type v) ++ value_image v) tt.
Proof.
  intros Hv. eapply reads_bind; [apply reads_u32, value_type_range, Hv|]. cbv zeta.
  destruct v as [ty p|s|ty es|ss]; cbn [value_type value_image] in *.
  - destruct Hv as (_ & H0 & Hl). destruct (Z.ltb_spec 0 (gguf_scalar_size ty)); [|lia].
    apply reads_fseek; [done|]. pose proof (scalar_size_le ty). lia.
  - by apply reads_skip_string.
  - destruct Hv as (Hty & H0 & Hn & Hes). pose proof (scalar_size_le ty).
    pose proof (zlen_nonneg es). change (0 <? gguf_scalar_size 9) with false. cbn [Z.eqb Pos.eqb].
    eapply reads_bind; [apply reads_u32; lia|]. eapply reads_bind; [apply reads_u64; lia|].
    destruct (Z.ltb_spec 0 (gguf_scalar_size ty)); [|lia].
    assert (0 <= zlen es * gguf_scalar_size ty < 2 ^ 61) by nia. nowrap.
    apply reads_fseek; [by apply scalars_length|lia].
  - destruct Hv as (Hn & Hss). pose proof (zlen_nonneg ss).
    change (0 <? gguf_scalar_size 9) with false. cbn [Z.eqb Pos.eqb].
    eapply reads_bind; [apply reads_u32; lia|]. eapply reads_bind; [apply reads_u64; lia|].
    change (0 <? gguf_scalar_size 8) with false. cbn [Z.eqb Pos.eqb].
    unfold zlen. rewrite Nat2Z.id. by apply reads_skip_strings.
Qed.

Lemma reads_skip_kv e : kv_ok e -> reads skip_kv (kv_image e) tt.
Proof.
  intros [Hk Hv]. unfold skip_kv, kv_image, string_image. pose proof (zlen_nonneg (key e)).
  unfold string_ok in Hk. rewrite <- app_assoc.
  eapply reads_bind; [apply reads_u64; lia|].
  eapply reads_bind; [apply reads_fseek; [done|lia]|]. by apply reads_skip_value.
Qed.

(** A tensor entry of the file. *)
Record entry := Entry { e_name : bytes; e_dims : list Z; e_type : Z; e_offset : Z }.

Definition entry_image (e : entry) : bytes :=
  string_image (e_name e) ++ le 4 (zlen (e_dims e)) ++ concat (le 8 <$> e_dims e) ++
  le 4 (e_type e) ++ le 8 (e_offset e).

Record entry_ok (e : entry) : Prop := {
  eo_name : string_ok (e_name e);
  eo_dims : zlen (e_dims e) <= 4 /\ Forall (fun d => 0 <= d < 2 ^ 63) (e_dims e);
  eo_type : 0 <= e_type e < 2 ^ 32;
  eo_offset : 0 <= e_offset e < 2 ^ 64 }.

(** What the directory holds for it: the name cut to 255 bytes and at a zero
    byte, the shape padded with ones. *)
Definition info_of (e : entry) : TensorInfo :=
  mkTensor (c_string (take 255 (e_name e))) (zlen (e_dims e))
    (e_dims e ++ replicate (4 - length (e_dims e)) 1) (e_type e) (e_offset e).

Lemma reads_dims ds :
  Forall (fun d => 0 <= d < 2 ^ 63) ds ->
  reads (collectR (length ds) fread_u64) (concat (le 8 <$> ds)) ds.
Proof.
  intros H. rewrite <- (list_fmap_id ds) at 3. apply reads_collect.
  intros d Hd. rewrite Forall_forall in H. specialize (H d Hd). change (id d) with d.
  apply reads_u64. lia.
Qed.

Lemma i64_dims ds : Forall (fun d => 0 <= d < 2 ^ 63) ds -> i64 <$> ds = ds.
Proof.
  induction 1 as [|d ds Hd _ IH]; [done|]. rewrite fmap_cons, IH, i64_id; [done|lia].
Qed.

Lemma reads_tensor e : entry_ok e -> reads read_tensor (entry_image e) (info_of e).
Proof.
  intros [Hn [Hl Hd] Ht Ho]. unfold read_tensor, entry_image, string_image.
  rewrite <- app_assoc. unfold string_ok in Hn.
  pose proof (zlen_nonneg (e_name e)). pose proof (zlen_nonneg (e_dims e)).
  eapply reads_bind; [apply reads_u64; lia|].
  rewrite <- (take_drop 255 (e_name e)) at 2. rewrite <- app_assoc.
  eapply reads_bind.
  { apply (reads_fread _ (take 255 (e_name e))). unfold zlen. rewrite length_take. lia. }
  eapply (reads_bind _ _ (drop 255 (e_name e)) _ tt).
  { destruct (Z.ltb_spec 255 (zlen (e_name e))).
    - rewrite u64_id by lia. apply reads_fseek; [|lia]. unfold zlen in *. rewrite length_drop. lia.
    - rewrite drop_ge by (unfold zlen in *; lia). apply reads_ret. }
  eapply reads_bind; [apply reads_u32; lia|].
  destruct (Z.ltb_spec 4 (zlen (e_dims e))); [lia|].
  eapply reads_bind; [unfold zlen; rewrite Nat2Z.id; by apply reads_dims|].
  eapply reads_bind; [by apply reads_u32|].
  eapply reads_bind_nil; [by apply reads_u64|].
  rewrite i64_dims by done. unfold info_of, zlen. rewrite Nat2Z.id. apply reads_ret.
Qed.

(** The part of the file before the tensor data. *)
Definition directory_image (version : Z) (kvs : list kv) (es : list entry) : bytes :=
  header_image version (zlen es) (zlen kvs) ++ concat (kv_image <$> kvs) ++
  concat (entry_image <$> es).

Lemma reads_skip_kvs kvs :
  Forall kv_ok kvs ->
  reads (repeatR (length kvs) (fun _ => skip_kv) tt) (concat (kv_image <$> kvs)) tt.
Proof.
  intros H. replace tt with (foldl (fun (u : unit) (_ : kv) => u) tt kvs) at 2
    by (by destruct (foldl _ tt kvs)).
  apply reads_repeat. intros [] e Hin. rewrite Forall_forall in H. by apply reads_skip_kv, H.
Qed.

Lemma reads_entries es :
  Forall entry_ok es ->
  reads (collectR (length es) read_tensor) (concat (entry_image <$> es)) (info_of <$> es).
Proof.
  intros H. apply reads_collect. intros e Hin. rewrite Forall_forall in H. by apply reads_tensor, H.
Qed.

Lemma align32_spec n : 0 <= n < 2 ^ 62 -> n <= align32 n < n + 32 /\ (32 | align32 n).
Proof.
  intros. unfold align32. nowrap. rewrite Z.quot_div_nonneg by lia. split.
  - pose proof (Z.div_mod (n + 32 - 1) 32). pose proof (Z.mod_pos_bound (n + 32 - 1) 32). lia.
  - apply Z.divide_factor_r.
Qed.

(** The images of a list are at least as long as the list. *)
Lemma concat_images {A} (img : A -> bytes) xs :
  (forall x, (0 < length (img x))%nat) -> zlen xs <= zlen (concat (img <$> xs)).
Proof.
  intros Hi. induction xs as [|x xs IH]; [done|]. rewrite fmap_cons. cbn [concat].
  autorewrite with len. specialize (Hi x). unfold zlen in *. lia.
Qed.

Lemma kv_image_pos e : (0 < length (kv_image e))%nat.
Proof. unfold kv_image, string_image. rewrite !length_app, length_le. lia. Qed.

Lemma entry_image_pos e : (0 < length (entry_image e))%nat.
Proof. unfold entry_image, string_image. rewrite !length_app, length_le. lia. Qed.

Lemma reads_directory version kvs es :
  0 <= version < 2 ^ 32 -> Forall kv_ok kvs -> Forall entry_ok es ->
  zlen (directory_image version kvs es) < 2 ^ 62 ->
  reads read_directory (directory_image version kvs es) (info_of <$> es).
Proof.
  intros Hv Hk He Hn. unfold directory_image in *. autorewrite with len in Hn.
  pose proof (concat_images kv_image kvs kv_image_pos) as Hck.
  pose proof (concat_images entry_image es entry_image_pos) as Hce.
  pose proof (zlen_nonneg (header_image version (zlen es) (zlen kvs))).
  pose proof (zlen_nonneg es). pose proof (zlen_nonneg kvs).
  unfold read_directory, header_image. rewrite <- !app_assoc.
  eapply reads_bind; [apply reads_u32; unfold GGUF_MAGIC; lia|].
  eapply reads_bind; [by apply reads_u32|].
  eapply reads_bind; [apply reads_u64; lia|]. eapply reads_bind; [apply reads_u64; lia|].
  unfold zlen. rewrite !Nat2Z.id.
  eapply reads_bind; [by apply reads_skip_kvs|]. by apply reads_entries.
Qed.


(** ** Reading the configuration *)

(** The meaning of one metadata entry for the configuration. *)
Definition apply_kv (c : ModelConfig) (e : kv) : ModelConfig :=
  if 255 <? zlen (key e) then c
  else
    let k := c_string (key e) in
    match val e with
    | Scalar ty p => if ty =? 4 then set_u32 k (unle p) c
                     else if ty =? 6 then set_f32 k (unle p) c else c
    | Str s => if strstr k (str "general.name") && (zlen s <? 256) then set_name (c_string s) c
               else if strstr k (str "general.architecture") then set_arch s c else c
    | Scalars _ _ | Strs _ => c
    end.

(** The entries the reader keeps its place on: any value under a long key,
    otherwise strings and scalars of four bytes unsigned, float, or eight
    bytes. *)
Definition config_readable (e : kv) : Prop :=
  kv_ok e /\
  (zlen (key e) <= 255 ->
     match val e with
     | Scalar ty _ => ty = 4 \/ ty = 6 \/ ty = 10 \/ ty = 11 \/ ty = 12
     | Str _ => True
     | Scalars _ _ | Strs _ => False
     end).

Lemma fread_u32_payload p : zlen p = 4 -> reads fread_u32 p (unle p).
Proof.
  intros H. unfold fread_u32. eapply reads_bind_nil; [by apply reads_fread|]. apply reads_ret.
Qed.

Lemma reads_config_value c k v :
  value_ok v ->
  match v with
  | Scalar ty _ => ty = 4 \/ ty = 6 \/ ty = 10 \/ ty = 11 \/ ty = 12
  | Str _ => True
  | Scalars _ _ | Strs _ => False
  end ->
  reads (vtype <- fread_u32 ;;
    if vtype =? 4 then v <- fread_u32 ;; ret (set_u32 k v c)
    else if vtype =? 6 then v <- fread_u32 ;; ret (set_f32 k v c)
    else if vtype =? 8 then
      str_len <- fread_u64 ;;
      if strstr k (str "general.name") && (str_len <? 256)
      then v <- fread str_len ;; ret (set_name (c_string v) c)
      else if strstr k (str "general.architecture")
      then v <- fread str_len ;; ret (set_arch v c)
      else fseek str_len ;;; ret c
    else fseek 8 ;;; ret c)
  (le 4 (value_type v) ++ value_image v)
  (match v with
   | Scalar ty p => if ty =? 4 then set_u32 k (unle p) c
                    else if ty =? 6 then set_f32 k (unle p) c else c
   | Str s => if strstr k (str "general.name") && (zlen s <? 256) then set_name (c_string s) c
              else if strstr k (str "general.architecture") then set_arch s c else c
   | Scalars _ _ | Strs _ => c
   end).
Proof.
  intros Hv Hr. eapply reads_bind; [apply reads_u32, value_type_range, Hv|].
  destruct v as [ty p|s| |]; [| |done..]; cbn [value_type value_image].
  - destruct Hv as (_ & _ & Hl). destruct Hr as [->|[->|Hr]].
    + eapply reads_bind_nil; [by apply fread_u32_payload|apply reads_ret].
    + eapply reads_bind_nil; [by apply fread_u32_payload|apply reads_ret].
    + assert (zlen p = 8) by (by destruct Hr as [->|[->| ->]]).
      destruct Hr as [->|[->| ->]]; (eapply reads_bind_nil;
        [by apply reads_fseek|apply reads_ret]).
  - cbn [Z.eqb Pos.eqb]. unfold string_image. pose proof (zlen_nonneg s). cbv beta in Hv.
    unfold value_ok, string_ok in Hv. eapply reads_bind; [apply reads_u64; lia|].
    destruct (strstr k (str "general.name") && (zlen s <? 256)).
    { eapply reads_bind_nil; [by apply reads_fread|apply reads_ret]. }
    destruct (strstr k (str "general.architecture")).
    { eapply reads_bind_nil; [by apply reads_fread|apply reads_ret]. }
    eapply reads_bind_nil; [apply reads_fseek; [done|lia]|apply reads_ret].
Qed.

Lemma skip_long_scalar ty p :
  scalar_ok ty p ->
  (if (ty <=? 1) || (ty =? 7) then 1 else if ty <=? 3 then 2 else if ty <=? 6 then 4 else 8)
    = gguf_scalar_size ty.
Proof.
  intros (Hr & H0 & _). assert (H : In ty [0;1;2;3;4;5;6;7;8;9;10;11;12]).
  { simpl. lia. }
  simpl in H. decompose [or] H; subst; try done; by vm_compute in H0.
Qed.

Lemma reads_skip_long_value v :
  value_ok v -> reads skip_long_value (le 4 (value_type v) ++ value_image v) tt.
Proof.
  intros Hv. unfold skip_long_value.
  eapply reads_bind; [apply reads_u32, value_type_range, Hv|].
  destruct v as [ty p|s|ty es|ss]; cbn [value_type value_image] in *.
  - pose proof (skip_long_scalar ty p Hv) as Hs. destruct Hv as (Hr & H0 & Hl).
    pose proof (scalar_size_le ty) as H8.
    assert (Hgo : forall n, n = gguf_scalar_size ty -> reads (fseek n) p tt)
      by (intros n ->; apply reads_fseek; [done|lia]).
    destruct ((ty <=? 1) || (ty =? 7)); [by apply Hgo|].
    destruct (ty <=? 3); [by apply Hgo|]. destruct (Z.leb_spec ty 6); [by apply Hgo|].
    destruct (Z.leb_spec 10 ty), (Z.leb_spec ty 12); try lia; [by apply Hgo|].
    exfalso. assert (ty = 7 \/ ty = 8 \/ ty = 9) as [->|[->| ->]] by lia; vm_compute in H0; done.
  - by apply reads_skip_string.
  - destruct Hv as (Hty & H0 & Hn & Hes). pose proof (scalar_size_le ty).
    pose proof (zlen_nonneg es). cbn [Z.leb Z.compare Pos.compare Pos.compare_cont Z.eqb Pos.eqb orb andb].
    eapply reads_bind; [apply reads_u32; lia|]. eapply reads_bind; [apply reads_u64; lia|].
    assert (Hs := skip_long_scalar ty (replicate (Z.to_nat (gguf_scalar_size ty)) Byte.x00)).
    rewrite Hs by (repeat split; try lia; unfold zlen; rewrite length_replicate; lia).
    destruct (Z.eqb_spec ty 8) as [->|]; [by vm_compute in H0|].
    assert (0 <= zlen es * gguf_scalar_size ty < 2 ^ 61) by nia. nowrap.
    apply reads_fseek; [by apply scalars_length|lia].
  - destruct Hv as (Hn & Hss). pose proof (zlen_nonneg ss).
    cbn [Z.leb Z.compare Pos.compare Pos.compare_cont Z.eqb Pos.eqb orb andb].
    eapply reads_bind; [apply reads_u32; lia|]. eapply reads_bind; [apply reads_u64; lia|].
    cbn [Z.eqb Pos.eqb]. unfold zlen. rewrite Nat2Z.id. by apply reads_skip_strings.
Qed.

Lemma reads_config_kv c e : config_readable e -> reads (config_kv c) (kv_image e) (apply_kv c e).
Proof.
  intros [[Hk Hv] Hr]. unfold config_kv, kv_image, apply_kv, string_image.
  pose proof (zlen_nonneg (key e)). unfold string_ok in Hk. rewrite <- app_assoc.
  eapply reads_bind; [apply reads_u64; lia|].
  destruct (Z.ltb_spec 255 (zlen (key e))).
  - eapply reads_bind; [apply reads_fseek; [done|lia]|].
    eapply reads_bind_nil; [by apply reads_skip_long_value|apply reads_ret].
  - eapply reads_bind; [by apply reads_fread|]. cbv zeta.
    apply reads_config_value; [done|by apply Hr].
Qed.

Lemma reads_config version kvs nt path :
  0 <= version < 2 ^ 32 -> 0 <= nt < 2 ^ 64 -> Forall config_readable kvs -> zlen kvs <= 256 ->
  reads (read_config (config_init path)) (header_image version nt (zlen kvs) ++
    concat (kv_image <$> kvs)) (Some (derive (foldl apply_kv (config_init path) kvs))).
Proof.
  intros Hv Hnt Hk Hl. pose proof (zlen_nonneg kvs). unfold read_config, header_image.
  rewrite <- !app_assoc. eapply reads_bind; [apply reads_u32; unfold GGUF_MAGIC; lia|].
  eapply reads_bind; [by apply reads_u32|]. eapply reads_bind; [by apply reads_u64|].
  eapply reads_bind; [apply reads_u64; lia|]. rewrite Z.eqb_refl. cbn [negb].
  rewrite Z.min_l by done. unfold zlen. rewrite Nat2Z.id.
  eapply reads_bind_nil; [|apply reads_ret].
  apply reads_repeat. intros c e Hin. rewrite Forall_forall in Hk. by apply reads_config_kv, Hk.
Qed.


(** ** Tensor names *)

Definition suffix (s : slot) : bytes :=
  str match s with
      | Wq => "attn_q.weight" | Wk => "attn_k.weight" | Wv => "attn_v.weight"
      | Wo => "attn_output.weight" | WGate => "ffn_gate.weight" | WUp => "ffn_up.weight"
      | WDown => "ffn_down.weight" | QNorm => "attn_q_norm.weight"
      | KNorm => "attn_k_norm.weight" | RmsAttn => "attn_norm.weight"
      | RmsFfn => "ffn_norm.weight"
      end%string.

(** ["blk.<l>.<suffix>"] *)
Definition layer_tensor (l : Z) (s : slot) : bytes := str "blk." ++ dec l ++ str "." ++ suffix s.

Lemma find_skip needle c (pre s : bytes) :
  head needle = Some c -> Forall (fun x => x <> c) pre ->
  find needle (pre ++ s) = (fun n => length pre + n)%nat <$> find needle s.
Proof.
  intros Hc. induction 1 as [|x pre Hx _ IH]; [cbn [app]; by destruct (find needle s)|].
  cbn [app find]. destruct needle as [|c' needle]; [done|]. simpl in Hc. simplify_eq.
  cbn [starts_with]. destruct (Byte.eqb c x) eqn:E; [apply byte_eqb_eq in E; by subst|].
  cbn [andb]. rewrite IH. by destruct (find _ s).
Qed.

Lemma strstr_skip needle c (pre s : bytes) :
  head needle = Some c -> Forall (fun x => x <> c) pre ->
  strstr (pre ++ s) needle = strstr s needle.
Proof.
  intros Hc Hp. unfold strstr. apply bool_decide_ext. rewrite (find_skip _ _ _ _ Hc Hp).
  by destruct (find needle s).
Qed.

Lemma blk_prefix_clean l c :
  0 <= l -> isdigit c = false -> c ∉ str "blk." -> Forall (fun x => x <> c) (str "blk." ++ dec l ++ str ".").
Proof.
  intros Hl Hd Hc. destruct (dec_spec l Hl) as (Hds & _ & _). rewrite !Forall_app. split_and!.
  - apply Forall_forall. intros x Hx ->. done.
  - eapply Forall_impl; [exact Hds|]. intros x Hx ->. by rewrite Hd in Hx.
  - constructor; [|done]. intros <-; apply Hc. apply (bool_decide_unpack _). by vm_compute.
Qed.

Lemma classify_layer_tensor l s : 0 <= l -> classify (layer_tensor l s) = Some s.
Proof.
  intros Hl. unfold layer_tensor.
  assert (Ha := blk_prefix_clean l "a"%byte Hl eq_refl ltac:(apply (bool_decide_unpack _); vm_compute; exact I)).
  assert (Hf := blk_prefix_clean l "f"%byte Hl eq_refl ltac:(apply (bool_decide_unpack _); vm_compute; exact I)).
  rewrite (app_assoc (dec l)), app_assoc. set (pre := str "blk." ++ _) in *.
  unfold classify.
  repeat match goal with
  | |- context [strstr (pre ++ suffix s) ?n] =>
      first [ rewrite (strstr_skip n "a"%byte pre (suffix s) eq_refl Ha)
            | rewrite (strstr_skip n "f"%byte pre (suffix s) eq_refl Hf) ]
  end.
  by destruct s; vm_compute.
Qed.

Lemma scan_layer_tensor l s : 0 <= l < 2 ^ 31 -> scan_layer (layer_tensor l s) = Some l.
Proof.
  intros Hl. unfold scan_layer, layer_tensor. rewrite starts_with_app.
  change 4%nat with (length (str "blk.")). rewrite drop_app_length.
  rewrite strtol_dec.
  - rewrite decide_False; [rewrite i32_id by lia; done|].
    intros E. apply (f_equal length) in E. rewrite (length_app (dec l)) in E.
    destruct (dec_spec l) as (_ & _ & Hne); [lia|]. destruct (dec l); simpl in E; [done|lia].
  - unfold INT64_MAX. lia.
  - intros b r. unfold str. simpl. by intros [= <- _].
Qed.

(** ** The mapping *)

(** The weight a tensor is assigned to. *)
Definition target (nl : Z) (ti : TensorInfo) : option (Z * slot) :=
  match scan_layer (name ti) with
  | Some l => if (0 <=? l) && (l <? nl) then (fun s => (l, s)) <$> classify (name ti) else None
  | None => None
  end.

Lemma target_range nl ti l s : target nl ti = Some (l, s) -> 0 <= l < nl.
Proof.
  unfold target. destruct (scan_layer (name ti)) as [l0|]; [|done].
  destruct (Z.leb_spec 0 l0), (Z.ltb_spec l0 nl); try done. cbn [andb].
  intros (s0 & _ & [= <- <-])%fmap_Some. done.
Qed.

(** The element type of a quantised matrix; norms have none here. *)
Definition mat_type (s : slot) (lw : LayerWeights) : option Z :=
  match s with
  | Wq => Some (type_wq lw) | Wk => Some (type_wk lw) | Wv => Some (type_wv lw)
  | Wo => Some (type_wo lw) | WGate => Some (type_w_gate lw) | WUp => Some (type_w_up lw)
  | WDown => Some (type_w_down lw) | _ => None
  end.

Lemma set_slot_same s p ty lw :
  slot_ptr s (set_slot s p ty lw) = Some p /\
  (is_Some (mat_type s lw) -> mat_type s (set_slot s p ty lw) = Some ty).
Proof. destruct lw, s; simpl; split; try done; by intros [? ?]. Qed.

Lemma set_slot_other s s' p ty lw :
  s <> s' -> slot_ptr s (set_slot s' p ty lw) = slot_ptr s lw /\
             mat_type s (set_slot s' p ty lw) = mat_type s lw.
Proof. destruct lw, s, s'; intros H; simpl; done || by destruct H. Qed.

Lemma map_tensor_layers d acc ti :
  layers (map_tensor d acc ti).1 =
  match target (zlen (layers acc.1)) ti with
  | Some (l, s) => alter (set_slot s (d + offset ti) (type ti)) (Z.to_nat l) (layers acc.1)
  | None => layers acc.1
  end.
Proof.
  destruct acc as [[te on et out ot ls] m]. unfold map_tensor, target. simpl layers.
  destruct (scan_layer (name ti)) as [l|]; [destruct ((0 <=? l) && (l <? zlen ls))|].
  - destruct (classify (name ti)); done.
  - simpl. repeat case_decide; done.
  - simpl. repeat case_decide; done.
Qed.

Lemma map_tensors_length d ts acc :
  length (layers (foldl (map_tensor d) acc ts).1) = length (layers acc.1).
Proof.
  revert acc. induction ts as [|ti ts IH]; intros acc; [done|]. simpl. rewrite IH, map_tensor_layers.
  destruct (target _ ti) as [[l s]|]; [by rewrite length_alter|done].
Qed.

(** What a weight points at comes from a tensor assigned to it, and is null
    exactly when there is none. *)
Lemma map_tensors_slot d nl ts l s :
  0 <= l < nl ->
  exists lw, layers (foldl (map_tensor d) (fresh_weights nl, 0) ts).1 !! Z.to_nat l = Some lw /\
  ((exists ti, ti ∈ ts /\ target nl ti = Some (l, s) /\ slot_ptr s lw = Some (d + offset ti) /\
      (is_Some (mat_type s lw) -> mat_type s lw = Some (type ti))) \/
   ((forall ti, ti ∈ ts -> target nl ti <> Some (l, s)) /\ slot_ptr s lw = None)).
Proof.
  intros Hl. induction ts as [|ti ts IH] using rev_ind.
  - exists zero_layer. split.
    + apply lookup_replicate. split; [done|lia].
    + right. split; [set_solver|by destruct s].
  - rewrite foldl_app. cbn [foldl]. rewrite map_tensor_layers.
    set (acc := foldl _ _ ts) in *.
    assert (Hlen : zlen (layers acc.1) = nl).
    { unfold zlen, acc. rewrite map_tensors_length. simpl. rewrite length_replicate. lia. }
    rewrite Hlen. destruct IH as (lw & Hlw & Hcase).
    destruct (decide (target nl ti = Some (l, s))) as [E|Hne].
    + rewrite E. exists (set_slot s (d + offset ti) (type ti) lw).
      rewrite list_lookup_alter_eq, Hlw. split; [done|]. left. exists ti.
      destruct (set_slot_same s (d + offset ti) (type ti) lw) as [H1 H2].
      split_and!; [set_solver|done|done|]. intros Hm. apply H2. destruct lw, s; simpl in *; eauto; done.
    + assert (exists lw', match target nl ti with
        | Some (l0, s0) => alter (set_slot s0 (d + offset ti) (type ti)) (Z.to_nat l0) (layers acc.1)
        | None => layers acc.1 end !! Z.to_nat l = Some lw' /\
        slot_ptr s lw' = slot_ptr s lw /\ mat_type s lw' = mat_type s lw) as (lw' & -> & H1 & H2).
      { destruct (target nl ti) as [[l0 s0]|] eqn:Et; [|eauto].
        destruct (decide (l0 = l)) as [->|Hnl].
        - rewrite list_lookup_alter_eq, Hlw. eexists. split; [done|].
          apply set_slot_other. intros ->. done.
        - rewrite list_lookup_alter_ne; [eauto|].
          apply target_range in Et. lia. }
      exists lw'. split; [done|]. rewrite H1, H2. destruct Hcase as [(t0 & Ht0 & ?)|[Hno Hnone]].
      * left. exists t0. split; [set_solver|done].
      * right. split; [|done]. intros t0 [Ht0| ->%list_elem_of_singleton]%elem_of_app; [by apply Hno|done].
Qed.

Definition embd_name : bytes := str "token_embd.weight".
Definition output_name : bytes := str "output.weight".

(** One iteration on the embedding and the output projection. *)
Lemma map_tensor_globals d acc ti :
  (tok_embd (map_tensor d acc ti).1, embd_type (map_tensor d acc ti).1) =
    (if decide (name ti = embd_name) then (Some (d + offset ti), type ti)
     else (tok_embd acc.1, embd_type acc.1)) /\
  (output (map_tensor d acc ti).1, output_type (map_tensor d acc ti).1) =
    (if decide (name ti = output_name) then (Some (d + offset ti), type ti)
     else (output acc.1, output_type acc.1)).
Proof.
  destruct acc as [[te on et out ot ls] m]. unfold map_tensor.
  destruct (decide (name ti = embd_name)) as [E|Hne].
  { rewrite !E. by vm_compute. }
  destruct (decide (name ti = output_name)) as [E|Hno].
  { rewrite !E. by vm_compute. }
  destruct (scan_layer (name ti)) as [l|]; [destruct (_ && _); [by destruct (classify _)|]|];
    (rewrite decide_False by done; case_decide; [done|by rewrite decide_False by done]).
Qed.

Lemma map_tensors_globals d nl ts :
  let mw := (foldl (map_tensor d) (fresh_weights nl, 0) ts).1 in
  ((exists ti, ti ∈ ts /\ name ti = embd_name /\ tok_embd mw = Some (d + offset ti) /\
      embd_type mw = type ti) \/
   ((forall ti, ti ∈ ts -> name ti <> embd_name) /\ tok_embd mw = None)) /\
  ((exists ti, ti ∈ ts /\ name ti = output_name /\ output mw = Some (d + offset ti) /\
      output_type mw = type ti) \/
   ((forall ti, ti ∈ ts -> name ti <> output_name) /\ output mw = None)).
Proof.
  induction ts as [|ti ts [IHe IHo]] using rev_ind.
  { split; right; (split; [set_solver|done]). }
  cbv zeta in *. rewrite foldl_app. cbn [foldl]. set (acc := foldl _ _ ts) in *.
  destruct (map_tensor_globals d acc ti) as [He Ho]. split.
  - destruct (decide (name ti = embd_name)) as [E|E]; injection He as -> ->; [left; exists ti; set_solver|].
    destruct IHe as [(t0 & Hin & ?)|[Hn ?]].
    + left. exists t0. set_solver.
    + right. split; [|done]. intros t0 [Hin| ->%list_elem_of_singleton]%elem_of_app; auto.
  - destruct (decide (name ti = output_name)) as [E|E]; injection Ho as -> ->; [left; exists ti; set_solver|].
    destruct IHo as [(t0 & Hin & ?)|[Hn ?]].
    + left. exists t0. set_solver.
    + right. split; [|done]. intros t0 [Hin| ->%list_elem_of_singleton]%elem_of_app; auto.
Qed.

(** Names as model exporters write them: layer tensors, or names outside the
    layers. *)
Definition standard_name (nm : bytes) : Prop :=
  scan_layer nm = None \/ exists l s, 0 <= l < 2 ^ 31 /\ nm = layer_tensor l s.

Lemma target_standard nl ti l s :
  standard_name (name ti) -> target nl ti = Some (l, s) -> name ti = layer_tensor l s.
Proof.
  intros [Hn|(l' & s' & Hl & E)]; unfold target; [by rewrite Hn|].
  rewrite E, scan_layer_tensor, classify_layer_tensor by lia.
  case_match; [|done]. by intros [= <- <-].
Qed.

Lemma target_layer_tensor nl ti l s :
  0 <= l < nl -> nl < 2 ^ 31 -> name ti = layer_tensor l s -> target nl ti = Some (l, s).
Proof.
  intros Hl Hnl E. unfold target. rewrite E, scan_layer_tensor, classify_layer_tensor by lia.
  destruct (Z.leb_spec 0 l), (Z.ltb_spec l nl); done || lia.
Qed.

Lemma tie_output_layers mw : layers (tie_output mw) = layers mw /\ tok_embd (tie_output mw) = tok_embd mw.
Proof. by destruct mw as [[] ? ? [] ? ?]. Qed.

(** C26: Loading binds every weight to the right tensor: with standard names, no
    two alike, each layer weight present in the file points at that tensor's
    data inside the mapping and carries its element type, weights absent from
    the file are null, and a model without an output tensor shares the
    embedding as its output projection. *)
Theorem load_and_map_weights_binds (file : option bytes) (nl off : Z) (ts : list TensorInfo) :
  parse_tensor_infos file = Some (off, ts) -> 0 <= off -> nl < 2 ^ 31 ->
  NoDup (name <$> ts) -> Forall (fun ti => standard_name (name ti)) ts ->
  exists ok mw, load_and_map_weights file true nl = Some (ok, mw) /\
  (forall l s, 0 <= l < nl -> exists lw, layers mw !! Z.to_nat l = Some lw /\
     (forall ti, ti ∈ ts -> name ti = layer_tensor l s ->
        slot_ptr s lw = Some (off + offset ti) /\
        (is_Some (mat_type s lw) -> mat_type s lw = Some (type ti))) /\
     (layer_tensor l s ∉ (name <$> ts) -> slot_ptr s lw = None)) /\
  (forall te, te ∈ ts -> name te = embd_name -> output_name ∉ (name <$> ts) ->
     tok_embd mw = Some (off + offset te) /\ output mw = tok_embd mw /\
     output_type mw = type te).
Proof.
  intros Hp Hoff Hnl Hnd Hstd. unfold load_and_map_weights. rewrite Hp.
  destruct (Z.ltb_spec off 0); [lia|]. cbn [negb].
  destruct (foldl (map_tensor off) (fresh_weights nl, 0) ts) as [mw mapped] eqn:Ef.
  assert (Emw : (foldl (map_tensor off) (fresh_weights nl, 0) ts).1 = mw) by by rewrite Ef.
  assert (Huniq : forall a b, a ∈ ts -> b ∈ ts -> name a = name b -> a = b).
  { intros a b Ha Hb E. apply list_elem_of_lookup in Ha as [i Hi], Hb as [j Hj].
    assert (i = j) as <-; [|congruence].
    eapply (NoDup_lookup _ _ _ (name a)); [exact Hnd| |]; rewrite list_lookup_fmap.
    - by rewrite Hi.
    - by rewrite Hj, E. }
  do 2 eexists. split; [done|]. destruct (tie_output_layers mw) as [-> Ete]. split.
  - intros l s Hl. destruct (map_tensors_slot off nl ts l s Hl) as (lw & Hlw & Hcase).
    rewrite Emw in Hlw. exists lw. split; [done|].
    destruct Hcase as [(t0 & Hin & Ht & Hptr & Hty)|[Hno Hnone]].
    + rewrite Forall_forall in Hstd.
      pose proof (target_standard nl t0 l s (Hstd _ Hin) Ht) as E0. split.
      * intros ti Hti E. rewrite (Huniq ti t0 Hti Hin) by congruence. done.
      * intros Hnot. exfalso. apply Hnot. rewrite <- E0. by apply list_elem_of_fmap_2.
    + split; [|done]. intros ti Hti E. exfalso. apply (Hno ti Hti).
      by apply target_layer_tensor.
  - intros te Hte En Hno. destruct (map_tensors_globals off nl ts) as [He Ho]. rewrite Emw in He, Ho.
    destruct He as [(t0 & Hin & E0 & Hptr & Hty)|[Hn _]]; [|by destruct (Hn te)].
    rewrite (Huniq te t0 Hte Hin) by congruence. rewrite Ete, Hptr.
    destruct Ho as [(t1 & Hin1 & E1 & _)|[_ Hout]].
    + exfalso. apply Hno. rewrite <- E1. by apply list_elem_of_fmap_2.
    + destruct mw as [[p|] on et [q|] ot ls]; simpl in *; simplify_eq. done.
Qed.

(** The device alias is taken exactly for host pointers inside the
    registered mapping and keeps their offset: the result never points outside
    the device range, a pointer outside (or a cleared registration) gives null,
    and different pointers get different aliases. *)
Theorem resolve_mapped_in_range (host device n p q : Z) :
  0 < host -> 0 < device -> 0 <= n -> 0 < p ->
  let g := register_mapped_weight_region host device n in
  let r := resolve_mapped_weight_device_ptr g in
  (host <= p < host + n -> device <= r p < device + n /\ r p - device = p - host) /\
  (~ (host <= p < host + n) -> r p = 0) /\
  resolve_mapped_weight_device_ptr (clear_mapped_weight_region g host) p = 0 /\
  (r p <> 0 -> r p = r q -> p = q).
Proof.
  intros Hh Hd Hn Hp g r.
  assert (Hr : forall x, r x = if bool_decide (x <> 0 /\ host <= x < host + n)
                               then device + (x - host) else 0).
  { intros x. unfold r, resolve_mapped_weight_device_ptr, g. simpl.
    destruct (Z.eqb_spec host 0), (Z.eqb_spec device 0); try lia.
    destruct (Z.eqb_spec x 0), (Z.ltb_spec x host), (Z.leb_spec (host + n) x); simpl;
      case_bool_decide; done || lia. }
  rewrite !Hr. split_and!.
  - intros. rewrite bool_decide_eq_true_2 by lia. lia.
  - intros. rewrite bool_decide_eq_false_2 by lia. done.
  - unfold g, clear_mapped_weight_region. simpl. rewrite Z.eqb_refl.
    unfold resolve_mapped_weight_device_ptr. simpl. by rewrite orb_true_r.
  - repeat case_bool_decide; lia.
Qed.

(** ** A concrete model file *)

Definition u32_kv (k : bytes) (v : Z) : kv := KV k (Scalar 4 (le 4 v)).

Definition demo_kvs : list kv :=
  [KV (str "general.architecture") (Str (str "qwen3")); u32_kv (str "qwen3.block_count") 1;
   u32_kv (str "qwen3.attention.head_count") 8; u32_kv (str "qwen3.attention.head_count_kv") 2;
   u32_kv (str "qwen3.embedding_length") 64; u32_kv (str "qwen3.vocab_size") 100].

(** Booleans and arrays as well. *)
Definition demo_kvs_full : list kv :=
  demo_kvs ++ [KV (str "tokenizer.ggml.add_bos_token") (Scalar 7 [Byte.x00]);
               KV (str "tokenizer.ggml.tokens") (Strs [str "a"; str "bc"]);
               KV (str "tokenizer.ggml.token_type") (Scalars 5 [le 4 1; le 4 1])].

Definition demo_entries : list entry :=
  [Entry embd_name [64; 100] 12 0; Entry (layer_tensor 0 Wq) [64; 64] 14 4096].

Definition demo_file : bytes := directory_image 3 demo_kvs_full demo_entries ++ replicate 64 Byte.x00.

Lemma kv_ok_check kvs :
  forallb (fun e => (zlen (key e) <? 2 ^ 62) &&
    match val e with
    | Scalar ty p => (0 <=? ty) && (ty <? 13) && (0 <? gguf_scalar_size ty) &&
                     (zlen p =? gguf_scalar_size ty)
    | Str s => zlen s <? 2 ^ 62
    | Scalars ty es => (0 <=? ty) && (ty <? 13) && (0 <? gguf_scalar_size ty) &&
                       (zlen es <? 2 ^ 58) && forallb (fun p => zlen p =? gguf_scalar_size ty) es
    | Strs ss => (zlen ss <? 2 ^ 62) && forallb (fun s => zlen s <? 2 ^ 62) ss
    end) kvs = true -> Forall kv_ok kvs.
Proof.
  intros H. apply Forall_forall. intros e He. rewrite forallb_forall in H.
  apply list_elem_of_In, H in He. unfold kv_ok, value_ok, scalar_ok, string_ok.
  destruct (val e); rewrite !andb_true_iff, ?Z.leb_le, ?Z.ltb_lt, ?Z.eqb_eq in He; [lia|lia|..].
  - split_and!; try lia. apply Forall_forall. intros p Hp.
    destruct He as (_ & _ & Hes). rewrite forallb_forall in Hes.
    apply Z.eqb_eq, Hes, list_elem_of_In, Hp.
  - split_and!; try lia. apply Forall_forall. intros p Hp.
    destruct He as (_ & _ & Hes). rewrite forallb_forall in Hes.
    apply Z.ltb_lt, Hes, list_elem_of_In, Hp.
Qed.

Lemma demo_tensors_ok : Forall entry_ok demo_entries.
Proof.
  repeat constructor; simpl; try lia; try (vm_compute; discriminate); try done.
Qed.



Lemma load_and_map_weights_binds_witness :
  exists ok mw lw, load_and_map_weights (Some demo_file) true 1 = Some (ok, mw) /\
    layers mw !! 0%nat = Some lw /\ wq lw = Some (544 + 4096) /\ type_wq lw = 14 /\
    output mw = tok_embd mw.
Proof.
  assert (Hp : parse_tensor_infos (Some demo_file) = Some (544, info_of <$> demo_entries))
    by (vm_compute; reflexivity).
  destruct (load_and_map_weights_binds (Some demo_file) 1 544 (info_of <$> demo_entries) Hp)
    as (ok & mw & E & Hl & Ho).
  - lia.
  - lia.
  - apply (bool_decide_unpack _). vm_compute. exact I.
  - apply Forall_cons. split; [left; reflexivity|]. apply Forall_cons.
    split; [right; exists 0, Wq; split; [lia|reflexivity]|by constructor].
  - destruct (Hl 0 Wq) as (lw & Hlw & Hw & _); [lia|].
    destruct (Hw (info_of (Entry (layer_tensor 0 Wq) [64; 64] 14 4096))) as [H1 H2];
      [by right; left|reflexivity|].
    destruct (Ho (info_of (Entry embd_name [64; 100] 12 0))) as (_ & H3 & _);
      [by left|reflexivity|apply (bool_decide_unpack _); vm_compute; exact I|].
    exists ok, mw, lw. split_and!; [exact E|exact Hlw|exact H1| |exact H3].
    assert (E14 : Some (type_wq lw) = Some 14) by (apply H2; by eexists). by injection E14.
Defined.

Lemma resolve_mapped_in_range_witness :
  let g := register_mapped_weight_region 4096 (2 ^ 40) 1000 in
  resolve_mapped_weight_device_ptr g 4100 - 2 ^ 40 = 4.
Proof.
  intros g. destruct (resolve_mapped_in_range 4096 (2 ^ 40) 1000 4100 4100) as [H _]; [lia..|].
  apply H. lia.
Defined.

(** ** The configuration reader and other value types *)

(** A valid file whose first entry is a boolean. *)
Definition bool_first : list kv :=
  KV (str "general.quantized") (Scalar 7 [Byte.x01]) :: demo_kvs.

(** Not every valid file is read: one boolean entry (one byte, where the
    reader always skips eight) makes the configuration reader lose its place,
    and it runs past the end of a file that the directory reader reads without
    difficulty. *)
Theorem config_loses_place_on_bool :
  Forall kv_ok bool_first /\
  load_gguf_config (str "m.gguf") (Some (directory_image 3 bool_first demo_entries)) = None /\
  is_Some (parse_tensor_infos (Some (directory_image 3 bool_first demo_entries))).
Proof.
  split; [apply kv_ok_check; vm_compute; reflexivity|].
  split; [vm_compute; reflexivity|]. vm_compute. eauto.
Qed.

End ModelFile.
