(* ===== verification/TokenizerFile.v ===== *)
(** * TokenizerFile: [Tokenizer::load_from_gguf] of
    [src/engine/tokenizer.cpp]

    The metadata scan that fills the tokenizer, and the indexes built from it.
    [std::sort] on the special tokens is a parameter. *)

From S2P Require Import Prelude CLib Gguf ModelFile Bpe Tokenizer.

Module TokenizerFile.
Import Gguf.
Import (notations) Gguf.

(** The values of a default-constructed [Tokenizer]. *)
Definition default_tokenizer : Tokenizer.t :=
  Tokenizer.mk [] ∅ ∅ [] true true false 1 2 0.

Definition set_vocab (v : list bytes) (tk : Tokenizer.t) : Tokenizer.t :=
  let '(Tokenizer.mk _ ti br st be ab ae bos eos ml) := tk in
  Tokenizer.mk v ti br st be ab ae bos eos ml.

Definition set_ranks (r : gmap bytes Z) (tk : Tokenizer.t) : Tokenizer.t :=
  let '(Tokenizer.mk v ti _ st be ab ae bos eos ml) := tk in
  Tokenizer.mk v ti r st be ab ae bos eos ml.

Definition set_model (m : bytes) (tk : Tokenizer.t) : Tokenizer.t :=
  let '(Tokenizer.mk v ti br st _ ab ae bos eos ml) := tk in
  Tokenizer.mk v ti br st (bool_decide (m = str "gpt2" \/ m = str "qwen2")) ab ae bos eos ml.

Definition set_bos (id : Z) (tk : Tokenizer.t) : Tokenizer.t :=
  let '(Tokenizer.mk v ti br st be ab ae _ eos ml) := tk in
  Tokenizer.mk v ti br st be ab ae id eos ml.

Definition set_eos (id : Z) (tk : Tokenizer.t) : Tokenizer.t :=
  let '(Tokenizer.mk v ti br st be ab ae bos _ ml) := tk in
  Tokenizer.mk v ti br st be ab ae bos id ml.

Definition set_add_bos (b : bool) (tk : Tokenizer.t) : Tokenizer.t :=
  let '(Tokenizer.mk v ti br st be _ ae bos eos ml) := tk in
  Tokenizer.mk v ti br st be b ae bos eos ml.

Definition set_add_eos (b : bool) (tk : Tokenizer.t) : Tokenizer.t :=
  let '(Tokenizer.mk v ti br st be ab _ bos eos ml) := tk in
  Tokenizer.mk v ti br st be ab b bos eos ml.

(** The switch that skips the value of any other key. *)
Definition skip_value (vtype : Z) : R unit :=
  if (vtype =? 0) || (vtype =? 1) then fseek 1
  else if (vtype =? 2) || (vtype =? 3) then fseek 2
  else if (vtype =? 4) || (vtype =? 5) || (vtype =? 6) then fseek 4
  else if vtype =? 7 then fseek 1
  else if vtype =? 8 then skip_string
  else if vtype =? 9 then
    atype <- fread_u32 ;;
    alen <- fread_u64 ;;
    repeatR (Z.to_nat alen)
      (fun _ => if atype =? 8 then skip_string else fseek 4) tt
  else fseek 8.

Definition tokens_key : bytes := str "tokenizer.ggml.tokens".
Definition merges_key : bytes := str "tokenizer.ggml.merges".
Definition model_key : bytes := str "tokenizer.ggml.model".
Definition bos_key : bytes := str "tokenizer.ggml.bos_token_id".
Definition eos_key : bytes := str "tokenizer.ggml.eos_token_id".
Definition add_bos_key : bytes := str "tokenizer.ggml.add_bos_token".
Definition add_eos_key : bytes := str "tokenizer.ggml.add_eos_token".

Definition is_key (key expected : bytes) : bool := bool_decide (key = expected).

Definition nonzero (b : bytes) : bool := negb (unle b =? 0).

(** One iteration of the metadata loop. *)
Definition tokenizer_kv (tk : Tokenizer.t) : R Tokenizer.t :=
  key_len <- fread_u64 ;;
  if 1024 <? key_len then fseek key_len ;;; fseek 4 ;;; ret tk
  else
    k <- fread key_len ;;
    let key := ModelFile.c_string k in
    vtype <- fread_u32 ;;
    if is_key key tokens_key && (vtype =? 9) then
      fread_u32 ;;; arr_len <- fread_u64 ;;
      v <- collectR (Z.to_nat arr_len) fread_string ;; ret (set_vocab v tk)
    else if is_key key merges_key && (vtype =? 9) then
      fread_u32 ;;; arr_len <- fread_u64 ;;
      ms <- collectR (Z.to_nat arr_len) fread_string ;; ret (set_ranks (Tokenizer.ranks_of ms) tk)
    else if is_key key model_key && (vtype =? 8) then
      m <- fread_string ;; ret (set_model m tk)
    else if is_key key bos_key && (vtype =? 4) then
      v <- fread_u32 ;; ret (set_bos (i32 v) tk)
    else if is_key key eos_key && (vtype =? 4) then
      v <- fread_u32 ;; ret (set_eos (i32 v) tk)
    else if is_key key add_bos_key && (vtype =? 7) then
      b <- fread 1 ;; ret (set_add_bos (nonzero b) tk)
    else if is_key key add_eos_key && (vtype =? 7) then
      b <- fread 1 ;; ret (set_add_eos (nonzero b) tk)
    else skip_value vtype ;;; ret tk.

Definition read_tokenizer (tk : Tokenizer.t) : R (option Tokenizer.t) :=
  magic <- fread_u32 ;; fread_u32 ;;; fread_u64 ;;;
  n_kv <- fread_u64 ;;
  if negb (magic =? GGUF_MAGIC) then ret None
  else tk <- repeatR (Z.to_nat n_kv) tokenizer_kv tk ;; ret (Some tk).

(** [file = None]: [fopen] fails.  The outer [None] is a read past the end of
    the file. *)
Definition load_from_gguf (sort_by_size : list (bytes * Z) -> list (bytes * Z))
  (file : option bytes) (tk : Tokenizer.t) : option (bool * Tokenizer.t) :=
  match file with
  | None => Some (false, tk)
  | Some f =>
      match read_tokenizer tk f 0 with
      | None => None
      | Some (None, _) => Some (false, tk)
      | Some (Some tk, _) =>
          let tk := Tokenizer.build_indexes sort_by_size tk in
          Some (negb (bool_decide (Tokenizer.vocab tk = [])), tk)
      end
  end.

(** ** The meaning of the metadata for the tokenizer *)

Definition apply_kv (tk : Tokenizer.t) (e : kv) : Tokenizer.t :=
  let k := ModelFile.c_string (key e) in
  match val e with
  | Strs ss => if is_key k tokens_key then set_vocab ss tk
               else if is_key k merges_key then set_ranks (Tokenizer.ranks_of ss) tk else tk
  | Str s => if is_key k model_key then set_model s tk else tk
  | Scalar ty p =>
      if is_key k bos_key && (ty =? 4) then set_bos (i32 (unle p)) tk
      else if is_key k eos_key && (ty =? 4) then set_eos (i32 (unle p)) tk
      else if is_key k add_bos_key && (ty =? 7) then set_add_bos (nonzero p) tk
      else if is_key k add_eos_key && (ty =? 7) then set_add_eos (nonzero p) tk
      else tk
  | Scalars _ _ => tk
  end.

(** The entries the scan keeps its place on: keys of at most 1024 bytes, and
    arrays of strings or of four-byte scalars. *)
Definition scan_readable (e : kv) : Prop :=
  kv_ok e /\ zlen (key e) <= 1024 /\
  match val e with
  | Scalars ty _ => gguf_scalar_size ty = 4 /\
      is_key (ModelFile.c_string (key e)) tokens_key = false /\
      is_key (ModelFile.c_string (key e)) merges_key = false
  | _ => True
  end.

Lemma reads_strings ss :
  Forall string_ok ss -> reads (collectR (length ss) fread_string) (concat (string_image <$> ss)) ss.
Proof.
  intros H. rewrite <- (list_fmap_id ss) at 3. apply reads_collect.
  intros s Hs. rewrite Forall_forall in H. change (id s) with s. by apply reads_string, H.
Qed.

Lemma reads_skip_scalars ty es :
  gguf_scalar_size ty = 4 -> Forall (fun p : bytes => zlen p = gguf_scalar_size ty) es ->
  reads (repeatR (length es) (fun _ => if ty =? 8 then skip_string else fseek 4) tt) (concat es) tt.
Proof.
  intros H4 Hes. destruct (Z.eqb_spec ty 8) as [->|]; [by vm_compute in H4|].
  rewrite <- (list_fmap_id es) at 2.
  replace tt with (foldl (fun (u : unit) (_ : bytes) => u) tt es) at 2
    by (by destruct (foldl _ tt es)).
  apply reads_repeat. intros [] p Hp. rewrite Forall_forall in Hes. specialize (Hes p Hp).
  change (id p) with p. apply reads_fseek; [lia|lia].
Qed.

Lemma skip_scalar ty p : scalar_ok ty p -> reads (skip_value ty) p tt.
Proof.
  intros (Hr & H0 & Hl). pose proof (scalar_size_le ty).
  assert (Hgo : forall n, n = gguf_scalar_size ty -> reads (fseek n) p tt)
    by (intros n ->; apply reads_fseek; [done|lia]).
  assert (H' : In ty [0;1;2;3;4;5;6;7;8;9;10;11;12]) by (simpl; lia).
  simpl in H'. decompose [or] H'; subst; try (by apply Hgo); try done; by vm_compute in H0.
Qed.

Lemma reads_scan_skip v :
  value_ok v -> match v with Scalars ty _ => gguf_scalar_size ty = 4 | _ => True end ->
  reads (skip_value (value_type v)) (value_image v) tt.
Proof.
  intros Hv H4. destruct v as [ty p|s|ty es|ss]; cbn [value_type value_image].
  - by apply (skip_scalar ty p).
  - by apply reads_skip_string.
  - destruct Hv as (Hty & _ & Hn & Hes). pose proof (zlen_nonneg es).
    unfold skip_value. cbn [Z.eqb Pos.eqb orb].
    eapply reads_bind; [apply reads_u32; lia|]. eapply reads_bind; [apply reads_u64; lia|].
    unfold zlen. rewrite Nat2Z.id. by apply reads_skip_scalars.
  - destruct Hv as (Hn & Hss). pose proof (zlen_nonneg ss).
    unfold skip_value. cbn [Z.eqb Pos.eqb orb].
    eapply reads_bind; [apply reads_u32; lia|]. eapply reads_bind; [apply reads_u64; lia|].
    cbn [Z.eqb Pos.eqb]. unfold zlen. rewrite Nat2Z.id. by apply ModelFile.reads_skip_strings.
Qed.

(** The part of an iteration after the key. *)
Definition after_key (key : bytes) (tk : Tokenizer.t) : R Tokenizer.t :=
    vtype <- fread_u32 ;;
    if is_key key tokens_key && (vtype =? 9) then
      fread_u32 ;;; arr_len <- fread_u64 ;;
      v <- collectR (Z.to_nat arr_len) fread_string ;; ret (set_vocab v tk)
    else if is_key key merges_key && (vtype =? 9) then
      fread_u32 ;;; arr_len <- fread_u64 ;;
      ms <- collectR (Z.to_nat arr_len) fread_string ;; ret (set_ranks (Tokenizer.ranks_of ms) tk)
    else if is_key key model_key && (vtype =? 8) then
      m <- fread_string ;; ret (set_model m tk)
    else if is_key key bos_key && (vtype =? 4) then
      v <- fread_u32 ;; ret (set_bos (i32 v) tk)
    else if is_key key eos_key && (vtype =? 4) then
      v <- fread_u32 ;; ret (set_eos (i32 v) tk)
    else if is_key key add_bos_key && (vtype =? 7) then
      b <- fread 1 ;; ret (set_add_bos (nonzero b) tk)
    else if is_key key add_eos_key && (vtype =? 7) then
      b <- fread 1 ;; ret (set_add_eos (nonzero b) tk)
    else skip_value vtype ;;; ret tk.

Lemma reads_scalar_value key tk ty p :
  scalar_ok ty p ->
  reads (after_key key tk) (le 4 ty ++ p)
    (if is_key key bos_key && (ty =? 4) then set_bos (i32 (unle p)) tk
     else if is_key key eos_key && (ty =? 4) then set_eos (i32 (unle p)) tk
     else if is_key key add_bos_key && (ty =? 7) then set_add_bos (nonzero p) tk
     else if is_key key add_eos_key && (ty =? 7) then set_add_eos (nonzero p) tk
     else tk).
Proof.
  intros Hp. pose proof Hp as (Hr & H0 & Hl). eapply reads_bind; [apply reads_u32; lia|].
  destruct (Z.eqb_spec ty 9) as [->|]; [by vm_compute in H0|].
  destruct (Z.eqb_spec ty 8) as [->|]; [by vm_compute in H0|]. rewrite !andb_false_r.
  destruct (Z.eqb_spec ty 4) as [->|H4]; [|destruct (Z.eqb_spec ty 7) as [->|H7]];
    rewrite ?andb_true_r, ?andb_false_r; cbv iota;
    repeat match goal with |- context [is_key key ?k] => destruct (is_key key k) end;
    first
      [ eapply reads_bind_nil; [by apply ModelFile.fread_u32_payload|apply reads_ret]
      | eapply reads_bind_nil; [by apply reads_fread|apply reads_ret]
      | eapply reads_bind_nil; [by apply (skip_scalar _ p)|apply reads_ret] ].
Qed.

Lemma reads_strs_value key tk ss :
  value_ok (Strs ss) ->
  reads (after_key key tk) (le 4 9 ++ value_image (Strs ss))
    (if is_key key tokens_key then set_vocab ss tk
     else if is_key key merges_key then set_ranks (Tokenizer.ranks_of ss) tk else tk).
Proof.
  intros Hv. pose proof Hv as [Hn Hss]. pose proof (zlen_nonneg ss).
  eapply reads_bind; [apply reads_u32; lia|]. cbn [Z.eqb Pos.eqb].
  rewrite !andb_true_r, !andb_false_r. cbn [value_image].
  destruct (is_key key tokens_key); [|destruct (is_key key merges_key)].
  1,2: eapply reads_bind; [apply reads_u32; lia|]; eapply reads_bind; [apply reads_u64; lia|];
    eapply reads_bind_nil; [unfold zlen; rewrite Nat2Z.id; by apply reads_strings|apply reads_ret].
  eapply reads_bind_nil; [by apply (reads_scan_skip (Strs ss))|apply reads_ret].
Qed.

Lemma reads_tokenizer_kv tk e :
  scan_readable e -> reads (tokenizer_kv tk) (kv_image e) (apply_kv tk e).
Proof.
  intros ([Hk Hv] & Hlen & Hr). unfold tokenizer_kv, kv_image, string_image, apply_kv.
  pose proof (zlen_nonneg (key e)). unfold string_ok in Hk. rewrite <- app_assoc.
  eapply reads_bind; [apply reads_u64; lia|].
  destruct (Z.ltb_spec 1024 (zlen (key e))); [lia|].
  eapply reads_bind; [by apply reads_fread|]. cbv zeta.
  set (k := ModelFile.c_string (key e)) in *. fold (after_key k tk).
  destruct (val e) as [ty p|s|ty es|ss]; cbn [value_type].
  - by apply reads_scalar_value.
  - eapply reads_bind; [apply reads_u32; lia|]. cbn [Z.eqb Pos.eqb].
    rewrite !andb_true_r, !andb_false_r. destruct (is_key k model_key).
    + eapply reads_bind_nil; [by apply reads_string|apply reads_ret].
    + eapply reads_bind_nil; [by apply (reads_scan_skip (Str s))|apply reads_ret].
  - destruct Hr as (H4 & Ht & Hm). eapply reads_bind; [apply reads_u32; lia|].
    cbn [Z.eqb Pos.eqb]. rewrite Ht, Hm, !andb_false_r. cbn [andb].
    eapply reads_bind_nil; [by apply (reads_scan_skip (Scalars ty es))|apply reads_ret].
  - by apply reads_strs_value.
Qed.

Lemma reads_tokenizer version nt kvs tk :
  0 <= version < 2 ^ 32 -> 0 <= nt < 2 ^ 64 -> zlen kvs < 2 ^ 64 -> Forall scan_readable kvs ->
  reads (read_tokenizer tk) (header_image version nt (zlen kvs) ++ concat (kv_image <$> kvs))
    (Some (foldl apply_kv tk kvs)).
Proof.
  intros Hv Hnt Hl Hk. pose proof (zlen_nonneg kvs). unfold read_tokenizer, header_image.
  rewrite <- !app_assoc. eapply reads_bind; [apply reads_u32; unfold GGUF_MAGIC; lia|].
  eapply reads_bind; [by apply reads_u32|]. eapply reads_bind; [by apply reads_u64|].
  eapply reads_bind; [apply reads_u64; lia|]. rewrite Z.eqb_refl. cbn [negb].
  unfold zlen. rewrite Nat2Z.id. eapply reads_bind_nil; [|apply reads_ret].
  apply reads_repeat. intros t e Hin. rewrite Forall_forall in Hk. by apply reads_tokenizer_kv, Hk.
Qed.


(** ** A concrete tokenizer file *)

Definition demo_kvs : list kv :=
  [KV model_key (Str (str "gpt2"));
   KV (str "tokenizer.ggml.token_type") (Scalars 5 [le 4 1; le 4 1]);
   KV tokens_key (Strs Tokenizer.demo_vocab);
   KV merges_key (Strs (Tokenizer.merge_line <$> Tokenizer.demo_pairs));
   KV bos_key (Scalar 4 (le 4 261)); KV eos_key (Scalar 4 (le 4 260));
   KV add_bos_key (Scalar 7 [Byte.x00])].

Definition demo_loaded : Tokenizer.t :=
  Tokenizer.build_indexes (fun l => l) (foldl apply_kv default_tokenizer demo_kvs).

Lemma demo_kvs_readable : Forall scan_readable demo_kvs.
Proof.
  assert (H : Forall kv_ok demo_kvs) by (apply ModelFile.kv_ok_check; vm_compute; reflexivity).
  apply Forall_forall. intros e He. split; [rewrite Forall_forall in H; by apply H|]. clear H.
  unfold demo_kvs in He.
  repeat (apply elem_of_cons in He as [->|He];
    [split; [vm_compute; discriminate|]; vm_compute; repeat split|]).
  by apply not_elem_of_nil in He.
Qed.


(** ** The scan and other arrays *)

Definition flags_first : list kv :=
  KV (str "tokenizer.ggml.flags") (Scalars 7 [[Byte.x01]; [Byte.x00]; [Byte.x01]]) :: demo_kvs.

(** Not every valid file is read: an array of booleans before the
    vocabulary is skipped as if its elements had four bytes, and the scan runs
    past the end of a file whose tensor directory is read without
    difficulty. *)
Theorem scan_loses_place_on_bool_array :
  Forall kv_ok flags_first /\
  load_from_gguf (fun l => l) (Some (ModelFile.directory_image 3 flags_first [])) default_tokenizer = None /\
  is_Some (ModelFile.parse_tensor_infos (Some (ModelFile.directory_image 3 flags_first []))).
Proof.
  split; [apply ModelFile.kv_ok_check; vm_compute; reflexivity|].
  split; [vm_compute; reflexivity|]. vm_compute. eauto.
Qed.

End TokenizerFile.
