(* ===== verification/Weights.v ===== *)
(** * Weights: where the weights of the model live ([src/engine/decode.cu],
      [src/engine/model.cpp], [src/kernels/gemv_q4.cu])

    The weights start as pointers into the mapped model file.  Loading copies
    some of them to the device, or registers part of the file so that kernels
    can read it through an alias.  The state is the set of resources the
    process holds: device blocks with their contents, mappings, registered
    ranges.  The answers of the CUDA runtime and of [mmap] are parameters. *)

From S2P Require Import Prelude CLib Cuda Budget ModelFile.

Module Weights.
Import ModelFile.

(** ** Environment variables *)

Definition env := bytes -> option bytes.

(** [!v || strcmp(v, "0") != 0] *)
Definition not_disabled (e : env) (v : String.string) : bool :=
  match e (str v) with None => true | Some s => negb (bool_decide (s = str "0")) end.

Definition fast_embedding_enabled (e : env) : bool := not_disabled e "JLLM_FAST_EMBD".
Definition device_output_enabled (e : env) : bool := not_disabled e "JLLM_DEVICE_OUTPUT".
Definition mapped_weight_device_enabled (e : env) : bool := not_disabled e "JLLM_MAPPED_WEIGHTS".
Definition fast_gemv_enabled_for_device_weights (e : env) : bool := not_disabled e "JLLM_FAST_GEMV".
Definition device_layer_limit (e : env) : Z :=
  match e (str "JLLM_DEVICE_LAYERS") with
  | None => if mapped_weight_device_enabled e then 0 else -1
  | Some v => let n := atoi v in if n <? 0 then -1 else n
  end.

(** ** The resources of the process *)

Record World := mkWorld {
  tick : nat;                     (* runtime calls so far *)
  dev : gmap Z bytes;             (* device blocks and their contents *)
  maps : list (Z * bytes);        (* mappings, the newest first *)
  registered : gmap Z Z;          (* registered host ranges: base, bytes *)
  pools : gmap Z Z;               (* device blocks kept by their size: the scratch pool *)
  pinned : gmap Z Z;              (* page-locked host buffers *)
  handles : gset Z;               (* streams and graphs *)
  g_region : region;              (* [g_mapped_weight_region] *)
  bad : bool }.                   (* an invalid call or access has happened *)

Definition set_dev (d : gmap Z bytes) (w : World) : World :=
  mkWorld (S (tick w)) d (maps w) (registered w) (pools w) (pinned w) (handles w) (g_region w) (bad w).
Definition set_maps (m : list (Z * bytes)) (w : World) : World :=
  mkWorld (S (tick w)) (dev w) m (registered w) (pools w) (pinned w) (handles w) (g_region w) (bad w).
Definition set_registered (r : gmap Z Z) (w : World) : World :=
  mkWorld (S (tick w)) (dev w) (maps w) r (pools w) (pinned w) (handles w) (g_region w) (bad w).
Definition set_pinned (p : gmap Z Z) (w : World) : World :=
  mkWorld (S (tick w)) (dev w) (maps w) (registered w) (pools w) p (handles w) (g_region w) (bad w).
Definition set_pools (p : gmap Z Z) (w : World) : World :=
  mkWorld (S (tick w)) (dev w) (maps w) (registered w) p (pinned w) (handles w) (g_region w) (bad w).
Definition set_handles (s : gset Z) (w : World) : World :=
  mkWorld (S (tick w)) (dev w) (maps w) (registered w) (pools w) (pinned w) s (g_region w) (bad w).
Definition set_region (g : region) (w : World) : World :=
  mkWorld (tick w) (dev w) (maps w) (registered w) (pools w) (pinned w) (handles w) g (bad w).
Definition set_bad (w : World) : World :=
  mkWorld (S (tick w)) (dev w) (maps w) (registered w) (pools w) (pinned w) (handles w) (g_region w) true.
Definition next (w : World) : World := set_dev (dev w) w.

(** ** Calls as state transformers *)

Definition M (A : Type) : Type := World -> A * World.

#[export] Instance M_ret : MRet M := fun A x w => (x, w).
#[export] Instance M_bind : MBind M := fun A B f m w => let '(x, w) := m w in f x w.

(** What the runtime and the kernel answer, in the state of the call. *)
Class Runtime := {
  rt_malloc : World -> Z -> option (Z * bytes);         (* cudaMalloc: address, indeterminate contents *)
  rt_malloc_pool : World -> Z -> option Z;              (* the same, for a block known by its size *)
  rt_memory : nat -> CudaMem;                           (* cudaMemcpy *)
  rt_register : World -> Z -> Z -> bool;                (* cudaHostRegister *)
  rt_device_pointer : World -> Z -> option Z;           (* cudaHostGetDevicePointer *)
  rt_malloc_host : World -> Z -> option Z;              (* cudaMallocHost *)
  rt_stream : World -> option Z;                        (* cudaStreamCreate *)
  rt_mmap : World -> bytes -> option Z;
  rt_page_size : Z }.

Section Calls.
Context `{rt : Runtime}.

Definition cudaMalloc (n : Z) : M (option Z) := fun w =>
  match rt_malloc w n with
  | Some (p, bs) => (Some p, set_dev (<[p := bs]> (dev w)) w)
  | None => (None, next w)
  end.

Definition cudaFree (p : Z) : M unit := fun w =>
  if p =? 0 then (tt, next w)
  else match dev w !! p with
  | Some _ => (tt, set_dev (delete p (dev w)) w)
  | None => (tt, set_bad w)
  end.

Definition cudaMallocPool (n : Z) : M (option Z) := fun w =>
  match rt_malloc_pool w n with
  | Some p => (Some p, set_pools (<[p := n]> (pools w)) w)
  | None => (None, next w)
  end.

Definition cudaFreePool (p : Z) : M unit := fun w =>
  if p =? 0 then (tt, w)
  else match pools w !! p with
  | Some _ => (tt, set_pools (delete p (pools w)) w)
  | None => (tt, set_bad w)
  end.

(** The mapping that holds [[p, p + n)]. *)
Definition host_block (w : World) (p n : Z) : option (Z * bytes) :=
  List.find (fun m => (fst m <=? p) && (p + n <=? fst m + zlen (snd m))) (maps w).

Definition host_read (w : World) (p n : Z) : option bytes :=
  match host_block w p n with Some (b, bs) => peek_at bs (p - b) n | None => None end.

(** [cudaMemcpy(base + off, src, n, cudaMemcpyHostToDevice)] *)
Definition memcpy_h2d (base off src n : Z) : M bool := fun w =>
  match dev w !! base, host_block w src n with
  | Some d, Some (hb, hs) =>
      let '(ok, d') := @Cuda.cudaMemcpy (rt_memory (tick w)) d off hs (src - hb) n in
      (ok, set_dev (<[base := d']> (dev w)) w)
  | _, _ => (false, set_bad w)
  end.

Definition cudaHostRegister (base n : Z) : M bool := fun w =>
  if rt_register w base n then (true, set_registered (<[base := n]> (registered w)) w) else (false, next w).

Definition cudaHostUnregister (base : Z) : M unit := fun w =>
  match registered w !! base with
  | Some _ => (tt, set_registered (delete base (registered w)) w)
  | None => (tt, set_bad w)
  end.

Definition cudaHostGetDevicePointer (base : Z) : M (option Z) := fun w => (rt_device_pointer w base, next w).

Definition register_region (host device n : Z) : M unit := fun w =>
  (tt, set_region (register_mapped_weight_region host device n) w).
Definition clear_region (host : Z) : M unit := fun w =>
  (tt, set_region (clear_mapped_weight_region (g_region w) host) w).
Definition resolve_region (p : Z) : M Z := fun w => (resolve_mapped_weight_device_ptr (g_region w) p, w).

Definition mmap (file : bytes) : M (option Z) := fun w =>
  match rt_mmap w file with
  | Some base => (Some base, set_maps ((base, file) :: maps w) w)
  | None => (None, next w)
  end.

(** [munmap] of a whole mapping. *)
Definition munmap (base size : Z) : M unit := fun w =>
  match maps w with
  | (b, file) :: ms => if (b =? base) && (zlen file =? size) then (tt, set_maps ms w) else (tt, set_bad w)
  | [] => (tt, set_bad w)
  end.

(** ** Copying a weight *)

Definition copy_weight_to_device (src : option Z) (n : Z) : M (option Z) :=
  match src with
  | None => mret None
  | Some src =>
      if n =? 0 then mret None else
      r ← cudaMalloc n;
      match r with
      | None => mret None
      | Some p =>
          ok ← memcpy_h2d p 0 src n;
          if (ok : bool) then mret (Some p) else _ ← cudaFree p; mret None
      end
  end.

(** A pointer field, its type kept. *)
Definition set_ptr (s : slot) (p : Z) (lw : LayerWeights) : LayerWeights :=
  let '(mkLayer q k v o g u d ra rf qn kn tq tk tv to tg tu td rt nt) := lw in
  let p := Some p in
  match s with
  | Wq => mkLayer p k v o g u d ra rf qn kn tq tk tv to tg tu td rt nt
  | Wk => mkLayer q p v o g u d ra rf qn kn tq tk tv to tg tu td rt nt
  | Wv => mkLayer q k p o g u d ra rf qn kn tq tk tv to tg tu td rt nt
  | Wo => mkLayer q k v p g u d ra rf qn kn tq tk tv to tg tu td rt nt
  | WGate => mkLayer q k v o p u d ra rf qn kn tq tk tv to tg tu td rt nt
  | WUp => mkLayer q k v o g p d ra rf qn kn tq tk tv to tg tu td rt nt
  | WDown => mkLayer q k v o g u p ra rf qn kn tq tk tv to tg tu td rt nt
  | QNorm => mkLayer q k v o g u d ra rf p kn tq tk tv to tg tu td rt nt
  | KNorm => mkLayer q k v o g u d ra rf qn p tq tk tv to tg tu td rt nt
  | RmsAttn => mkLayer q k v o g u d p rf qn kn tq tk tv to tg tu td rt nt
  | RmsFfn => mkLayer q k v o g u d ra p qn kn tq tk tv to tg tu td rt nt
  end.

(** ** Norm weights *)

(** Two tensors of one size; the first copy is freed if the second fails. *)
Definition copy_pair (a b : option Z) (n : Z) : M (option (Z * Z)) :=
  r ← copy_weight_to_device a n;
  match r with
  | None => mret None
  | Some x =>
      r ← copy_weight_to_device b n;
      match r with
      | None => _ ← cudaFree x; mret None
      | Some y => mret (Some (x, y))
      end
  end.

(** One iteration: the answer, the layer and the owned blocks. *)
Definition norm_layer (norm_bytes qk_norm_bytes : Z) (lw : LayerWeights) (owned : list Z)
  : M (bool * LayerWeights * list Z) :=
  if negb (rms_type lw =? 0) then mret (false, lw, owned) else
  r ← copy_pair (rms_attn lw) (rms_ffn lw) norm_bytes;
  match r with
  | None => mret (false, lw, owned)
  | Some (attn, ffn) =>
      let lw := set_ptr RmsFfn ffn (set_ptr RmsAttn attn lw) in
      let owned := owned ++ [attn; ffn] in
      match q_norm lw, k_norm lw with
      | Some _, Some _ =>
          if negb (qk_norm_type lw =? 0) then mret (false, lw, owned) else
          r ← copy_pair (q_norm lw) (k_norm lw) qk_norm_bytes;
          match r with
          | None => mret (false, lw, owned)
          | Some (qn, kn) => mret (true, set_ptr KNorm kn (set_ptr QNorm qn lw), owned ++ [qn; kn])
          end
      | _, _ => mret (true, lw, owned)
      end
  end.

(** The loop over the layers. *)
Fixpoint norm_layers (norm_bytes qk_norm_bytes : Z) (lws : list LayerWeights) (owned : list Z)
  : M (bool * list LayerWeights * list Z) :=
  match lws with
  | [] => mret (true, [], owned)
  | lw :: lws =>
      r ← norm_layer norm_bytes qk_norm_bytes lw owned;
      let '(ok, lw, owned) := r in
      if (ok : bool) then
        r ← norm_layers norm_bytes qk_norm_bytes lws owned;
        let '(ok, lws, owned) := r in mret (ok, lw :: lws, owned)
      else mret (false, lw :: lws, owned)
  end.

Definition set_layers (ls : list LayerWeights) (mw : ModelWeights) : ModelWeights :=
  let '(mkWeights te on et out ot _) := mw in mkWeights te on et out ot ls.
Definition set_output_norm (p : Z) (mw : ModelWeights) : ModelWeights :=
  let '(mkWeights te _ et out ot ls) := mw in mkWeights te (Some p) et out ot ls.

(** [(size_t)x * sizeof(float)] *)
Definition float_bytes (x : Z) : Z := u64 (u64 x * 4).

Definition materialize_norm_weights (mw : ModelWeights) (hidden_dim head_dim : Z) (owned : list Z)
  : M (bool * ModelWeights * list Z) :=
  let norm_bytes := float_bytes hidden_dim in
  let qk_norm_bytes := float_bytes head_dim in
  r ← norm_layers norm_bytes qk_norm_bytes (layers mw) owned;
  let '(ok, lws, owned) := r in
  let mw := set_layers lws mw in
  if (ok : bool) then
    r ← copy_weight_to_device (output_norm mw) norm_bytes;
    match r with
    | None => mret (false, mw, owned)
    | Some p => mret (true, set_output_norm p mw, owned ++ [p])
    end
  else mret (false, mw, owned).

(** ** Registering part of the file *)

(** [p & ~(page - 1)] *)
Definition page_floor (p : Z) : Z := Z.land p (Z.lnot (rt_page_size - 1)).

(** Base and size of the registered range, or [None]. *)
Definition map_host_weight_range_for_gpu (ptr : option Z) (n : Z) : M (option (Z * Z)) :=
  match ptr with
  | None => mret None
  | Some p =>
      if n =? 0 then mret None
      else if rt_page_size <=? 0 then mret None
      else
        let begin := page_floor p in
        let end_ := page_floor (u64 (p + n + rt_page_size - 1)) in
        if end_ <=? begin then mret None
        else
          let host_bytes := end_ - begin in
          ok ← cudaHostRegister begin host_bytes;
          if negb ok then mret None else
          d ← cudaHostGetDevicePointer begin;
          if (match d with Some d => d | None => 0 end) =? 0 then
            _ ← cudaHostUnregister begin; mret None
          else
            _ ← register_region begin (default 0 d) host_bytes;
            mret (Some (begin, host_bytes))
  end.

(** ** The output projection *)

Definition kquant_block_bytes (ggml_type : Z) : Z :=
  if ggml_type =? 12 then 144 else if ggml_type =? 13 then 176 else if ggml_type =? 14 then 210 else 0.

Definition kquant_tensor_bytes (ggml_type rows cols : Z) : Z :=
  if (rows <=? 0) || (cols <=? 0) || negb (Z.rem cols 256 =? 0) then 0
  else u64 (rows * Z.quot cols 256 * kquant_block_bytes ggml_type).

Definition align_up_size (value alignment : Z) : Z :=
  u64 (u64 (value + alignment - 1) / alignment * alignment).

(** [(int64_t)((bytes + 1024 * 1024 - 1) / (1024 * 1024))] *)
Definition mb_up (n : Z) : Z := i64 (u64 (n + 1024 * 1024 - 1) / (1024 * 1024)).

Definition set_output (p : Z) (mw : ModelWeights) : ModelWeights :=
  let '(mkWeights te on et _ ot ls) := mw in mkWeights te on et (Some p) ot ls.
Definition set_embedding (p : Z) (mw : ModelWeights) : ModelWeights :=
  let '(mkWeights _ on et out ot ls) := mw in mkWeights (Some p) on et out ot ls.

(** The mapped range is [(base, bytes)]; [want_mapping]: the two pointers for
    it are given.  [getenv] is read again for the forced copy. *)
Definition materialize_output_weight (e : env) (want_mapping : bool) (mw : ModelWeights)
  (cfg : ModelConfig) (budget : Budget.MemoryBudget) (owned : list Z) (mapped : Z * Z)
  : M (Z * ModelWeights * list Z * (Z * Z)) :=
  let nothing := (0, mw, owned, mapped) in
  if negb (device_output_enabled e) || negb (fast_gemv_enabled_for_device_weights e) ||
     bool_decide (output mw = None) then mret nothing else
  let n := kquant_tensor_bytes (output_type mw) (vocab_size cfg) (hidden_dim cfg) in
  if n =? 0 then mret nothing else
  let output_src := output mw in
  let tied_output := bool_decide (output_src = tok_embd mw) in
  let map_range : M (option (Z * Z)) :=
    if want_mapping then map_host_weight_range_for_gpu output_src n else mret None in
  r ← (if negb (mapped_weight_device_enabled e) && tied_output && want_mapping &&
          negb (bool_decide (e (str "JLLM_DEVICE_OUTPUT_COPY") = Some (str "1")))
       then map_range else mret None);
  match r with
  | Some m => mret (n, mw, owned, m)
  | None =>
      let mb := mb_up n in
      if Budget.free_mb budget <? i64 (mb + 128) then
        r ← (if negb (mapped_weight_device_enabled e) then map_range else mret None);
        match r with Some m => mret (n, mw, owned, m) | None => mret nothing end
      else
        r ← cudaMalloc n;
        match r with
        | None =>
            r ← (if negb (mapped_weight_device_enabled e) then map_range else mret None);
            match r with Some m => mret (n, mw, owned, m) | None => mret nothing end
        | Some p =>
            ok ← memcpy_h2d p 0 (default 0 output_src) n;
            if negb ok then _ ← cudaFree p; mret nothing
            else
              let mw' := set_output p mw in
              let mw' := if tied_output && fast_embedding_enabled e then set_embedding p mw' else mw' in
              mret (n, mw', owned ++ [p], mapped)
        end
  end.

(** ** The layers *)

Record Spec := mkSpec { spec_slot : slot; spec_src : option Z; spec_type : Z; spec_rows : Z; spec_cols : Z }.

Definition Q_ (cfg : ModelConfig) : Z := i32 (n_heads cfg * head_dim cfg).
Definition KV_ (cfg : ModelConfig) : Z := i32 (n_kv_heads cfg * head_dim cfg).

Definition specs (lw : LayerWeights) (cfg : ModelConfig) : list Spec :=
  let H := hidden_dim cfg in let Q := Q_ cfg in let KV := KV_ cfg in let I := intermediate_dim cfg in
  [mkSpec Wq (wq lw) (type_wq lw) Q H; mkSpec Wk (wk lw) (type_wk lw) KV H;
   mkSpec Wv (wv lw) (type_wv lw) KV H; mkSpec Wo (wo lw) (type_wo lw) H Q;
   mkSpec WGate (w_gate lw) (type_w_gate lw) I H; mkSpec WUp (w_up lw) (type_w_up lw) I H;
   mkSpec WDown (w_down lw) (type_w_down lw) H I].

Definition spec_bytes (s : Spec) : Z := kquant_tensor_bytes (spec_type s) (spec_rows s) (spec_cols s).

Definition layer_quant_weight_bytes (lw : LayerWeights) (cfg : ModelConfig) : Z :=
  foldl (fun n s => u64 (n + spec_bytes s)) 0 (specs lw cfg).

Definition ARENA_ALIGN : Z := 256.

(** A tensor placed in the arena. *)
Record Placed := mkPlaced { pl_slot : slot; pl_src : Z; pl_off : Z; pl_size : Z }.

Fixpoint place (ss : list Spec) (arena_bytes : Z) : option (list Placed * Z) :=
  match ss with
  | [] => Some ([], arena_bytes)
  | s :: ss =>
      let n := spec_bytes s in
      match spec_src s with
      | None => None
      | Some src =>
          if n =? 0 then None else
          match place ss (u64 (arena_bytes + align_up_size n ARENA_ALIGN)) with
          | None => None
          | Some (ps, total) => Some (mkPlaced (spec_slot s) src arena_bytes n :: ps, total)
          end
      end
  end.

Fixpoint copy_placed (arena : Z) (ps : list Placed) : M bool :=
  match ps with
  | [] => mret true
  | p :: ps =>
      ok ← memcpy_h2d arena (pl_off p) (pl_src p) (pl_size p);
      if (ok : bool) then copy_placed arena ps else _ ← cudaFree arena; mret false
  end.

Definition set_placed (arena : Z) (lw : LayerWeights) (p : Placed) : LayerWeights :=
  set_ptr (pl_slot p) (arena + pl_off p) lw.

Definition copy_layer_quant_weights_to_device (lw : LayerWeights) (cfg : ModelConfig) (owned : list Z)
  : M (bool * LayerWeights * list Z) :=
  match place (specs lw cfg) 0 with
  | None => mret (false, lw, owned)
  | Some (ps, arena_bytes) =>
      r ← cudaMalloc arena_bytes;
      match r with
      | None => mret (false, lw, owned)
      | Some arena =>
          ok ← copy_placed arena ps;
          if (ok : bool) then mret (true, foldl (set_placed arena) lw ps, owned ++ [arena])
          else mret (false, lw, owned)
      end
  end.

Definition reserve_mb : Z := 128.

(** The loop over the first [layer_cap] layers: the layers, the owned blocks,
    the bytes and the number of layers copied. *)
Fixpoint copy_layers (cfg : ModelConfig) (lws : list LayerWeights) (free_mb : Z) (owned : list Z)
  (total_bytes copied : Z) : M (list LayerWeights * list Z * Z * Z) :=
  match lws with
  | [] => mret ([], owned, total_bytes, copied)
  | lw :: lws =>
      let stop := (lw :: lws, owned, total_bytes, copied) in
      let n := layer_quant_weight_bytes lw cfg in
      if n =? 0 then mret stop else
      let mb := mb_up n in
      if free_mb <? i64 (mb + reserve_mb) then mret stop else
      r ← copy_layer_quant_weights_to_device lw cfg owned;
      let '(ok, lw', owned) := r in
      if (ok : bool) then
        r ← copy_layers cfg lws (i64 (free_mb - mb)) owned (u64 (total_bytes + n)) (copied + 1);
        let '(lws, owned, total_bytes, copied) := r in
        mret (lw' :: lws, owned, total_bytes, copied)
      else mret stop
  end.

(** [None]: [(size_t)-1]. *)
Definition materialize_layer_weights (e : env) (mw : ModelWeights) (cfg : ModelConfig)
  (budget : Budget.MemoryBudget) (owned : list Z) : M (option Z * ModelWeights * list Z) :=
  let n_layers := zlen (layers mw) in
  if negb (fast_gemv_enabled_for_device_weights e) then mret (Some 0, mw, owned) else
  let requested_layers := device_layer_limit e in
  if requested_layers =? 0 then mret (Some 0, mw, owned) else
  let layer_cap := if requested_layers <? 0 then n_layers else Z.min requested_layers n_layers in
  if negb (mapped_weight_device_enabled e) && (layer_cap <? n_layers) then mret (None, mw, owned) else
  r ← copy_layers cfg (take (Z.to_nat layer_cap) (layers mw)) (Budget.free_mb budget) owned 0 0;
  let '(lws, owned, total_bytes, copied_layers) := r in
  let mw := set_layers (lws ++ drop (Z.to_nat layer_cap) (layers mw)) mw in
  if negb (mapped_weight_device_enabled e) && (copied_layers <? n_layers) then mret (None, mw, owned)
  else mret (Some total_bytes, mw, owned).

(** ** What a kernel reads *)

Definition device_block (w : World) (p n : Z) : option (Z * bytes) :=
  List.find (fun m => (fst m <=? p) && (p + n <=? fst m + zlen (snd m))) (map_to_list (dev w)).

(** [resolve_weight_device_ptr], 0 for the null pointer. *)
Definition resolve_weight_device_ptr (w : World) (W : Z) : Z :=
  let mapped := resolve_mapped_weight_device_ptr (g_region w) W in
  if negb (mapped =? 0) then mapped
  else match device_block w W 1 with Some _ => W | None => 0 end.

(** The [n] bytes a kernel finds at the weight [W]: those of the device block
    it points into, or, through the alias of the registered range, those of
    the file. *)
Definition weight_seen (w : World) (W n : Z) : option bytes :=
  if resolve_weight_device_ptr w W =? 0 then None
  else if negb (resolve_mapped_weight_device_ptr (g_region w) W =? 0) then
    match registered w !! host_base (g_region w) with
    | Some len => if region_bytes (g_region w) <=? len then host_read w W n else None
    | None => None
    end
  else match device_block w W n with Some (b, bs) => peek_at bs (W - b) n | None => None end.

End Calls.

(** ** A program logic for the calls *)

(** [wp m Q w]: run from [w], [m] ends with an answer and a state in [Q]. *)
Definition wp {A} (m : M A) (Q : A -> World -> Prop) (w : World) : Prop := Q (m w).1 (m w).2.

Lemma wp_ret {A} (a : A) Q w : Q a w -> wp (mret a) Q w.
Proof. done. Qed.

Lemma wp_bind {A B} (m : M A) (f : A -> M B) Q w : wp m (fun a w => wp (f a) Q w) w -> wp (m ≫= f) Q w.
Proof. unfold wp, mbind, M_bind. by destruct (m w). Qed.

Lemma wp_mono {A} (m : M A) (P Q : A -> World -> Prop) w :
  wp m P w -> (forall a w', P a w' -> Q a w') -> wp m Q w.
Proof. intros H HPQ. by apply HPQ. Qed.

(** Run [m], known to satisfy the given triple, then the rest. *)
Ltac step H := apply wp_bind; eapply wp_mono; [by apply H|].

(** What the development relies on of the runtime. *)
Definition pages `{Runtime} (n : Z) : Z := (n + rt_page_size - 1) / rt_page_size * rt_page_size.

Class RuntimeLaws `{rt : Runtime} : Prop := {
  (** a block lies apart from the other blocks and from the mappings; a negative
      size is, as a [size_t], more than there is *)
  rt_malloc_fresh w n p bs : rt_malloc w n = Some (p, bs) -> n <> 0 ->
    0 < n /\ 0 < p /\ zlen bs = n /\
    (forall q d, dev w !! q = Some d -> p <> q /\ disjoint_ranges p n q (zlen d)) /\
    (forall m, m ∈ maps w -> disjoint_ranges p n (fst m) (pages (zlen (snd m))));
  rt_memory_laws k : @CudaMemLaws (rt_memory k);
  rt_device_pointer_pos w b d : rt_device_pointer w b = Some d -> 0 <= d;
  rt_register_fresh w b n : rt_register w b n = true -> registered w !! b = None;
  rt_malloc_pool_fresh w n p : rt_malloc_pool w n = Some p -> pools w !! p = None /\ p <> 0;
  rt_malloc_host_fresh w n p : rt_malloc_host w n = Some p -> pinned w !! p = None /\ p <> 0;
  rt_stream_fresh w s : rt_stream w = Some s -> (s ∉ handles w) /\ s <> 0;
  rt_mmap_fresh w file b : rt_mmap w file = Some b ->
    0 < b /\ 0 < zlen file /\ b mod rt_page_size = 0 /\ b + pages (zlen file) + rt_page_size < 2 ^ 64 /\
    forall p d, dev w !! p = Some d -> disjoint_ranges p (zlen d) b (pages (zlen file));
  rt_page : exists k, 0 <= k < 63 /\ rt_page_size = 2 ^ k }.

(** Blocks are non-empty and lie apart from each other and from the mappings. *)
Record wf `{Runtime} (w : World) : Prop := {
  wf_block p d : dev w !! p = Some d -> 0 < p /\ 0 < zlen d;
  wf_blocks p d q d' : dev w !! p = Some d -> dev w !! q = Some d' -> p <> q ->
    disjoint_ranges p (zlen d) q (zlen d');
  wf_maps p d m : dev w !! p = Some d -> m ∈ maps w ->
    disjoint_ranges p (zlen d) (fst m) (pages (zlen (snd m))) }.

(** Everything but the device. *)
Definition rest (w : World) := (maps w, registered w, pools w, pinned w, handles w, g_region w, bad w).

(** From [w] to [w'] the device has gained the blocks [O] and nothing else has
    changed; in particular no invalid call has been made. *)
Record grow `{Runtime} (w : World) (O : list Z) (w' : World) : Prop := {
  grow_nodup : NoDup O;
  grow_new p : p ∈ O -> dev w !! p = None /\ is_Some (dev w' !! p);
  grow_old p : p ∉ O -> dev w' !! p = dev w !! p;
  grow_rest : rest w' = rest w;
  grow_wf : wf w -> wf w' }.

Section Copies.
Context `{laws : RuntimeLaws}.

Lemma grow_refl w w' : dev w' = dev w -> rest w' = rest w -> grow w [] w'.
Proof.
  intros Hd Hr. split; [constructor|by intros p ?%not_elem_of_nil|by rewrite Hd|done|].
  intros [H1 H2 H3]. unfold rest in Hr. simplify_eq. split; rewrite ?Hd; [done|done|].
  intros p d m. replace (maps w') with (maps w) by congruence. apply H3.
Qed.

Lemma grow_trans w O w1 O' w2 : grow w O w1 -> grow w1 O' w2 -> grow w (O ++ O') w2.
Proof.
  intros [N1 A1 B1 R1 W1] [N2 A2 B2 R2 W2].
  assert (Hd : forall p, p ∈ O -> p ∉ O').
  { intros p Hp Hp'. destruct (A1 p Hp) as [_ [d Hd]], (A2 p Hp') as [Hn _]. by rewrite Hd in Hn. }
  split; [| | |by rewrite R2|auto].
  - apply NoDup_app. split; [done|]. split; [|done]. intros p H1 H2. by apply (Hd p).
  - intros p [Hp|Hp]%elem_of_app.
    + split; [by apply A1|]. rewrite B2 by auto. by apply A1.
    + split; [|by apply A2]. rewrite <- B1; [by apply A2|]. intros Ho. by apply (Hd p).
  - intros p [H1 H2]%not_elem_of_app. by rewrite B2, B1.
Qed.

Lemma grow_keep w O w' p d : grow w O w' -> dev w !! p = Some d -> dev w' !! p = Some d.
Proof.
  intros G Hp. rewrite (grow_old _ _ _ G); [done|]. intros Ho.
  destruct (grow_new _ _ _ G p Ho) as [Hn _]. by rewrite Hn in Hp.
Qed.

Lemma grow_maps w O w' : grow w O w' -> maps w' = maps w.
Proof. intros G. pose proof (grow_rest _ _ _ G) as R. unfold rest in R. congruence. Qed.

Lemma grow_host w O w' s n : grow w O w' -> host_read w' s n = host_read w s n.
Proof. intros G. unfold host_read, host_block. by rewrite (grow_maps _ _ _ G). Qed.

(** [n] bytes at offset [off] of the block [p] are those of the host at [src]. *)
Definition mirrors (w : World) (p off src n : Z) : Prop :=
  exists d bs, dev w !! p = Some d /\ peek_at d off n = Some bs /\ host_read w src n = Some bs.

Lemma mirrors_grow w O w' p off src n : grow w O w' -> mirrors w p off src n -> mirrors w' p off src n.
Proof.
  intros G (d & bs & Hd & Hp & Hh). exists d, bs. rewrite (grow_host _ _ _ _ _ G).
  split; [by eapply grow_keep|done].
Qed.

Definition readable (w : World) (src : option Z) (n : Z) : Prop :=
  forall s, src = Some s -> is_Some (host_read w s n).

Lemma readable_grow w O w' src n : grow w O w' -> readable w src n -> readable w' src n.
Proof. intros G H s Hs. rewrite (grow_host _ _ _ _ _ G). by apply H. Qed.

Lemma wp_malloc n w Q :
  n <> 0 ->
  (forall w', grow w [] w' -> Q None w') ->
  (forall p w', grow w [p] w' -> (exists d, dev w' !! p = Some d /\ zlen d = n) -> 0 < p -> Q (Some p) w') ->
  wp (cudaMalloc n) Q w.
Proof.
  intros Hn H0 H1. unfold wp, cudaMalloc. destruct (rt_malloc w n) as [[p bs]|] eqn:E; cbn.
  2:{ apply H0. by apply grow_refl. }
  destruct (rt_malloc_fresh w n p bs E Hn) as (Hpos & Hp & Hl & Hd & Hm).
  assert (Hf : dev w !! p = None).
  { destruct (dev w !! p) as [d|] eqn:Ed; [|done]. by destruct (Hd p d Ed). }
  apply H1; [|exists bs; cbn; by rewrite lookup_insert_eq|done]. split; cbn.
  - apply NoDup_singleton.
  - intros q ->%list_elem_of_singleton. rewrite lookup_insert_eq. split; [done|by eexists].
  - intros q Hq. apply lookup_insert_ne. intros ->. apply Hq. by left.
  - done.
  - intros Hw. split; cbn.
    + intros q d [[<- <-]|[_ Hq]]%lookup_insert_Some; [lia|by apply (wf_block w Hw q)].
    + intros q d q' d' [[<- <-]|[Hx Hq]]%lookup_insert_Some [[<- <-]|[Hn' Hq']]%lookup_insert_Some Hne; [done| | |].
      * rewrite Hl. by apply (Hd q').
      * destruct (Hd q d Hq) as [_ [|]]; unfold disjoint_ranges; lia.
      * by apply (wf_blocks w Hw q d q' d').
    + intros q d m [[<- <-]|[_ Hq]]%lookup_insert_Some Hin; [rewrite Hl; by apply Hm|by apply (wf_maps w Hw q)].
Qed.

(** A block may be written. *)
Lemma grow_write w O w1 w2 p d d' :
  grow w O w1 -> p ∈ O -> dev w1 !! p = Some d -> zlen d' = zlen d ->
  dev w2 = <[p := d']> (dev w1) -> rest w2 = rest w1 -> grow w O w2.
Proof.
  intros [N A B R W] Hp Hd Hl Ed Er. split; [done| | |by rewrite Er|].
  - intros q Hq. split; [by apply A|]. rewrite Ed, lookup_insert. case_decide; [by eexists|by apply A].
  - intros q Hq. rewrite Ed, lookup_insert_ne by (by intros ->). by apply B.
  - intros Hw. destruct (W Hw) as [W1 W2 W3].
    assert (Old : forall q c, dev w2 !! q = Some c -> exists c', dev w1 !! q = Some c' /\ zlen c = zlen c').
    { intros q c. rewrite Ed. intros [[<- <-]|[_ Hq]]%lookup_insert_Some; eauto. }
    split.
    + intros q c (c' & Hq & ->)%Old. by apply W1.
    + intros q c q' c' (e & Hq & ->)%Old (e' & Hq' & ->)%Old. by apply W2.
    + intros q c m (c' & Hq & ->)%Old. replace (maps w2) with (maps w1); [by apply W3|].
      unfold rest in Er. congruence.
Qed.

(** ... and freed. *)
Lemma grow_free w p w1 w2 :
  grow w [p] w1 -> dev w2 = delete p (dev w1) -> rest w2 = rest w1 -> grow w [] w2.
Proof.
  intros G Ed Er. destruct (grow_new _ _ _ G p) as [Hn [d Hd]]; [by left|].
  apply grow_refl; [|by rewrite Er, (grow_rest _ _ _ G)].
  rewrite Ed. apply map_eq. intros q. rewrite lookup_delete. case_decide; [by subst q|].
  apply (grow_old _ _ _ G). by intros ->%list_elem_of_singleton.
Qed.

Lemma wp_free w0 p w Q :
  0 < p -> grow w0 [p] w -> (forall w', grow w0 [] w' -> Q tt w') -> wp (cudaFree p) Q w.
Proof.
  intros Hp G HQ. destruct (grow_new _ _ _ G p) as [_ [d Hd]]; [by left|].
  unfold wp, cudaFree. rewrite (proj2 (Z.eqb_neq p 0)) by lia. rewrite Hd. cbn. apply HQ. by eapply grow_free.
Qed.

Lemma wp_memcpy base off src n w d bs Q :
  dev w !! base = Some d -> host_read w src n = Some bs -> 0 <= off -> off + n <= zlen d ->
  (forall d' w', dev w' = <[base := d']> (dev w) -> rest w' = rest w -> poke_at d off bs = Some d' -> Q true w') ->
  (forall d' w', dev w' = <[base := d']> (dev w) -> rest w' = rest w -> zlen d' = zlen d -> Q false w') ->
  wp (memcpy_h2d base off src n) Q w.
Proof.
  intros Hd Hh Hoff Hn H1 H2. unfold wp, memcpy_h2d. unfold host_read in Hh.
  destruct (host_block w src n) as [[hb hs]|] eqn:E; [|done]. rewrite Hd.
  destruct (Cuda.cudaMemcpy d off hs (src - hb) n) as [[] d'] eqn:Ec; cbn.
  - eapply H1; [done|done|]. by eapply (@cudaMemcpy_ok (rt_memory (tick w)) (rt_memory_laws (tick w))).
  - eapply H2; [done|done|]. by eapply (@cudaMemcpy_length (rt_memory (tick w)) (rt_memory_laws (tick w))).
Qed.

Lemma host_read_length w s n bs : host_read w s n = Some bs -> zlen bs = n.
Proof. unfold host_read. destruct (host_block w s n) as [[]|]; [|done]. apply peek_at_length. Qed.

(** The whole of a fresh block. *)
Lemma wp_copy src n w Q :
  readable w src n -> (forall w', grow w [] w' -> Q None w') ->
  (forall s p w', src = Some s -> 0 < p -> grow w [p] w' -> mirrors w' p 0 s n -> Q (Some p) w') ->
  wp (copy_weight_to_device src n) Q w.
Proof.
  intros Hr H0 H1. destruct src as [s|]; [|apply H0; by apply grow_refl]. cbn [copy_weight_to_device].
  destruct (Hr s eq_refl) as [bs Hbs]. pose proof (host_read_length _ _ _ _ Hbs) as Hl.
  destruct (Z.eqb_spec n 0) as [->|Hn]; [apply H0; by apply grow_refl|].
  assert (0 < n) by (pose proof (zlen_nonneg bs); lia).
  apply wp_bind, wp_malloc; [done|intros w' G; by apply H0|]. intros p w1 G (d & Hd & Hdl) Hp.
  apply wp_bind, (wp_memcpy _ _ _ _ _ d bs); [done|by rewrite (grow_host _ _ _ _ _ G)|done|lia| |].
  - intros d' w2 Ed Er Hpk. assert (G2 : grow w [p] w2).
    { eapply grow_write; [exact G|by left|exact Hd|by eapply poke_at_length|done|done]. }
    apply wp_ret, (H1 s); [done|done|done|]. exists d', bs. split; [by rewrite Ed, lookup_insert_eq|].
    rewrite (grow_host _ _ _ _ _ G2). split; [|done]. rewrite <- Hl. by eapply peek_poke_same.
  - intros d' w2 Ed Er Hdl'. apply wp_bind, (wp_free w); [lia| |intros w' G'; by apply H0].
    eapply grow_write; [exact G|by left|exact Hd|done|done|done].
Qed.

(** ** The norm weights *)

Lemma wp_copy_pair a b n w Q :
  readable w a n -> readable w b n -> (forall w', grow w [] w' -> Q None w') ->
  (forall s t p q w', a = Some s -> b = Some t -> grow w [p; q] w' ->
     mirrors w' p 0 s n -> mirrors w' q 0 t n -> Q (Some (p, q)) w') ->
  wp (copy_pair a b n) Q w.
Proof.
  intros Ha Hb H0 H1. unfold copy_pair.
  apply wp_bind, wp_copy; [done|done|]. intros s p w1 Es Hp G1 M1.
  apply wp_bind, wp_copy; [by eapply readable_grow| |].
  - intros w2 G2. apply wp_bind, (wp_free w); [done|by apply (grow_trans _ [p] w1 [])|].
    intros w3 G3. by apply wp_ret, H0.
  - intros t q w2 Et Hq G2 M2. apply wp_ret, (H1 s t); [done|done|by apply (grow_trans _ [p] w1 [q])| |done].
    by eapply mirrors_grow.
Qed.

Definition quant_slots : list slot := [Wq; Wk; Wv; Wo; WGate; WUp; WDown].

(** The types of a layer, the fields that no pass changes. *)
Definition types (lw : LayerWeights) :=
  (type_wq lw, type_wk lw, type_wv lw, type_wo lw, type_w_gate lw, type_w_up lw, type_w_down lw,
   rms_type lw, qk_norm_type lw).

Lemma slot_ptr_set s t p lw : slot_ptr s (set_ptr t p lw) = if decide (s = t) then Some p else slot_ptr s lw.
Proof. by destruct lw, s, t. Qed.

Lemma types_set t p lw : types (set_ptr t p lw) = types lw.
Proof. by destruct lw, t. Qed.

Create Rewrite HintDb slots.
Hint Rewrite slot_ptr_set types_set : slots.

(** The tensor of slot [s] is in a device block of its own. *)
Definition on_device (w : World) (n : Z) (s : slot) (lw lw' : LayerWeights) : Prop :=
  exists src p, slot_ptr s lw = Some src /\ slot_ptr s lw' = Some p /\ mirrors w p 0 src n.

Lemma on_device_grow w O w' n s lw lw' : grow w O w' -> on_device w n s lw lw' -> on_device w' n s lw lw'.
Proof. intros G (src & p & H1 & H2 & H3). exists src, p. by eauto using mirrors_grow. Qed.

Definition both_qk (lw : LayerWeights) : Prop := is_Some (q_norm lw) /\ is_Some (k_norm lw).

(** The types are those of before, and a norm that was absent is absent. *)
Definition form_kept (lw lw' : LayerWeights) : Prop := types lw' = types lw /\ (both_qk lw' -> both_qk lw).

Record norms_moved (w : World) (nb qb : Z) (lw lw' : LayerWeights) : Prop := {
  nm_attn : on_device w nb RmsAttn lw lw';
  nm_ffn : on_device w nb RmsFfn lw lw';
  nm_qk : both_qk lw -> on_device w qb QNorm lw lw' /\ on_device w qb KNorm lw lw';
  nm_form : form_kept lw lw' }.

Lemma norms_moved_grow w O w' nb qb lw lw' :
  grow w O w' -> norms_moved w nb qb lw lw' -> norms_moved w' nb qb lw lw'.
Proof. intros G [A B C D]. split; [by eapply on_device_grow..| |done]. intros H. destruct (C H). by eauto using on_device_grow. Qed.

(** What no norm copy touches. *)
Definition matrices_kept (lw lw' : LayerWeights) : Prop :=
  types lw' = types lw /\ forall s, s ∈ quant_slots -> slot_ptr s lw' = slot_ptr s lw.

Definition norms_readable (w : World) (nb qb : Z) (lw : LayerWeights) : Prop :=
  readable w (rms_attn lw) nb /\ readable w (rms_ffn lw) nb /\ readable w (q_norm lw) qb /\ readable w (k_norm lw) qb.

Lemma norms_readable_grow w O w' nb qb lw : grow w O w' -> norms_readable w nb qb lw -> norms_readable w' nb qb lw.
Proof. intros G (?&?&?&?). repeat split; by eapply readable_grow. Qed.

Ltac slots :=
  repeat match goal with
  | |- _ /\ _ => split
  | |- matrices_kept _ _ => split
  end;
  try (by autorewrite with slots);
  try (intros s; unfold quant_slots; rewrite !elem_of_cons, elem_of_nil; autorewrite with slots;
       intros Hs; destruct_or? Hs; simplify_eq; done).

Lemma kept_refl lw : matrices_kept lw lw.
Proof. by split. Qed.

Lemma wp_norm_layer nb qb lw owned w :
  norms_readable w nb qb lw ->
  wp (norm_layer nb qb lw owned) (fun r w' => let '(ok, lw', owned') := r in
    exists O, owned' = owned ++ O /\ grow w O w' /\ matrices_kept lw lw' /\
              (ok = true -> norms_moved w' nb qb lw lw')) w.
Proof.
  intros (R1 & R2 & R3 & R4). unfold norm_layer.
  destruct (rms_type lw =? 0); cbn [negb].
  2:{ apply wp_ret. exists []. rewrite app_nil_r. split; [done|]. split; [by apply grow_refl|]. by split; [apply kept_refl|]. }
  apply wp_bind, wp_copy_pair; [done|done| |].
  { intros w' G. apply wp_ret. exists []. rewrite app_nil_r. by split; [|split; [|split; [apply kept_refl|]]]. }
  intros a f p q w1 Ea Ef G1 M1 M2. set (lw1 := set_ptr RmsFfn q (set_ptr RmsAttn p lw)).
  assert (K1 : matrices_kept lw lw1) by (subst lw1; slots).
  assert (A1 : forall lw2 w2 O, grow w1 O w2 -> slot_ptr RmsAttn lw2 = Some p -> slot_ptr RmsFfn lw2 = Some q ->
    on_device w2 nb RmsAttn lw lw2 /\ on_device w2 nb RmsFfn lw lw2).
  { intros lw2 w2 O G E1 E2. split; [exists a, p|exists f, q]; eauto using mirrors_grow. }
  assert (P1 : slot_ptr RmsAttn lw1 = Some p) by (subst lw1; by autorewrite with slots).
  assert (P2 : slot_ptr RmsFfn lw1 = Some q) by (subst lw1; by autorewrite with slots).
  assert (Q1 : q_norm lw1 = q_norm lw) by by destruct lw.
  assert (Q2 : k_norm lw1 = k_norm lw) by by destruct lw.
  assert (Single : ~ both_qk lw -> norms_moved w1 nb qb lw lw1).
  { intros Hb. destruct (A1 lw1 w1 []); [by apply grow_refl|done|done|].
    split; [done|done|by intros ?|]. split; [apply K1|]. unfold both_qk. by rewrite Q1, Q2. }
  rewrite Q1, Q2. destruct (q_norm lw) as [qs|] eqn:Eq, (k_norm lw) as [ks|] eqn:Ek.
  2-4: apply wp_ret; exists [p; q]; split; [done|]; split; [done|]; split; [done|]; intros _; apply Single;
       unfold both_qk; rewrite Eq, Ek; by intros [[] []].
  destruct (qk_norm_type lw1 =? 0); cbn [negb].
  2:{ apply wp_ret. by exists [p; q]. }
  apply wp_bind, wp_copy_pair; [by eapply readable_grow..| |].
  { intros w2 G2. apply wp_ret. exists [p; q]. split; [done|]. split; [by apply (grow_trans _ [p; q] w1 [])|done]. }
  intros qs' ks' x y w2 [= <-] [= <-] G2 M3 M4. apply wp_ret. exists [p; q; x; y].
  split; [by rewrite <- app_assoc|]. split; [by apply (grow_trans _ [p; q] w1 [x; y])|].
  set (lw2 := set_ptr KNorm y (set_ptr QNorm x lw1)).
  split; [subst lw1 lw2; slots|]. intros _.
  destruct (A1 lw2 w2 [x; y] G2); [subst lw1 lw2; by autorewrite with slots..|].
  split; [done|done| |].
  - intros _. split; [exists qs, x|exists ks, y]; subst lw2; autorewrite with slots; cbn; done.
  - split; [subst lw1 lw2; by autorewrite with slots|]. intros _. unfold both_qk. rewrite Eq, Ek. by split.
Qed.

Lemma wp_norm_layers nb qb lws owned w :
  Forall (norms_readable w nb qb) lws ->
  wp (norm_layers nb qb lws owned) (fun r w' => let '(ok, lws', owned') := r in
    exists O, owned' = owned ++ O /\ grow w O w' /\ Forall2 matrices_kept lws lws' /\
              (ok = true -> Forall2 (norms_moved w' nb qb) lws lws')) w.
Proof.
  revert owned w. induction lws as [|lw lws IH]; intros owned w HR; cbn [norm_layers].
  { apply wp_ret. exists []. rewrite app_nil_r. split; [done|]. split; [by apply grow_refl|done]. }
  apply Forall_cons in HR as [HR HRs].
  assert (Keep : forall lws, Forall2 matrices_kept lws lws) by (intros l; by apply Forall_Forall2_diag, Forall_true, kept_refl).
  apply wp_bind. eapply wp_mono; [by apply wp_norm_layer|]. intros [[ok lw1] owned1] w1 (O1 & -> & G1 & K1 & N1).
  destruct ok.
  2:{ apply wp_ret. exists O1. split; [done|]. split; [done|]. by split; [constructor|]. }
  apply wp_bind. eapply wp_mono; [apply IH; eapply Forall_impl; [exact HRs|]; intros; by eapply norms_readable_grow|].
  intros [[ok lws2] owned2] w2 (O2 & -> & G2 & K2 & N2). apply wp_ret. exists (O1 ++ O2).
  split; [by rewrite app_assoc|]. split; [by eapply grow_trans|]. split; [by constructor|].
  intros Hok. constructor; [|by apply N2]. eapply norms_moved_grow; [exact G2|by apply N1].
Qed.

Definition weights_readable (w : World) (nb qb : Z) (mw : ModelWeights) : Prop :=
  Forall (norms_readable w nb qb) (layers mw) /\ readable w (output_norm mw) nb.

(** The fields of the embedding and of the output projection. *)
Definition ends (mw : ModelWeights) := (tok_embd mw, embd_type mw, output mw, output_type mw).

Record norms_done (w : World) (nb qb : Z) (mw mw' : ModelWeights) : Prop := {
  nd_layers : Forall2 (norms_moved w nb qb) (layers mw) (layers mw');
  nd_output : exists src p, output_norm mw = Some src /\ output_norm mw' = Some p /\ mirrors w p 0 src nb }.

Lemma wp_materialize_norm_weights mw hidden hd owned w :
  weights_readable w (float_bytes hidden) (float_bytes hd) mw ->
  wp (materialize_norm_weights mw hidden hd owned) (fun r w' => let '(ok, mw', owned') := r in
    exists O, owned' = owned ++ O /\ grow w O w' /\ Forall2 matrices_kept (layers mw) (layers mw') /\
              ends mw' = ends mw /\
              (ok = true -> norms_done w' (float_bytes hidden) (float_bytes hd) mw mw')) w.
Proof.
  intros [HR HO]. unfold materialize_norm_weights. set (nb := float_bytes hidden) in *. set (qb := float_bytes hd) in *.
  apply wp_bind. eapply wp_mono; [by apply wp_norm_layers|]. intros [[ok lws] owned1] w1 (O1 & -> & G1 & K1 & N1).
  assert (E1 : layers (set_layers lws mw) = lws) by by destruct mw.
  assert (E2 : ends (set_layers lws mw) = ends mw) by by destruct mw.
  assert (E3 : output_norm (set_layers lws mw) = output_norm mw) by by destruct mw.
  destruct ok.
  2:{ apply wp_ret. exists O1. by rewrite E1, E2. }
  apply wp_bind, wp_copy; rewrite ?E3; [by eapply readable_grow| |].
  { intros w2 G2. apply wp_ret. exists O1. rewrite E1, E2. split; [done|].
    split; [rewrite <- (app_nil_r O1); by eapply grow_trans|done]. }
  intros s p w2 Es Hp G2 M2. apply wp_ret. exists (O1 ++ [p]).
  assert (F1 : layers (set_output_norm p (set_layers lws mw)) = lws) by by destruct mw.
  assert (F2 : ends (set_output_norm p (set_layers lws mw)) = ends mw) by by destruct mw.
  rewrite F1, F2. split; [by rewrite app_assoc|]. split; [by eapply grow_trans|]. split; [done|]. split; [done|].
  intros _. split.
  - rewrite F1. eapply Forall2_impl; [by apply N1|]. intros. by eapply norms_moved_grow.
  - exists s, p. by destruct mw.
Qed.

(** ** A layer into its arena *)

Lemma kquant_tensor_bytes_range t r c : 0 <= kquant_tensor_bytes t r c < 2 ^ 64.
Proof. unfold kquant_tensor_bytes. destruct (_ || _); [lia|apply u64_range]. Qed.

Lemma align_up_size_ge n : 0 <= n < 2 ^ 63 -> n <= align_up_size n ARENA_ALIGN < n + 256 /\ align_up_size n ARENA_ALIGN mod 256 = 0.
Proof.
  intros Hn. unfold align_up_size, ARENA_ALIGN. pose proof (Z.div_mod (n + 256 - 1) 256 ltac:(lia)) as E.
  pose proof (Z.mod_pos_bound (n + 256 - 1) 256 ltac:(lia)). rewrite (u64_id (n + 256 - 1)) by lia.
  rewrite u64_id by lia. split; [lia|]. rewrite Z.mod_mul; lia.
Qed.

(** The tensors of a layer, readable where they are. *)
Definition specs_readable (w : World) (ss : list Spec) : Prop :=
  Forall (fun s => readable w (spec_src s) (spec_bytes s)) ss.

(** Placed tensors do not overlap, lie in the arena and start on its alignment. *)
Record placed_ok (lo hi : Z) (ps : list Placed) : Prop := {
  po_range : Forall (fun p => lo <= pl_off p /\ 0 < pl_size p /\ pl_off p + pl_size p <= hi) ps;
  po_apart : ForallOrdPairs (fun p q => pl_off p + pl_size p <= pl_off q) ps;
  po_aligned : Forall (fun p => pl_off p mod ARENA_ALIGN = 0) ps }.

Definition spec_small (s : Spec) : Prop := is_Some (spec_src s) -> spec_bytes s < 2 ^ 56.

Lemma place_spec ss lo ps hi :
  place ss lo = Some (ps, hi) -> lo mod 256 = 0 -> 0 <= lo ->
  Forall spec_small ss -> lo + zlen ss * 2 ^ 57 < 2 ^ 63 ->
  placed_ok lo hi ps /\ lo <= hi <= lo + zlen ss * 2 ^ 57 /\
  Forall2 (fun s p => spec_src s = Some (pl_src p) /\ pl_slot p = spec_slot s /\ pl_size p = spec_bytes s) ss ps.
Proof.
  revert lo ps hi. induction ss as [|s ss IH]; intros lo ps hi; cbn [place].
  { intros [= <- <-] _ _ _ _. split; [split; constructor|]. split; [change (zlen (@nil Spec)) with 0; lia|constructor]. }
  intros E Hm H0 HF Hs. apply Forall_cons in HF as [Hsm HF]. rewrite zlen_cons in *. pose proof (zlen_nonneg ss).
  destruct (spec_src s) as [src|] eqn:Esrc; [|done]. specialize (Hsm (ex_intro _ src Esrc)).
  destruct (Z.eqb_spec (spec_bytes s) 0) as [|Hn]; [done|].
  pose proof (kquant_tensor_bytes_range (spec_type s) (spec_rows s) (spec_cols s)) as Hb. fold (spec_bytes s) in Hb.
  destruct (align_up_size_ge (spec_bytes s)) as [Ha Ham]; [lia|]. rewrite (u64_id (lo + _)) in E by lia.
  destruct (place ss _) as [[ps' hi']|] eqn:Ep; [|done]. injection E as <- <-.
  destruct (IH _ _ _ Ep) as ([R A L] & Hh & F); [rewrite Z.add_mod, Hm, Ham; done|lia|done|lia|].
  split; [|split; [lia|by constructor]].
  split.
  - constructor; [cbn; lia|]. eapply Forall_impl; [exact R|]. cbn. intros p Hp. lia.
  - constructor; [|done]. eapply Forall_impl; [exact R|]. cbn. intros p Hp. lia.
  - by constructor.
Qed.

Lemma wp_copy_placed w0 arena ps d lo hi w Q :
  grow w0 [arena] w -> 0 < arena -> dev w !! arena = Some d -> zlen d = hi -> placed_ok lo hi ps -> 0 <= lo ->
  Forall (fun p => is_Some (host_read w0 (pl_src p) (pl_size p))) ps ->
  (forall w', grow w0 [] w' -> Q false w') ->
  (forall w' d', grow w0 [arena] w' -> dev w' !! arena = Some d' ->
     (forall o n, o + n <= lo -> peek_at d' o n = peek_at d o n) ->
     Forall (fun p => mirrors w' arena (pl_off p) (pl_src p) (pl_size p)) ps -> Q true w') ->
  wp (copy_placed arena ps) Q w.
Proof.
  intros G Ha. revert d lo w Q G. induction ps as [|p ps IH]; intros d lo w Q G Hd Hl HP Hlo HR H0 H1; cbn [copy_placed].
  { apply wp_ret. by apply (H1 w d). }
  destruct HP as [R A L]. apply Forall_cons in R as [Rp R], HR as [[bs Hbs] HR], L as [Lp L]. inversion A as [|? ? Ap A']; subst.
  pose proof (host_read_length _ _ _ _ Hbs) as Hbl.
  apply wp_bind, (wp_memcpy _ _ _ _ _ d bs); [done|by rewrite (grow_host _ _ _ _ _ G)|lia|lia| |].
  - intros d1 w1 Ed Er Hpk. pose proof (poke_at_length _ _ _ _ Hpk) as Hl1.
    assert (G1 : grow w0 [arena] w1) by (eapply grow_write; [exact G|by left|exact Hd|done|done|done]).
    apply (IH d1 (pl_off p + pl_size p)); [done|by rewrite Ed, lookup_insert_eq|done| |lia|done|done|].
    + split; [|done|done]. apply Forall_and. split; [|eapply Forall_impl; [exact R|]; cbn; lia].
      eapply Forall_impl; [exact Ap|]. done.
    + intros w2 d2 G2 Hd2 Same M2. apply (H1 w2 d2); [done|done| |constructor; [|done]].
      * intros o n Ho. rewrite Same by lia. eapply peek_poke_disjoint; [exact Hpk|]. lia.
      * exists d2, bs. split; [done|]. rewrite (grow_host _ _ _ _ _ G2). split; [|done].
        rewrite Same by lia. rewrite <- Hbl. by eapply peek_poke_same.
  - intros d1 w1 Ed Er Hl1. apply wp_bind, (wp_free w0); [done| |].
    + eapply grow_write; [exact G|by left|exact Hd|done|done|done].
    + intros w2 G2. by apply wp_ret, H0.
Qed.

Lemma set_placed_other arena ps lw s :
  s ∉ pl_slot <$> ps -> slot_ptr s (foldl (set_placed arena) lw ps) = slot_ptr s lw.
Proof.
  revert lw. induction ps as [|p ps IH]; intros lw; [done|]. cbn. intros [Hs Hn]%not_elem_of_cons.
  rewrite IH by done. unfold set_placed. by rewrite slot_ptr_set, decide_False.
Qed.

Lemma set_placed_slot arena ps lw p :
  NoDup (pl_slot <$> ps) -> p ∈ ps -> slot_ptr (pl_slot p) (foldl (set_placed arena) lw ps) = Some (arena + pl_off p).
Proof.
  revert lw. induction ps as [|q ps IH]; intros lw Hn Hp; [by apply elem_of_nil in Hp|]. cbn in *.
  apply NoDup_cons in Hn as [Hq Hn]. apply elem_of_cons in Hp as [->|Hp]; [|by apply IH].
  rewrite set_placed_other by done. unfold set_placed. by rewrite slot_ptr_set, decide_True.
Qed.

Lemma set_placed_types arena ps lw : types (foldl (set_placed arena) lw ps) = types lw.
Proof. revert lw. induction ps as [|p ps IH]; intros lw; [done|]. cbn. rewrite IH. apply types_set. Qed.

(** The matrices of a layer are inside device blocks. *)
Definition matrices_moved (w : World) (cfg : ModelConfig) (lw lw' : LayerWeights) : Prop :=
  forall s, s ∈ specs lw cfg -> exists src p off,
    spec_src s = Some src /\ slot_ptr (spec_slot s) lw' = Some (p + off) /\
    0 < spec_bytes s /\ mirrors w p off src (spec_bytes s).

Lemma matrices_moved_grow w O w' cfg lw lw' : grow w O w' -> matrices_moved w cfg lw lw' -> matrices_moved w' cfg lw lw'.
Proof. intros G H s Hs. destruct (H s Hs) as (src & p & off & ? & ? & ? & ?). exists src, p, off. by eauto using mirrors_grow. Qed.

(** What the copy of the matrices does not touch. *)
Definition norms_kept (lw lw' : LayerWeights) : Prop :=
  types lw' = types lw /\ forall s, s ∉ quant_slots -> slot_ptr s lw' = slot_ptr s lw.

Definition matrices_readable (w : World) (cfg : ModelConfig) (lw : LayerWeights) : Prop :=
  Forall (fun s => readable w (spec_src s) (spec_bytes s) /\ spec_small s) (specs lw cfg).

Lemma matrices_readable_grow w O w' cfg lw : grow w O w' -> matrices_readable w cfg lw -> matrices_readable w' cfg lw.
Proof. intros G H. eapply Forall_impl; [exact H|]. intros s [? ?]. split; [by eapply readable_grow|done]. Qed.

Lemma wp_copy_layer lw cfg owned w :
  matrices_readable w cfg lw ->
  wp (copy_layer_quant_weights_to_device lw cfg owned) (fun r w' => let '(ok, lw', owned') := r in
    exists O, owned' = owned ++ O /\ grow w O w' /\ norms_kept lw lw' /\
      if ok then matrices_moved w' cfg lw lw' else lw' = lw /\ O = []) w.
Proof.
  intros HR. unfold copy_layer_quant_weights_to_device.
  assert (Stop : forall w', grow w [] w' -> exists O, owned = owned ++ O /\ grow w O w' /\ norms_kept lw lw /\ lw = lw /\ O = []).
  { intros w' G. exists []. by rewrite app_nil_r. }
  destruct (place (specs lw cfg) 0) as [[ps total]|] eqn:Ep; [|by apply wp_ret, Stop, grow_refl].
  destruct (place_spec _ _ _ _ Ep) as (HP & Ht & F); [done|lia|by eapply Forall_impl; [exact HR|]; intros ? []|done|].
  assert (Hpos : 0 < total).
  { destruct HP as [R _ _]. inversion F as [|? p ? ps' ? ? Es Eps]; subst. apply Forall_cons in R as [? _]. lia. }
  assert (Hslots : pl_slot <$> ps = quant_slots).
  { assert (E : pl_slot <$> ps = spec_slot <$> specs lw cfg); [|by rewrite E].
    clear -F. induction F as [|s p ss ps (_ & E & _) F IH]; [done|]. cbn. by rewrite E, IH. }
  apply wp_bind, wp_malloc; [lia|intros w' G; by apply wp_ret, Stop|]. intros arena w1 G1 (d & Hd & Hdl) Ha.
  apply wp_bind, (wp_copy_placed w arena ps d 0 total); [done|done|done|done|done|lia| | |].
  - rewrite Forall_forall. intros p Hp. apply list_elem_of_lookup in Hp as [i Hi].
    destruct (Forall2_lookup_r _ _ _ _ _ F Hi) as (s & Hs & Es & _ & Eb). rewrite Eb.
    unfold matrices_readable in HR. rewrite Forall_lookup in HR. by apply (HR i s Hs).
  - intros w2 G2. by apply wp_ret, Stop.
  - intros w2 d2 G2 Hd2 _ M2. apply wp_ret. exists [arena]. split; [done|]. split; [done|]. split.
    + split; [apply set_placed_types|]. intros s Hs. apply set_placed_other. by rewrite Hslots.
    + intros s [i Hs]%list_elem_of_lookup. destruct (Forall2_lookup_l _ _ _ _ _ F Hs) as (p & Hp & Es & Esl & Eb).
      exists (pl_src p), arena, (pl_off p). rewrite Es, <- Esl, <- Eb. split; [done|].
      pose proof (list_elem_of_lookup_2 _ _ _ Hp) as Hin. split.
      * apply set_placed_slot; [rewrite Hslots; by apply NoDup_ListNoDup; repeat constructor; set_solver|done].
      * destruct HP as [R _ _]. rewrite Forall_forall in R, M2. split; [by apply R|by apply M2].
Qed.

(** ** The layers *)

Lemma norms_kept_refl lw : norms_kept lw lw.
Proof. by split. Qed.

(** The first [k] layers have been moved, the others are as they were. *)
Definition first_moved (w : World) (cfg : ModelConfig) (k : nat) (lws lws' : list LayerWeights) : Prop :=
  Forall2 (matrices_moved w cfg) (take k lws) (take k lws') /\ drop k lws' = drop k lws.

Lemma wp_copy_layers cfg lws free owned total copied w :
  Forall (matrices_readable w cfg) lws ->
  wp (copy_layers cfg lws free owned total copied) (fun r w' => let '(lws', owned', _, copied') := r in
    exists O k, owned' = owned ++ O /\ grow w O w' /\ Forall2 norms_kept lws lws' /\
      copied' = copied + Z.of_nat k /\ (k <= length lws)%nat /\ first_moved w' cfg k lws lws') w.
Proof.
  revert free owned total copied w. induction lws as [|lw lws IH]; intros free owned total copied w HR; cbn [copy_layers].
  { apply wp_ret. exists [], 0%nat. rewrite app_nil_r. split; [done|]. split; [by apply grow_refl|].
    split; [done|]. split; [lia|]. split; [cbn; lia|]. by split. }
  apply Forall_cons in HR as [HR HRs].
  assert (Stop : forall w', grow w [] w' -> exists O k, owned = owned ++ O /\ grow w O w' /\
    Forall2 norms_kept (lw :: lws) (lw :: lws) /\ copied = copied + Z.of_nat k /\ (k <= length (lw :: lws))%nat /\
    first_moved w' cfg k (lw :: lws) (lw :: lws)).
  { intros w' G. exists [], 0%nat. rewrite app_nil_r. split; [done|]. split; [done|].
    split; [by apply Forall_Forall2_diag, Forall_true, norms_kept_refl|]. split; [lia|]. split; [lia|]. by split. }
  assert (Stop0 := Stop w ltac:(by apply grow_refl)).
  destruct (_ =? 0); [by apply wp_ret|]. destruct (_ <? _); [by apply wp_ret|].
  apply wp_bind. eapply wp_mono; [by apply wp_copy_layer|]. intros [[ok lw1] owned1] w1 (O1 & -> & G1 & K1 & N1).
  destruct ok; [|destruct N1 as [-> ->]; by apply wp_ret, Stop].
  apply wp_bind. eapply wp_mono; [apply IH; eapply Forall_impl; [exact HRs|]; intros; by eapply matrices_readable_grow|].
  intros [[[lws2 owned2] t2] c2] w2 (O2 & k & -> & G2 & K2 & -> & Hk & F & D). apply wp_ret. exists (O1 ++ O2), (S k).
  split; [by rewrite app_assoc|]. split; [by eapply grow_trans|]. split; [by constructor|]. split; [lia|].
  split; [cbn; lia|]. split; [|done]. cbn. constructor; [by eapply matrices_moved_grow|done].
Qed.

(** [None] is a failure; otherwise each layer is moved or left, and with
    unmapped weights all are moved, unless the copy was switched off. *)
Definition layers_done (w : World) (e : env) (cfg : ModelConfig) (res : option Z) (lws lws' : list LayerWeights) : Prop :=
  Forall2 (fun lw lw' => matrices_moved w cfg lw lw' \/ lw' = lw) lws lws' /\
  (res <> None -> mapped_weight_device_enabled e = false -> fast_gemv_enabled_for_device_weights e = true ->
   device_layer_limit e <> 0 -> Forall2 (matrices_moved w cfg) lws lws').

Lemma Forall2_left {A} (R : A -> A -> Prop) l : Forall2 (fun x y => R x y \/ y = x) l l.
Proof. induction l; constructor; auto. Qed.

Lemma wp_materialize_layer_weights e mw cfg budget owned w :
  Forall (matrices_readable w cfg) (layers mw) ->
  wp (materialize_layer_weights e mw cfg budget owned) (fun r w' => let '(res, mw', owned') := r in
    exists O, owned' = owned ++ O /\ grow w O w' /\ Forall2 norms_kept (layers mw) (layers mw') /\
      ends mw' = ends mw /\ output_norm mw' = output_norm mw /\
      layers_done w' e cfg res (layers mw) (layers mw')) w.
Proof.
  intros HR. unfold materialize_layer_weights.
  assert (Stop : forall res, (res <> None -> mapped_weight_device_enabled e = false ->
      fast_gemv_enabled_for_device_weights e = true -> device_layer_limit e <> 0 -> layers mw = []) ->
    exists O, owned = owned ++ O /\ grow w O w /\ Forall2 norms_kept (layers mw) (layers mw) /\
      ends mw = ends mw /\ output_norm mw = output_norm mw /\ layers_done w e cfg res (layers mw) (layers mw)).
  { intros res H. exists []. rewrite app_nil_r. split; [done|]. split; [by apply grow_refl|].
    split; [by apply Forall_Forall2_diag, Forall_true, norms_kept_refl|]. split; [done|]. split; [done|].
    split; [apply Forall2_left|]. intros H1 H2 H3 H4. by rewrite H. }
  destruct (fast_gemv_enabled_for_device_weights e) eqn:Eg; cbn [negb]; [|by apply wp_ret, Stop].
  destruct (Z.eqb_spec (device_layer_limit e) 0) as [|Hl]; [by apply wp_ret, Stop|].
  set (cap := if device_layer_limit e <? 0 then _ else _).
  destruct (negb (mapped_weight_device_enabled e) && (cap <? zlen (layers mw))) eqn:Ec; [by apply wp_ret, Stop|].
  apply wp_bind. eapply wp_mono; [apply wp_copy_layers; by apply Forall_take|].
  intros [[[lws own] total] copied] w1 (O & k & -> & G & K & -> & Hk & F & D).
  set (c := Z.to_nat cap) in *. set (mw' := set_layers (lws ++ drop c (layers mw)) mw).
  assert (E1 : layers mw' = lws ++ drop c (layers mw)) by by destruct mw.
  assert (E2 : ends mw' = ends mw) by by destruct mw.
  assert (E3 : output_norm mw' = output_norm mw) by by destruct mw.
  assert (Common : exists O', owned ++ O = owned ++ O' /\ grow w O' w1 /\ Forall2 norms_kept (layers mw) (layers mw') /\
    ends mw' = ends mw /\ output_norm mw' = output_norm mw /\
    Forall2 (fun lw lw' => matrices_moved w1 cfg lw lw' \/ lw' = lw) (layers mw) (layers mw')).
  { exists O. rewrite E1. split; [done|]. split; [done|]. rewrite <- (take_drop c (layers mw)) at 1 3.
    split; [apply Forall2_app; [done|apply Forall_Forall2_diag, Forall_true, norms_kept_refl]|].
    split; [done|]. split; [done|]. apply Forall2_app; [|apply Forall2_left].
    rewrite <- (take_drop k (take c (layers mw))), <- (take_drop k lws), D. apply Forall2_app; [|apply Forall2_left].
    eapply Forall2_impl; [exact F|]. by left. }
  destruct Common as (O' & C1 & C2 & C3 & C4 & C5 & C6).
  destruct (negb (mapped_weight_device_enabled e) && (0 + Z.of_nat k <? zlen (layers mw))) eqn:Ek;
    apply wp_ret; exists O'; do 5 (split; [done|]); split; [done|done|done|].
  intros _ Hm _ _. rewrite Hm in Ek. cbn in Ek. apply Z.ltb_ge in Ek.
  assert (Hlen : (k = length (layers mw))%nat) by (rewrite length_take in Hk; unfold zlen in Ek; lia).
  assert (Hc : (length (layers mw) <= c)%nat) by (rewrite length_take in Hk; lia).
  rewrite E1, drop_ge, app_nil_r by lia. rewrite !take_ge in F by (rewrite <- ?(Forall2_length _ _ _ K), ?length_take; lia).
  done.
Qed.

(** ** Part of the file for the device *)

Lemma page_floor_spec p : 0 <= p -> page_floor p = p / rt_page_size * rt_page_size /\ 0 < rt_page_size.
Proof.
  intros Hp. destruct rt_page as (k & Hk & E). unfold page_floor. rewrite E. split; [|lia].
  replace (2 ^ k - 1) with (Z.ones k) by (rewrite Z.ones_equiv; lia).
  rewrite <- Z.ldiff_land, Z.ldiff_ones_r by lia. by rewrite Z.shiftl_mul_pow2, Z.shiftr_div_pow2 by lia.
Qed.

(** A range of the host has been registered and is the region of kernels. *)
Record region_made (w : World) (b m : Z) (w' : World) : Prop := {
  rm_dev : dev w' = dev w;
  rm_fresh : registered w !! b = None;
  rm_registered : registered w' = <[b := m]> (registered w);
  rm_region : exists d, 0 < d /\ g_region w' = mkRegion b d m;
  rm_rest : (maps w', pools w', pinned w', handles w', bad w') = (maps w, pools w, pinned w, handles w, bad w) }.

Lemma wp_map_range ptr n w Q :
  (forall p, ptr = Some p -> 0 < p /\ 0 <= n /\ p + n + rt_page_size < 2 ^ 64) ->
  (forall w', grow w [] w' -> Q None w') ->
  (forall p b m w', ptr = Some p -> 0 < n -> region_made w b m w' -> b <= p -> p + n <= b + m ->
     b = p / rt_page_size * rt_page_size -> b + m = (p + n + rt_page_size - 1) / rt_page_size * rt_page_size ->
     Q (Some (b, m)) w') ->
  wp (map_host_weight_range_for_gpu ptr n) Q w.
Proof.
  intros Hp H0 H1. unfold map_host_weight_range_for_gpu.
  destruct ptr as [p|]; [|by apply wp_ret, H0, grow_refl]. destruct (Hp p eq_refl) as (Hp0 & Hn0 & Hp64).
  destruct (Z.eqb_spec n 0) as [|Hn]; [by apply wp_ret, H0, grow_refl|].
  destruct (rt_page_size <=? 0); [by apply wp_ret, H0, grow_refl|].
  destruct (page_floor_spec p) as [Eb Hps]; [lia|]. rewrite (u64_id (p + n + _ - 1)) by lia.
  destruct (page_floor_spec (p + n + rt_page_size - 1)) as [Ee _]; [lia|].
  set (b := page_floor p) in *. set (e := page_floor (p + n + rt_page_size - 1)) in *.
  assert (Floor : forall x, 0 <= x - x / rt_page_size * rt_page_size < rt_page_size).
  { intros x. pose proof (Z.mod_pos_bound x rt_page_size Hps). rewrite Z.mod_eq in * by lia. lia. }
  pose proof (Floor p) as F1. pose proof (Floor (p + n + rt_page_size - 1)) as F2. rewrite <- Eb in F1. rewrite <- Ee in F2.
  clearbody b e. destruct (e <=? b); [by apply wp_ret, H0, grow_refl|].
  apply wp_bind. unfold wp at 1, cudaHostRegister. destruct (rt_register w b (e - b)) eqn:Er; cbn [fst snd negb].
  2:{ apply wp_ret, H0. by apply grow_refl. }
  pose proof (rt_register_fresh _ _ _ Er) as Hf. set (w1 := set_registered _ w).
  apply wp_bind. unfold wp at 1, cudaHostGetDevicePointer. cbn [fst snd].
  destruct (Z.eqb_spec (match rt_device_pointer w1 b with Some d => d | None => 0 end) 0) as [|Hd0].
  - apply wp_bind. unfold wp at 1, cudaHostUnregister. cbn. rewrite lookup_insert_eq. cbn. apply wp_ret, H0, grow_refl; [done|].
    unfold rest. cbn. by rewrite delete_insert_id.
  - destruct (rt_device_pointer w1 b) as [d|] eqn:Ed; [|done]. pose proof (rt_device_pointer_pos _ _ _ Ed). apply wp_bind. unfold wp at 1, register_region. cbn [fst snd default].
    apply wp_ret. apply (H1 p); [done|lia| |lia|lia|lia|lia].
    split; [done|done|done|exists d; split; [lia|done]|done].
Qed.

(** ** The output projection *)

Lemma grow_nil_dev w w' : grow w [] w' -> dev w' = dev w.
Proof. intros G. apply map_eq. intros p. apply (grow_old _ _ _ G). by intros ?%not_elem_of_nil. Qed.

Lemma region_made_after w w1 b m w2 : grow w [] w1 -> region_made w1 b m w2 -> region_made w b m w2.
Proof.
  intros G [D F R Rg Rs]. pose proof (grow_nil_dev _ _ G) as Hd. pose proof (grow_rest _ _ _ G) as Hr. unfold rest in Hr.
  simplify_eq. split; congruence || done.
Qed.

Definition output_copied (e : env) (p : Z) (mw : ModelWeights) : ModelWeights :=
  let mw' := set_output p mw in
  if bool_decide (output mw = tok_embd mw) && fast_embedding_enabled e then set_embedding p mw' else mw'.

(** The output projection stays where it is, becomes part of a registered
    range, or is copied. *)
Inductive output_result (e : env) (w : World) (mw : ModelWeights) (n : Z) (owned : list Z) (mapped : Z * Z) :
  Z * ModelWeights * list Z * (Z * Z) -> World -> Prop :=
| output_left w' : grow w [] w' -> output_result e w mw n owned mapped (0, mw, owned, mapped) w'
| output_mapped p b m w' :
    output mw = Some p -> 0 < n -> region_made w b m w' -> b <= p -> p + n <= b + m ->
    b = p / rt_page_size * rt_page_size -> b + m = (p + n + rt_page_size - 1) / rt_page_size * rt_page_size ->
    mapped_weight_device_enabled e = false -> fast_gemv_enabled_for_device_weights e = true ->
    output_result e w mw n owned mapped (n, mw, owned, (b, m)) w'
| output_moved s p w' :
    output mw = Some s -> 0 < n -> grow w [p] w' -> mirrors w' p 0 s n ->
    fast_gemv_enabled_for_device_weights e = true ->
    output_result e w mw n owned mapped (n, output_copied e p mw, owned ++ [p], mapped) w'.

Lemma output_after e w w1 mw n owned mapped r w2 :
  grow w [] w1 -> output_result e w1 mw n owned mapped r w2 -> output_result e w mw n owned mapped r w2.
Proof.
  intros G H. inversion H; subst.
  - apply output_left. by apply (grow_trans _ [] w1 []).
  - eapply output_mapped; try done. by eapply region_made_after.
  - eapply output_moved; try done. by apply (grow_trans _ [] w1 [p]).
Qed.

Definition output_bytes (mw : ModelWeights) (cfg : ModelConfig) : Z :=
  kquant_tensor_bytes (output_type mw) (vocab_size cfg) (hidden_dim cfg).

Lemma wp_materialize_output_weight e want mw cfg budget owned mapped w :
  let n := output_bytes mw cfg in
  (forall p, output mw = Some p -> 0 < p /\ is_Some (host_read w p n) /\ p + n + rt_page_size < 2 ^ 64) ->
  (want = true -> mapped_weight_device_enabled e = false) ->
  wp (materialize_output_weight e want mw cfg budget owned mapped)
     (output_result e w mw n owned mapped) w.
Proof.
  intros n Hp Hw. unfold materialize_output_weight. fold (output_bytes mw cfg). fold n.
  assert (Hn : 0 <= n) by apply kquant_tensor_bytes_range.
  assert (Left : forall w', grow w [] w' -> output_result e w mw n owned mapped (0, mw, owned, mapped) w')
    by (intros; by apply output_left).
  destruct (_ || _ || _) eqn:Eg; [by apply wp_ret, Left, grow_refl|].
  apply orb_false_iff in Eg as [[_ Hg%negb_false_iff]%orb_false_iff Eo%bool_decide_eq_false]. destruct (output mw) as [src|] eqn:Esrc; [|done].
  destruct (Hp src eq_refl) as (Hs & [bs Hbs] & H64).
  destruct (Z.eqb_spec n 0) as [|Hn0]; [by apply wp_ret, Left, grow_refl|].
  (* the mapping, tried from a state that has gained nothing *)
  assert (Map : forall (c : bool) (f : option (Z * Z) -> M (Z * ModelWeights * list Z * (Z * Z))) w1, grow w [] w1 ->
    (c = true -> mapped_weight_device_enabled e = false) ->
    (forall w2, grow w [] w2 -> wp (f None) (output_result e w mw n owned mapped) w2) ->
    (forall m, f (Some m) = mret (n, mw, owned, m)) ->
    wp ((if c then if want then map_host_weight_range_for_gpu (Some src) n else mret None else mret None) ≫= f)
       (output_result e w mw n owned mapped) w1).
  { intros c f w1 G1 Hc HN HS. apply wp_bind. destruct c; [destruct want|]; [|by apply wp_ret, HN..].
    apply wp_map_range.
    - intros p [= <-]. split; [done|]. split; [lia|lia].
    - intros w2 G2. apply HN. by apply (grow_trans _ [] w1 []).
    - intros p b m w2 [= <-] Hpos RM. intros. rewrite HS. apply wp_ret. eapply output_mapped; try done; [|by apply Hc].
      by eapply region_made_after. }
  apply Map; [by apply grow_refl| | |done].
  { destruct (mapped_weight_device_enabled e); [|done]. done. }
  intros w1 G1.
  destruct (Budget.free_mb budget <? _).
  { apply Map; [done|by destruct (mapped_weight_device_enabled e)| |done]. intros w2 G2. by apply wp_ret, Left. }
  apply wp_bind, wp_malloc; [lia| |].
  { intros w2 G2. apply Map; [by apply (grow_trans _ [] w1 [])|by destruct (mapped_weight_device_enabled e)| |done].
    intros w3 G3. by apply wp_ret, Left. }
  intros p w2 G2 (d & Hd & Hl) Hpos. pose proof (grow_trans _ _ _ _ _ G1 G2) as G. cbn in G.
  apply wp_bind, (wp_memcpy _ _ _ _ _ d bs); [done|by rewrite (grow_host _ _ _ _ _ G)|done|lia| |].
  - intros d' w3 Ed Er Hpk. apply wp_ret. cbn [negb].
    assert (G3 : grow w [p] w3) by (eapply grow_write; [exact G|by left|exact Hd|by eapply poke_at_length|done|done]).
    rewrite <- Esrc. apply (output_moved e w mw n owned mapped src p w3); [done|lia|done| |done].
    exists d', bs. split; [by rewrite Ed, lookup_insert_eq|]. rewrite (grow_host _ _ _ _ _ G3). split; [|done].
    rewrite <- (host_read_length _ _ _ _ Hbs). by eapply peek_poke_same.
  - intros d' w3 Ed Er Hl'. cbn [negb]. apply wp_bind, (wp_free w); [done| |intros w4 G4; by apply wp_ret, Left].
    eapply grow_write; [exact G|by left|exact Hd|done|done|done].
Qed.

End Copies.

End Weights.
