(* ===== verification/Engine.v ===== *)
(** * Engine: loading and unloading a model ([Engine::load], [Engine::unload] of
      [src/engine/decode.cu], [load_gguf_weights] of [src/engine/model.cpp])

    The fields of [Engine] that own resources or size them, and the two
    operations that acquire and release everything.  The loaders, the budget,
    the KV pool, the scratch pool and the tokenizer are those of their own
    files. *)

From S2P Require Import Prelude CLib Cuda Budget KVCache ScratchPool KVFile Tokenizer Gguf ModelFile TokenizerFile Weights.

Module Engine.
Import Gguf ModelFile Weights.

Record Engine := mkEngine {
  loaded_ : bool;
  config_ : ModelConfig;
  budget_ : Budget.MemoryBudget;
  kv_cache_ : KVCache.t;
  scratch_ : ScratchPool.t;
  gguf_path_ : bytes;
  model_fingerprint_ : bytes;
  weights_ : Z;
  weights_size_ : Z;
  mapped_output_ : Z * Z;             (* host base and bytes *)
  model_weights_ : ModelWeights;
  device_weight_copies_ : list Z;
  tokenizer_ : Tokenizer.t;
  stream_ : Z;
  decode_graph_ : Z;
  decode_graph_exec_ : Z;
  graph_captured_ : bool;
  host_logits_ : Z;
  host_logits_capacity_ : Z }.

(** The two fields of [GenParams] that loading reads. *)
Record LoadParams := mkLoad { kv_int8 : bool; context_limit : Z }.

(** A constructed engine: every handle is null. *)
Definition empty_budget : Budget.MemoryBudget := Budget.mkBudget 0 0 0 0 0 0 0 0.
Definition constructed : Engine :=
  mkEngine false (config_init []) empty_budget KVCache.fresh ScratchPool.empty [] (replicate 32 Byte.x00)
    0 0 (0, 0) (fresh_weights 0) [] TokenizerFile.default_tokenizer 0 0 0 false 0 0.

(** ** Field updates *)

Definition with_start (c : ModelConfig) (b : Budget.MemoryBudget) (path fp : bytes) (e : Engine) : Engine :=
  mkEngine (loaded_ e) c b (kv_cache_ e) (scratch_ e) path fp (weights_ e) (weights_size_ e) (mapped_output_ e)
    (model_weights_ e) (device_weight_copies_ e) (tokenizer_ e) (stream_ e) (decode_graph_ e) (decode_graph_exec_ e)
    (graph_captured_ e) (host_logits_ e) (host_logits_capacity_ e).
Definition with_mapping (base size : Z) (mw : ModelWeights) (e : Engine) : Engine :=
  mkEngine (loaded_ e) (config_ e) (budget_ e) (kv_cache_ e) (scratch_ e) (gguf_path_ e) (model_fingerprint_ e)
    base size (mapped_output_ e) mw (device_weight_copies_ e) (tokenizer_ e) (stream_ e) (decode_graph_ e)
    (decode_graph_exec_ e) (graph_captured_ e) (host_logits_ e) (host_logits_capacity_ e).
Definition with_weights (mw : ModelWeights) (owned : list Z) (mapped : Z * Z) (e : Engine) : Engine :=
  mkEngine (loaded_ e) (config_ e) (budget_ e) (kv_cache_ e) (scratch_ e) (gguf_path_ e) (model_fingerprint_ e)
    (weights_ e) (weights_size_ e) mapped mw owned (tokenizer_ e) (stream_ e) (decode_graph_ e)
    (decode_graph_exec_ e) (graph_captured_ e) (host_logits_ e) (host_logits_capacity_ e).
Definition with_budget (b : Budget.MemoryBudget) (e : Engine) : Engine :=
  with_start (config_ e) b (gguf_path_ e) (model_fingerprint_ e) e.
Definition with_pools (kv : KVCache.t) (sc : ScratchPool.t) (e : Engine) : Engine :=
  mkEngine (loaded_ e) (config_ e) (budget_ e) kv sc (gguf_path_ e) (model_fingerprint_ e)
    (weights_ e) (weights_size_ e) (mapped_output_ e) (model_weights_ e) (device_weight_copies_ e) (tokenizer_ e)
    (stream_ e) (decode_graph_ e) (decode_graph_exec_ e) (graph_captured_ e) (host_logits_ e) (host_logits_capacity_ e).
Definition with_run (loaded : bool) (tk : Tokenizer.t) (stream logits capacity : Z) (e : Engine) : Engine :=
  mkEngine loaded (config_ e) (budget_ e) (kv_cache_ e) (scratch_ e) (gguf_path_ e) (model_fingerprint_ e)
    (weights_ e) (weights_size_ e) (mapped_output_ e) (model_weights_ e) (device_weight_copies_ e) tk
    stream (decode_graph_ e) (decode_graph_exec_ e) (graph_captured_ e) logits capacity.

Definition set_model_mb (x : Z) (b : Budget.MemoryBudget) : Budget.MemoryBudget :=
  let '(Budget.mkBudget t o c x0 _ k s f) := b in Budget.mkBudget t o c x0 x k s f.
Definition set_kv_cache_mb (x : Z) (b : Budget.MemoryBudget) : Budget.MemoryBudget :=
  let '(Budget.mkBudget t o c x0 m _ s f) := b in Budget.mkBudget t o c x0 m x s f.
Definition set_scratch_mb (x : Z) (b : Budget.MemoryBudget) : Budget.MemoryBudget :=
  let '(Budget.mkBudget t o c x0 m k _ f) := b in Budget.mkBudget t o c x0 m k x f.
Definition add_model_mb (n : Z) (b : Budget.MemoryBudget) : Budget.MemoryBudget :=
  set_model_mb (i64 (Budget.model_mb b + n / (1024 * 1024))) b.

(** ** Sizing *)

Definition kv_overflow_context (e : env) (ctx : Z) : Z :=
  match e (str "JLLM_KV_OVERFLOW") with
  | None => 0
  | Some v =>
      if bool_decide (v = str "0") then 0
      else if bool_decide (v = str "1") then Z.quot ctx 4
      else let requested := atoi v in if requested <? 0 then 0 else requested
  end.

Definition kv_bytes (p : LoadParams) : Z := if kv_int8 p then 1 else 2.

Definition choose_context (b : Budget.MemoryBudget) (cfg : ModelConfig) (p : LoadParams) : Z :=
  let auto_ctx := Budget.max_context b (n_layers cfg) (n_kv_heads cfg) (head_dim cfg) (kv_bytes p) in
  let DEFAULT_AUTO_CONTEXT_CAP := if 128 <=? head_dim cfg then 4096 else 8192 in
  if 0 <? context_limit p then Z.min (Z.min (context_limit p) (max_seq_len cfg)) auto_ctx
  else Z.min (Z.min auto_ctx (max_seq_len cfg)) DEFAULT_AUTO_CONTEXT_CAP.

Definition kv_config (e : env) (cfg : ModelConfig) (ctx kvb : Z) : KVCache.Config :=
  KVCache.mkConfig (n_layers cfg) (n_kv_heads cfg) (head_dim cfg) ctx (kv_overflow_context e ctx) kvb.

(** The sum of the buffers, at least 64 MB, rounded up to pages of 4 KB. *)
Definition scratch_size (cfg : ModelConfig) : Z :=
  let q_dim := i32 (n_heads cfg * head_dim cfg) in
  let kv_dim := i32 (n_kv_heads cfg * head_dim cfg) in
  let s := i64 (u64 (hidden_dim cfg) * 2 * 8) in
  let s := i64 (s + u64 q_dim * 2 * 2) in
  let s := i64 (s + u64 kv_dim * 2 * 2) in
  let s := i64 (s + u64 (intermediate_dim cfg) * 2 * 4) in
  let s := i64 (s + u64 (vocab_size cfg) * 4) in
  let s := Z.max s (64 * 1024 * 1024) in
  Z.land (i64 (s + 4095)) (Z.lnot 4095).

Section Load.
Context `{rt : Runtime}.
Context (kv_alloc : World -> KVCache.Alloc) (rd : KVFile.Reader)
        (sort_by_size : list (bytes * Z) -> list (bytes * Z)).
Context (e : env).

(** ** The mapping *)

(** [load_gguf_weights]: the size of the file if it opens, and the mapping. *)
Definition load_gguf_weights (file : option bytes) : M (option Z * option Z) :=
  match file with
  | None => mret (None, None)
  | Some f =>
      let size := zlen f in
      m ← mmap f;
      match m with
      | None => mret (Some size, None)
      | Some base =>
          if negb (mapped_weight_device_enabled e) then mret (Some size, Some base)
          else
            ok ← cudaHostRegister base size;
            if negb ok then mret (Some size, Some base)
            else
              d ← cudaHostGetDevicePointer base;
              if (match d with Some d => d | None => 0 end) =? 0 then mret (Some size, Some base)
              else
                _ ← register_region base (default 0 d) size;
                mret (Some size, Some base)
      end
  end.

(** Offsets in the file become addresses in the mapping. *)
Definition rebase_layer (base : Z) (lw : LayerWeights) : LayerWeights :=
  let at_ (p : option Z) := Z.add base <$> p in
  let '(mkLayer q k v o g u d ra rf qn kn tq tk tv to tg tu td rt nt) := lw in
  mkLayer (at_ q) (at_ k) (at_ v) (at_ o) (at_ g) (at_ u) (at_ d) (at_ ra) (at_ rf) (at_ qn) (at_ kn)
    tq tk tv to tg tu td rt nt.

Definition rebase (base : Z) (mw : ModelWeights) : ModelWeights :=
  let at_ (p : option Z) := Z.add base <$> p in
  let '(mkWeights te on et out ot ls) := mw in
  mkWeights (at_ te) (at_ on) et (at_ out) ot (rebase_layer base <$> ls).

(** [load_and_map_weights] on the engine's fields; [None]: a read past the end
    of the file. *)
Definition map_model (file : option bytes) (eng : Engine) : M (option (bool * Engine)) :=
  match parse_tensor_infos file with
  | None => mret None
  | Some (data_offset, _) =>
      if data_offset <? 0 then mret (Some (false, eng))
      else
        r ← load_gguf_weights file;
        let size := default (weights_size_ eng) (fst r) in
        match snd r with
        | None => mret (Some (false, with_mapping (weights_ eng) size (model_weights_ eng) eng))
        | Some base =>
            match load_and_map_weights file true (n_layers (config_ eng)) with
            | None => mret None
            | Some (ok, mw) => mret (Some (ok, with_mapping base size (rebase base mw) eng))
            end
        end
  end.

(** ** The stages of [load] *)

(** Everything up to the budget of the model. *)
Definition open_model (path : bytes) (file meminfo : option bytes) (eng : Engine) : M (option (bool * Engine)) :=
  let fp := default (replicate 32 Byte.x00) (KVFile.compute_model_fingerprint rd file) in
  match load_gguf_config path file with
  | None => mret None
  | Some cfg =>
      let eng := with_start cfg (Budget.probe_system_memory meminfo) path fp eng in
      r ← map_model file eng;
      match r with
      | None => mret None
      | Some (false, eng) => mret (Some (false, eng))
      | Some (true, eng) =>
          r ← materialize_norm_weights (model_weights_ eng) (hidden_dim cfg) (head_dim cfg) (device_weight_copies_ eng);
          let '(ok, mw, owned) := r in
          let eng := with_weights mw owned (mapped_output_ eng) eng in
          if negb ok then mret (Some (false, eng)) else
          let mb := if mapped_weight_device_enabled e then Z.quot (weights_size_ eng) (1024 * 1024) else 0 in
          mret (Some (true, with_budget (set_model_mb mb (budget_ eng)) eng))
      end
  end.

(** [kv_cache_.init]: its blocks are in the state of the pool. *)
Definition kv_init (p : KVCache.t) (c : KVCache.Config) : M (bool * KVCache.t) := fun w =>
  (@KVCache.init (rt_memory (tick w)) (kv_alloc w) p c, next w).

Definition init_buffers (p : LoadParams) (eng : Engine) : M (bool * Engine) :=
  let cfg := config_ eng in
  let ctx := choose_context (budget_ eng) cfg p in
  r ← kv_init (kv_cache_ eng) (kv_config e cfg ctx (kv_bytes p));
  let '(ok, kv) := r in
  let eng := with_pools kv (scratch_ eng) eng in
  if negb ok then mret (false, eng) else
  let eng := with_budget (set_kv_cache_mb (Z.quot (KVCache.capacity_bytes kv) (1024 * 1024)) (budget_ eng)) eng in
  let scratch_bytes := scratch_size cfg in
  r ← cudaMallocPool scratch_bytes;
  let '(ok, sc) := ScratchPool.init (scratch_ eng) scratch_bytes r in
  let eng := with_pools (kv_cache_ eng) sc eng in
  if negb ok then mret (false, eng) else
  mret (true, with_budget (set_scratch_mb (Z.quot scratch_bytes (1024 * 1024)) (budget_ eng)) eng).

(** The layers, and the megabytes they take. *)
Definition place_layers (eng : Engine) : M (bool * Engine) :=
  r ← materialize_layer_weights e (model_weights_ eng) (config_ eng) (budget_ eng) (device_weight_copies_ eng);
  let '(n, mw, owned) := r in
  let eng := with_weights mw owned (mapped_output_ eng) eng in
  match n with
  | None => mret (false, eng)
  | Some n => mret (true, with_budget (add_model_mb n (budget_ eng)) eng)
  end.

(** The output projection; [want]: the fields of the mapping are passed. *)
Definition place_output (want : bool) (eng : Engine) : M (Z * Engine) :=
  r ← materialize_output_weight e want (model_weights_ eng) (config_ eng) (budget_ eng)
        (device_weight_copies_ eng) (mapped_output_ eng);
  let '(n, mw, owned, mapped) := r in
  let eng := with_weights mw owned mapped eng in
  mret (n, with_budget (add_model_mb n (budget_ eng)) eng).

Definition place_weights (eng : Engine) : M (bool * Engine) :=
  if negb (mapped_weight_device_enabled e) then
    r ← place_layers eng;
    let '(ok, eng) := r in
    if negb ok then mret (false, eng) else
    r ← place_output true eng;
    let '(n, eng) := r in
    mret (negb (n =? 0), eng)
  else
    r ← place_output false eng;
    let '(_, eng) := r in
    place_layers eng.

Definition cudaStreamCreate : M Z := fun w =>
  match rt_stream w with Some s => (s, set_handles ({[s]} ∪ handles w) w) | None => (0, next w) end.

Definition cudaMallocHost (n : Z) : M (option Z) := fun w =>
  match rt_malloc_host w n with
  | Some p => (Some p, set_pinned (<[p := n]> (pinned w)) w)
  | None => (None, next w)
  end.

(** The last stage; [None]: the tokenizer reads past the end of the file.  Its
    answer is not looked at. *)
Definition finish (file : option bytes) (eng : Engine) : M (option (bool * Engine)) :=
  s ← cudaStreamCreate;
  match TokenizerFile.load_from_gguf sort_by_size file (tokenizer_ eng) with
  | None => mret None
  | Some (_, tk) =>
      let eng := with_run (loaded_ eng) tk s (host_logits_ eng) (host_logits_capacity_ eng) eng in
      r ← cudaMallocHost (float_bytes (vocab_size (config_ eng)));
      match r with
      | None => mret (Some (false, eng))
      | Some p => mret (Some (true, with_run true tk s p (vocab_size (config_ eng)) eng))
      end
  end.

Definition load (path : bytes) (file meminfo : option bytes) (p : LoadParams) (eng : Engine)
  : M (option (bool * Engine)) :=
  r ← open_model path file meminfo eng;
  match r with
  | None => mret None
  | Some (false, eng) => mret (Some (false, eng))
  | Some (true, eng) =>
      r ← init_buffers p eng;
      let '(ok, eng) := r in
      if negb (ok : bool) then mret (Some (false, eng)) else
      r ← place_weights eng;
      let '(ok, eng) := r in
      if negb (ok : bool) then mret (Some (false, eng)) else finish file eng
  end.

(** ** [Engine::unload] *)

Definition destroy_handle (h : Z) : M unit := fun w =>
  if h =? 0 then (tt, w)
  else if decide (h ∈ handles w) then (tt, set_handles (handles w ∖ {[h]}) w) else (tt, set_bad w).

Definition cudaFreeHost (p : Z) : M unit := fun w =>
  if p =? 0 then (tt, w)
  else match pinned w !! p with
  | Some _ => (tt, set_pinned (delete p (pinned w)) w)
  | None => (tt, set_bad w)
  end.

Fixpoint free_all (ps : list Z) : M unit :=
  match ps with
  | [] => mret tt
  | p :: ps => _ ← cudaFree p; free_all ps
  end.

Definition release_output (eng : Engine) : M unit :=
  let base := fst (mapped_output_ eng) in
  if base =? 0 then mret tt
  else _ ← clear_region base; cudaHostUnregister base.

Definition release_mapping (eng : Engine) : M unit :=
  if weights_ eng =? 0 then mret tt
  else
    d ← resolve_region (weights_ eng);
    _ ← (if negb (d =? 0) then _ ← clear_region (weights_ eng); cudaHostUnregister (weights_ eng)
         else clear_region (weights_ eng));
    munmap (weights_ eng) (weights_size_ eng).

(** The fields after [unload]. *)
Definition unloaded (eng : Engine) : Engine :=
  let '(mkWeights te on et out ot _) := model_weights_ eng in
  mkEngine false (config_ eng) (budget_ eng) (KVCache.destroy (kv_cache_ eng)) (ScratchPool.destroy (scratch_ eng))
    (gguf_path_ eng) (model_fingerprint_ eng) 0 (weights_size_ eng)
    (if fst (mapped_output_ eng) =? 0 then mapped_output_ eng else (0, 0))
    (mkWeights te on et out ot []) [] (tokenizer_ eng) 0 0 0 false 0
    (if host_logits_ eng =? 0 then host_logits_capacity_ eng else 0).

(** The graphs, the stream and the buffer of the logits. *)
Definition release_run (eng : Engine) : M unit :=
  _ ← destroy_handle (decode_graph_exec_ eng);
  _ ← destroy_handle (decode_graph_ eng);
  _ ← destroy_handle (stream_ eng);
  cudaFreeHost (host_logits_ eng).

Definition unload (eng : Engine) : M Engine :=
  _ ← release_run eng;
  _ ← free_all (device_weight_copies_ eng);
  _ ← cudaFreePool (ScratchPool.base_ (scratch_ eng));
  _ ← release_output eng;
  _ ← release_mapping eng;
  mret (unloaded eng).

End Load.

(** ** What a loaded, or half loaded, engine holds *)

Section Ownership.
Context `{laws : RuntimeLaws}.
Context (kv_alloc : World -> KVCache.Alloc) (rd : KVFile.Reader)
        (sort_by_size : list (bytes * Z) -> list (bytes * Z)).
Context (e : env).

(** The device has the blocks [O] on top of [d0]. *)
Record gains (d0 : gmap Z bytes) (O : list Z) (d : gmap Z bytes) : Prop := {
  gains_nodup : NoDup O;
  gains_new p : p ∈ O -> d0 !! p = None /\ is_Some (d !! p);
  gains_old p : p ∉ O -> d !! p = d0 !! p }.

Lemma gains_nil d : gains d [] d.
Proof. split; [constructor|by intros p ?%not_elem_of_nil|done]. Qed.

Lemma gains_grow d0 O w O' w' : gains d0 O (dev w) -> grow w O' w' -> gains d0 (O ++ O') (dev w').
Proof.
  intros [N1 A1 B1] [N2 A2 B2 _ _].
  assert (Hd : forall p, p ∈ O -> p ∉ O').
  { intros p Hp Hp'. destruct (A1 p Hp) as [_ [d Hd]], (A2 p Hp') as [Hn _]. by rewrite Hd in Hn. }
  split.
  - apply NoDup_app. split; [done|]. split; [|done]. intros p H1 H2. by apply (Hd p).
  - intros p [Hp|Hp]%elem_of_app.
    + split; [by apply A1|]. rewrite B2 by auto. by apply A1.
    + split; [|by apply A2]. rewrite <- B1; [by apply A2|]. intros Ho. by apply (Hd p).
  - intros p [H1 H2]%not_elem_of_app. by rewrite B2, B1.
Qed.

Lemma gains_perm d0 O O' d : O ≡ₚ O' -> gains d0 O d -> gains d0 O' d.
Proof.
  intros E [N A B]. split; [by rewrite <- E|intros p; rewrite <- E; apply A|intros p; rewrite <- E; apply B].
Qed.

(** Freeing the first block. *)
Lemma gains_delete d0 p O d : gains d0 (p :: O) d -> gains d0 O (delete p d).
Proof.
  intros [N A B]. apply NoDup_cons in N as [Hp N]. split; [done| |].
  - intros q Hq. split; [apply A; by right|]. rewrite lookup_delete_ne by (by intros ->). apply A. by right.
  - intros q Hq. rewrite lookup_delete. case_decide as E; [subst q; symmetry; apply A; by left|].
    apply B. by intros [->|]%elem_of_cons.
Qed.

Lemma gains_none d0 d : gains d0 [] d -> d = d0.
Proof. intros [_ _ B]. apply map_eq. intros p. apply B. by intros ?%not_elem_of_nil. Qed.

(** The device blocks an engine owns. *)
Definition owned (eng : Engine) : list Z := device_weight_copies_ eng.

(** The mapping of the file [c]. *)
Record mapped_file (w0 w : World) (eng : Engine) (c : bytes) : Prop := {
  mf_base : 0 < weights_ eng;
  mf_size : weights_size_ eng = zlen c;
  mf_pos : 0 < zlen c;
  mf_maps : maps w = (weights_ eng, c) :: maps w0;
  mf_page : weights_ eng mod rt_page_size = 0;
  mf_bound : weights_ eng + pages (zlen c) + rt_page_size < 2 ^ 64 }.

(** The states of the mapping and of the registered range. *)
Inductive host_state (w0 w : World) (eng : Engine) : Prop :=
| hs_none :
    weights_ eng = 0 -> mapped_output_ eng = (0, 0) -> maps w = maps w0 ->
    registered w = registered w0 -> g_region w = no_region -> host_state w0 w eng
| hs_plain c :
    mapped_file w0 w eng c -> mapped_output_ eng = (0, 0) ->
    registered w = registered w0 -> g_region w = no_region -> host_state w0 w eng
| hs_alias c d :
    mapped_file w0 w eng c -> mapped_output_ eng = (0, 0) -> registered w0 !! weights_ eng = None ->
    registered w = <[weights_ eng := zlen c]> (registered w0) ->
    0 < d -> g_region w = mkRegion (weights_ eng) d (zlen c) -> mapped_weight_device_enabled e = true ->
    host_state w0 w eng
| hs_leak c :
    mapped_file w0 w eng c -> mapped_output_ eng = (0, 0) -> registered w0 !! weights_ eng = None ->
    registered w = <[weights_ eng := zlen c]> (registered w0) -> g_region w = no_region ->
    mapped_weight_device_enabled e = true -> host_state w0 w eng
| hs_output c b m d :
    mapped_file w0 w eng c -> mapped_output_ eng = (b, m) -> registered w0 !! b = None ->
    registered w = <[b := m]> (registered w0) -> 0 < d -> g_region w = mkRegion b d m ->
    weights_ eng <= b -> b + m <= weights_ eng + pages (zlen c) -> mapped_weight_device_enabled e = false ->
    host_state w0 w eng.

(** One optional page-locked buffer, one optional stream, no graph. *)
Definition run_state (w0 w : World) (eng : Engine) : Prop :=
  decode_graph_ eng = 0 /\ decode_graph_exec_ eng = 0 /\
  (stream_ eng = 0 /\ handles w = handles w0 \/
   stream_ eng <> 0 /\ (stream_ eng ∉ handles w0) /\ handles w = {[stream_ eng]} ∪ handles w0) /\
  (host_logits_ eng = 0 /\ pinned w = pinned w0 \/
   host_logits_ eng <> 0 /\ pinned w0 !! host_logits_ eng = None /\
   exists n, pinned w = <[host_logits_ eng := n]> (pinned w0)).

(** The block of the scratch pool. *)
Definition pool_state (w0 w : World) (eng : Engine) : Prop :=
  let base := ScratchPool.base_ (scratch_ eng) in
  base = 0 /\ pools w = pools w0 \/
  base <> 0 /\ pools w0 !! base = None /\ exists n, pools w = <[base := n]> (pools w0).

Record holds (w0 w : World) (eng : Engine) : Prop := {
  h_dev : gains (dev w0) (owned eng) (dev w);
  h_host : host_state w0 w eng;
  h_run : run_state w0 w eng;
  h_pool : pool_state w0 w eng;
  h_bad : bad w = bad w0;
  h_wf : wf w }.

Definition handles_of (eng : Engine) :=
  (weights_ eng, weights_size_ eng, mapped_output_ eng, stream_ eng, decode_graph_ eng, decode_graph_exec_ eng, host_logits_ eng,
   ScratchPool.base_ (scratch_ eng)).

Lemma host_state_same w0 w eng w' eng' :
  host_state w0 w eng -> maps w' = maps w -> registered w' = registered w -> g_region w' = g_region w ->
  weights_ eng' = weights_ eng -> weights_size_ eng' = weights_size_ eng -> mapped_output_ eng' = mapped_output_ eng ->
  host_state w0 w' eng'.
Proof.
  intros H Em Er Eg E1 E2 E3.
  assert (MF : forall c, mapped_file w0 w eng c -> mapped_file w0 w' eng' c).
  { intros c [A B C D P Q]. split; rewrite ?Em, ?E1, ?E2; done. }
  destruct H.
  - apply hs_none; congruence.
  - eapply hs_plain; [by apply MF|congruence..].
  - apply (hs_alias w0 w' eng' c d); [by apply MF|rewrite ?E1; congruence..].
  - apply (hs_leak w0 w' eng' c); [by apply MF|rewrite ?E1; congruence..].
  - apply (hs_output w0 w' eng' c b m d); [by apply MF|rewrite ?E1; try congruence; done..].
Qed.

(** Growing by blocks that the engine takes over. *)
Lemma holds_grow w0 w eng O w' eng' :
  holds w0 w eng -> grow w O w' -> owned eng' ≡ₚ owned eng ++ O -> handles_of eng' = handles_of eng ->
  holds w0 w' eng'.
Proof.
  intros [D H R P B W] G Ho Eh. pose proof (grow_rest _ _ _ G) as Er. unfold rest in Er. unfold handles_of in Eh. simplify_eq.
  split.
  - eapply gains_perm; [symmetry; exact Ho|]. by eapply gains_grow.
  - eapply host_state_same; [exact H|congruence..].
  - unfold run_state in *. replace (handles w') with (handles w) by congruence. replace (pinned w') with (pinned w) by congruence.
    by repeat match goal with E : _ eng' = _ eng |- _ => rewrite E; clear E end.
  - unfold pool_state in *. replace (pools w') with (pools w) by congruence.
    by replace (ScratchPool.base_ (scratch_ eng')) with (ScratchPool.base_ (scratch_ eng)) by congruence.
  - congruence.
  - by apply (grow_wf _ _ _ G).
Qed.

(** ** [unload] gives everything back *)

Lemma wp_free_all ps O d0 w Q :
  gains d0 (ps ++ O) (dev w) -> Forall (fun p => 0 < p) ps ->
  (forall w', gains d0 O (dev w') -> rest w' = rest w -> Q tt w') -> wp (free_all ps) Q w.
Proof.
  intros G HP. revert w Q G. induction HP as [|p ps Hp HP IH]; intros w Q G HQ; [by apply wp_ret, HQ|].
  cbn [free_all]. apply wp_bind. unfold wp at 1, cudaFree. rewrite (proj2 (Z.eqb_neq p 0)) by lia.
  destruct (gains_new _ _ _ G p) as [_ [d Hd]]; [by left|]. rewrite Hd. cbn [fst snd].
  apply IH; [by eapply gains_delete|]. intros w' G' Er. by apply HQ.
Qed.

Definition leaked (w0 w : World) (eng : Engine) : Prop :=
  registered w = <[weights_ eng := weights_size_ eng]> (registered w0) /\ weights_ eng <> 0 /\
  mapped_weight_device_enabled e = true.

(** The range of the whole file was registered but has no alias for kernels. *)
Definition alias_refused (w0 w : World) (eng : Engine) : Prop :=
  leaked w0 w eng /\ g_region w = no_region.

Lemma wp_release_output w0 w eng Q :
  host_state w0 w eng ->
  (forall w', dev w' = dev w -> (pools w', pinned w', handles w', bad w') = (pools w, pinned w, handles w, bad w) ->
     (forall eng', weights_ eng' = weights_ eng -> weights_size_ eng' = weights_size_ eng -> mapped_output_ eng' = (0, 0) ->
        host_state w0 w' eng') ->
     (fst (mapped_output_ eng) = 0 -> g_region w' = g_region w /\ registered w' = registered w) ->
     (fst (mapped_output_ eng) <> 0 -> g_region w' = no_region /\ registered w' = registered w0) -> Q tt w') ->
  wp (release_output eng) Q w.
Proof.
  intros H HQ. unfold release_output.
  assert (Skip : mapped_output_ eng = (0, 0) -> wp (if fst (mapped_output_ eng) =? 0 then mret tt else
    _ ← clear_region (fst (mapped_output_ eng)); cudaHostUnregister (fst (mapped_output_ eng))) Q w).
  { intros E. rewrite E. cbn. apply wp_ret, HQ; [done|done| |by rewrite E|by rewrite E].
    intros eng' E1 E2 E3. eapply host_state_same; [exact H|done|done|done|done|done|congruence]. }
  destruct H as [| | | |c b m d MF E Hf Er Hd Eg Hb Hbm He]; try (by apply Skip).
  pose proof (mf_base _ _ _ _ MF) as Hpos. rewrite E. cbn [fst]. rewrite (proj2 (Z.eqb_neq b 0)) by lia.
  apply wp_bind. unfold wp at 1, clear_region. cbn [fst snd]. unfold wp, cudaHostUnregister. cbn. rewrite Er, lookup_insert_eq. cbn.
  assert (Ec : clear_mapped_weight_region (g_region w) b = no_region).
  { unfold clear_mapped_weight_region. rewrite Eg. cbn. by rewrite Z.eqb_refl. }
  apply HQ; cbn; [done|done| |rewrite E; cbn; lia|intros _; split; [done|by rewrite delete_insert_id]].
  intros eng' E1 E2 E3. eapply hs_plain; [|done|cbn; by rewrite delete_insert_id|done].
  destruct MF. split; cbn; rewrite ?E1, ?E2; done.
Qed.

Lemma wp_release_mapping w0 w eng Q :
  host_state w0 w eng -> mapped_output_ eng = (0, 0) ->
  (forall w', dev w' = dev w -> (pools w', pinned w', handles w', bad w') = (pools w, pinned w, handles w, bad w) ->
     maps w' = maps w0 -> g_region w' = no_region ->
     registered w' = registered w0 \/ registered w' = registered w /\ alias_refused w0 w eng -> Q tt w') ->
  wp (release_mapping eng) Q w.
Proof.
  intros H E HQ. unfold release_mapping.
  destruct H as [E0|c MF _ Er Eg|c d MF _ Hf Er Hd Eg He|c MF _ Hf Er Eg He|c b m d MF E']; [| | | |].
  - rewrite E0. cbn. apply wp_ret, HQ; auto.
  - pose proof (mf_base _ _ _ _ MF). rewrite (proj2 (Z.eqb_neq _ 0)) by lia. apply wp_bind. unfold wp at 1, resolve_region.
    cbn [fst snd]. rewrite Eg. unfold resolve_mapped_weight_device_ptr. cbn [host_base no_region device_base].
    rewrite orb_true_r. cbn [orb negb Z.eqb]. apply wp_bind. unfold wp at 1, clear_region. cbn [fst snd].
    unfold wp, munmap. cbn. rewrite (mf_maps _ _ _ _ MF), Z.eqb_refl, (mf_size _ _ _ _ MF), Z.eqb_refl. cbn.
    apply HQ; cbn; [done|done|done| |by left]. rewrite Eg. unfold clear_mapped_weight_region. by destruct (_ =? _).
  - pose proof (mf_base _ _ _ _ MF). rewrite (proj2 (Z.eqb_neq _ 0)) by lia. apply wp_bind. unfold wp at 1, resolve_region.
    cbn [fst snd]. rewrite Eg. unfold resolve_mapped_weight_device_ptr. cbn [host_base device_base region_bytes].
    pose proof (mf_pos _ _ _ _ MF).
    rewrite (proj2 (Z.eqb_neq (weights_ eng) 0)), (proj2 (Z.eqb_neq d 0)), Z.ltb_irrefl, (proj2 (Z.leb_gt _ _)) by lia.
    cbn [orb]. rewrite Z.sub_diag, Z.add_0_r, (proj2 (Z.eqb_neq d 0)) by lia. cbn [negb].
    apply wp_bind, wp_bind. unfold wp at 1, clear_region. cbn [fst snd]. unfold wp at 1, cudaHostUnregister. cbn.
    rewrite Er, lookup_insert_eq. cbn. unfold wp, munmap. cbn.
    rewrite (mf_maps _ _ _ _ MF), Z.eqb_refl, (mf_size _ _ _ _ MF), Z.eqb_refl. cbn.
    apply HQ; cbn; [done|done|done| |left; by rewrite delete_insert_id].
    unfold clear_mapped_weight_region. rewrite Eg. cbn. by rewrite Z.eqb_refl.
  - pose proof (mf_base _ _ _ _ MF). rewrite (proj2 (Z.eqb_neq _ 0)) by lia. apply wp_bind. unfold wp at 1, resolve_region.
    cbn [fst snd]. rewrite Eg. unfold resolve_mapped_weight_device_ptr. cbn [host_base no_region device_base].
    rewrite orb_true_r. cbn [orb negb Z.eqb]. apply wp_bind. unfold wp at 1, clear_region. cbn [fst snd].
    unfold wp, munmap. cbn. rewrite (mf_maps _ _ _ _ MF), Z.eqb_refl, (mf_size _ _ _ _ MF), Z.eqb_refl. cbn.
    apply HQ; cbn; [done|done|done| |].
    + rewrite Eg. unfold clear_mapped_weight_region. by destruct (_ =? _).
    + right. split; [done|]. split; [|done]. split; [by rewrite (mf_size _ _ _ _ MF)|]. split; [lia|done].
  - rewrite E in E'. injection E' as <- <-. pose proof (mf_base _ _ _ _ MF). lia.
Qed.

Lemma wp_destroy_handle h w Q :
  (h = 0 -> Q tt w) ->
  (h <> 0 -> h ∈ handles w /\ Q tt (set_handles (handles w ∖ {[h]}) w)) -> wp (destroy_handle h) Q w.
Proof.
  intros H0 H1. unfold wp, destroy_handle. destruct (Z.eqb_spec h 0) as [|Hn]; [by apply H0|].
  destruct (H1 Hn) as [Hin HQ]. by rewrite decide_True.
Qed.

Lemma wp_cudaFreeHost p w Q :
  (p = 0 -> Q tt w) ->
  (p <> 0 -> is_Some (pinned w !! p) /\ Q tt (set_pinned (delete p (pinned w)) w)) -> wp (cudaFreeHost p) Q w.
Proof.
  intros H0 H1. unfold wp, cudaFreeHost. destruct (Z.eqb_spec p 0) as [|Hn]; [by apply H0|].
  destruct (H1 Hn) as [[x Hx] HQ]. by rewrite Hx.
Qed.

Lemma wp_cudaFreePool w0 w eng Q :
  pool_state w0 w eng ->
  (forall w', (dev w', maps w', registered w', pinned w', handles w', g_region w', bad w') =
     (dev w, maps w, registered w, pinned w, handles w, g_region w, bad w) -> pools w' = pools w0 -> Q tt w') ->
  wp (cudaFreePool (ScratchPool.base_ (scratch_ eng))) Q w.
Proof.
  intros P HQ. unfold wp, cudaFreePool. destruct P as [[-> E]|(Hn & Hf & n & E)]; [by apply HQ|].
  rewrite (proj2 (Z.eqb_neq _ 0)) by done. rewrite E, lookup_insert_eq. cbn. apply HQ; [done|]. cbn. by rewrite delete_insert_id.
Qed.

(** The state is that of before, but for the ranges registered with the driver. *)
Definition same_world (w0 w : World) : Prop :=
  (dev w, maps w, pools w, pinned w, handles w, bad w) = (dev w0, maps w0, pools w0, pinned w0, handles w0, bad w0) /\
  g_region w = no_region.

(** The two handles of the running engine. *)
Lemma wp_release_run w0 w eng Q :
  run_state w0 w eng ->
  (forall w', (dev w', maps w', registered w', pools w', g_region w', bad w') = (dev w, maps w, registered w, pools w, g_region w, bad w) ->
     handles w' = handles w0 -> pinned w' = pinned w0 -> Q tt w') ->
  wp (release_run eng) Q w.
Proof.
  intros (E1 & E2 & HS & HP) HQ. unfold release_run. rewrite E1, E2.
  apply wp_bind, wp_destroy_handle; [intros _|done]. apply wp_bind, wp_destroy_handle; [intros _|done].
  apply wp_bind, wp_destroy_handle; (intros Hs; destruct HS as [[? Eh]|(? & Hf & Eh)]; try done);
    [|split; [rewrite Eh; set_solver|]];
    (apply wp_cudaFreeHost; intros Hp; destruct HP as [[? Ep]|(? & Hf' & n & Ep)]; try done);
    try (split; [cbn; rewrite Ep, lookup_insert_eq; by eexists|]);
    (apply HQ; cbn; [done|first [done|rewrite Eh; set_solver]|first [done|by rewrite Ep, delete_insert_id]]).
Qed.

Lemma wp_unload w0 w eng :
  holds w0 w eng ->
  wp (unload eng) (fun eng' w' => eng' = unloaded eng /\ same_world w0 w' /\
    (registered w' = registered w0 \/ registered w' = registered w /\ alias_refused w0 w eng)) w.
Proof.
  intros [D H R P B W]. unfold unload.
  assert (Pos : Forall (fun p => 0 < p) (owned eng)).
  { rewrite Forall_forall. intros p Hp. destruct (gains_new _ _ _ D p Hp) as [_ [d Hd]]. by apply (wf_block w W p d). }
  apply wp_bind, (wp_release_run w0 w eng _ R). intros w2 E2 Eh Ep. simplify_eq.
  apply wp_bind, (wp_free_all _ [] (dev w0)); [rewrite app_nil_r; by replace (dev w2) with (dev w) by congruence|done|].
  intros w3 G3 E3. unfold rest in E3. simplify_eq. apply gains_none in G3.
  apply wp_bind, (wp_cudaFreePool w0 w3 eng); [unfold pool_state in *; by replace (pools w3) with (pools w) by congruence|].
  intros w4 E4 P4. simplify_eq.
  assert (HH4 : host_state w0 w4 eng) by (eapply host_state_same; [exact H|congruence..]).
  apply wp_bind. eapply wp_release_output; [exact HH4|]. intros w5 D5 E5 Host5 Z5 N5. simplify_eq.
  apply wp_bind. set (eng5 := with_weights (model_weights_ eng) (device_weight_copies_ eng) (0, 0) eng).
  change (release_mapping eng) with (release_mapping eng5).
  apply (wp_release_mapping w0 w5 eng5); [by apply Host5|done|]. intros w6 D6 E6 M6 R6 F6. simplify_eq.
  apply wp_ret. split; [done|]. split; [split; [congruence|done]|].
  destruct F6 as [|[F6 [L6 N6]]]; [by left|].
  destruct (decide (fst (mapped_output_ eng) = 0)) as [Z0|N0]; [|left; destruct (N5 N0); congruence].
  destruct (Z5 Z0) as [G5 Q5]. right. split; [congruence|]. split; [|congruence].
  destruct L6 as (L1 & L2 & L3). split; [cbn in L1; congruence|done].
Qed.

(** ** The tensors lie in the file *)

(** [p] is an offset, or null, and its [n] bytes are inside the file. *)
Definition in_file (c : bytes) (p : option Z) (n : Z) : Prop :=
  forall o, p = Some o -> 0 <= o /\ 0 <= n /\ o + n <= zlen c.

Definition norm_bytes (cfg : ModelConfig) : Z := float_bytes (hidden_dim cfg).
Definition qk_norm_bytes (cfg : ModelConfig) : Z := float_bytes (head_dim cfg).

Record layer_fits (c : bytes) (cfg : ModelConfig) (lw : LayerWeights) : Prop := {
  lf_attn : in_file c (rms_attn lw) (norm_bytes cfg);
  lf_ffn : in_file c (rms_ffn lw) (norm_bytes cfg);
  lf_q : in_file c (q_norm lw) (qk_norm_bytes cfg);
  lf_k : in_file c (k_norm lw) (qk_norm_bytes cfg);
  lf_specs : Forall (fun s => in_file c (spec_src s) (spec_bytes s)) (specs lw cfg) }.

Record tensors_fit (c : bytes) (cfg : ModelConfig) (mw : ModelWeights) : Prop := {
  tf_size : zlen c < 2 ^ 56;
  tf_layers : Forall (layer_fits c cfg) (layers mw);
  tf_norm : in_file c (output_norm mw) (norm_bytes cfg);
  tf_output : in_file c (output mw) (output_bytes mw cfg) }.

(** What [load] finds in the file. *)
Definition model_of (path : bytes) (file : option bytes) (c : bytes) (cfg : ModelConfig) (mw : ModelWeights) : Prop :=
  file = Some c /\ load_gguf_config path file = Some cfg /\
  exists ok, load_and_map_weights file true (n_layers cfg) = Some (ok, mw).

Lemma specs_rebase base lw cfg :
  specs (rebase_layer base lw) cfg =
  (fun s => mkSpec (spec_slot s) (Z.add base <$> spec_src s) (spec_type s) (spec_rows s) (spec_cols s)) <$> specs lw cfg.
Proof. by destruct lw. Qed.

Lemma specs_kept lw lw' cfg : matrices_kept lw lw' -> specs lw' cfg = specs lw cfg.
Proof.
  intros [Et Es]. unfold types in Et. destruct lw as [q k v o g u d], lw' as [q' k' v' o' g' u' d']. cbn in Et. simplify_eq.
  pose proof (Es Wq ltac:(set_solver)). pose proof (Es Wk ltac:(set_solver)). pose proof (Es Wv ltac:(set_solver)).
  pose proof (Es Wo ltac:(set_solver)). pose proof (Es WGate ltac:(set_solver)). pose proof (Es WUp ltac:(set_solver)).
  pose proof (Es WDown ltac:(set_solver)). cbn in *. by simplify_eq.
Qed.

Lemma host_read_file w0 w eng c o n :
  mapped_file w0 w eng c -> 0 <= o -> 0 <= n -> o + n <= zlen c -> host_read w (weights_ eng + o) n = peek_at c o n.
Proof.
  intros MF Ho Hn Hs. unfold host_read, host_block. rewrite (mf_maps _ _ _ _ MF). cbn [List.find fst snd].
  rewrite (proj2 (Z.leb_le _ _)), (proj2 (Z.leb_le _ _)) by lia. cbn [andb].
  by replace (weights_ eng + o - weights_ eng) with o by lia.
Qed.

Lemma readable_file w0 w eng c p n :
  mapped_file w0 w eng c -> in_file c p n -> readable w (Z.add (weights_ eng) <$> p) n.
Proof.
  intros MF HF s Hs. destruct p as [o|]; [|done]. cbn in Hs. injection Hs as <-.
  destruct (HF o eq_refl) as (? & ? & ?). rewrite (host_read_file w0 w eng c) by done. rewrite peek_at_Some by done. by eexists.
Qed.

Lemma layer_readable w0 w eng c cfg lw :
  mapped_file w0 w eng c -> zlen c < 2 ^ 56 -> layer_fits c cfg lw ->
  norms_readable w (norm_bytes cfg) (qk_norm_bytes cfg) (rebase_layer (weights_ eng) lw) /\
  matrices_readable w cfg (rebase_layer (weights_ eng) lw).
Proof.
  intros MF Hc [A B C D S]. pose proof (readable_file w0 w eng c) as RF. split.
  - destruct lw. repeat split; by eapply RF.
  - unfold matrices_readable. rewrite specs_rebase. apply Forall_fmap. eapply Forall_impl; [exact S|].
    intros s Hs. split; [by eapply RF|]. intros [x Hx]. cbn in *. destruct (spec_src s) as [o|]; [|done].
    destruct (Hs o eq_refl) as (? & ? & ?). unfold spec_bytes in *. cbn in *. lia.
Qed.

(** ** The stages keep what they are given *)

(** From [w] to [w'] no block and no mapping is lost or changed. *)
Definition keeps (w w' : World) : Prop :=
  (forall p d, dev w !! p = Some d -> dev w' !! p = Some d) /\ maps w' = maps w.

Lemma keeps_refl w : keeps w w.
Proof. by split. Qed.

Lemma keeps_trans w1 w2 w3 : keeps w1 w2 -> keeps w2 w3 -> keeps w1 w3.
Proof. intros [A B] [C D]. split; [auto|congruence]. Qed.

Lemma grow_keeps w O w' : grow w O w' -> keeps w w'.
Proof. intros G. split; [intros; by eapply grow_keep|by eapply grow_maps]. Qed.

Lemma mirrors_keeps w w' p off src n : keeps w w' -> mirrors w p off src n -> mirrors w' p off src n.
Proof.
  intros [A B] (d & bs & Hd & Hp & Hh). exists d, bs. split; [auto|]. split; [done|].
  unfold host_read, host_block in *. by rewrite B.
Qed.

Lemma mapped_file_keeps w0 w w' eng eng' c :
  keeps w w' -> weights_ eng' = weights_ eng -> weights_size_ eng' = weights_size_ eng ->
  mapped_file w0 w eng c -> mapped_file w0 w' eng' c.
Proof. intros [_ B] E1 E2 [MA MB MC MD ME MF]. split; rewrite ?E1, ?E2, ?B; done. Qed.

(** ** The stages of [load] *)

Lemma wp_device_pointer b w Q :
  (forall d, (forall x, d = Some x -> 0 <= x) -> Q d (next w)) -> wp (cudaHostGetDevicePointer b) Q w.
Proof. intros H. apply H. intros x. apply rt_device_pointer_pos. Qed.

(** An engine that holds nothing. *)
Definition idle (eng : Engine) : Prop :=
  owned eng = [] /\ weights_ eng = 0 /\ mapped_output_ eng = (0, 0) /\ stream_ eng = 0 /\ decode_graph_ eng = 0 /\
  decode_graph_exec_ eng = 0 /\ host_logits_ eng = 0 /\ ScratchPool.base_ (scratch_ eng) = 0.

Lemma idle_holds w0 w eng :
  idle eng -> wf w0 -> g_region w0 = no_region -> grow w0 [] w -> holds w0 w eng.
Proof.
  intros (E1 & E2 & E3 & E4 & E5 & E6 & E7 & E8) W Eg G. pose proof (grow_rest _ _ _ G) as Er. unfold rest in Er. simplify_eq.
  split.
  - rewrite E1. rewrite (grow_nil_dev _ _ G). apply gains_nil.
  - apply hs_none; congruence.
  - split; [done|]. split; [done|]. split; left; split; congruence.
  - left. split; congruence.
  - congruence.
  - by apply (grow_wf _ _ _ G).
Qed.

Lemma wf_mapped w0 w b c :
  wf w0 -> dev w = dev w0 -> maps w = (b, c) :: maps w0 ->
  (forall p d, dev w0 !! p = Some d -> disjoint_ranges p (zlen d) b (pages (zlen c))) -> wf w.
Proof.
  intros [W1 W2 W3] Ed Em Hd. split; rewrite ?Ed; [done|done|].
  intros p d m Hp. rewrite Em. intros [->|Hm]%elem_of_cons; [by apply Hd|by apply W3].
Qed.

Lemma wp_load_gguf_weights file w0 eng :
  idle eng -> wf w0 -> g_region w0 = no_region ->
  wp (load_gguf_weights e file) (fun r w' =>
    match snd r with
    | None => grow w0 [] w'
    | Some b => exists c, file = Some c /\ fst r = Some (zlen c) /\
        forall mw, holds w0 w' (with_mapping b (zlen c) mw eng) /\ mapped_file w0 w' (with_mapping b (zlen c) mw eng) c
    end) w0.
Proof.
  intros Hi W Eg. unfold load_gguf_weights. destruct file as [c|]; [|apply wp_ret; by apply grow_refl].
  apply wp_bind. unfold wp at 1, mmap. destruct (rt_mmap w0 c) as [b|] eqn:Em; cbn [fst snd].
  2:{ apply wp_ret. by apply grow_refl. }
  destruct (rt_mmap_fresh _ _ _ Em) as (Hb & Hc & Hpg & H64 & Hdis).
  destruct Hi as (I1 & I2 & I3 & I4 & I5 & I6 & I7 & I8).
  (* any state with the mapping, in which the host part is right *)
  assert (Here : forall w' mw, dev w' = dev w0 -> maps w' = (b, c) :: maps w0 ->
      (pools w', pinned w', handles w', bad w') = (pools w0, pinned w0, handles w0, bad w0) ->
      (mapped_file w0 w' (with_mapping b (zlen c) mw eng) c -> host_state w0 w' (with_mapping b (zlen c) mw eng)) ->
      holds w0 w' (with_mapping b (zlen c) mw eng) /\ mapped_file w0 w' (with_mapping b (zlen c) mw eng) c).
  { intros w' mw Ed E2 E3 Hh. simplify_eq.
    assert (MF : mapped_file w0 w' (with_mapping b (zlen c) mw eng) c) by by split.
    split; [|done]. split.
    - change (owned (with_mapping b (zlen c) mw eng)) with (owned eng). rewrite I1, Ed. apply gains_nil.
    - by apply Hh.
    - split; [done|]. split; [done|]. split; left; (split; [done|congruence]).
    - left. split; [exact I8|congruence].
    - congruence.
    - by eapply wf_mapped. }
  assert (Plain : forall w', dev w' = dev w0 -> maps w' = (b, c) :: maps w0 -> registered w' = registered w0 ->
      g_region w' = g_region w0 -> (pools w', pinned w', handles w', bad w') = (pools w0, pinned w0, handles w0, bad w0) ->
      wp (mret (Some (zlen c), Some b)) (fun r w' => match snd r with None => grow w0 [] w' | Some b => exists c0,
        Some c = Some c0 /\ fst r = Some (zlen c0) /\ forall mw, holds w0 w' (with_mapping b (zlen c0) mw eng) /\
        mapped_file w0 w' (with_mapping b (zlen c0) mw eng) c0 end) w').
  { intros w' E1 E2 E3 E4 E5. apply wp_ret. exists c. split; [done|]. split; [done|]. intros mw.
    apply Here; [done|done|done|]. intros MF. eapply hs_plain; [exact MF|done|done|congruence]. }
  destruct (mapped_weight_device_enabled e) eqn:Ee; cbn [negb]; [|by apply Plain].
  apply wp_bind. unfold wp at 1, cudaHostRegister. destruct (rt_register _ b (zlen c)) eqn:Er; cbn [fst snd negb]; [|by apply Plain].
  pose proof (rt_register_fresh _ _ _ Er) as Hf. cbn in Hf.
  apply wp_bind, wp_device_pointer. intros d Hdpos. destruct (Z.eqb_spec (match d with Some d => d | None => 0 end) 0) as [|Hd0].
  - apply wp_ret. exists c. split; [done|]. split; [done|]. intros mw. apply Here; [done|done|done|].
    intros MF. by eapply hs_leak.
  - destruct d as [d|]; [|done]. apply wp_bind. unfold wp at 1, register_region. cbn [fst snd default].
    apply wp_ret. exists c. split; [done|]. split; [done|]. intros mw. apply Here; [done|done|done|].
    intros MF. pose proof (Hdpos d eq_refl). cbn in Hd0. apply (hs_alias _ _ _ c d); done || lia.
Qed.

(** No stream, no buffer, no registered output. *)
Definition quiet (eng : Engine) : Prop := stream_ eng = 0 /\ host_logits_ eng = 0 /\ mapped_output_ eng = (0, 0).

Lemma idle_quiet eng : idle eng -> quiet eng.
Proof. by intros (_ & _ & ? & ? & _ & _ & ? & _). Qed.

Lemma wp_map_model file w0 eng :
  idle eng -> wf w0 -> g_region w0 = no_region ->
  wp (map_model e file eng) (fun r w' => match r with
    | None => True
    | Some (ok, eng') =>
        holds w0 w' eng' /\ config_ eng' = config_ eng /\ owned eng' = [] /\ scratch_ eng' = scratch_ eng /\ quiet eng' /\
        (ok = true -> exists c mw, file = Some c /\
           load_and_map_weights file true (n_layers (config_ eng)) = Some (true, mw) /\
           mapped_file w0 w' eng' c /\ model_weights_ eng' = rebase (weights_ eng') mw)
    end) w0.
Proof.
  intros Hi W Eg. pose proof Hi as [I1 _]. pose proof (idle_quiet _ Hi) as Hq. unfold map_model.
  destruct (parse_tensor_infos file) as [[off ts]|]; [|by apply wp_ret].
  destruct (off <? 0).
  { apply wp_ret. split; [by apply idle_holds; [..|apply grow_refl]|done]. }
  apply wp_bind. eapply wp_mono; [by apply (wp_load_gguf_weights file w0 eng)|].
  intros [sz [b|]] w1 H1; cbn [fst snd] in *.
  - destruct H1 as (c & -> & -> & H1). destruct (load_and_map_weights _ _ _) as [[ok mw]|] eqn:El; [|by apply wp_ret].
    apply wp_ret. destruct (H1 (rebase b mw)) as [Hh MF]. do 5 (split; [done|]).
    intros ->. by exists c, mw.
  - apply wp_ret. split; [|done]. apply idle_holds; [|done|done|done].
    destruct Hi as (J1 & J2 & J3 & J4 & J5 & J6 & J7 & J8). by repeat split.
Qed.

(** A layer of the file, and where its tensors are now. *)
Record layer_at (w : World) (cfg : ModelConfig) (base : Z) (lw0 lw : LayerWeights) : Prop := {
  la_norms : norms_moved w (norm_bytes cfg) (qk_norm_bytes cfg) (rebase_layer base lw0) lw;
  la_matrices : matrices_moved w cfg (rebase_layer base lw0) lw \/ matrices_kept (rebase_layer base lw0) lw }.

Lemma norms_moved_keeps w w' nb qb lw lw' : keeps w w' -> norms_moved w nb qb lw lw' -> norms_moved w' nb qb lw lw'.
Proof.
  intros K [A B C F].
  assert (D : forall n s, on_device w n s lw lw' -> on_device w' n s lw lw').
  { intros n s (src & p & ? & ? & ?). exists src, p. by eauto using mirrors_keeps. }
  split; [by apply D..| |done]. intros H. destruct (C H). by split; apply D.
Qed.

Lemma matrices_moved_keeps w w' cfg lw lw' : keeps w w' -> matrices_moved w cfg lw lw' -> matrices_moved w' cfg lw lw'.
Proof. intros K H s Hs. destruct (H s Hs) as (src & p & off & ? & ? & ? & ?). exists src, p, off. by eauto using mirrors_keeps. Qed.

Lemma layer_at_keeps w w' cfg base lw0 lw : keeps w w' -> layer_at w cfg base lw0 lw -> layer_at w' cfg base lw0 lw.
Proof.
  intros K [A B]. split; [by eapply norms_moved_keeps|]. destruct B; [left; by eapply matrices_moved_keeps|by right].
Qed.

(** The formats of the embedding and of the output projection. *)
Definition end_types (mw : ModelWeights) : Z * Z := (embd_type mw, output_type mw).

Lemma ends_types mw mw' : ends mw = ends mw' -> end_types mw = end_types mw'.
Proof. unfold ends, end_types. congruence. Qed.

(** What is known of the engine once the model is open. *)
Record opened (w0 w : World) (c : bytes) (cfg : ModelConfig) (mw : ModelWeights) (eng : Engine) : Prop := {
  op_file : mapped_file w0 w eng c;
  op_cfg : config_ eng = cfg;
  op_layers : Forall2 (layer_at w cfg (weights_ eng)) (layers mw) (layers (model_weights_ eng));
  op_norm : exists o p, output_norm mw = Some o /\ output_norm (model_weights_ eng) = Some p /\
              mirrors w p 0 (weights_ eng + o) (norm_bytes cfg);
  op_types : end_types (model_weights_ eng) = end_types mw }.

Definition untouched (mw : ModelWeights) (eng : Engine) : Prop :=
  Forall2 (fun lw0 lw => matrices_kept (rebase_layer (weights_ eng) lw0) lw) (layers mw) (layers (model_weights_ eng)).

Lemma opened_keeps w0 w w' c cfg mw eng eng' :
  keeps w w' -> weights_ eng' = weights_ eng -> weights_size_ eng' = weights_size_ eng -> config_ eng' = config_ eng ->
  layers (model_weights_ eng') = layers (model_weights_ eng) ->
  output_norm (model_weights_ eng') = output_norm (model_weights_ eng) ->
  end_types (model_weights_ eng') = end_types (model_weights_ eng) ->
  opened w0 w c cfg mw eng -> opened w0 w' c cfg mw eng'.
Proof.
  intros K E1 E2 E3 E4 E5 E6 [A B C (o & p & N1 & N2 & N3) T]. split; rewrite ?E1, ?E3, ?E4, ?E5, ?E6; [by eapply mapped_file_keeps|done| | |done].
  - eapply Forall2_impl; [exact C|]. intros. by eapply layer_at_keeps.
  - exists o, p. by eauto using mirrors_keeps.
Qed.

Lemma rebase_fields base mw :
  layers (rebase base mw) = rebase_layer base <$> layers mw /\ output_norm (rebase base mw) = Z.add base <$> output_norm mw /\
  output (rebase base mw) = Z.add base <$> output mw /\ output_type (rebase base mw) = output_type mw /\
  tok_embd (rebase base mw) = Z.add base <$> tok_embd mw.
Proof. by destruct mw. Qed.

Lemma Forall2_rebase base (P : LayerWeights -> LayerWeights -> Prop) ls ls' :
  Forall2 P (rebase_layer base <$> ls) ls' -> Forall2 (fun a b => P (rebase_layer base a) b) ls ls'.
Proof. intros H. by apply (Forall2_fmap_l (rebase_layer base)) in H. Qed.

Definition fits (path : bytes) (file : option bytes) : Prop :=
  forall c cfg mw, model_of path file c cfg mw -> tensors_fit c cfg mw.

Lemma wp_open_model path file meminfo w0 eng :
  idle eng -> wf w0 -> g_region w0 = no_region -> fits path file ->
  wp (open_model rd e path file meminfo eng) (fun r w' => match r with
    | None => True
    | Some (ok, eng') =>
        holds w0 w' eng' /\ scratch_ eng' = scratch_ eng /\ quiet eng' /\
        (ok = true -> exists c cfg mw, model_of path file c cfg mw /\ opened w0 w' c cfg mw eng' /\ untouched mw eng' /\
           ends (model_weights_ eng') = ends (rebase (weights_ eng') mw))
    end) w0.
Proof.
  intros Hi W Eg Hfit. unfold open_model. destruct (load_gguf_config path file) as [cfg|] eqn:Ec; [|by apply wp_ret].
  set (eng1 := with_start cfg (Budget.probe_system_memory meminfo) path _ eng).
  apply wp_bind. eapply wp_mono; [apply (wp_map_model file w0 eng1); [exact Hi|done|done]|].
  intros [[[] eng2]|] w1 H1; [| |by apply wp_ret].
  2:{ apply wp_ret. by destruct H1 as (H1 & _ & _ & Es & Hq & _). }
  destruct H1 as (H1 & Ecfg & Eo & Es & Hq & HF). destruct (HF eq_refl) as (c & mw & -> & El & MF & Emw). clear HF.
  assert (Hm : model_of path (Some c) c cfg mw) by (split; [done|]; split; [done|by eexists]).
  pose proof (Hfit _ _ _ Hm) as [T1 T2 T3 T4]. destruct (rebase_fields (weights_ eng2) mw) as (R1 & R2 & R3 & R4 & R5).
  assert (WR : weights_readable w1 (norm_bytes cfg) (qk_norm_bytes cfg) (model_weights_ eng2)).
  { rewrite Emw. split; [|rewrite R2; by eapply readable_file]. rewrite R1. apply Forall_fmap.
    eapply Forall_impl; [exact T2|]. intros lw Hl. cbn. by apply (layer_readable w0 w1 eng2 c). }
  apply wp_bind. eapply wp_mono; [by apply wp_materialize_norm_weights|].
  intros [[ok mw3] own] w3 (O & -> & G & K & Ee & ND).
  set (eng3 := with_weights mw3 _ _ eng2).
  assert (H3 : forall b, holds w0 w3 (with_budget b eng3)).
  { intros b. eapply holds_grow; [exact H1|exact G| |done]. done. }
  assert (H3' : holds w0 w3 eng3).
  { eapply holds_grow; [exact H1|exact G| |done]. done. }
  destruct ok; cbn [negb]; apply wp_ret; (split; [done|]); (split; [done|]); (split; [done|]); [|done].
  intros _. exists c, cfg, mw. split; [done|]. destruct (ND eq_refl) as [N1 N2]. rewrite Emw, R1 in K, N1. rewrite Emw, R2 in N2.
  assert (L : Forall2 (fun lw0 lw => matrices_kept (rebase_layer (weights_ eng2) lw0) lw) (layers mw) (layers mw3))
    by exact (Forall2_rebase _ _ _ _ K).
  split; [|split; [done|]].
  - split; [apply (mapped_file_keeps w0 w1 w3 eng2); [by eapply grow_keeps|done..]|done| | |].
    + cbn. pose proof (Forall2_rebase _ _ _ _ N1) as N1'. clear N1. rename N1' into N1. apply Forall2_same_length_lookup_2; [by eapply Forall2_length|].
      intros i lw0 lw Hl0 Hl. split.
      * by apply (Forall2_lookup_lr _ _ _ _ _ _ N1 Hl0 Hl).
      * right. by apply (Forall2_lookup_lr _ _ _ _ _ _ L Hl0 Hl).
    + destruct N2 as (src & p & N2 & N3 & N4). destruct (output_norm mw) as [o|]; [|done]. cbn in N2. injection N2 as <-.
      by exists o, p.
    + apply ends_types in Ee. cbn. rewrite Ee, Emw. by destruct mw.
  - cbn. by rewrite Ee, Emw.
Qed.

(** ** The pools *)

Lemma wp_init_buffers p w0 w eng :
  holds w0 w eng -> ScratchPool.base_ (scratch_ eng) = 0 ->
  wp (init_buffers kv_alloc e p eng) (fun r w' => let '(ok, eng') := r in
    holds w0 w' eng' /\ keeps w w' /\
    (weights_ eng', weights_size_ eng', mapped_output_ eng', stream_ eng', host_logits_ eng', config_ eng', model_weights_ eng') =
    (weights_ eng, weights_size_ eng, mapped_output_ eng, stream_ eng, host_logits_ eng, config_ eng, model_weights_ eng) /\
    (ok = true -> KVCache.max_context (KVCache.cfg_ (kv_cache_ eng')) = choose_context (budget_ eng) (config_ eng) p)) w.
Proof.
  intros H Hs. unfold init_buffers. apply wp_bind. unfold wp at 1, kv_init. cbn [fst snd].
  destruct (KVCache.init _ _ _) as [ok kv] eqn:Ek.
  assert (Keep : forall w' eng', grow w [] w' -> owned eng' = owned eng -> handles_of eng' = handles_of eng -> holds w0 w' eng' /\ keeps w w').
  { intros w' eng' G Eo Eh. split; [|by eapply grow_keeps]. eapply holds_grow; [exact H|exact G|by rewrite Eo, app_nil_r|done]. }
  destruct ok; cbn [negb].
  2:{ apply wp_ret. match goal with |- holds _ ?w' ?g /\ _ => destruct (Keep w' g) end; [by apply grow_refl|done..|by split]. }
  assert (Ekv : KVCache.max_context (KVCache.cfg_ kv) = choose_context (budget_ eng) (config_ eng) p).
  { revert Ek. unfold KVCache.init. repeat case_match; intros; simplify_eq; try done; by destruct (_ && _) in *. }
  apply wp_bind. unfold wp at 1, cudaMallocPool. destruct (rt_malloc_pool (next w) _) as [q|] eqn:E; cbn [fst snd ScratchPool.init negb]; apply wp_ret.
  2:{ match goal with |- holds _ ?w' ?g /\ _ => destruct (Keep w' g) end; [by apply grow_refl|done..|by split]. }
  destruct (rt_malloc_pool_fresh _ _ _ E) as [Hf Hq]. cbn in Hf.
  destruct H as [HD HH HR HP HB HW]. unfold pool_state in HP. rewrite Hs in HP. destruct HP as [[_ Ep]|[]]; [|done].
  split; [|by split].
  split; [done|by eapply host_state_same|done| |done|by destruct HW].
  right. split; [done|]. split; [by rewrite <- Ep|]. exists (scratch_size (config_ eng)). cbn. by rewrite Ep.
Qed.

(** ** The layers and the output projection *)

Lemma matrices_kept_readable w cfg base lw0 lw :
  matrices_kept (rebase_layer base lw0) lw -> matrices_readable w cfg (rebase_layer base lw0) -> matrices_readable w cfg lw.
Proof. intros K. unfold matrices_readable. by rewrite (specs_kept _ _ _ K). Qed.

Lemma norms_moved_kept w nb qb lw0 lw lw' :
  norms_kept lw lw' -> norms_moved w nb qb lw0 lw -> norms_moved w nb qb lw0 lw'.
Proof.
  intros [Et K] [A B C [F1 F2]].
  assert (D : forall n s, s ∉ quant_slots -> on_device w n s lw0 lw -> on_device w n s lw0 lw').
  { intros n s Hs (src & p & ? & ? & ?). exists src, p. by rewrite K. }
  split; [apply D; [set_solver|done]..| |].
  - intros Hq. destruct (C Hq). split; (apply D; [set_solver|done]).
  - split; [by rewrite Et|]. unfold both_qk in *.
    change (q_norm lw') with (slot_ptr QNorm lw'). change (k_norm lw') with (slot_ptr KNorm lw'). by rewrite !K by set_solver.
Qed.

(** The pass over the layers, on an engine whose layers have not been moved. *)
Lemma wp_place_layers w0 w c cfg mw eng :
  holds w0 w eng -> opened w0 w c cfg mw eng -> untouched mw eng -> tensors_fit c cfg mw ->
  wp (place_layers e eng) (fun r w' => let '(ok, eng') := r in
    holds w0 w' eng' /\ (exists O, grow w O w') /\ handles_of eng' = handles_of eng /\
    ends (model_weights_ eng') = ends (model_weights_ eng) /\
    opened w0 w' c cfg mw eng' /\
    (ok = true -> mapped_weight_device_enabled e = false -> fast_gemv_enabled_for_device_weights e = true ->
     device_layer_limit e <> 0 ->
     Forall2 (fun lw0 lw => matrices_moved w' cfg (rebase_layer (weights_ eng') lw0) lw) (layers mw) (layers (model_weights_ eng')))) w.
Proof.
  intros H Op Un [T1 T2 T3 T4]. pose proof Op as [MF Ec L N Ht]. unfold place_layers. rewrite Ec.
  assert (HR : Forall (matrices_readable w cfg) (layers (model_weights_ eng))).
  { apply Forall_lookup_2. intros i lw Hl. destruct (Forall2_lookup_r _ _ _ _ _ Un Hl) as (lw0 & Hl0 & K).
    eapply matrices_kept_readable; [exact K|]. apply (layer_readable w0 w eng c); [done|done|].
    by apply (Forall_lookup_1 _ _ _ _ T2 Hl0). }
  apply wp_bind. eapply wp_mono; [by apply wp_materialize_layer_weights|].
  intros [[n mw'] own] w1 (O & -> & G & K & E1 & E2 & D1 & D2). pose proof (ends_types _ _ E1). set (eng1 := with_weights mw' _ _ eng).
  (* the layers, one by one *)
  assert (L1 : Forall2 (layer_at w1 cfg (weights_ eng)) (layers mw) (layers mw')).
  { apply Forall2_same_length_lookup_2; [by rewrite (Forall2_length _ _ _ L), (Forall2_length _ _ _ K)|].
    intros i lw0 lw' Hl0 Hl'. destruct (Forall2_lookup_l _ _ _ _ _ L Hl0) as (lw & Hl & La).
    pose proof (Forall2_lookup_lr _ _ _ _ _ _ K Hl Hl') as Hk. pose proof (Forall2_lookup_lr _ _ _ _ _ _ D1 Hl Hl') as Hd.
    pose proof (Forall2_lookup_lr _ _ _ _ _ _ Un Hl0 Hl) as Hu.
    destruct (layer_at_keeps w w1 _ _ _ _ (grow_keeps _ _ _ G) La) as [La1 La2].
    split; [by eapply norms_moved_kept|]. destruct Hd as [Hd| ->]; [left|by right].
    intros s Hs. apply Hd. by rewrite (specs_kept _ _ _ Hu). }
  assert (Op1 : forall eng2, weights_ eng2 = weights_ eng -> weights_size_ eng2 = weights_size_ eng -> config_ eng2 = cfg ->
    model_weights_ eng2 = mw' -> opened w0 w1 c cfg mw eng2).
  { intros eng2 F1 F2 F3 F4. split; rewrite ?F1, ?F4; [by eapply (mapped_file_keeps w0 w w1 eng); [by eapply grow_keeps|..]|done|done| |congruence].
    destruct N as (o & p & N1 & N2 & N3). exists o, p. rewrite E2. split; [done|]. split; [done|]. by eapply mirrors_grow. }
  assert (H1 : forall eng2, owned eng2 = owned eng ++ O -> handles_of eng2 = handles_of eng -> holds w0 w1 eng2).
  { intros eng2 F1 F2. eapply holds_grow; [exact H|exact G|by rewrite F1|done]. }
  destruct n as [n|]; apply wp_ret.
  - split; [apply H1; [done|done]|]. split; [by exists O|]. split; [done|]. split; [done|].
    split; [by apply Op1|]. intros _ M1 M2 M3. cbn.
    apply Forall2_same_length_lookup_2; [by rewrite (Forall2_length _ _ _ L), (Forall2_length _ _ _ K)|].
    intros i lw0 lw' Hl0 Hl'. destruct (Forall2_lookup_l _ _ _ _ _ Un Hl0) as (lw & Hl & Hu).
    pose proof (Forall2_lookup_lr _ _ _ _ _ _ (D2 ltac:(done) M1 M2 M3) Hl Hl') as Hd.
    intros s Hs. apply Hd. by rewrite (specs_kept _ _ _ Hu).
  - split; [apply H1; [done|done]|]. split; [by exists O|]. split; [done|]. split; [done|].
    split; [by apply Op1|done].
Qed.

Lemma pages_ge n : 0 <= n -> n <= pages n /\ 0 < rt_page_size.
Proof.
  intros Hn. destruct rt_page as (k & Hk & E). assert (0 < rt_page_size) by (rewrite E; lia). unfold pages. split; [|done].
  pose proof (Z.mod_pos_bound (n + rt_page_size - 1) rt_page_size ltac:(done)). rewrite Z.mod_eq in * by lia. lia.
Qed.

(** Rounding inside the mapping stays inside its pages. *)
Lemma page_range base n p k :
  base mod rt_page_size = 0 -> 0 < base -> base <= p -> 0 <= k -> p + k <= base + n -> 0 <= n ->
  base <= p / rt_page_size * rt_page_size /\ (p + k + rt_page_size - 1) / rt_page_size * rt_page_size <= base + pages n.
Proof.
  intros Hm Hb Hp Hk Hn Hn0. destruct (pages_ge n Hn0) as [_ Hps]. unfold pages.
  assert (E : base = base / rt_page_size * rt_page_size).
  { rewrite Z.mod_eq in Hm by lia. lia. }
  split.
  - rewrite E at 1. apply Z.mul_le_mono_nonneg_r; [lia|]. apply Z.div_le_mono; lia.
  - rewrite E. rewrite <- Z.mul_add_distr_r. apply Z.mul_le_mono_nonneg_r; [lia|].
    rewrite <- Z.div_add_l by lia. apply Z.div_le_mono; lia.
Qed.

(** Where the output projection is, given where it was mapped. *)
Inductive output_at (w : World) (n : Z) (src : option Z) (eng : Engine) : Prop :=
| oa_mapped : output (model_weights_ eng) = src -> mapped_weight_device_enabled e = true -> output_at w n src eng
| oa_region p b m d :
    output (model_weights_ eng) = src -> src = Some p -> g_region w = mkRegion b d m -> 0 < d -> 0 < b ->
    registered w !! b = Some m -> b <= p -> p + n <= b + m -> 0 < n -> output_at w n src eng
| oa_moved s p :
    src = Some s -> output (model_weights_ eng) = Some p -> mirrors w p 0 s n -> 0 < n -> output_at w n src eng.

(** Where the embedding is: it moves together with an output projection that
    shares its tensor. *)
Inductive embd_at (w : World) (n : Z) (src out : option Z) (eng : Engine) : Prop :=
| ea_left : tok_embd (model_weights_ eng) = src -> embd_at w n src out eng
| ea_moved s p :
    src = Some s -> out = src -> tok_embd (model_weights_ eng) = Some p -> mirrors w p 0 s n -> 0 < n ->
    fast_embedding_enabled e = true -> embd_at w n src out eng.

(** A range of the file has been registered for the output projection. *)
Lemma holds_region_made w0 w w1 c eng eng1 b m :
  holds w0 w eng -> mapped_file w0 w eng c -> mapped_output_ eng = (0, 0) -> region_made w b m w1 ->
  mapped_weight_device_enabled e = false -> weights_ eng <= b -> b + m <= weights_ eng + pages (zlen c) ->
  mapped_file w0 w1 eng1 c -> owned eng1 = owned eng ->
  handles_of eng1 = (weights_ eng, weights_size_ eng, (b, m), stream_ eng, decode_graph_ eng, decode_graph_exec_ eng, host_logits_ eng,
    ScratchPool.base_ (scratch_ eng)) -> holds w0 w1 eng1.
Proof.
  intros [HD HH HR HP HB HW] MF Em RM Hm Hb Hbm MF1 Eo Eh. unfold handles_of in Eh. injection Eh as E1 E2 E3 E4 E5 E6 E7 E8.
  pose proof (rm_rest _ _ _ _ RM) as Er. destruct (rm_region _ _ _ _ RM) as (d & Hd & Eg). pose proof (mf_base _ _ _ _ MF).
  assert (Hreg : registered w = registered w0).
  { destruct HH; try done; try congruence. simplify_eq.
    match goal with E : mapped_output_ eng = (_, _) |- _ => rewrite Em in E; injection E as <- <- end. lia. }
  split.
  - by rewrite Eo, (rm_dev _ _ _ _ RM).
  - apply (hs_output w0 w1 eng1 c b m d); try done; rewrite <- ?Hreg; [apply (rm_fresh _ _ _ _ RM)|apply (rm_registered _ _ _ _ RM)|lia|lia].
  - unfold run_state in *. rewrite E4, E5, E6, E7. replace (handles w1) with (handles w) by congruence.
    by replace (pinned w1) with (pinned w) by congruence.
  - unfold pool_state in *. rewrite E8. by replace (pools w1) with (pools w) by congruence.
  - congruence.
  - destruct HW as [W1 W2 W3]. split; rewrite ?(rm_dev _ _ _ _ RM); [done|done|].
    by replace (maps w1) with (maps w) by congruence.
Qed.

Lemma wp_place_output want w0 w c cfg mw eng :
  holds w0 w eng -> opened w0 w c cfg mw eng -> ends (model_weights_ eng) = ends (rebase (weights_ eng) mw) ->
  tensors_fit c cfg mw -> (want = true -> mapped_weight_device_enabled e = false) -> mapped_output_ eng = (0, 0) ->
  wp (place_output e want eng) (fun r w' => let '(n, eng') := r in
    holds w0 w' eng' /\ keeps w w' /\ opened w0 w' c cfg mw eng' /\ weights_ eng' = weights_ eng /\
    (stream_ eng', host_logits_ eng') = (stream_ eng, host_logits_ eng) /\
    layers (model_weights_ eng') = layers (model_weights_ eng) /\
    (n <> 0 -> fast_gemv_enabled_for_device_weights e = true) /\
    embd_at w' (output_bytes mw cfg) (Z.add (weights_ eng) <$> tok_embd mw) (Z.add (weights_ eng) <$> output mw) eng' /\
    (n <> 0 \/ mapped_weight_device_enabled e = true ->
     output_at w' (output_bytes mw cfg) (Z.add (weights_ eng) <$> output mw) eng')) w.
Proof.
  intros H Op Ee Fit Hw Em. pose proof Op as [MF Ec L N Ht]. pose proof Fit as [T1 T2 T3 T4].
  destruct (rebase_fields (weights_ eng) mw) as (R1 & R2 & R3 & R4 & R5).
  assert (Eo : output (model_weights_ eng) = Z.add (weights_ eng) <$> output mw) by (unfold ends in Ee; congruence).
  assert (Et : tok_embd (model_weights_ eng) = Z.add (weights_ eng) <$> tok_embd mw) by (unfold ends in Ee; congruence).
  assert (En : output_bytes (model_weights_ eng) cfg = output_bytes mw cfg).
  { unfold output_bytes. unfold ends in Ee. f_equal. congruence. }
  unfold place_output. rewrite Ec. clear Ec. apply wp_bind. eapply wp_mono; [apply wp_materialize_output_weight; [|done]|].
  { rewrite En, Eo. intros p Hp. destruct (output mw) as [o|]; [|done]. cbn in Hp. injection Hp as <-.
    destruct (T4 o eq_refl) as (? & ? & ?). rewrite (host_read_file w0 w eng c) by done. rewrite peek_at_Some by done.
    pose proof (mf_base _ _ _ _ MF). pose proof (mf_bound _ _ _ _ MF). destruct (pages_ge (zlen c)) as [? _]; [lia|].
    split; [lia|]. split; [by eexists|lia]. }
  rewrite En. set (n := output_bytes mw cfg) in *.
  intros [[[n1 mw1] own1] map1] w1 R.
  assert (K1 : layers mw1 = layers (model_weights_ eng) /\ output_norm mw1 = output_norm (model_weights_ eng) /\
    end_types mw1 = end_types (model_weights_ eng)).
  { inversion R; subst; [done|done|]. unfold output_copied. destruct (_ && _); by destruct (model_weights_ eng). }
  destruct K1 as (K1 & K2 & K3). set (eng1 := with_budget _ _).
  assert (Opn : keeps w w1 -> opened w0 w1 c cfg mw eng1) by (intros K; by apply (opened_keeps w0 w w1 c cfg mw eng eng1)).
  inversion R as [w' G|p b m w' Es Hn RM Hb Hbm Eb Ebm Hunm Hg|s p w' Es Hn G M Hg]; subst; apply wp_ret.
  - pose proof (grow_keeps _ _ _ G) as K. split; [eapply holds_grow; [exact H|exact G|by rewrite app_nil_r|done]|].
    split; [done|]. split; [by apply Opn|]. do 4 (split; [done|]). split; [by apply ea_left|].
    intros [|Hmap]; [done|]. by apply oa_mapped.
  - assert (K : keeps w w1).
    { split; [intros q d; by rewrite (rm_dev _ _ _ _ RM)|]. pose proof (rm_rest _ _ _ _ RM). congruence. }
    pose proof (rm_rest _ _ _ _ RM) as Er. destruct (rm_region _ _ _ _ RM) as (d & Hd & Eg).
    rewrite Eo in Es. destruct (output mw) as [o|]; [|done]. cbn in Es. injection Es as <-.
    destruct (T4 o eq_refl) as (F1 & F2 & F3). fold n in F2, F3.
    destruct (page_range (weights_ eng) (zlen c) (weights_ eng + o) n) as [P1 P2];
      [by apply (mf_page _ _ _ _ MF)|by apply (mf_base _ _ _ _ MF)|lia|lia|lia|lia|].
    pose proof (mf_base _ _ _ _ MF).
    set (b := (weights_ eng + o) / rt_page_size * rt_page_size) in *.
    split; [|split; [done|]; split; [by apply Opn|]; do 4 (split; [done|]); split; [by apply ea_left|]].
    + apply (holds_region_made w0 w w1 c eng eng1 b m); try done; [lia|by apply (mapped_file_keeps w0 w w1 eng)].
    + intros _. apply (oa_region w1 n _ eng1 (weights_ eng + o) b m d); try done.
      * clearbody b. lia.
      * rewrite (rm_registered _ _ _ _ RM). by rewrite lookup_insert_eq.
  - pose proof (grow_keeps _ _ _ G) as K.
    split; [eapply holds_grow; [exact H|exact G|done|done]|].
    split; [done|]. split; [by apply Opn|]. do 4 (split; [done|]). split.
    { unfold eng1, output_copied. destruct (bool_decide (output (model_weights_ eng) = tok_embd (model_weights_ eng)) && _) eqn:Etie;
        [|apply ea_left; cbn; by destruct (model_weights_ eng)].
      apply andb_true_iff in Etie as [Etie%bool_decide_eq_true Hf].
      apply (ea_moved _ _ _ _ _ s p); [congruence|congruence|by destruct (model_weights_ eng)|done..]. }
    intros _. apply (oa_moved w1 n _ eng1 s p); [by rewrite <- Eo| |done|done].
    cbn. unfold output_copied. destruct (_ && _); by destruct (model_weights_ eng).
Qed.

(** Every tensor, once the weights have their places. *)
Record placed (w0 w : World) (c : bytes) (cfg : ModelConfig) (mw : ModelWeights) (eng : Engine) : Prop := {
  pl_opened : opened w0 w c cfg mw eng;
  pl_all : mapped_weight_device_enabled e = false -> device_layer_limit e <> 0 ->
    Forall2 (fun lw0 lw => matrices_moved w cfg (rebase_layer (weights_ eng) lw0) lw) (layers mw) (layers (model_weights_ eng));
  pl_output : output_at w (output_bytes mw cfg) (Z.add (weights_ eng) <$> output mw) eng;
  pl_embd : embd_at w (output_bytes mw cfg) (Z.add (weights_ eng) <$> tok_embd mw) (Z.add (weights_ eng) <$> output mw) eng }.

Lemma embd_at_same w w' n src out eng eng' :
  keeps w w' -> tok_embd (model_weights_ eng') = tok_embd (model_weights_ eng) ->
  embd_at w n src out eng -> embd_at w' n src out eng'.
Proof.
  intros K E [H|s p E1 E2 E3 M]; [apply ea_left; congruence|].
  apply (ea_moved _ _ _ _ _ s p); [done|done|congruence|by eapply mirrors_keeps|done|done].
Qed.

Lemma output_at_same w w' n src eng eng' :
  keeps w w' -> g_region w' = g_region w -> registered w' = registered w ->
  output (model_weights_ eng') = output (model_weights_ eng) -> output_at w n src eng -> output_at w' n src eng'.
Proof.
  intros K Eg Er Eo H. destruct H as [E1 E2|p b m d E1 E2 E3 E4 E5 E6 E7 E8 E9|s p E1 E2 E3 E4].
  - apply oa_mapped; congruence.
  - apply (oa_region _ _ _ _ p b m d); congruence || done.
  - apply (oa_moved _ _ _ _ s p); [done|congruence|by eapply mirrors_keeps|done].
Qed.

Lemma wp_place_weights w0 w c cfg mw eng :
  holds w0 w eng -> opened w0 w c cfg mw eng -> untouched mw eng ->
  ends (model_weights_ eng) = ends (rebase (weights_ eng) mw) -> tensors_fit c cfg mw -> mapped_output_ eng = (0, 0) ->
  stream_ eng = 0 -> host_logits_ eng = 0 ->
  wp (place_weights e eng) (fun r w' => let '(ok, eng') := r in
    holds w0 w' eng' /\ stream_ eng' = 0 /\ host_logits_ eng' = 0 /\ (ok = true -> placed w0 w' c cfg mw eng')) w.
Proof.
  intros H Op Un Ee Fit Em Es El. unfold place_weights.
  destruct (mapped_weight_device_enabled e) eqn:Emap; cbn [negb].
  - apply wp_bind. eapply wp_mono; [by apply (wp_place_output false w0 w c cfg mw eng)|].
    intros [n eng1] w1 (H1 & K1 & Op1 & Ew1 & R1 & L1 & _ & Ea1 & Oa1).
    assert (Un1 : untouched mw eng1) by (unfold untouched; by rewrite Ew1, L1).
    eapply wp_mono; [by apply (wp_place_layers w0 w1 c cfg mw eng1)|].
    intros [ok eng2] w2 (H2 & [O2 G2] & Eh & Ee2 & Op2 & All2). injection Eh as Hw1 Hs1 Hm1 Ht1 _ _ Hl1 _.
    split; [done|]. split; [congruence|]. split; [congruence|]. intros _.
    assert (Ew2 : weights_ eng2 = weights_ eng) by congruence.
    injection (grow_rest _ _ _ G2) as _ Er _ _ _ Eg _. injection Ee2 as Et2 _ Eo2 _.
    split; [done|congruence| |]; rewrite Ew2.
    + eapply output_at_same; [by eapply grow_keeps|done|done|done|apply Oa1; by right].
    + eapply embd_at_same; [by eapply grow_keeps|done|done].
  - apply wp_bind. eapply wp_mono; [by apply (wp_place_layers w0 w c cfg mw eng)|].
    intros [ok eng1] w1 (H1 & [O1 G1] & Eh & Ee1 & Op1 & All1). injection Eh as Hw1 Hs1 Hm1 Ht1 _ _ Hl1 _.
    destruct ok; cbn [negb]; [|apply wp_ret; split; [done|]; split; [congruence|]; split; [congruence|done]].
    apply wp_bind. eapply wp_mono; [apply (wp_place_output true w0 w1 c cfg mw eng1); try done; congruence|].
    intros [n eng2] w2 (H2 & K2 & Op2 & Ew2 & R2 & L2 & Hg & Ea2 & Oa2). apply wp_ret.
    split; [done|]. split; [congruence|]. split; [congruence|]. intros Hn%negb_true_iff%Z.eqb_neq.
    split; [done| |rewrite Ew2; apply Oa2; by left|by rewrite Ew2].
    intros _ Hl. rewrite Ew2, L2. eapply Forall2_impl; [apply All1; [done|done|by apply Hg|done]|].
    intros. by eapply matrices_moved_keeps.
Qed.

Lemma placed_run w0 w w' c cfg mw eng eng' :
  dev w' = dev w -> maps w' = maps w -> registered w' = registered w -> g_region w' = g_region w ->
  (weights_ eng', weights_size_ eng', config_ eng', model_weights_ eng') =
  (weights_ eng, weights_size_ eng, config_ eng, model_weights_ eng) ->
  placed w0 w c cfg mw eng -> placed w0 w' c cfg mw eng'.
Proof.
  intros Ed Em Er Eg E [A B C D]. injection E as E1 E2 E3 E4.
  assert (K : keeps w w') by (split; [by rewrite Ed|done]).
  split; rewrite ?E1, ?E4.
  - apply (opened_keeps w0 w w' c cfg mw eng eng'); by rewrite ?E1, ?E2, ?E3, ?E4.
  - intros H1 H2. eapply Forall2_impl; [by apply B|]. intros. by eapply matrices_moved_keeps.
  - eapply output_at_same; [exact K|done|done|by rewrite E4|done].
  - eapply embd_at_same; [exact K|by rewrite E4|done].
Qed.

Lemma wp_finish file w0 w c cfg mw eng :
  holds w0 w eng -> stream_ eng = 0 -> host_logits_ eng = 0 -> placed w0 w c cfg mw eng ->
  wp (finish sort_by_size file eng) (fun r w' => match r with
    | None => True
    | Some (ok, eng') => holds w0 w' eng' /\ (ok = true -> placed w0 w' c cfg mw eng')
    end) w.
Proof.
  intros [HD HH (R1 & R2 & RS & RL) HP HB HW] Es El Pl. unfold finish.
  destruct RS as [[_ Eh]|[? _]]; [|done]. destruct RL as [[_ Ep]|[? _]]; [|done].
  (* the state with the stream, and perhaps the buffer *)
  assert (End : forall w' eng', (dev w', maps w', registered w', g_region w', bad w', pools w') = (dev w, maps w, registered w, g_region w, bad w, pools w) ->
      (owned eng', weights_ eng', weights_size_ eng', mapped_output_ eng', config_ eng', model_weights_ eng', scratch_ eng') =
      (owned eng, weights_ eng, weights_size_ eng, mapped_output_ eng, config_ eng, model_weights_ eng, scratch_ eng) ->
      run_state w0 w' eng' -> holds w0 w' eng' /\ placed w0 w' c cfg mw eng').
  { intros w' eng' E1 E2 Hr. injection E1 as F1 F2 F3 F4 F5 F6. injection E2 as G1 G2 G3 G4 G5 G6 G7. split.
    - split; [by rewrite F1, G1|by eapply host_state_same|done|unfold pool_state; by rewrite F6, G7|congruence|].
      destruct HW as [W1 W2 W3]. split; rewrite ?F1, ?F2; done.
    - eapply placed_run; [done..| |exact Pl]. congruence. }
  apply wp_bind. unfold wp at 1, cudaStreamCreate.
  assert (S : exists s w1, (match rt_stream w with Some s => (s, set_handles ({[s]} ∪ handles w) w) | None => (0, next w) end) = (s, w1) /\
    (dev w1, maps w1, registered w1, g_region w1, bad w1, pools w1, pinned w1) =
    (dev w, maps w, registered w, g_region w, bad w, pools w, pinned w) /\
    (s = 0 /\ handles w1 = handles w0 \/ s <> 0 /\ (s ∉ handles w0) /\ handles w1 = {[s]} ∪ handles w0)).
  { destruct (rt_stream w) as [s|] eqn:E; eexists _, _; (split; [done|]); (split; [done|]); [right|by left].
    destruct (rt_stream_fresh _ _ E) as [F1 F2]. cbn. rewrite <- Eh. done. }
  destruct S as (s & w1 & -> & E1 & HS). injection E1 as F1 F2 F3 F4 F5 F7 F6. cbn [fst snd].
  destruct (TokenizerFile.load_from_gguf _ _ _) as [[ok tk]|]; [|by apply wp_ret].
  apply wp_bind. unfold wp at 1, cudaMallocHost. destruct (rt_malloc_host w1 _) as [p|] eqn:E; cbn [fst snd]; apply wp_ret.
  - destruct (rt_malloc_host_fresh _ _ _ E) as [P1 P2].
    match goal with |- holds w0 ?w' ?g /\ _ => destruct (End w' g) as [H1 H2]; [|done| |by split] end.
    + cbn. congruence.
    + split; [done|]. split; [done|]. cbn. split; [by destruct HS as [|(? & ? & ?)]; [left|right]|].
      right. split; [done|]. split; [by rewrite <- Ep, <- F6|]. eexists. by rewrite F6, Ep.
  - match goal with |- holds w0 ?w' ?g /\ _ => destruct (End w' g) as [H1 H2]; [|done| |by split] end.
    + cbn. congruence.
    + split; [done|]. split; [done|]. cbn. split; [by destruct HS as [|(? & ? & ?)]; [left|right]|].
      left. split; [done|]. by rewrite F6, Ep.
Qed.

Lemma load_spec path file meminfo p w0 eng :
  idle eng -> wf w0 -> g_region w0 = no_region -> fits path file ->
  wp (load kv_alloc rd sort_by_size e path file meminfo p eng) (fun r w' => match r with
    | None => True
    | Some (ok, eng') => holds w0 w' eng' /\
        (ok = true -> exists c cfg mw, model_of path file c cfg mw /\ placed w0 w' c cfg mw eng')
    end) w0.
Proof.
  intros Hi W Eg Hf. unfold load. apply wp_bind. eapply wp_mono; [by apply (wp_open_model path file meminfo w0 eng)|].
  intros [[[] eng1]|] w1 H1; [| |by apply wp_ret].
  2:{ apply wp_ret. by destruct H1. }
  destruct H1 as (H1 & Es1 & Z1 & HF). destruct (HF eq_refl) as (c & cfg & mw & Hm & Op1 & Un1 & Ee1). clear HF.
  pose proof (Hf _ _ _ Hm) as Fit.
  assert (Hs : ScratchPool.base_ (scratch_ eng1) = 0).
  { rewrite Es1. by destruct Hi as (_ & _ & _ & _ & _ & _ & _ & I). }
  apply wp_bind. eapply wp_mono; [by apply (wp_init_buffers p w0 w1 eng1)|].
  intros [[] eng2] w2 (H2 & K2 & Eh2 & _); cbn [negb]; [|by apply wp_ret].
  injection Eh2 as Hw Hsz Hmo Hst Hhl Ec2 Ew2. destruct Z1 as (Z1 & Z2 & Z3).
  assert (Op2 : opened w0 w2 c cfg mw eng2) by (apply (opened_keeps w0 w1 w2 c cfg mw eng1 eng2); try done; by rewrite Ew2).
  apply wp_bind. eapply wp_mono; [apply (wp_place_weights w0 w2 c cfg mw eng2); try done|].
  - unfold untouched in *. by rewrite Hw, Ew2.
  - by rewrite Hw, Ew2.
  - congruence.
  - congruence.
  - congruence.
  - intros [[] eng3] w3 (H3 & S3 & L3 & P3); cbn [negb]; [|by apply wp_ret].
    eapply wp_mono; [by apply (wp_finish file w0 w3 c cfg mw eng3); [| | |apply P3]|].
    intros [[ok eng4]|] w4 H4; [|done]. destruct H4 as [H4 P4]. split; [done|]. intros Hok. exists c, cfg, mw. by split; [|apply P4].
Qed.

Lemma unloaded_idle w0 w1 eng : holds w0 w1 eng -> idle (unloaded eng).
Proof.
  intros H.
  assert (Em : mapped_output_ (unloaded eng) = (0, 0)).
  { unfold unloaded. destruct (model_weights_ eng). cbn. destruct (Z.eqb_spec (fst (mapped_output_ eng)) 0) as [E|]; [|done].
    destruct (h_host _ _ _ H) as [| | | |c b m d MF E2 _ _ _ _ Hb]; try done. pose proof (mf_base _ _ _ _ MF).
    rewrite E2 in E. cbn in E. lia. }
  unfold idle. rewrite Em. unfold unloaded, owned. by destruct (model_weights_ eng).
Qed.

(** ** The fields that requests read *)

Lemma wp_any {A} (m : M A) (Q : A -> World -> Prop) w : (forall a w', Q a w') -> wp m Q w.
Proof. intros H. apply H. Qed.

Definition fields (eng : Engine) := (config_ eng, model_fingerprint_ eng, kv_cache_ eng, tokenizer_ eng).

Lemma mapped_size file w :
  wp (load_gguf_weights e file) (fun r _ => is_Some (snd r) -> exists f, file = Some f /\ fst r = Some (zlen f)) w.
Proof.
  unfold load_gguf_weights. destruct file as [f|]; [|by apply wp_ret; intros []].
  assert (Got : forall (b : Z) w, wp (mret (Some (zlen f), Some b)) (fun r _ => is_Some (snd r) -> exists f0, Some f = Some f0 /\
    fst r = Some (zlen f0)) w) by (intros b w'; apply wp_ret; by exists f).
  apply wp_bind, wp_any. intros [b|] w1; [|by apply wp_ret; intros []].
  destruct (negb _); [apply Got|]. apply wp_bind, wp_any. intros [] w2; cbn [negb]; [|apply Got].
  apply wp_bind, wp_any. intros d w3. destruct (_ =? 0); [apply Got|]. apply wp_bind, wp_any. intros _ w4. apply Got.
Qed.

Lemma map_model_fields file eng w :
  wp (map_model e file eng) (fun r _ => forall eng', r = Some (true, eng') ->
    fields eng' = fields eng /\ budget_ eng' = budget_ eng /\ exists f, file = Some f /\ weights_size_ eng' = zlen f) w.
Proof.
  unfold map_model. destruct (parse_tensor_infos file) as [[off ts]|]; [|by apply wp_ret].
  destruct (off <? 0); [by apply wp_ret|]. apply wp_bind. eapply wp_mono; [apply mapped_size|].
  intros [sz [b|]] w1 Hs; cbn [fst snd] in *; [|by apply wp_ret].
  destruct Hs as (f & -> & ->); [by eexists|]. destruct (load_and_map_weights _ _ _) as [[ok mw]|]; [|by apply wp_ret].
  apply wp_ret. intros eng' [= _ <-]. split; [done|]. split; [done|]. by exists f.
Qed.

(** The budget that the context length is chosen from. *)
Definition model_budget (meminfo : option bytes) (c : bytes) : Budget.MemoryBudget :=
  set_model_mb (if mapped_weight_device_enabled e then Z.quot (zlen c) (1024 * 1024) else 0)
    (Budget.probe_system_memory meminfo).

Definition fingerprint (file : option bytes) : bytes :=
  default (replicate 32 Byte.x00) (KVFile.compute_model_fingerprint rd file).

Lemma open_model_fields path c meminfo eng w :
  wp (open_model rd e path (Some c) meminfo eng) (fun r _ => forall eng', r = Some (true, eng') ->
    exists cfg, load_gguf_config path (Some c) = Some cfg /\
      fields eng' = (cfg, fingerprint (Some c), kv_cache_ eng, tokenizer_ eng) /\ budget_ eng' = model_budget meminfo c) w.
Proof.
  unfold open_model. destruct (load_gguf_config path (Some c)) as [cfg|]; [|by apply wp_ret].
  apply wp_bind. eapply wp_mono; [apply map_model_fields|]. intros [[[] eng1]|] w1 H1; [|by apply wp_ret..].
  destruct (H1 _ eq_refl) as (F1 & B1 & f & [= <-] & S1).
  apply wp_bind, wp_any. intros [[ok mw] own] w2. destruct ok; cbn [negb]; [|by apply wp_ret].
  apply wp_ret. intros eng' [= <-]. exists cfg. split; [done|]. split; [exact F1|].
  unfold model_budget. cbn. by rewrite B1, S1.
Qed.

Lemma init_buffers_fields p eng w :
  wp (init_buffers kv_alloc e p eng) (fun r _ => fst r = true ->
    (config_ (snd r), model_fingerprint_ (snd r), tokenizer_ (snd r)) = (config_ eng, model_fingerprint_ eng, tokenizer_ eng) /\
    exists w, @KVCache.init (rt_memory (tick w)) (kv_alloc w) (kv_cache_ eng)
      (kv_config e (config_ eng) (choose_context (budget_ eng) (config_ eng) p) (kv_bytes p)) = (true, kv_cache_ (snd r))) w.
Proof.
  unfold init_buffers. apply wp_bind. unfold wp at 1, kv_init. cbn [fst snd].
  destruct (KVCache.init _ _ _) as [ok kv] eqn:Ek. destruct ok; cbn [negb]; [|by apply wp_ret].
  apply wp_bind, wp_any. intros q w2. destruct (ScratchPool.init _ _ q) as [ok sc].
  destruct ok; cbn [negb]; [|by apply wp_ret]. apply wp_ret. intros _. split; [done|]. by exists w.
Qed.

Lemma place_weights_fields eng w : wp (place_weights e eng) (fun r _ => fields (snd r) = fields eng) w.
Proof.
  assert (L : forall eng w, wp (place_layers e eng) (fun r _ => fields (snd r) = fields eng) w).
  { intros g w0. unfold place_layers. apply wp_bind, wp_any. intros [[[n|] mw] own] w1; by apply wp_ret. }
  assert (O : forall want eng w, wp (place_output e want eng) (fun r _ => fields (snd r) = fields eng) w).
  { intros want g w0. unfold place_output. apply wp_bind, wp_any. intros [[[n mw] own] m] w1. by apply wp_ret. }
  unfold place_weights. destruct (negb _); apply wp_bind.
  - eapply wp_mono; [apply L|]. intros [[] g1] w1 E1; cbn [negb]; [|by apply wp_ret].
    apply wp_bind. eapply wp_mono; [apply O|]. intros [n g2] w2 E2. apply wp_ret. cbn [snd] in *. by rewrite E2.
  - eapply wp_mono; [apply O|]. intros [n g1] w1 E1. eapply wp_mono; [apply L|]. intros r w2 E2. cbn [snd] in *. by rewrite E2.
Qed.

Lemma finish_fields file eng w :
  wp (finish sort_by_size file eng) (fun r _ => forall eng', r = Some (true, eng') ->
    (config_ eng', model_fingerprint_ eng', kv_cache_ eng') = (config_ eng, model_fingerprint_ eng, kv_cache_ eng) /\
    exists ok, TokenizerFile.load_from_gguf sort_by_size file (tokenizer_ eng) = Some (ok, tokenizer_ eng')) w.
Proof.
  unfold finish. apply wp_bind, wp_any. intros s w1. destruct (TokenizerFile.load_from_gguf _ _ _) as [[ok tk]|]; [|by apply wp_ret].
  apply wp_bind, wp_any. intros [p|] w2; apply wp_ret; [|done]. intros eng' [= <-]. split; [done|]. by exists ok.
Qed.

(** Every one of them comes from the file, the command line, the environment
    and the memory of the machine. *)
Lemma loaded_fields path c meminfo p w0 w1 eng :
  load kv_alloc rd sort_by_size e path (Some c) meminfo p constructed w0 = (Some (true, eng), w1) ->
  exists cfg w ok, load_gguf_config path (Some c) = Some cfg /\ config_ eng = cfg /\
    model_fingerprint_ eng = fingerprint (Some c) /\
    @KVCache.init (rt_memory (tick w)) (kv_alloc w) KVCache.fresh
      (kv_config e cfg (choose_context (model_budget meminfo c) cfg p) (kv_bytes p)) = (true, kv_cache_ eng) /\
    TokenizerFile.load_from_gguf sort_by_size (Some c) TokenizerFile.default_tokenizer = Some (ok, tokenizer_ eng).
Proof.
  intros E. assert (L : wp (load kv_alloc rd sort_by_size e path (Some c) meminfo p constructed) (fun r _ =>
      forall eng, r = Some (true, eng) -> exists cfg w ok, load_gguf_config path (Some c) = Some cfg /\ config_ eng = cfg /\
      model_fingerprint_ eng = fingerprint (Some c) /\
      @KVCache.init (rt_memory (tick w)) (kv_alloc w) KVCache.fresh
        (kv_config e cfg (choose_context (model_budget meminfo c) cfg p) (kv_bytes p)) = (true, kv_cache_ eng) /\
      TokenizerFile.load_from_gguf sort_by_size (Some c) TokenizerFile.default_tokenizer = Some (ok, tokenizer_ eng)) w0);
    [|unfold wp in L; rewrite E in L; by apply L].
  unfold load. apply wp_bind. eapply wp_mono; [apply open_model_fields|]. intros [[[] e1]|] wa H1; [|by apply wp_ret..].
  destruct (H1 _ eq_refl) as (cfg & Ec & F1 & B1). injection F1 as C1 P1 K1 T1.
  apply wp_bind. eapply wp_mono; [apply init_buffers_fields|]. intros [[] e2] wb H2; cbn [negb fst snd] in *; [|by apply wp_ret].
  destruct (H2 eq_refl) as (F2 & w & Ek). injection F2 as C2 P2 T2. rewrite C1, K1, B1 in Ek.
  apply wp_bind. eapply wp_mono; [apply place_weights_fields|]. intros [[] e3] wd F3; cbn [negb fst snd] in *; [|by apply wp_ret].
  injection F3 as C3 P3 K3 T3. eapply wp_mono; [apply finish_fields|]. intros r we H4 eng' Er.
  destruct (H4 _ Er) as (F4 & ok & Et). injection F4 as C4 P4 K4. exists cfg, w, ok.
  split; [done|]. split; [congruence|]. split; [congruence|]. split; [by rewrite K4, K3|]. rewrite <- Et. congruence.
Qed.

(** ** Loading and unloading *)


(** ** What the kernels read *)

Lemma device_block_found w p d q n :
  wf w -> dev w !! p = Some d -> p <= q -> q + n <= p + zlen d -> 0 < n -> device_block w q n = Some (p, d).
Proof.
  intros W Hd Hp Hn H0. unfold device_block.
  destruct (List.find _ (map_to_list (dev w))) as [[p' d']|] eqn:E.
  - apply List.find_some in E as [Hin Hb]. cbn [fst snd] in Hb. apply andb_true_iff in Hb as [H1%Z.leb_le H2%Z.leb_le].
    apply list_elem_of_In, elem_of_map_to_list in Hin. destruct (decide (p = p')) as [<-|Hne]; [congruence|].
    destruct (wf_blocks w W p d p' d' Hd Hin Hne); lia.
  - pose proof (List.find_none _ _ E (p, d)) as Hno. cbn [fst snd] in Hno.
    rewrite (proj2 (Z.leb_le p q)), (proj2 (Z.leb_le (q + n) _)) in Hno by lia.
    discriminate Hno. by apply list_elem_of_In, elem_of_map_to_list.
Qed.

(** The region of the kernels lies in the pages of the mapping. *)
Lemma region_outside w0 w eng p d q :
  holds w0 w eng -> dev w !! p = Some d -> p <= q < p + zlen d -> resolve_mapped_weight_device_ptr (g_region w) q = 0.
Proof.
  intros [_ H _ _ _ W] Hd Hq. unfold resolve_mapped_weight_device_ptr.
  assert (None_ : forall g, g = no_region -> (if (q =? 0) || (host_base g =? 0) || (device_base g =? 0) then 0
    else if (q <? host_base g) || (host_base g + region_bytes g <=? q) then 0 else device_base g + (q - host_base g)) = 0).
  { intros g ->. cbn. by rewrite orb_true_r. }
  assert (Pages : forall c, mapped_file w0 w eng c -> q < weights_ eng \/ weights_ eng + pages (zlen c) <= q).
  { intros c MF. pose proof (wf_maps w W p d (weights_ eng, c) Hd) as Hm. rewrite (mf_maps _ _ _ _ MF) in Hm.
    destruct (Hm ltac:(by left)); cbn [fst snd] in *; lia. }
  destruct H as [_ _ _ _ Eg|c MF _ _ Eg|c d' MF _ _ _ _ Eg|c MF _ _ _ Eg|c b m d' MF _ _ _ _ Eg Hb Hbm _];
    try (by apply None_); rewrite Eg; cbn [host_base device_base region_bytes].
  - destruct (_ || _ || _); [done|]. pose proof (mf_pos _ _ _ _ MF). destruct (pages_ge (zlen c)); [lia|].
    destruct (Pages c MF); [rewrite (proj2 (Z.ltb_lt _ _)) by lia; done|].
    rewrite (proj2 (Z.leb_le _ _)), orb_true_r by lia. done.
  - destruct (_ || _ || _); [done|].
    destruct (Pages c MF); [rewrite (proj2 (Z.ltb_lt _ _)) by lia; done|].
    rewrite (proj2 (Z.leb_le _ _)), orb_true_r by lia. done.
Qed.

Lemma seen_moved w0 w eng p off src n :
  holds w0 w eng -> mirrors w p off src n -> 0 < n -> weight_seen w (p + off) n = host_read w src n.
Proof.
  intros H (d & bs & Hd & Hp & Hh) Hn. rewrite Hh, <- Hp.
  destruct (peek_at_inv _ _ _ _ Hp) as [(? & ? & ?) _]. pose proof (h_wf _ _ _ H) as W.
  pose proof (wf_block w W p d Hd). unfold weight_seen, resolve_weight_device_ptr.
  rewrite (region_outside w0 w eng p d) by (done || lia). cbn [negb Z.eqb].
  rewrite (device_block_found w p d (p + off) 1) by (done || lia). rewrite (proj2 (Z.eqb_neq (p + off) 0)) by lia.
  rewrite (device_block_found w p d (p + off) n) by (done || lia). by replace (p + off - p) with off by lia.
Qed.

(** Through the alias of a registered range. *)
Lemma seen_region w b m d p n :
  g_region w = mkRegion b d m -> registered w !! b = Some m -> 0 < b -> 0 < d -> b <= p -> p + n <= b + m -> 0 < n ->
  weight_seen w p n = host_read w p n.
Proof.
  intros Eg Er Hb Hd Hp Hm Hn.
  assert (E : resolve_mapped_weight_device_ptr (g_region w) p = d + (p - b)).
  { rewrite Eg. unfold resolve_mapped_weight_device_ptr. cbn [host_base device_base region_bytes].
    rewrite (proj2 (Z.eqb_neq p 0)), (proj2 (Z.eqb_neq b 0)), (proj2 (Z.eqb_neq d 0)) by lia. cbn [orb].
    by rewrite (proj2 (Z.ltb_ge p b)), (proj2 (Z.leb_gt _ _)) by lia. }
  unfold weight_seen, resolve_weight_device_ptr. rewrite E, (proj2 (Z.eqb_neq (d + (p - b)) 0)) by lia. cbn [negb].
  rewrite (proj2 (Z.eqb_neq (d + (p - b)) 0)) by lia. rewrite Eg. cbn [host_base region_bytes]. by rewrite Er, Z.leb_refl.
Qed.

(** What a kernel reads at a pointer field, and what the file has at its offset. *)
Definition seen (w : World) (p : option Z) (n : Z) : option bytes :=
  match p with Some p => weight_seen w p n | None => None end.
Definition file_bytes (c : bytes) (o : option Z) (n : Z) : option bytes :=
  match o with Some o => peek_at c o n | None => None end.
(** The start of a device block, as the norm kernels read it. *)
Definition block_bytes (w : World) (p : option Z) (n : Z) : option bytes :=
  match p with Some p => match dev w !! p with Some d => peek_at d 0 n | None => None end | None => None end.

Lemma mirrors_block w0 w eng c p o n :
  mapped_file w0 w eng c -> in_file c (Some o) n -> mirrors w p 0 (weights_ eng + o) n ->
  block_bytes w (Some p) n = file_bytes c (Some o) n.
Proof.
  intros MF Hin (d & bs & Hd & Hp & Hh). destruct (Hin o eq_refl) as (? & ? & ?). cbn. rewrite Hd, Hp.
  by rewrite <- Hh, (host_read_file w0 w eng c).
Qed.

Lemma on_device_block w0 w eng c n s lw0 lw :
  mapped_file w0 w eng c -> in_file c (slot_ptr s lw0) n -> on_device w n s (rebase_layer (weights_ eng) lw0) lw ->
  is_Some (slot_ptr s lw0) /\ is_Some (slot_ptr s lw) /\ block_bytes w (slot_ptr s lw) n = file_bytes c (slot_ptr s lw0) n.
Proof.
  intros MF Hin (src & p & E1 & E2 & M). rewrite E2.
  assert (E : slot_ptr s (rebase_layer (weights_ eng) lw0) = Z.add (weights_ eng) <$> slot_ptr s lw0) by by destruct lw0, s.
  rewrite E in E1. destruct (slot_ptr s lw0) as [o|]; [|done]. cbn in E1. injection E1 as <-.
  split; [by eexists|]. split; [by eexists|]. by apply (mirrors_block w0 w eng).
Qed.

(** A layer whose tensors are where the kernels find them, unchanged. *)
Record layer_resident (w : World) (c : bytes) (cfg : ModelConfig) (lw0 lw : LayerWeights) : Prop := {
  lr_matrices s : s ∈ specs lw0 cfg -> 0 < spec_bytes s ->
    seen w (slot_ptr (spec_slot s) lw) (spec_bytes s) = file_bytes c (spec_src s) (spec_bytes s);
  lr_norms s : s = RmsAttn \/ s = RmsFfn ->
    is_Some (slot_ptr s lw0) /\ is_Some (slot_ptr s lw) /\
    block_bytes w (slot_ptr s lw) (norm_bytes cfg) = file_bytes c (slot_ptr s lw0) (norm_bytes cfg);
  lr_qk s : both_qk lw0 -> s = QNorm \/ s = KNorm ->
    is_Some (slot_ptr s lw0) /\ is_Some (slot_ptr s lw) /\
    block_bytes w (slot_ptr s lw) (qk_norm_bytes cfg) = file_bytes c (slot_ptr s lw0) (qk_norm_bytes cfg);
  lr_form : form_kept lw0 lw }.

(** The mode in which kernels reach the weights: through the alias of the whole
    file, or, without it, from device copies that are not switched off. *)
Definition reachable_mode (w : World) (eng : Engine) : Prop :=
  if mapped_weight_device_enabled e then resolve_mapped_weight_device_ptr (g_region w) (weights_ eng) <> 0
  else device_layer_limit e <> 0.

Lemma alias_of_file w0 w eng c :
  holds w0 w eng -> mapped_file w0 w eng c -> mapped_weight_device_enabled e = true -> reachable_mode w eng ->
  exists d, 0 < d /\ g_region w = mkRegion (weights_ eng) d (zlen c) /\ registered w !! weights_ eng = Some (zlen c).
Proof.
  intros H MF Em Hr. unfold reachable_mode in Hr. rewrite Em in Hr.
  assert (No : g_region w = no_region -> False).
  { intros E. rewrite E in Hr. unfold resolve_mapped_weight_device_ptr in Hr. cbn in Hr. by rewrite orb_true_r in Hr. }
  destruct (h_host _ _ _ H) as [? ? ? ? E|? ? ? ? E|c' d MF' ? ? Er Hd Eg|? ? ? ? ? E|]; try (by destruct (No E)); [|congruence].
  pose proof (mf_maps _ _ _ _ MF) as E1. rewrite (mf_maps _ _ _ _ MF') in E1. injection E1 as ->.
  exists d. split; [done|]. split; [done|]. by rewrite Er, lookup_insert_eq.
Qed.

Lemma layer_is_resident w0 w eng c cfg lw0 lw :
  holds w0 w eng -> mapped_file w0 w eng c -> layer_fits c cfg lw0 -> layer_at w cfg (weights_ eng) lw0 lw ->
  reachable_mode w eng ->
  (mapped_weight_device_enabled e = false -> matrices_moved w cfg (rebase_layer (weights_ eng) lw0) lw) ->
  layer_resident w c cfg lw0 lw.
Proof.
  intros H MF [F1 F2 F3 F4 F5] [[N1 N2 N3 N4] M] Hr All.
  assert (Er : forall s, s ∈ specs lw0 cfg ->
    mkSpec (spec_slot s) (Z.add (weights_ eng) <$> spec_src s) (spec_type s) (spec_rows s) (spec_cols s)
      ∈ specs (rebase_layer (weights_ eng) lw0) cfg).
  { intros s Hs. rewrite specs_rebase. apply list_elem_of_fmap. by exists s. }
  split.
  - intros s Hs Hn. pose proof (Er s Hs) as Hs'. rewrite Forall_forall in F5. pose proof (F5 s Hs) as Hin.
    assert (Moved : matrices_moved w cfg (rebase_layer (weights_ eng) lw0) lw ->
      seen w (slot_ptr (spec_slot s) lw) (spec_bytes s) = file_bytes c (spec_src s) (spec_bytes s)).
    { intros Mv. destruct (Mv _ Hs') as (src & q & off & E1 & E2 & Hpos & Mi). cbn [spec_slot spec_src] in E1, E2. rewrite E2.
      cbn [seen]. rewrite (seen_moved w0 w eng q off src) by done.
      destruct (spec_src s) as [o|]; [|done]. cbn in E1. injection E1 as <-. destruct (Hin o eq_refl) as (? & ? & ?).
      by rewrite (host_read_file w0 w eng c). }
    destruct M as [Mv|K]; [by apply Moved|].
    destruct (mapped_weight_device_enabled e) eqn:Em; [|by apply Moved, All].
    destruct (alias_of_file w0 w eng c H MF Em Hr) as (d & Hd & Eg & Ereg).
    assert (Ep : slot_ptr (spec_slot s) lw = Z.add (weights_ eng) <$> spec_src s).
    { destruct K as [_ K]. rewrite K; clear - Hs; unfold specs in Hs; rewrite !elem_of_cons, elem_of_nil in Hs;
        destruct_or? Hs; subst; cbn; try done; try (by destruct lw0); unfold quant_slots; set_solver. }
    rewrite Ep. destruct (spec_src s) as [o|]; [|done]. cbn [fmap option_fmap option_map seen file_bytes].
    destruct (Hin o eq_refl) as (? & ? & ?). pose proof (mf_base _ _ _ _ MF).
    rewrite (seen_region w (weights_ eng) (zlen c) d) by (done || lia). by rewrite (host_read_file w0 w eng c).
  - intros s [-> | ->]; by apply (on_device_block w0 w eng).
  - intros s Hq Hs. destruct N3 as [Q1 Q2].
    { destruct lw0, Hq as [[] []]. cbn in *. simplify_eq. split; by eexists. }
    destruct Hs as [-> | ->]; by apply (on_device_block w0 w eng).
  - destruct N4 as [F6 F7]. split; [rewrite F6; by destruct lw0|]. intros Hb. destruct (F7 Hb) as [Q1 Q2].
    destruct lw0. cbn in *. by rewrite !fmap_is_Some in Q1, Q2.
Qed.

(** The state after a successful load. *)
Lemma loaded_state (path c : bytes) (meminfo : option bytes) (p : LoadParams) (w0 w1 : World) (eng : Engine) :
  wf w0 -> g_region w0 = no_region -> fits path (Some c) ->
  load kv_alloc rd sort_by_size e path (Some c) meminfo p constructed w0 = (Some (true, eng), w1) ->
  exists cfg mw, model_of path (Some c) c cfg mw /\ holds w0 w1 eng /\ placed w0 w1 c cfg mw eng.
Proof.
  intros W Eg Hf E. assert (Hi : idle constructed) by done.
  pose proof (load_spec path (Some c) meminfo p w0 constructed Hi W Eg Hf) as HL. unfold wp in HL. rewrite E in HL.
  destruct HL as [H HP]. destruct (HP eq_refl) as (c' & cfg & mw & Hm & Pl).
  assert (c' = c) as -> by (destruct Hm as [[= ->] _]; done). by exists cfg, mw.
Qed.

Lemma resident_after_load (path c : bytes) (meminfo : option bytes) (p : LoadParams) (w0 w1 : World) (eng : Engine) :
  wf w0 -> g_region w0 = no_region -> fits path (Some c) ->
  load kv_alloc rd sort_by_size e path (Some c) meminfo p constructed w0 = (Some (true, eng), w1) ->
  reachable_mode w1 eng ->
  exists cfg mw, model_of path (Some c) c cfg mw /\
    Forall2 (layer_resident w1 c cfg) (layers mw) (layers (model_weights_ eng)) /\
    block_bytes w1 (output_norm (model_weights_ eng)) (norm_bytes cfg) = file_bytes c (output_norm mw) (norm_bytes cfg) /\
    (0 < output_bytes mw cfg ->
     seen w1 (output (model_weights_ eng)) (output_bytes mw cfg) = file_bytes c (output mw) (output_bytes mw cfg)).
Proof.
  intros W Eg Hf E Hr.
  destruct (loaded_state path c meminfo p w0 w1 eng W Eg Hf E) as (cfg & mw & Hm & H & [Op All Out _]).
  exists cfg, mw. split; [done|]. destruct Op as [MF Ec L (o & q & No & Nq & Nm)]. destruct (Hf _ _ _ Hm) as [T1 T2 T3 T4].
  split; [|split].
  - apply Forall2_same_length_lookup_2; [by eapply Forall2_length|]. intros i lw0 lw Hl0 Hl.
    apply (layer_is_resident w0 w1 eng); [done|done|by apply (Forall_lookup_1 _ _ _ _ T2 Hl0)
      |by apply (Forall2_lookup_lr _ _ _ _ _ _ L Hl0 Hl)|done|].
    intros Em. assert (Hl' : device_layer_limit e <> 0) by (unfold reachable_mode in Hr; by rewrite Em in Hr).
    by apply (Forall2_lookup_lr _ _ _ _ _ _ (All Em Hl') Hl0 Hl).
  - rewrite Nq, No. rewrite No in T3. by apply (mirrors_block w0 w1 eng).
  - intros Hn. destruct Out as [E1 Em|q' b m d E1 E2 E3 E4 E5 E6 E7 E8 E9|s q' E1 E2 M Hpos].
    + rewrite E1. destruct (output mw) as [x|]; [|done]. cbn [fmap option_fmap option_map seen file_bytes].
      destruct (T4 x eq_refl) as (? & ? & ?). pose proof (mf_base _ _ _ _ MF).
      destruct (alias_of_file w0 w1 eng c H MF Em Hr) as (d & Hd & Eg' & Ereg).
      rewrite (seen_region w1 (weights_ eng) (zlen c) d) by (done || lia). by rewrite (host_read_file w0 w1 eng c).
    + rewrite E1. destruct (output mw) as [x|]; [|done]. cbn in E2. injection E2 as <-. cbn [fmap option_fmap option_map seen file_bytes].
      destruct (T4 x eq_refl) as (? & ? & ?).
      rewrite (seen_region w1 b m d) by (done || lia). by rewrite (host_read_file w0 w1 eng c).
    + rewrite E2. destruct (output mw) as [x|]; [|done]. cbn in E1. injection E1 as <-. cbn [seen file_bytes].
      destruct (T4 x eq_refl) as (? & ? & ?). rewrite <- (Z.add_0_r q').
      rewrite (seen_moved w0 w1 eng q' 0 (weights_ eng + x)) by done. by rewrite (host_read_file w0 w1 eng c).
Qed.

(** C15: Moving the weights changes none of their bits.  After a successful load,
    in a mode in which kernels can reach the weights, every quantised matrix of
    every layer, as a kernel finds it through the pointer it is given, has
    exactly the bytes the model file has at the offset of that tensor, be it in
    the arena of its layer or still in the mapping; so have the output
    projection and, in device blocks of their own, the norm weights. *)
Theorem weights_resident (path c : bytes) (meminfo : option bytes) (p : LoadParams) (w0 w1 : World) (eng : Engine) :
  wf w0 -> g_region w0 = no_region -> fits path (Some c) ->
  load kv_alloc rd sort_by_size e path (Some c) meminfo p constructed w0 = (Some (true, eng), w1) ->
  reachable_mode w1 eng ->
  exists cfg mw, model_of path (Some c) c cfg mw /\
    Forall2 (layer_resident w1 c cfg) (layers mw) (layers (model_weights_ eng)) /\
    block_bytes w1 (output_norm (model_weights_ eng)) (norm_bytes cfg) = file_bytes c (output_norm mw) (norm_bytes cfg) /\
    (0 < output_bytes mw cfg ->
     seen w1 (output (model_weights_ eng)) (output_bytes mw cfg) = file_bytes c (output mw) (output_bytes mw cfg)).
Proof. exact (resident_after_load path c meminfo p w0 w1 eng). Qed.

End Ownership.

(** The matrices of the layers, as the file has them. *)
Definition model_specs (path c : bytes) : option (list (list (slot * option Z * Z))) :=
  match load_gguf_config path (Some c) with
  | Some cfg =>
      match load_and_map_weights (Some c) true (n_layers cfg) with
      | Some (_, mw) => Some ((fun l => (fun s => (spec_slot s, spec_src s, spec_bytes s)) <$> specs l cfg) <$> layers mw)
      | None => None
      end
  | None => None
  end.

Lemma model_specs_of path c cfg mw :
  model_of path (Some c) c cfg mw ->
  model_specs path c = Some ((fun l => (fun s => (spec_slot s, spec_src s, spec_bytes s)) <$> specs l cfg) <$> layers mw).
Proof. intros (_ & Ec & ok & Em). unfold model_specs. by rewrite Ec, Em. Qed.

(** ** A concrete runtime, model and machine *)

Definition sim_page : Z := 4096.

(** The first page past every block and every mapping. *)
Definition sim_ends (w : World) : list Z :=
  ((fun b => fst b + zlen (snd b)) <$> map_to_list (dev w)) ++
  ((fun m => fst m + (zlen (snd m) + sim_page - 1) / sim_page * sim_page) <$> maps w).
Definition sim_top (l : list Z) : Z := foldr Z.max 0 l.
Definition sim_address (w : World) : Z := (sim_top (sim_ends w) / sim_page + 1) * sim_page.
Definition sim_key {A} (m : gmap Z A) : Z := 1 + sim_top (fst <$> map_to_list m).

(** Memory is handed out upwards and never runs out; blocks are filled with
    [0xff]; an alias is the address itself. *)
Definition sim_runtime : Runtime := {|
  rt_malloc w n := if 0 <? n then Some (sim_address w, replicate (Z.to_nat n) Byte.xff) else None;
  rt_malloc_pool w n := Some (sim_key (pools w));
  rt_memory _ := sim_cuda;
  rt_register w b n := bool_decide (registered w !! b = None);
  rt_device_pointer w b := if 0 <? b then Some b else None;
  rt_malloc_host w n := Some (sim_key (pinned w));
  rt_stream w := Some (1 + sim_top (elements (handles w)));
  rt_mmap w file :=
    let b := sim_address w in
    if (0 <? zlen file) && (b + (zlen file + sim_page - 1) / sim_page * sim_page + sim_page <? 2 ^ 64) then Some b else None;
  rt_page_size := sim_page |}.

Lemma sim_top_ge l x : x ∈ l -> x <= sim_top l.
Proof. induction l as [|y l IH]; [by intros ?%not_elem_of_nil|]. unfold sim_top in *. cbn. intros H%elem_of_cons. destruct H as [->|H]; [lia|]. specialize (IH H). lia. Qed.

Lemma sim_top_nonneg l : 0 <= sim_top l.
Proof. unfold sim_top. induction l; cbn; lia. Qed.

Lemma sim_address_above w x : x ∈ sim_ends w -> x < sim_address w /\ 0 < sim_address w.
Proof.
  intros H%sim_top_ge. pose proof (sim_top_nonneg (sim_ends w)). unfold sim_address, sim_page.
  pose proof (Z.div_mod (sim_top (sim_ends w)) 4096). pose proof (Z.mod_pos_bound (sim_top (sim_ends w)) 4096). lia.
Qed.

Lemma sim_address_pos w : 0 < sim_address w.
Proof.
  pose proof (sim_top_nonneg (sim_ends w)). unfold sim_address, sim_page.
  pose proof (Z.div_pos (sim_top (sim_ends w)) 4096). lia.
Qed.

Lemma sim_address_block w p d : dev w !! p = Some d -> p + zlen d < sim_address w.
Proof.
  intros H. apply sim_address_above. unfold sim_ends. rewrite elem_of_app. left. apply list_elem_of_fmap.
  exists (p, d). split; [done|]. by apply elem_of_map_to_list.
Qed.

Lemma sim_key_fresh {A} (m : gmap Z A) : m !! sim_key m = None /\ sim_key m <> 0.
Proof.
  pose proof (sim_top_nonneg (fst <$> map_to_list m)). split; [|unfold sim_key; lia].
  destruct (m !! sim_key m) as [x|] eqn:E; [|done]. apply elem_of_map_to_list in E.
  assert (H' : sim_key m <= sim_top (fst <$> map_to_list m)).
  { apply sim_top_ge, list_elem_of_fmap. by exists (sim_key m, x). }
  unfold sim_key in H' at 1. lia.
Qed.

#[local] Existing Instance sim_runtime.

Lemma sim_runtime_laws : RuntimeLaws.
Proof.
  split; cbn.
  - intros w n p bs. destruct (Z.ltb_spec 0 n) as [Hn|]; [|done]. intros [= <- <-] _.
    pose proof (sim_address_pos w). split_and!; [done|done|unfold zlen; rewrite length_replicate; lia| |].
    + intros q d Hq%sim_address_block. pose proof (zlen_nonneg d). split; [lia|]. unfold disjoint_ranges. lia.
    + intros m Hm. assert (He : fst m + pages (zlen (snd m)) ∈ sim_ends w).
      { unfold sim_ends. rewrite elem_of_app. right. apply list_elem_of_fmap. by exists m. }
      apply sim_address_above in He. unfold disjoint_ranges. lia.
  - intros _. apply sim_cuda_laws.
  - intros _ b d. destruct (Z.ltb_spec 0 b); [|done]. intros [= <-]. lia.
  - intros w b _ H. by apply bool_decide_eq_true in H.
  - intros w n p [= <-]. apply sim_key_fresh.
  - intros w n p [= <-]. apply sim_key_fresh.
  - intros w s [= <-]. pose proof (sim_top_nonneg (elements (handles w))). split; [|lia].
    intros Hin%elem_of_elements%sim_top_ge. lia.
  - intros w file b. destruct (Z.ltb_spec 0 (zlen file)) as [Hn|]; [|done].
    destruct (Z.ltb_spec (sim_address w + (zlen file + sim_page - 1) / sim_page * sim_page + sim_page) (2 ^ 64)) as [Hb|]; [|done].
    intros [= <-]. pose proof (sim_address_pos w). split_and!; try done.
    + unfold sim_address. apply Z.mod_mul. unfold sim_page. lia.
    + intros p d Hq%sim_address_block. unfold disjoint_ranges. lia.
  - exists 12. unfold sim_page. lia.
Qed.

#[local] Existing Instance sim_runtime_laws.

(** One layer with one head of two values: five matrices have rows of 256
    values, and two have no whole block. *)
Definition demo_kvs : list kv :=
  [KV (str "general.architecture") (Str (str "qwen3")); u32_kv (str "qwen3.block_count") 1;
   u32_kv (str "qwen3.attention.head_count") 1; u32_kv (str "qwen3.attention.head_count_kv") 1;
   u32_kv (str "qwen3.attention.key_length") 2; u32_kv (str "qwen3.embedding_length") 256;
   u32_kv (str "qwen3.feed_forward_length") 1; u32_kv (str "qwen3.vocab_size") 2;
   u32_kv (str "qwen3.context_length") 16].

(** The tensors of a layer, [stride] bytes apart, and the rows of the norms. *)
Definition stride : Z := 320.
Definition matrix (s : slot) (cols rows i : Z) : entry := Entry (layer_tensor 0 s) [cols; rows] 12 (i * stride).
Definition row (nm : bytes) (i : Z) : entry := Entry nm [256] 0 (7 * stride + i * 1024).

Definition demo_entries : list entry :=
  [matrix Wq 256 2 0; matrix Wk 256 2 1; matrix Wv 256 2 2; matrix Wo 2 256 3;
   matrix WGate 256 1 4; matrix WUp 256 1 5; matrix WDown 1 256 6;
   row (layer_tensor 0 RmsAttn) 0; row (layer_tensor 0 RmsFfn) 1; row (str "output_norm.weight") 2;
   Entry (str "token_embd.weight") [256; 2] 12 (7 * stride + 3 * 1024)].

Definition demo_file : bytes :=
  directory_image 3 demo_kvs demo_entries ++ replicate 16 Byte.x00 ++ concat (replicate 23 (zb <$> upto 251)).

Definition data_start : Z := 1024.

Definition demo_path : bytes := str "/m/qwen3.gguf".
Definition demo_world : World := mkWorld 0 ∅ [] ∅ ∅ ∅ ∅ no_region false.
Definition default_env : env := fun _ => None.
Definition demo_params : LoadParams := mkLoad false 4.

#[local] Abbreviation demo_load e :=
  (load (fun _ => KVCache.demo_alloc) KVFile.demo_reader (fun l => l) e demo_path (Some demo_file)
    (Some Budget.demo_meminfo) demo_params constructed demo_world).

(** The tensors of the model lie in the file. *)
Definition in_fileb (c : bytes) (p : option Z) (n : Z) : bool :=
  match p with Some o => (0 <=? o) && (0 <=? n) && (o + n <=? zlen c) | None => true end.
Definition layer_fitsb (c : bytes) (cfg : ModelConfig) (lw : LayerWeights) : bool :=
  in_fileb c (rms_attn lw) (norm_bytes cfg) && in_fileb c (rms_ffn lw) (norm_bytes cfg) &&
  in_fileb c (q_norm lw) (qk_norm_bytes cfg) && in_fileb c (k_norm lw) (qk_norm_bytes cfg) &&
  forallb (fun s => in_fileb c (spec_src s) (spec_bytes s)) (specs lw cfg).
Definition fitsb (path c : bytes) : bool :=
  match load_gguf_config path (Some c) with
  | Some cfg =>
      match load_and_map_weights (Some c) true (n_layers cfg) with
      | Some (_, mw) =>
          (zlen c <? 2 ^ 56) && forallb (layer_fitsb c cfg) (layers mw) &&
          in_fileb c (output_norm mw) (norm_bytes cfg) && in_fileb c (output mw) (output_bytes mw cfg)
      | None => true
      end
  | None => true
  end.

Lemma in_fileb_ok c p n : in_fileb c p n = true -> in_file c p n.
Proof. unfold in_fileb, in_file. intros H o ->. rewrite !andb_true_iff, !Z.leb_le in H. lia. Qed.

Lemma layer_fitsb_ok c cfg lw : layer_fitsb c cfg lw = true -> layer_fits c cfg lw.
Proof.
  unfold layer_fitsb. rewrite !andb_true_iff. intros ((((A & B) & C) & D) & E).
  split; try by apply in_fileb_ok. apply Forall_forall. intros s Hs. apply in_fileb_ok.
  rewrite forallb_forall in E. by apply E, list_elem_of_In.
Qed.

Lemma fitsb_ok path c : fitsb path c = true -> fits path (Some c).
Proof.
  unfold fitsb. intros H c' cfg mw ([= <-] & E1 & ok & E2). rewrite E1, E2, !andb_true_iff in H.
  destruct H as (((A & B) & C) & D). split; [by apply Z.ltb_lt| |by apply in_fileb_ok..].
  apply Forall_forall. intros lw Hl. apply layer_fitsb_ok. rewrite forallb_forall in B. by apply B, list_elem_of_In.
Qed.

Lemma demo_model_fits : fits demo_path (Some demo_file).
Proof. apply fitsb_ok. vm_compute. reflexivity. Qed.

Lemma demo_world_wf : wf demo_world.
Proof. by split. Qed.


(** The up projection, behind the alias of the file. *)
Lemma weights_resident_witness :
  match demo_load default_env with
  | (Some (_, eng), w1) =>
      exists lw, lw ∈ layers (model_weights_ eng) /\
        seen w1 (w_up lw) 144 = file_bytes demo_file (Some (data_start + 5 * stride)) 144
  | _ => False
  end.
Proof.
  pose proof (weights_resident (fun _ => KVCache.demo_alloc) KVFile.demo_reader (fun l => l) default_env
    demo_path demo_file (Some Budget.demo_meminfo) demo_params demo_world) as H.
  assert (E : (let '(r, w1) := demo_load default_env in
      ((fun r => (fst r, negb (resolve_mapped_weight_device_ptr (g_region w1) (weights_ (snd r)) =? 0))) <$> r) = Some (true, true)))
    by (vm_compute; reflexivity).
  revert H E. generalize (demo_load default_env). intros [[[ok eng]|] w1] H E; [|done].
  cbn -[resolve_mapped_weight_device_ptr] in E. injection E as -> Er.
  destruct (H w1 eng demo_world_wf eq_refl demo_model_fits eq_refl) as (cfg & mw & Hm & HL & _);
    [intros E0; change (resolve_mapped_weight_device_ptr (g_region w1) (weights_ eng) = 0) in E0; by rewrite E0 in Er|].
  assert (Es : model_specs demo_path demo_file =
    Some [(fun '(s, i, n) => (s, Some (data_start + i * stride), n)) <$>
      [(Wq, 0, 288); (Wk, 1, 288); (Wv, 2, 288); (Wo, 3, 0); (WGate, 4, 144); (WUp, 5, 144); (WDown, 6, 0)]]) by (vm_compute; reflexivity).
  rewrite (model_specs_of _ _ _ _ Hm) in Es. clear Hm H.
  destruct HL as [|lw0 lw ls0 ls HR HL]; [done|]. exists lw. split; [by left|].
  set (up := mkSpec WUp (w_up lw0) (type_w_up lw0) (intermediate_dim cfg) (hidden_dim cfg)).
  pose proof (f_equal (fun r => (r : option (list (list _))) ≫= fun ls => (ls !! 0%nat) ≫= fun l => l !! 5%nat) Es) as E.
  change (Some (WUp, w_up lw0, spec_bytes up) = Some (WUp, Some (data_start + 5 * stride), 144)) in E.
  injection E as E1 E2. assert (Hs : up ∈ specs lw0 cfg) by (unfold specs; set_solver).
  pose proof (lr_matrices _ _ _ _ _ HR up Hs) as HU. rewrite E2 in HU.
  change (slot_ptr (spec_slot up) lw) with (w_up lw) in HU. change (spec_src up) with (w_up lw0) in HU.
  rewrite E1 in HU. exact (HU eq_refl).
Defined.

End Engine.
