(* ===== verification/Kernels.v ===== *)
(** * Kernels: the CUDA kernels of [src/kernels] and [vec_add] of
    [src/engine/decode.cu]

    A kernel launch runs one function per thread; the model runs the threads
    one after the other, and [rope_race_free] shows that the order does not
    matter.  Arithmetic on [float] and [half] is that of the device: a class
    of operations without laws, so nothing below depends on rounding.  A
    [half] is its 16-bit pattern.  Indices are the non-negative [int]s of the
    source and are written as [nat]. *)

From S2P Require Import Prelude.

Module Kernels.

(** The device's [float] and [half] operations and the CUDA math library. *)
Class Floats := {
  float : Type;
  h2f : Z -> float;                      (* __half2float *)
  f2h : float -> Z;                      (* __float2half *)
  of_int : Z -> float;
  fadd : float -> float -> float; fsub : float -> float -> float;
  fmul : float -> float -> float; fdiv : float -> float -> float;
  fpow : float -> float -> float;
  fcos : float -> float; fsin : float -> float; fexp : float -> float; fneg : float -> float;
  fabs : float -> float; fmax : float -> float -> float;
  rsqrt : float -> float; fsqrt : float -> float;
  fpos : float -> bool;                  (* x > 0.0f *)
  int_rn : float -> Z;                   (* __float2int_rn *)
  float_as_int : float -> Z; int_as_float : Z -> float }.

Definition BLOCK_SIZE : nat := 128.

(** ** Launches *)

(** The threads of a launch, one after the other; [None] is an access outside
    a buffer. *)
Fixpoint launch {S} (thread : nat -> S -> option S) (tids : list nat) (s : S) : option S :=
  match tids with
  | [] => Some s
  | t :: tids => s' ← thread t s; launch thread tids s'
  end.

Definition grid (total block : nat) : nat := ((total + block - 1) / block)%nat.
Definition threads (total block : nat) : list nat := seq 0 (grid total block * block).

Section Arithmetic.
Context `{Floats}.

(** A [float] in memory. *)
Definition f32_bits (x : float) : bytes := le 4 (float_as_int x).

(** ** Rotary position embedding *)

Record rope_args := mkRope {
  r_heads : nat; r_kv_heads : nat; r_dim : nat; r_pos : Z; r_theta : float; r_neox : bool }.

(** The angle of a pair and the rotation of its two values. *)
Definition rope_angle (a : rope_args) (pair_idx : nat) : float :=
  let freq := fdiv (of_int 1)
    (fpow (r_theta a) (fdiv (fmul (of_int 2) (of_int (Z.of_nat pair_idx)))
                            (of_int (Z.of_nat (r_dim a))))) in
  fmul (of_int (r_pos a)) freq.

Definition rotate (a : rope_args) (pair_idx : nat) (h0 h1 : Z) : Z * Z :=
  let c := fcos (rope_angle a pair_idx) in
  let s := fsin (rope_angle a pair_idx) in
  let v0 := h2f h0 in
  let v1 := h2f h1 in
  (f2h (fsub (fmul v0 c) (fmul v1 s)), f2h (fadd (fmul v0 s) (fmul v1 c))).

Definition half_dim (a : rope_args) : nat := (r_dim a / 2)%nat.
Definition q_pairs (a : rope_args) : nat := (r_heads a * half_dim a)%nat.
Definition total_pairs (a : rope_args) : nat := ((r_heads a + r_kv_heads a) * half_dim a)%nat.
Definition kv_dim (a : rope_args) : nat := (r_kv_heads a * r_dim a)%nat.

Definition idx0 (a : rope_args) (pair_idx : nat) : nat :=
  if r_neox a then pair_idx else (pair_idx * 2)%nat.
Definition idx1 (a : rope_args) (pair_idx : nat) : nat :=
  if r_neox a then (pair_idx + half_dim a)%nat else (pair_idx * 2 + 1)%nat.

(** The two cells of the [t]-th pair of a buffer. *)
Definition cell0 (a : rope_args) (t : nat) : nat :=
  (t / half_dim a * r_dim a + idx0 a (t mod half_dim a))%nat.
Definition cell1 (a : rope_args) (t : nat) : nat :=
  (t / half_dim a * r_dim a + idx1 a (t mod half_dim a))%nat.

(** A store through a pointer. *)
Definition wr (buf : list Z) (i : nat) (v : Z) : option (list Z) :=
  if decide (i < length buf)%nat then Some (<[i := v]> buf) else None.

(** Rotate the [t]-th pair of a buffer in place. *)
Definition rope_pair (a : rope_args) (t : nat) (buf : list Z) : option (list Z) :=
  h0 ← buf !! cell0 a t;
  h1 ← buf !! cell1 a t;
  let '(r0, r1) := rotate a (t mod half_dim a)%nat h0 h1 in
  buf ← wr buf (cell0 a t) r0;
  wr buf (cell1 a t) r1.

Definition rope_thread (a : rope_args) (tid : nat) (s : list Z * list Z)
  : option (list Z * list Z) :=
  let '(q, k) := s in
  if (total_pairs a <=? tid)%nat then Some (q, k)
  else if (tid <? q_pairs a)%nat then q ← rope_pair a tid q; Some (q, k)
  else k ← rope_pair a (tid - q_pairs a)%nat k; Some (q, k).

Definition rope_inplace (a : rope_args) (q k : list Z) : option (list Z * list Z) :=
  launch (rope_thread a) (threads (total_pairs a) BLOCK_SIZE) (q, k).

(** The fused kernel: the rotated keys and the values also go to the cache
    row, [kd] and [vd]. *)
Definition rope_store_thread (a : rope_args) (v : list Z) (tid : nat)
  (s : (list Z * list Z) * (list Z * list Z)) : option ((list Z * list Z) * (list Z * list Z)) :=
  let '((q, k), (kd, vd)) := s in
  '(qk, kd) ←
    (if (tid <? total_pairs a)%nat then
       if (tid <? q_pairs a)%nat then q ← rope_pair a tid q; Some ((q, k), kd)
       else
         let t := (tid - q_pairs a)%nat in
         k ← rope_pair a t k;
         r0 ← k !! cell0 a t;
         r1 ← k !! cell1 a t;
         kd ← wr kd (cell0 a t) r0;
         kd ← wr kd (cell1 a t) r1;
         Some ((q, k), kd)
     else Some ((q, k), kd));
  if (tid <? kv_dim a)%nat then x ← v !! tid; vd ← wr vd tid x; Some (qk, (kd, vd))
  else Some (qk, (kd, vd)).

Definition rope_inplace_store_kv_fp16 (a : rope_args) (q k v kd vd : list Z)
  : option ((list Z * list Z) * (list Z * list Z)) :=
  let total := if (kv_dim a <? total_pairs a)%nat then total_pairs a else kv_dim a in
  launch (rope_store_thread a v) (threads total BLOCK_SIZE) ((q, k), (kd, vd)).

(** ** RMSNorm *)

(** The indices a thread visits: [for (i = tid; i < dim; i += stride)]. *)
Definition strided (tid stride dim : nat) : list nat :=
  (fun n => tid + n * stride)%nat <$> seq 0 (grid (dim - tid) stride).

(** The butterfly [x op= __shfl_xor_sync(x, off)] over the 32 lanes of a warp. *)
Definition shfl_xor (op : float -> float -> float) (off : nat) (lanes : list float) : list float :=
  imap (fun l x => op x (default x (lanes !! Nat.lxor l off))) lanes.
Definition warp_reduce (op : float -> float -> float) (lanes : list float) : list float :=
  foldl (fun ls off => shfl_xor op off ls) lanes [16; 8; 4; 2; 1]%nat.

(** Lane 0 of every warp of a block after the reduction. *)
Definition block_partials (op : float -> float -> float) (per_thread : nat -> float) : list float :=
  (fun w => default (of_int 0)
     (warp_reduce op ((fun l => per_thread (w * 32 + l)%nat) <$> seq 0 32) !! 0%nat))
  <$> seq 0 (BLOCK_SIZE / 32).

(** A missing residual is [nullptr]. *)
Definition rms_val (x : list Z) (residual : option (list Z)) (i : nat) : float :=
  let val := h2f (default 0 (x !! i)) in
  match residual with
  | Some r => fadd val (h2f (default 0 (r !! i)))
  | None => val
  end.

(** One block of [fused_rmsnorm_residual_kernel], on its row of [dim] values. *)
Definition rms_row (w : nat -> float) (eps : float) (dim : nat) (x : list Z)
  (residual : option (list Z)) : list Z :=
  let val := rms_val x residual in
  let sum_sq tid := foldl (fun s i => fadd s (fmul (val i) (val i))) (of_int 0)
                          (strided tid BLOCK_SIZE dim) in
  let total := foldl fadd (of_int 0) (block_partials fadd sum_sq) in
  let rrms := rsqrt (fadd (fdiv total (of_int (Z.of_nat dim))) eps) in
  (fun i => f2h (fmul (fmul (val i) rrms) (w i))) <$> seq 0 dim.

(** The [r]-th row of a row-major buffer. *)
Definition row_of (cols r : nat) (buf : list Z) : list Z := take cols (drop (r * cols) buf).

(** [fused_rmsnorm_residual] without residual, the only form the engine uses,
    when the launch succeeds. *)
Definition fused_rmsnorm (w : nat -> float) (eps : float) (rows cols : nat) (x : list Z) : list Z :=
  concat ((fun r => rms_row w eps cols (row_of cols r x) None) <$> seq 0 rows).

(** ** Elementwise kernels *)

Definition vec_add_elem (a b : Z) : Z := f2h (fadd (h2f a) (h2f b)).

Definition vec_add (a b : list Z) (n : nat) : list Z := take n (zip_with vec_add_elem a b).

Definition swiglu_elem (gate up : Z) : Z :=
  let g := h2f gate in
  let u := h2f up in
  let silu := fdiv g (fadd (of_int 1) (fexp (fneg g))) in
  f2h (fmul silu u).

Definition fused_swiglu (gate up : list Z) (rows dim : nat) : list Z :=
  take (rows * dim) (zip_with swiglu_elem gate up).

(** ** INT8 quantisation of a cache row *)

(** [atomicMax] on the bit patterns, one per warp, in the order [ws]. *)
Definition atomic_max (ws : list float) : float :=
  int_as_float (foldl (fun m x => Z.max m (float_as_int x)) (float_as_int (of_int 0)) ws).

Definition row_max (cols : nat) (src : list Z) : float :=
  let local tid := foldl (fun m c => fmax m (fabs (h2f (default 0 (src !! c))))) (of_int 0)
                         (strided tid BLOCK_SIZE cols) in
  atomic_max (block_partials fmax local).

Definition int8_scale (m : float) : float := fdiv m (of_int 127).

Definition quantise (m : float) (h : Z) : Z :=
  let inv_scale := if fpos (int8_scale m) then fdiv (of_int 127) m else of_int 0 in
  Z.max (-127) (Z.min 127 (int_rn (fmul (h2f h) inv_scale))).

(** The [int8_t] row and its scale. *)
Definition int8_row (cols : nat) (src : list Z) : bytes * float :=
  let m := row_max cols src in
  ((fun h => zb (quantise m h)) <$> take cols src, int8_scale m).

Definition fp16_to_int8 (src : list Z) (rows cols : nat) : bytes * list float :=
  let out := (fun r => int8_row cols (row_of cols r src)) <$> seq 0 rows in
  (concat (fst <$> out), snd <$> out).

End Arithmetic.

(** ** Launches in any order *)

Lemma launch_app {S} (thread : nat -> S -> option S) t1 t2 s :
  launch thread (t1 ++ t2) s = launch thread t1 s ≫= launch thread t2.
Proof.
  revert s. induction t1 as [|t t1 IH]; intros s; [done|]. simpl.
  destruct (thread t s) as [s'|]; simpl; [apply IH|done].
Qed.

(** Threads that commute pairwise can run in any order. *)
Lemma launch_perm {S} (thread : nat -> S -> option S) t1 t2 s :
  (forall x y s, x <> y -> thread x s ≫= thread y = thread y s ≫= thread x) ->
  NoDup t1 -> t1 ≡ₚ t2 -> launch thread t1 s = launch thread t2 s.
Proof.
  intros Hc Hn Hp. revert s Hn. induction Hp as [|t t1 t2 _ IH|x y l|t1 t2 t3 H1 IH1 _ IH2]; intros s Hn.
  - done.
  - apply NoDup_cons in Hn as [_ Hn]. simpl. destruct (thread t s) as [s'|]; simpl; [by apply IH|done].
  - apply NoDup_cons in Hn as [Hn _]. assert (Hxy : y <> x) by (intros ->; apply Hn; by left).
    specialize (Hc y x s Hxy). simpl in *.
    destruct (thread x s) as [sx|], (thread y s) as [sy|]; simpl in *; try done.
    + by rewrite Hc.
    + by rewrite <- Hc.
    + by rewrite Hc.
  - rewrite IH1 by done. apply IH2. by rewrite <- H1.
Qed.

(** The launch of an initial segment, one thread at a time. *)
Lemma launch_seq_S {S} (thread : nat -> S -> option S) n s :
  launch thread (seq 0 (n + 1)) s = launch thread (seq 0 n) s ≫= thread n.
Proof.
  rewrite seq_app, launch_app. apply option_bind_ext; [|done]. intros s'. simpl.
  by destruct (thread n s').
Qed.

Section RopeFacts.
Context `{Floats} (a : rope_args).

Lemma idx_bounds p :
  (p < half_dim a)%nat -> (idx0 a p < r_dim a)%nat /\ (idx1 a p < r_dim a)%nat.
Proof.
  unfold idx0, idx1, half_dim. pose proof (Nat.Div0.mul_div_le (r_dim a) 2). intros.
  destruct (r_neox a); lia.
Qed.

Lemma idx_inj p p' :
  (p < half_dim a)%nat -> (p' < half_dim a)%nat ->
  idx0 a p <> idx1 a p' /\ (idx0 a p = idx0 a p' \/ idx1 a p = idx1 a p' -> p = p').
Proof. unfold idx0, idx1. destruct (r_neox a); lia. Qed.

Lemma div_mod_cell d x i y j :
  (i < d)%nat -> (j < d)%nat -> (x * d + i = y * d + j)%nat -> x = y /\ i = j.
Proof.
  intros Hi Hj E.
  assert (Hd : forall z k, (k < d)%nat -> ((z * d + k) / d = z)%nat)
    by (intros; symmetry; apply Nat.div_unique with k; lia).
  pose proof (Hd x i Hi) as Hx. rewrite E, Hd in Hx by done. subst. lia.
Qed.

(** Different pairs own different cells. *)
Lemma cells_disjoint t t' :
  (0 < half_dim a)%nat ->
  cell0 a t <> cell1 a t' /\
  (t <> t' -> cell0 a t <> cell0 a t' /\ cell1 a t <> cell1 a t').
Proof.
  intros Hh. assert (Hm : forall x, (x mod half_dim a < half_dim a)%nat)
    by (intros; apply Nat.mod_upper_bound; lia).
  destruct (idx_bounds _ (Hm t)), (idx_bounds _ (Hm t')), (idx_inj _ _ (Hm t) (Hm t')) as [Hne Hinj].
  assert (Hu : forall x y, (x / half_dim a = y / half_dim a -> x mod half_dim a = y mod half_dim a -> x = y)%nat).
  { intros x y E1 E2. rewrite (Nat.div_mod_eq x (half_dim a)), (Nat.div_mod_eq y (half_dim a)). lia. }
  unfold cell0, cell1. split; [|intros Ht; split].
  - intros [_ E]%div_mod_cell; done.
  - intros [E1 E2]%div_mod_cell; try done. apply Ht, Hu; [done|]. apply Hinj. by left.
  - intros [E1 E2]%div_mod_cell; try done. apply Ht, Hu; [done|]. apply Hinj. by right.
Qed.

(** The values one pair writes. *)
Definition rot (t : nat) (buf : list Z) : Z * Z :=
  rotate a (t mod half_dim a) (default 0 (buf !! cell0 a t)) (default 0 (buf !! cell1 a t)).

Lemma rope_pair_eq t buf :
  rope_pair a t buf =
  if decide (cell0 a t < length buf /\ cell1 a t < length buf)%nat
  then Some (<[cell1 a t := (rot t buf).2]> (<[cell0 a t := (rot t buf).1]> buf)) else None.
Proof.
  unfold rope_pair, rot, wr. destruct (buf !! cell0 a t) as [h0|] eqn:E0; cbn [mbind option_bind].
  2: { apply lookup_ge_None in E0. rewrite decide_False by lia. done. }
  destruct (buf !! cell1 a t) as [h1|] eqn:E1; cbn [mbind option_bind].
  2: { apply lookup_ge_None in E1. rewrite decide_False by lia. done. }
  apply lookup_lt_Some in E0, E1. simpl.
  rewrite (decide_True (P := (cell0 a t < length buf)%nat)) by done. simpl.
  rewrite length_insert, !decide_True by done. done.
Qed.

Lemma rope_pair_length t buf buf' : rope_pair a t buf = Some buf' -> length buf' = length buf.
Proof. rewrite rope_pair_eq. case_decide; [|done]. intros [= <-]. by rewrite !length_insert. Qed.

Lemma rope_pair_other t buf buf' j :
  rope_pair a t buf = Some buf' -> j <> cell0 a t -> j <> cell1 a t -> buf' !! j = buf !! j.
Proof.
  rewrite rope_pair_eq. case_decide; [|done]. intros [= <-] ? ?.
  by rewrite !list_lookup_insert_ne by done.
Qed.

(** One step of the commutation: the second pair sees none of the first's writes. *)
Lemma rope_pair_bind t t' buf :
  (0 < half_dim a)%nat -> t <> t' ->
  rope_pair a t buf ≫= rope_pair a t' =
  if decide ((cell0 a t < length buf /\ cell1 a t < length buf) /\
             (cell0 a t' < length buf /\ cell1 a t' < length buf))%nat
  then Some (<[cell1 a t' := (rot t' buf).2]> (<[cell0 a t' := (rot t' buf).1]>
             (<[cell1 a t := (rot t buf).2]> (<[cell0 a t := (rot t buf).1]> buf)))) else None.
Proof.
  intros Hh Ht. rewrite rope_pair_eq.
  destruct (cells_disjoint t t' Hh) as [H1 [H2 H3]]; [done|].
  destruct (cells_disjoint t' t Hh) as [H4 _].
  case_decide as D1; simpl.
  - rewrite rope_pair_eq, !length_insert.
    assert (E : forall u v, rot t' (<[cell1 a t := u]> (<[cell0 a t := v]> buf)) = rot t' buf).
    { intros. unfold rot. rewrite !list_lookup_insert_ne by auto. done. }
    rewrite E. case_decide as D2; [rewrite decide_True by tauto|rewrite decide_False by tauto]; done.
  - rewrite decide_False by tauto. done.
Qed.

Lemma rope_pair_comm t t' buf :
  (0 < half_dim a)%nat -> t <> t' ->
  rope_pair a t buf ≫= rope_pair a t' = rope_pair a t' buf ≫= rope_pair a t.
Proof.
  intros Hh Ht. rewrite !rope_pair_bind by auto.
  destruct (cells_disjoint t t' Hh) as [H1 [H2 H3]]; [done|].
  destruct (cells_disjoint t' t Hh) as [H4 _].
  case_decide; [rewrite decide_True by tauto|rewrite decide_False by tauto; done]. f_equal.
  set (b := buf). generalize (rot t' b).1 (rot t' b).2 (rot t b).1 (rot t b).2. intros u v x y.
  rewrite (list_insert_insert_ne _ (cell0 a t') (cell1 a t)) by auto.
  rewrite (list_insert_insert_ne _ (cell1 a t') (cell1 a t)) by auto.
  rewrite (list_insert_insert_ne _ (cell0 a t') (cell0 a t)) by auto.
  by rewrite (list_insert_insert_ne _ (cell1 a t') (cell0 a t)) by auto.
Qed.

(** What a thread does: nothing, or one pair of the queries or of the keys. *)
Lemma rope_thread_cases t :
  (forall s, rope_thread a t s = Some s) \/
  (0 < half_dim a)%nat /\
  ((t < q_pairs a)%nat /\ (forall q k, rope_thread a t (q, k) = (fun q => (q, k)) <$> rope_pair a t q) \/
   (q_pairs a <= t < total_pairs a)%nat /\
   (forall q k, rope_thread a t (q, k) = (fun k => (q, k)) <$> rope_pair a (t - q_pairs a) k)).
Proof.
  unfold rope_thread. destruct (Nat.leb_spec (total_pairs a) t); [left; by intros []|right].
  split; [unfold total_pairs in *; destruct (half_dim a); lia|].
  destruct (Nat.ltb_spec t (q_pairs a)); [left|right]; split; try done; lia.
Qed.

Lemma rope_thread_comm t t' s :
  t <> t' -> rope_thread a t s ≫= rope_thread a t' = rope_thread a t' s ≫= rope_thread a t.
Proof.
  intros Ht. destruct s as [q k].
  destruct (rope_thread_cases t) as [E|[Hh [[Hr E]|[Hr E]]]].
  { rewrite E. destruct (rope_thread a t' (q, k)) as [s|] eqn:E2; cbn; rewrite ?E2, ?E; done. }
  all: destruct (rope_thread_cases t') as [E'|[Hh' [[Hr' E']|[Hr' E']]]].
  1, 4: rewrite E'; destruct (rope_thread a t (q, k)) as [s|] eqn:E2; cbn; rewrite ?E2, ?E'; done.
  all: rewrite E, E'.
  - pose proof (rope_pair_comm t t' q Hh Ht) as Hc.
    destruct (rope_pair a t q) as [q1|] eqn:E1, (rope_pair a t' q) as [q2|] eqn:E2; simpl in *;
      first [by rewrite ?E, ?E', ?Hc | by rewrite ?E, ?E', <- ?Hc].
  - destruct (rope_pair a t q) as [q1|] eqn:E1, (rope_pair a (t' - q_pairs a) k) as [k2|] eqn:E2;
      cbn [mbind option_bind fmap option_fmap option_map]; rewrite ?E, ?E', ?E1, ?E2; done.
  - destruct (rope_pair a t' q) as [q1|] eqn:E1, (rope_pair a (t - q_pairs a) k) as [k2|] eqn:E2;
      cbn [mbind option_bind fmap option_fmap option_map]; rewrite ?E, ?E', ?E1, ?E2; done.
  - assert (Ht' : (t - q_pairs a)%nat <> (t' - q_pairs a)%nat) by lia.
    pose proof (rope_pair_comm _ _ k Hh Ht') as Hc.
    destruct (rope_pair a (t - q_pairs a) k) as [q1|] eqn:E1,
             (rope_pair a (t' - q_pairs a) k) as [q2|] eqn:E2; simpl in *;
      first [by rewrite ?E, ?E', ?Hc | by rewrite ?E, ?E', <- ?Hc].
Qed.

(** ** The kernels succeed on buffers of the right size *)

Lemma cell_bounds n t :
  (t < n * half_dim a)%nat -> (cell0 a t < n * r_dim a)%nat /\ (cell1 a t < n * r_dim a)%nat.
Proof.
  intros Ht. assert (0 < half_dim a)%nat as Hh by (destruct (half_dim a); lia).
  assert (t / half_dim a < n)%nat by (apply Nat.Div0.div_lt_upper_bound; lia).
  destruct (idx_bounds (t mod half_dim a)) as [? ?]; [apply Nat.mod_upper_bound; lia|].
  unfold cell0, cell1. nia.
Qed.

Lemma rope_pair_ok n t buf :
  (t < n * half_dim a)%nat -> (n * r_dim a <= length buf)%nat ->
  exists buf', rope_pair a t buf = Some buf' /\ length buf' = length buf.
Proof.
  intros Ht Hl. destruct (cell_bounds n t Ht). rewrite rope_pair_eq, decide_True by lia.
  eexists. split; [done|]. by rewrite !length_insert.
Qed.

Lemma rope_thread_ok t q k :
  (r_heads a * r_dim a <= length q)%nat -> (r_kv_heads a * r_dim a <= length k)%nat ->
  exists q' k', rope_thread a t (q, k) = Some (q', k') /\ length q' = length q /\ length k' = length k.
Proof.
  intros Hq Hk. destruct (rope_thread_cases t) as [E|[_ [[Ht E]|[Ht E]]]]; rewrite E.
  - eauto.
  - destruct (rope_pair_ok (r_heads a) t q) as (q' & -> & ?); [done..|]. simpl. eauto.
  - destruct (rope_pair_ok (r_kv_heads a) (t - q_pairs a) k) as (k' & -> & ?);
      [unfold total_pairs, q_pairs in *; lia|done|]. simpl. eauto.
Qed.

Lemma rope_launch_ok ts q k :
  (r_heads a * r_dim a <= length q)%nat -> (r_kv_heads a * r_dim a <= length k)%nat ->
  exists q' k', launch (rope_thread a) ts (q, k) = Some (q', k') /\
    length q' = length q /\ length k' = length k.
Proof.
  revert q k. induction ts as [|t ts IH]; intros q k Hq Hk; [cbn; eauto|].
  destruct (rope_thread_ok t q k) as (q1 & k1 & E & H1 & H2); [done..|].
  destruct (IH q1 k1) as (q2 & k2 & E' & H3 & H4); [lia..|].
  cbn [launch]. rewrite E. cbn. exists q2, k2. split; [done|lia].
Qed.

(** ** The fused kernel *)

(** Threads past the last pair do nothing. *)
Lemma rope_thread_idle t s : (total_pairs a <= t)%nat -> rope_thread a t s = Some s.
Proof. intros Ht. destruct s as [q k]. cbn. by destruct (Nat.leb_spec (total_pairs a) t); [|lia]. Qed.

Lemma rope_extra_threads n s :
  (total_pairs a <= n)%nat ->
  launch (rope_thread a) (seq 0 n) s = launch (rope_thread a) (seq 0 (total_pairs a)) s.
Proof.
  intros Hn. replace n with (total_pairs a + (n - total_pairs a))%nat by lia.
  rewrite seq_app, launch_app. generalize (n - total_pairs a)%nat as m.
  intros m. destruct (launch _ (seq 0 (total_pairs a)) s) as [s'|]; cbn; [|done].
  assert (H0 : (total_pairs a <= total_pairs a)%nat) by done. revert H0.
  generalize (total_pairs a) at 2 3. induction m as [|m IH]; intros i Hi; [done|].
  cbn [launch seq]. rewrite rope_thread_idle by done. cbn [mbind option_bind]. apply IH. lia.
Qed.

Lemma grid_covers total : (0 < BLOCK_SIZE)%nat -> (total <= grid total BLOCK_SIZE * BLOCK_SIZE)%nat.
Proof.
  intros. unfold grid.
  pose proof (Nat.div_mod_eq (total + BLOCK_SIZE - 1) BLOCK_SIZE).
  pose proof (Nat.mod_upper_bound (total + BLOCK_SIZE - 1) BLOCK_SIZE). lia.
Qed.

(** The part of a thread that copies one value. *)
Lemma value_step (v vd : list Z) n (qk : list Z * list Z) (kd : list Z) :
  length vd = kv_dim a -> length v = kv_dim a ->
  (if (n <? kv_dim a)%nat
   then x ← v !! n; vd ← wr (take n v ++ drop n vd) n x; Some (qk, (kd, vd))
   else Some (qk, (kd, take n v ++ drop n vd))) =
  Some (qk, (kd, take (n + 1) v ++ drop (n + 1) vd)).
Proof.
  intros Hvd Hv. destruct (Nat.ltb_spec n (kv_dim a)) as [Hn|Hn].
  - destruct (lookup_lt_is_Some_2 v n) as [x Hx]; [lia|]. rewrite Hx. cbn [mbind option_bind].
    unfold wr. rewrite decide_True by (rewrite length_app, length_take, length_drop; lia).
    cbn [mbind option_bind].
    rewrite Nat.add_1_r, (take_S_r _ _ _ Hx), <- app_assoc.
    rewrite insert_app_r_alt by (rewrite length_take; lia).
    rewrite length_take, Nat.min_l, Nat.sub_diag by lia.
    destruct (lookup_lt_is_Some_2 vd n) as [y Hy]; [lia|].
    by rewrite (drop_S _ _ _ Hy).
  - by rewrite !take_ge, !drop_ge by lia.
Qed.

(** The part that rotates a pair of keys and stores it. *)
Lemma key_step t (k kd : list Z) :
  (t < r_kv_heads a * half_dim a)%nat -> (kv_dim a <= length k)%nat -> length kd = kv_dim a ->
  exists k' r0 r1, rope_pair a t k = Some k' /\ length k' = length k /\
    k' !! cell0 a t = Some r0 /\ k' !! cell1 a t = Some r1 /\
    wr kd (cell0 a t) r0 = Some (<[cell0 a t := r0]> kd) /\
    wr (<[cell0 a t := r0]> kd) (cell1 a t) r1 =
      Some (<[cell1 a t := r1]> (<[cell0 a t := r0]> kd)).
Proof.
  intros Ht Hk Hkd. destruct (rope_pair_ok (r_kv_heads a) t k) as (k2 & E & Hk2);
    [done|unfold kv_dim in *; lia|].
  destruct (cell_bounds _ _ Ht) as [Hc0 Hc1]. fold (kv_dim a) in Hc0, Hc1.
  destruct (lookup_lt_is_Some_2 k2 (cell0 a t)) as [r0 Hr0]; [lia|].
  destruct (lookup_lt_is_Some_2 k2 (cell1 a t)) as [r1 Hr1]; [lia|].
  exists k2, r0, r1. unfold wr. rewrite length_insert, !decide_True by lia. done.
Qed.

(** The stored pairs agree with the rotated keys after one more pair. *)
Lemma key_step_agree t (k k' kd : list Z) r0 r1 :
  (t < r_kv_heads a * half_dim a)%nat -> length kd = kv_dim a ->
  rope_pair a t k = Some k' -> k' !! cell0 a t = Some r0 -> k' !! cell1 a t = Some r1 ->
  forall u, (u = t \/ kd !! cell0 a u = k !! cell0 a u /\ kd !! cell1 a u = k !! cell1 a u) ->
  let kd' := <[cell1 a t := r1]> (<[cell0 a t := r0]> kd) in
  kd' !! cell0 a u = k' !! cell0 a u /\ kd' !! cell1 a u = k' !! cell1 a u.
Proof.
  intros Ht Hkd E Hr0 Hr1 u Hu kd'. destruct (cell_bounds _ _ Ht) as [Hc0 Hc1].
  fold (kv_dim a) in Hc0, Hc1.
  assert (Hh : (0 < half_dim a)%nat) by (destruct (half_dim a); lia).
  destruct (cells_disjoint t t Hh) as [Hself _]. unfold kd'.
  destruct (decide (u = t)) as [->|Hut].
  - rewrite list_lookup_insert_ne, list_lookup_insert_eq, list_lookup_insert_eq
      by (rewrite ?length_insert; auto; lia). done.
  - destruct (cells_disjoint u t Hh) as [D1 [D2 D3]]; [done|].
    destruct (cells_disjoint t u Hh) as [D4 _].
    rewrite !list_lookup_insert_ne by auto. rewrite !(rope_pair_other _ _ _ _ E) by auto.
    destruct Hu as [->|Hu]; [done|exact Hu].
Qed.

(** After the first [n] threads the queries and keys are those of the plain
    kernel, and the keys rotated so far and the first [n] values are in the
    cache row. *)
Lemma rope_store_prefix v n q k kd vd :
  (r_heads a * r_dim a <= length q)%nat -> (kv_dim a <= length k)%nat ->
  length kd = kv_dim a -> length vd = kv_dim a -> length v = kv_dim a ->
  exists q' k' kd',
    launch (rope_thread a) (seq 0 n) (q, k) = Some (q', k') /\
    length q' = length q /\ length k' = length k /\ length kd' = kv_dim a /\
    launch (rope_store_thread a v) (seq 0 n) ((q, k), (kd, vd)) =
      Some ((q', k'), (kd', take n v ++ drop n vd)) /\
    (forall t, (t < n - q_pairs a)%nat -> (t < r_kv_heads a * half_dim a)%nat ->
       kd' !! cell0 a t = k' !! cell0 a t /\ kd' !! cell1 a t = k' !! cell1 a t).
Proof.
  intros Hq Hk Hkd Hvd Hv. induction n as [|n IH].
  { exists q, k, kd. split_and!; try done. intros; lia. }
  destruct IH as (q1 & k1 & kd1 & E1 & Hq1 & Hk1 & Hkd1 & E2 & Hc).
  replace (S n) with (n + 1)%nat by lia. rewrite !launch_seq_S, E1, E2. cbn [mbind option_bind].
  unfold rope_thread, rope_store_thread.
  destruct (Nat.leb_spec (total_pairs a) n), (Nat.ltb_spec n (total_pairs a)); try lia.
  { exists q1, k1, kd1. split_and!; try done; [by apply value_step|].
    intros t Ht Ht'. apply Hc; [|done]. unfold total_pairs, q_pairs in *. lia. }
  destruct (Nat.ltb_spec n (q_pairs a)) as [Hnq|Hnq].
  - destruct (rope_pair_ok (r_heads a) n q1) as (q2 & E & Hq2); [done|lia|].
    exists q2, k1, kd1. rewrite E. cbn [mbind option_bind]. rewrite value_step by done.
    split_and!; try done; [lia|]. intros; lia.
  - set (t := (n - q_pairs a)%nat).
    assert (Ht : (t < r_kv_heads a * half_dim a)%nat) by (unfold t, total_pairs, q_pairs in *; lia).
    destruct (key_step t k1 kd1) as (k2 & r0 & r1 & E & Hk2 & Hr0 & Hr1 & W0 & W1); [lia..|].
    exists q1, k2, (<[cell1 a t := r1]> (<[cell0 a t := r0]> kd1)).
    rewrite E. cbn [mbind option_bind]. rewrite Hr0. cbn [mbind option_bind]. rewrite Hr1.
    cbn [mbind option_bind]. rewrite W0. cbn [mbind option_bind]. rewrite W1. cbn [mbind option_bind].
    rewrite value_step by done. rewrite !length_insert. split_and!; try done; [lia|].
    intros u Hu Hu'. eapply key_step_agree; try done.
    destruct (decide (u = t)); [by left|right]. apply Hc; [|done]. unfold t in *. lia.
Qed.

(** For an even head dimension every cell of a row belongs to a pair. *)
Lemma cells_cover j :
  r_dim a = (2 * half_dim a)%nat -> (j < kv_dim a)%nat ->
  exists t, (t < r_kv_heads a * half_dim a)%nat /\ (j = cell0 a t \/ j = cell1 a t).
Proof.
  intros Hd Hj. unfold kv_dim in Hj. set (h := half_dim a) in *.
  assert (Hh : (0 < h)%nat) by lia.
  set (x := (j / r_dim a)%nat). set (r := (j mod r_dim a)%nat).
  assert (Hr : (r < r_dim a)%nat) by (apply Nat.mod_upper_bound; lia).
  assert (Ej : (j = x * r_dim a + r)%nat) by (unfold x, r; rewrite (Nat.div_mod_eq j (r_dim a)) at 1; lia).
  assert (Hx : (x < r_kv_heads a)%nat) by (apply Nat.Div0.div_lt_upper_bound; lia).
  assert (Hcell : forall p, (p < h)%nat -> ((x * h + p) / h = x /\ (x * h + p) mod h = p)%nat).
  { intros p Hp. split; [symmetry; apply Nat.div_unique with p; lia|].
    symmetry; apply Nat.mod_unique with x; lia. }
  set (p := if r_neox a then (if (r <? h)%nat then r else (r - h)%nat) else (r / 2)%nat).
  assert (Hp : (p < h)%nat).
  { unfold p. destruct (r_neox a); [destruct (Nat.ltb_spec r h); lia|].
    apply Nat.Div0.div_lt_upper_bound. lia. }
  exists (x * h + p)%nat. split; [nia|]. unfold cell0, cell1. fold h.
  destruct (Hcell p Hp) as [-> ->]. rewrite Ej. unfold idx0, idx1. fold h. unfold p.
  destruct (r_neox a).
  - destruct (Nat.ltb_spec r h); [left|right]; lia.
  - pose proof (Nat.div_mod_eq r 2). pose proof (Nat.mod_upper_bound r 2).
    destruct (r mod 2)%nat as [|[|]]; [left|right|]; lia.
Qed.

(** The fused kernel is the plain one followed by the two copies. *)
Lemma rope_store_spec q k v kd vd :
  r_dim a = (2 * half_dim a)%nat ->
  (r_heads a * r_dim a <= length q)%nat -> length k = kv_dim a ->
  length kd = kv_dim a -> length vd = kv_dim a -> length v = kv_dim a ->
  exists q' k', rope_inplace a q k = Some (q', k') /\
    length q' = length q /\ length k' = length k /\
    rope_inplace_store_kv_fp16 a q k v kd vd = Some ((q', k'), (k', v)).
Proof.
  intros Hd Hq Hk Hkd Hvd Hv. unfold rope_inplace, rope_inplace_store_kv_fp16, threads.
  set (total := if (kv_dim a <? total_pairs a)%nat then _ else _).
  assert (Htot : (total_pairs a <= total /\ kv_dim a <= total)%nat)
    by (unfold total; destruct (Nat.ltb_spec (kv_dim a) (total_pairs a)); lia).
  pose proof (grid_covers total ltac:(unfold BLOCK_SIZE; lia)) as G.
  pose proof (grid_covers (total_pairs a) ltac:(unfold BLOCK_SIZE; lia)) as G'.
  rewrite (rope_extra_threads (grid (total_pairs a) BLOCK_SIZE * BLOCK_SIZE)) by lia.
  destruct (rope_store_prefix v (grid total BLOCK_SIZE * BLOCK_SIZE) q k kd vd)
    as (q' & k' & kd' & E1 & Hq' & Hk' & Hkd' & E2 & Hc); [done|lia|done..|].
  rewrite rope_extra_threads in E1 by lia. exists q', k'. rewrite E1, E2.
  split_and!; try done. rewrite take_ge, drop_ge, app_nil_r by lia.
  assert (kd' = k') as ->; [|done].
  apply list_eq. intros j. destruct (decide (j < kv_dim a)%nat) as [Hj|Hj].
  - destruct (cells_cover j Hd Hj) as (t & Ht & Hcell).
    destruct (Hc t) as [H0 H1]; [unfold total_pairs, q_pairs in *; lia|done|].
    by destruct Hcell as [->| ->].
  - rewrite !lookup_ge_None_2 by lia. done.
Qed.

(** The RoPE launch is free of races: on buffers of the right size every
    order of its threads, over the whole grid, ends without an access outside
    the buffers and with the same queries and keys. *)
Theorem rope_race_free (q k : list Z) :
  (r_heads a * r_dim a <= length q)%nat -> (r_kv_heads a * r_dim a <= length k)%nat ->
  exists q' k', rope_inplace a q k = Some (q', k') /\
    length q' = length q /\ length k' = length k /\
    forall order, order ≡ₚ threads (total_pairs a) BLOCK_SIZE ->
      launch (rope_thread a) order (q, k) = Some (q', k').
Proof.
  intros Hq Hk. destruct (rope_launch_ok (threads (total_pairs a) BLOCK_SIZE) q k Hq Hk)
    as (q' & k' & E & ? & ?).
  exists q', k'. split_and!; try done. intros order Ho. rewrite <- E.
  apply launch_perm; [intros; by apply rope_thread_comm| |done].
  rewrite Ho. apply NoDup_seq.
Qed.

(** The fused decode kernel [rope_inplace_store_kv_fp16] is [rope_inplace]
    followed by copying the keys and the values to the cache row, for every
    even head dimension and both pair layouts; it never writes outside. *)
Theorem rope_store_is_rope_then_copy (q k v kd vd : list Z) :
  Nat.even (r_dim a) = true ->
  (r_heads a * r_dim a <= length q)%nat -> length k = kv_dim a ->
  length kd = kv_dim a -> length vd = kv_dim a -> length v = kv_dim a ->
  exists q' k', rope_inplace a q k = Some (q', k') /\
    rope_inplace_store_kv_fp16 a q k v kd vd = Some ((q', k'), (k', v)).
Proof.
  intros [n Hn]%Nat.even_spec. intros. destruct (rope_store_spec q k v kd vd)
    as (q' & k' & ? & _ & _ & ?); try done; [|by exists q', k'].
  unfold half_dim. rewrite Hn, Nat.mul_comm, Nat.div_mul by lia. lia.
Qed.

End RopeFacts.

(** ** Row-wise kernels on batches

    A batch is a row-major buffer: the concatenation of its rows. *)

Section Rows.
Context `{Floats}.

Lemma row_of_concat cols r (xs : list (list Z)) x :
  Forall (fun x => length x = cols) xs -> xs !! r = Some x -> row_of cols r (concat xs) = x.
Proof.
  intros Hf. revert r. induction Hf as [|y xs Hy Hf IH]; intros r Hr; [done|].
  unfold row_of in *. destruct r as [|r]; simpl in *.
  - injection Hr as ->. rewrite drop_0, take_app_length' by done. done.
  - etrans; [|exact (IH r Hr)]. f_equal. rewrite drop_app_ge by lia. f_equal. lia.
Qed.

Lemma row_of_length n cols (x : list Z) (i : nat) :
  length x = (n * cols)%nat -> (i < n)%nat -> length (row_of cols i x) = cols.
Proof. intros Hx Hi. unfold row_of. rewrite length_take, length_drop. nia. Qed.

Lemma row_of_row n cols (x y : list Z) (i : nat) :
  (n * cols <= length x)%nat -> (i < n)%nat -> row_of cols i (x ++ y) = row_of cols i x.
Proof.
  intros Hl Hi. unfold row_of. rewrite drop_app_le by nia. rewrite take_app_le; [done|].
  rewrite length_drop. nia.
Qed.

Lemma row_of_shift n cols (x y : list Z) (i : nat) :
  length x = (n * cols)%nat -> row_of cols (n + i) (x ++ y) = row_of cols i y.
Proof.
  intros Hl. unfold row_of. f_equal. rewrite drop_app_ge by lia. f_equal. lia.
Qed.

(** A row-wise normalisation of a batch of [n] tokens with [m] rows each is
    the normalisation of every token. *)
Lemma fused_rmsnorm_batch w eps m cols (xs : list (list Z)) :
  Forall (fun x => length x = (m * cols)%nat) xs ->
  fused_rmsnorm w eps (length xs * m) cols (concat xs) =
  concat (fused_rmsnorm w eps m cols <$> xs).
Proof.
  intros Hf. induction Hf as [|x xs Hx Hf IH]; [done|].
  cbn [length concat fmap list_fmap]. unfold fused_rmsnorm in *.
  replace (S (length xs) * m)%nat with (m + length xs * m)%nat by lia.
  rewrite seq_app, fmap_app, concat_app. f_equal.
  - f_equal. apply list_fmap_ext. intros i r Hr%lookup_seq. f_equal.
    eapply row_of_row; [by rewrite Hx|lia].
  - rewrite <- IH. f_equal. replace (0 + m)%nat with (m + 0)%nat by lia.
    rewrite <- fmap_add_seq, <- list_fmap_compose.
    apply list_fmap_ext. intros i r _. unfold compose. simpl. f_equal. by apply row_of_shift.
Qed.

Lemma rms_row_length w eps dim x res : length (rms_row w eps dim x res) = dim.
Proof. unfold rms_row. by rewrite length_fmap, length_seq. Qed.

Lemma fused_rmsnorm_length w eps rows cols x : length (fused_rmsnorm w eps rows cols x) = (rows * cols)%nat.
Proof.
  unfold fused_rmsnorm. generalize 0%nat as o. induction rows as [|rows IH]; intros o; [done|].
  cbn [seq fmap list_fmap concat]. rewrite length_app, rms_row_length, IH. lia.
Qed.

Lemma zip_with_concat (f : Z -> Z -> Z) (xs ys : list (list Z)) :
  Forall2 (fun x y => length x = length y) xs ys ->
  zip_with f (concat xs) (concat ys) = concat (zip_with (zip_with f) xs ys).
Proof.
  induction 1 as [|x y xs ys Hxy Hf IH]; [done|]. simpl. rewrite zip_with_app by done. by rewrite IH.
Qed.

(** *** Quantised rows *)

Lemma f32_bits_length (xs : list float) : length (concat (f32_bits <$> xs)) = (4 * length xs)%nat.
Proof. induction xs as [|x xs IH]; [done|]. rewrite fmap_cons. cbn [concat length]. rewrite length_app, IH. unfold f32_bits. rewrite length_le. lia. Qed.

Lemma fp16_to_int8_length src rows cols :
  length src = (rows * cols)%nat ->
  length (fp16_to_int8 src rows cols).1 = (rows * cols)%nat /\ length (fp16_to_int8 src rows cols).2 = rows.
Proof.
  intros Hs. unfold fp16_to_int8. cbn [fst snd]. split; [|by rewrite !length_fmap, length_seq].
  assert (Hr : Forall (fun r => length (int8_row cols (row_of cols r src)).1 = cols) (seq 0 rows)).
  { apply Forall_forall. intros r [_ Hr]%elem_of_seq. cbn [int8_row fst].
    rewrite length_fmap, length_take, (row_of_length rows) by (done || lia). lia. }
  trans (length (seq 0 rows) * cols)%nat; [|by rewrite length_seq]. clear Hs. induction Hr as [|r rs Hr _ IH]; [done|].
  rewrite !fmap_cons. cbn [concat length]. rewrite length_app, Hr, IH. lia.
Qed.

End Rows.

(** ** A concrete arithmetic *)

(** Integers as [float]s: enough to run every kernel. *)
#[local] Instance demo_floats : Floats := {|
  float := Z; h2f := fun h => h; f2h := fun x => x mod 65536; of_int := fun x => x;
  fadd := Z.add; fsub := Z.sub; fmul := Z.mul; fdiv := Z.quot; fpow := fun x _ => x;
  fcos := fun x => x + 2; fsin := fun x => 3 - x; fexp := fun x => x * x; fneg := Z.opp;
  fabs := Z.abs; fmax := Z.max; rsqrt := fun x => x; fsqrt := fun x => x; fpos := fun x => 0 <? x; int_rn := fun x => x;
  float_as_int := fun x => x; int_as_float := fun x => x |}.

(** Two query heads and one key head of four values, at position 3. *)
Definition demo_rope : rope_args := mkRope 2 1 4 3 1 true.
Definition demo_q : list Z := [1; 2; 3; 4; 5; 6; 7; 8].
Definition demo_k : list Z := [9; 10; 11; 12].
Definition demo_v : list Z := [13; 14; 15; 16].

Lemma rope_race_free_witness :
  exists q' k', rope_inplace demo_rope demo_q demo_k = Some (q', k') /\
    launch (rope_thread demo_rope) (reverse (threads (total_pairs demo_rope) BLOCK_SIZE))
      (demo_q, demo_k) = Some (q', k').
Proof.
  destruct (rope_race_free demo_rope demo_q demo_k) as (q' & k' & E & _ & _ & Hp);
    [vm_compute; lia|vm_compute; lia|].
  exists q', k'. split; [exact E|]. apply Hp. apply reverse_Permutation.
Defined.

Lemma rope_store_is_rope_then_copy_witness :
  exists q' k', rope_inplace demo_rope demo_q demo_k = Some (q', k') /\
    rope_inplace_store_kv_fp16 demo_rope demo_q demo_k demo_v (replicate 4 0) (replicate 4 0) =
      Some ((q', k'), (k', demo_v)).
Proof.
  apply (rope_store_is_rope_then_copy demo_rope);
    [reflexivity|vm_compute; lia|reflexivity|reflexivity|reflexivity|reflexivity].
Defined.

(** On an odd head dimension the two differ: the unpaired last key of a head
    is copied by the plain path and skipped by the fused kernel. *)
Example rope_store_odd :
  let a := mkRope 1 1 3 3 1 true in
  rope_inplace_store_kv_fp16 a [1; 2; 3] [4; 5; 6] [7; 8; 9] [0; 0; 0] [0; 0; 0] =
    Some (([5; 10; 3], [20; 25; 6]), ([20; 25; 0], [7; 8; 9])).
Proof. vm_compute. reflexivity. Qed.

End Kernels.
