(* ===== verification/Norm.v ===== *)
(** * Norm: [fused_rmsnorm_residual] with its fallback ([src/kernels/fused_norm.cu])

    The launcher of the RMSNorm kernel of [Kernels]: when the fast path is
    switched off or the launch fails, the rows are copied to the host and
    normalised there, one value after the other.  The copies are taken to
    succeed; the messages are left out. *)

From S2P Require Import Prelude Kernels.

Module Norm.
Import Kernels.

Section Norm.
Context `{Floats}.

(** The weights, in the format of the tensor. *)
Inductive weights :=
| Fp32 (ws : list float)
| Fp16 (ws : list Z).

Definition zero : float := of_int 0.

(** The weight [i], read as [float] or as [half]. *)
Definition weight_at (w : weights) (i : nat) : float :=
  match w with
  | Fp32 ws => default zero (ws !! i)
  | Fp16 ws => h2f (default 0 (ws !! i))
  end.

(** [h_w]: the weights on the host. *)
Definition host_weights (w : weights) (hidden_dim : nat) : list float :=
  match w with
  | Fp32 ws => take hidden_dim ws
  | Fp16 ws => h2f <$> take hidden_dim ws
  end.

(** One row on the host; [val] is computed in both loops. *)
Definition cpu_row (h_w : list float) (eps : float) (hidden_dim off : nat) (h_x : list Z) (h_res : option (list Z)) : list Z :=
  let val i :=
    let v := h2f (default 0 (h_x !! (off + i)%nat)) in
    match h_res with Some r => fadd v (h2f (default 0 (r !! (off + i)%nat))) | None => v end in
  let sum_sq := foldl (fun s i => fadd s (fmul (val i) (val i))) zero (seq 0 hidden_dim) in
  let rrms := fdiv (of_int 1) (fsqrt (fadd (fdiv sum_sq (of_int (Z.of_nat hidden_dim))) eps)) in
  (fun i => f2h (fmul (fmul (val i) rrms) (default zero (h_w !! i)))) <$> seq 0 hidden_dim.

(** The rows of the launch. *)
Definition gpu_rows (w : weights) (eps : float) (rows hidden_dim : nat) (x : list Z) (residual : option (list Z)) : list Z :=
  concat ((fun r => rms_row (weight_at w) eps hidden_dim (row_of hidden_dim r x) (row_of hidden_dim r <$> residual)) <$> seq 0 rows).

Definition cpu_rows (w : weights) (eps : float) (rows hidden_dim : nat) (x : list Z) (residual : option (list Z)) : list Z :=
  let total := (rows * hidden_dim)%nat in
  let h_x := take total x in
  let h_res := take total <$> residual in
  let h_w := host_weights w hidden_dim in
  concat ((fun row => cpu_row h_w eps hidden_dim (row * hidden_dim) h_x h_res) <$> seq 0 rows).

(** [fast]: [JLLM_FAST_NORM] is not "0"; [launched]: the launch succeeds. *)
Definition fused_rmsnorm_residual (fast launched : bool) (w : weights) (eps : float) (rows hidden_dim : nat)
  (x : list Z) (residual : option (list Z)) : list Z :=
  if fast && launched then gpu_rows w eps rows hidden_dim x residual else cpu_rows w eps rows hidden_dim x residual.

(** ** Sums in any order *)

(** Arithmetic in which sums do not depend on their order, and in which
    [rsqrtf] is the reciprocal of the root. *)
Class ExactSums : Prop := {
  fadd_assoc x y z : fadd x (fadd y z) = fadd (fadd x y) z;
  fadd_comm x y : fadd x y = fadd y x;
  fadd_0 x : fadd zero x = x;
  rsqrt_inv x : rsqrt x = fdiv (of_int 1) (fsqrt x) }.

Section Exact.
Context {exact : ExactSums}.

Fixpoint total (f : nat -> float) (ks : list nat) : float :=
  match ks with [] => zero | i :: ks => fadd (f i) (total f ks) end.

Lemma fadd_r0 x : fadd x zero = x.
Proof. by rewrite fadd_comm, fadd_0. Qed.

Lemma total_app f ks js : fadd (total f ks) (total f js) = total f (ks ++ js).
Proof. induction ks as [|i ks IH]; cbn; [apply fadd_0|]. by rewrite <- fadd_assoc, IH. Qed.

Lemma total_perm f ks js : ks ≡ₚ js -> total f ks = total f js.
Proof.
  induction 1 as [|i ks js _ IH|i j ks|ks js ls _ IH1 _ IH2]; cbn; [done|by rewrite IH| |by rewrite IH1].
  by rewrite !fadd_assoc, (fadd_comm (f i)).
Qed.

Lemma total_one f i : f i = total f [i].
Proof. cbn. by rewrite fadd_r0. Qed.

Lemma total_ext f g ks : (forall i, i ∈ ks -> f i = g i) -> total f ks = total g ks.
Proof.
  induction ks as [|i ks IH]; intros E; [done|]. cbn. rewrite E by (by left). rewrite IH; [done|]. intros j Hj. apply E. by right.
Qed.

Lemma total_fmap f g ks : total f (g <$> ks) = total (fun i => f (g i)) ks.
Proof. induction ks as [|i ks IH]; cbn; [done|by rewrite IH]. Qed.

Lemma total_bind f g ks : total f (ks ≫= g) = total (fun i => total f (g i)) ks.
Proof. induction ks as [|i ks IH]; cbn; [done|]. by rewrite <- total_app, IH. Qed.

(** A loop that adds up. *)
Lemma loop_total f ks s : foldl (fun s i => fadd s (f i)) s ks = fadd s (total f ks).
Proof.
  revert s. induction ks as [|i ks IH]; intros s; cbn; [by rewrite fadd_r0|]. by rewrite IH, <- fadd_assoc.
Qed.

(** ** The butterfly *)

Definition stage (g : nat -> float) (off l : nat) : float := fadd (g l) (g (Nat.lxor l off)).

Lemma shfl_stage g off :
  forallb (fun l => Nat.lxor l off <? 32)%nat (seq 0 32) = true ->
  shfl_xor fadd off (g <$> seq 0 32) = stage g off <$> seq 0 32.
Proof.
  intros Ho. rewrite forallb_forall in Ho. apply list_eq. intros l. unfold shfl_xor. rewrite list_lookup_imap, !list_lookup_fmap.
  destruct (decide (l < 32)%nat) as [Hl|Hl].
  - assert (Hx : (Nat.lxor l off < 32)%nat) by (apply Nat.ltb_lt, Ho, in_seq; lia).
    by rewrite !lookup_seq_lt by done.
  - rewrite (lookup_seq_ge 0 32 l) by lia. done.
Qed.

(** Lane 0 has the sum over the warp, every lane counted once. *)
Lemma butterfly g : default zero (warp_reduce fadd (g <$> seq 0 32) !! 0%nat) = total g (seq 0 32).
Proof.
  unfold warp_reduce. cbn [foldl]. rewrite !shfl_stage by (vm_compute; reflexivity).
  rewrite list_lookup_fmap, lookup_seq_lt by lia. cbn [fmap option_fmap option_map default from_option id Nat.add].
  unfold stage. repeat match goal with |- context [Nat.lxor ?a ?b] =>
    let v := eval vm_compute in (Nat.lxor a b) in change (Nat.lxor a b) with v end.
  repeat match goal with |- context [fadd (g ?i) (g ?j)] => rewrite (total_one g i), (total_one g j), (total_app g [i] [j]) end.
  rewrite !total_app. apply total_perm. apply (bool_decide_unpack _). vm_compute. exact I.
Qed.

(** ** Every value is counted once *)

Lemma elem_strided i t dim : i ∈ strided t BLOCK_SIZE dim <-> (i < dim /\ i mod BLOCK_SIZE = t mod BLOCK_SIZE /\ t <= i)%nat.
Proof.
  unfold strided, grid. change BLOCK_SIZE with 128%nat. rewrite list_elem_of_fmap. setoid_rewrite elem_of_seq. split.
  - intros (n & -> & _ & Hn). assert (n < (dim - t + 128 - 1) / 128)%nat as Hn' by lia.
    pose proof (Nat.Div0.mul_div_le (dim - t + 128 - 1) 128).
    split; [nia|]. split; [by rewrite Nat.Div0.mod_add|lia].
  - intros (Hi & Hm & Ht). exists (i / 128 - t / 128)%nat.
    pose proof (Nat.div_mod_eq i 128). pose proof (Nat.div_mod_eq t 128).
    assert (t / 128 <= i / 128)%nat by (apply Nat.Div0.div_le_mono; lia).
    split; [lia|]. split; [lia|].
    enough (i / 128 - t / 128 + 1 <= (dim - t + 128 - 1) / 128)%nat by lia. apply Nat.div_le_lower_bound; lia.
Qed.

(** The warps, their lanes and the values of a lane. *)
Lemma visits dim :
  seq 0 (BLOCK_SIZE / 32) ≫= (fun w => seq 0 32 ≫= fun l => strided (w * 32 + l) BLOCK_SIZE dim) ≡ₚ seq 0 dim.
Proof.
  assert (Hs : forall t i, (t < 128)%nat -> i ∈ strided t BLOCK_SIZE dim -> t = (i mod 128)%nat).
  { intros t i Ht (_ & Hm & _)%elem_strided. change BLOCK_SIZE with 128%nat in Hm. by rewrite (Nat.mod_small t) in Hm. }
  apply NoDup_Permutation; [|apply NoDup_seq|].
  - apply NoDup_bind; [| |apply NoDup_seq].
    + intros w1 w2 i Hw1%elem_of_seq Hw2%elem_of_seq (l1 & H1 & Hl1%elem_of_seq)%list_elem_of_bind (l2 & H2 & Hl2%elem_of_seq)%list_elem_of_bind.
      apply Hs in H1, H2; [lia|change (BLOCK_SIZE / 32)%nat with 4%nat in *; lia..].
    + intros w Hw%elem_of_seq. change (BLOCK_SIZE / 32)%nat with 4%nat in Hw. apply NoDup_bind; [| |apply NoDup_seq].
      * intros l1 l2 i Hl1%elem_of_seq Hl2%elem_of_seq H1 H2. apply Hs in H1, H2; lia.
      * intros l _. unfold strided. apply NoDup_fmap_2; [|apply NoDup_seq]. intros a b E. change BLOCK_SIZE with 128%nat in E. lia.
  - intros i. rewrite list_elem_of_bind. setoid_rewrite list_elem_of_bind. setoid_rewrite elem_of_seq.
    setoid_rewrite elem_strided. change (BLOCK_SIZE / 32)%nat with 4%nat. change BLOCK_SIZE with 128%nat. split.
    + intros (w & (l & (Hi & _) & _) & _). lia.
    + intros [_ Hi]. pose proof (Nat.mod_upper_bound i 128 ltac:(lia)) as Hm.
      pose proof (Nat.div_mod_eq (i mod 128) 32) as Hd. pose proof (Nat.mod_upper_bound (i mod 128) 32 ltac:(lia)).
      assert ((i mod 128) / 32 < 4)%nat by (apply Nat.Div0.div_lt_upper_bound; lia).
      exists ((i mod 128) / 32)%nat. split; [|lia].
      exists ((i mod 128) mod 32)%nat. split; [|lia]. split; [lia|].
      replace ((i mod 128) / 32 * 32 + (i mod 128) mod 32)%nat with (i mod 128)%nat by lia.
      split; [by rewrite Nat.Div0.mod_mod|apply Nat.Div0.mod_le].
Qed.

(** The block of the kernel adds up the whole row. *)
Lemma block_total f dim :
  foldl fadd zero (block_partials fadd (fun t => foldl (fun s i => fadd s (f i)) zero (strided t BLOCK_SIZE dim))) =
  total f (seq 0 dim).
Proof.
  unfold block_partials. change (of_int 0) with zero.
  assert (E : forall g s ks, foldl fadd s (g <$> ks) = fadd s (total g ks)).
  { intros g s ks. rewrite <- loop_total. revert s. by induction ks as [|k ks IH]; intros s; [|apply IH]. }
  rewrite E, fadd_0.
  rewrite (total_ext _ (fun w => total (fun l => total f (strided (w * 32 + l) BLOCK_SIZE dim)) (seq 0 32))).
  - rewrite (total_ext _ (fun w => total f (seq 0 32 ≫= fun l => strided (w * 32 + l) BLOCK_SIZE dim))) by (intros; by rewrite total_bind).
    rewrite <- total_bind. apply total_perm, visits.
  - intros w _. rewrite butterfly. apply total_ext. intros l _. by rewrite loop_total, fadd_0.
Qed.

End Exact.

(** ** The two paths *)

Lemma cpu_val (x : list Z) hidden_dim rows r i :
  (r < rows)%nat -> (i < hidden_dim)%nat ->
  take (rows * hidden_dim) x !! (r * hidden_dim + i)%nat = row_of hidden_dim r x !! i.
Proof. intros Hr Hi. unfold row_of. rewrite !lookup_take_lt, lookup_drop by nia. done. Qed.


End Norm.

(** ** A concrete row *)

(** Integers, with the root of a sum of squares left as it is. *)
#[local] Instance demo_exact : Floats := {|
  float := Z; h2f := fun h => h; f2h := fun x => x mod 65536; of_int := fun x => x;
  fadd := Z.add; fsub := Z.sub; fmul := Z.mul; fdiv := Z.quot; fpow := fun x _ => x;
  fcos := fun x => x; fsin := fun x => x; fexp := fun x => x; fneg := Z.opp;
  fabs := Z.abs; fmax := Z.max; rsqrt := fun x => Z.quot 1 x; fsqrt := fun x => x; fpos := fun x => 0 <? x; int_rn := fun x => x;
  float_as_int := fun x => x; int_as_float := fun x => x |}.

#[local] Instance demo_exact_sums : ExactSums.
Proof. split; cbn; intros; lia || reflexivity. Qed.

Definition demo_eps : float := (-10)%Z.


End Norm.
