(* ===== verification/Quant.v ===== *)
(** * Quant: the embedding rows on the host ([src/engine/decode.cu], lines 89 to 296)

    [fp16_to_float], the super-blocks Q4_K and Q6_K and [dequant_embedding],
    which turns one row of the embedding matrix into [half] values.  The
    buffers on the stack have their size, 8192, and their cells are
    indeterminate until written: a read of an indeterminate cell or an access
    outside a buffer has no result. *)

From Stdlib Require Import Floats.SpecFloat.
From S2P Require Import Prelude Kernels.

Module Quant.
Import Kernels.

(** ** Loops *)

(** [for (int i = 0; i < n; i++) body] *)
Definition for_ {St : Type} (n : nat) (body : nat -> St -> option St) (s : St) : option St := launch body (seq 0 n) s.

(** ** Half precision on the host *)

(** What [fp16_to_float] uses of the host's [float]. *)
Class HostFloats `{Floats} := {
  ldexpf : float -> Z -> float;
  NAN : float;
  INFINITY : float }.

Section Dequant.
Context `{HostFloats}.

Definition fp16_to_float (h : Z) : float :=
  let sign := Z.land (Z.shiftr h 15) 1 in
  let exp := Z.land (Z.shiftr h 10) 0x1F in
  let mant := Z.land h 0x3FF in
  let result :=
    if exp =? 0 then ldexpf (of_int mant) (-24)
    else if exp =? 31 then (if negb (mant =? 0) then NAN else INFINITY)
    else ldexpf (of_int (mant + 1024)) (exp - 25) in
  if negb (sign =? 0) then fneg result else result.

(** ** Q4_K: 144 bytes for 256 values *)

(** [blk->d_raw] and the like: the fields of a block. *)
Definition u8 (bs : bytes) (i : nat) : Z := nth i (bz <$> bs) 0.
Definition u16 (bs : bytes) (i : nat) : Z := unle (take 2 (drop i bs)).
Definition i8 (x : Z) : Z := if x <? 128 then x else x - 256.

(** Scale and minimum of the sub-block [j]: eight pairs of 6 bits in twelve bytes. *)
Definition get_scale_min_k4_cpu (j : nat) (q : nat -> Z) : Z * Z :=
  if (j <? 4)%nat then (Z.land (q j) 63, Z.land (q (j + 4)%nat) 63)
  else
    (Z.lor (Z.land (q (j + 4)%nat) 0xF) (Z.shiftl (Z.shiftr (q (j - 4)%nat) 6) 4),
     Z.lor (Z.shiftr (q (j + 4)%nat) 4) (Z.shiftl (Z.shiftr (q (j - 0)%nat) 6) 4)).

(** A row being written; [None]: indeterminate. *)
Abbreviation row := (list (option float)).

Definition put (out : row) (i : nat) (x : float) : option row :=
  if decide (i < length out)%nat then Some (<[i := Some x]> out) else None.

(** The two stores of the innermost loop. *)
Definition q4k_lane (d1 dm1 d2 dm2 : float) (q : nat -> Z) (out_base l : nat) (out : row) : option row :=
  out ← put out (out_base + l) (fsub (fmul d1 (of_int (Z.land (q l) 0xF))) dm1);
  put out (out_base + l + 32) (fsub (fmul d2 (of_int (Z.shiftr (q l) 4))) dm2).

Definition q4k_group (blk : bytes) (b il : nat) (out : row) : option row :=
  let dall := fp16_to_float (u16 blk 0) in
  let dmin := fp16_to_float (u16 blk 2) in
  let scales i := u8 blk (4 + i) in
  let is_ := (2 * il)%nat in
  let '(sc1, m1) := get_scale_min_k4_cpu (is_ + 0) scales in
  let '(sc2, m2) := get_scale_min_k4_cpu (is_ + 1) scales in
  let d1 := fmul dall (of_int sc1) in
  let dm1 := fmul dmin (of_int m1) in
  let d2 := fmul dall (of_int sc2) in
  let dm2 := fmul dmin (of_int m2) in
  let q i := u8 blk (16 + 32 * il + i) in
  for_ 32 (q4k_lane d1 dm1 d2 dm2 q (b * 256 + 64 * il)) out.

(** The row starts at [(int64_t)token_id * blocks_per_row * block_bytes]. *)
Definition row_offset (token_id : Z) (blocks_per_row block_bytes : Z) : Z :=
  i64 (i64 (token_id * blocks_per_row) * block_bytes).

Definition dequant_q4k_row (out : row) (data : bytes) (token_id hidden_dim : Z) : option row :=
  let blocks_per_row := Z.quot hidden_dim 256 in
  let block_bytes := 144 in
  let row_data := row_offset token_id blocks_per_row block_bytes in
  for_ (Z.to_nat blocks_per_row) (fun b out =>
    blk ← peek_at data (row_data + Z.of_nat b * block_bytes) block_bytes;
    for_ 4 (q4k_group blk b) out) out.

(** ** Q6_K: 210 bytes for 256 values *)

(** The four stores of a lane; [ql], [qh], [sc] and [y] have advanced to the half. *)
Definition q6k_lane (d : float) (ql qh sc : nat -> Z) (y l : nat) (out : row) : option row :=
  let is_ := (l / 16)%nat in
  let q1 := Z.lor (Z.land (ql l) 0xF) (Z.shiftl (Z.land (Z.shiftr (qh l) 0) 3) 4) in
  let q2 := Z.lor (Z.land (ql (l + 32)%nat) 0xF) (Z.shiftl (Z.land (Z.shiftr (qh l) 2) 3) 4) in
  let q3 := Z.lor (Z.shiftr (ql l) 4) (Z.shiftl (Z.land (Z.shiftr (qh l) 4) 3) 4) in
  let q4 := Z.lor (Z.shiftr (ql (l + 32)%nat) 4) (Z.shiftl (Z.land (Z.shiftr (qh l) 6) 3) 4) in
  out ← put out (y + (l + 0)) (fmul (fmul d (of_int (sc (is_ + 0)%nat))) (of_int (q1 - 32)));
  out ← put out (y + (l + 32)) (fmul (fmul d (of_int (sc (is_ + 2)%nat))) (of_int (q2 - 32)));
  out ← put out (y + (l + 64)) (fmul (fmul d (of_int (sc (is_ + 4)%nat))) (of_int (q3 - 32)));
  put out (y + (l + 96)) (fmul (fmul d (of_int (sc (is_ + 6)%nat))) (of_int (q4 - 32))).

Definition q6k_half (blk : bytes) (b n : nat) (out : row) : option row :=
  let d := fp16_to_float (u16 blk 208) in
  let ql i := u8 blk (64 * n + i) in
  let qh i := u8 blk (128 + 32 * n + i) in
  let sc i := i8 (u8 blk (192 + 8 * n + i)) in
  for_ 32 (q6k_lane d ql qh sc (b * 256 + 128 * n)) out.

Definition dequant_q6k_row (out : row) (data : bytes) (token_id hidden_dim : Z) : option row :=
  let blocks_per_row := Z.quot hidden_dim 256 in
  let block_bytes := 210 in
  let row_data := row_offset token_id blocks_per_row block_bytes in
  for_ (Z.to_nat blocks_per_row) (fun b out =>
    blk ← peek_at data (row_data + Z.of_nat b * block_bytes) block_bytes;
    for_ 2 (q6k_half blk b) out) out.

(** ** One embedding row *)

Definition MAX_ROW : nat := Z.to_nat 8192.

(** [h_fp16[i] = __float2half(h_row[i])] *)
Definition round_row (hidden_dim : Z) (h_row : row) (h_fp16 : list (option Z)) : option (list (option Z)) :=
  for_ (Z.to_nat hidden_dim) (fun i h =>
    x ← h_row !! i; x ← x;
    if decide (i < length h)%nat then Some (<[i := Some (f2h x)]> h) else None) h_fp16.

(** [h_fp16] after the branch of the type; [data] is what the host can read
    from [embd_data] on. *)
Definition host_row (data : bytes) (token_id hidden_dim embd_type : Z) : option (list (option Z)) :=
  let h_row : row := replicate MAX_ROW None in
  let h_fp16 : list (option Z) := replicate MAX_ROW None in
  if embd_type =? 12 then
    h_row ← dequant_q4k_row h_row data token_id hidden_dim; round_row hidden_dim h_row h_fp16
  else if embd_type =? 14 then
    h_row ← dequant_q6k_row h_row data token_id hidden_dim; round_row hidden_dim h_row h_fp16
  else if embd_type =? 0 then
    let src := i64 (token_id * hidden_dim) in
    for_ (Z.to_nat hidden_dim) (fun i h =>
      bs ← peek_at data (4 * (src + Z.of_nat i)) 4;
      if decide (i < length h)%nat then Some (<[i := Some (f2h (int_as_float (unle bs)))]> h) else None) h_fp16
  else if embd_type =? 1 then
    let src := i64 (token_id * hidden_dim) in
    bs ← peek_at data (2 * src) (2 * hidden_dim);
    poke_at h_fp16 0 ((fun i => Some (unle (take 2 (drop (2 * i) bs)))) <$> seq 0 (Z.to_nat hidden_dim))
  else poke_at h_fp16 0 (replicate (Z.to_nat hidden_dim) (Some 0)).

(** [fast]: the device path is enabled; [gpu]: the row it wrote, if it
    succeeded.  The result is what [dst] holds after the copy. *)
Definition dequant_embedding (fast : bool) (gpu : option (list Z)) (data : bytes)
  (token_id hidden_dim embd_type : Z) : option (list Z) :=
  match (if fast && ((embd_type =? 12) || (embd_type =? 14)) then gpu else None) with
  | Some dst => Some dst
  | None =>
      h_fp16 ← host_row data token_id hidden_dim embd_type;
      mapM id (take (Z.to_nat hidden_dim) h_fp16)
  end.

(** ** The reference: one value at a time *)

(** The block layouts, as functions of the index of the value in its block. *)
Definition q4k_value (blk : bytes) (r : nat) : float :=
  let j := (r / 32)%nat in
  let l := (r mod 32)%nat in
  let byte := u8 blk (16 + 32 * (j / 2) + l) in
  let nibble := if Nat.even j then Z.land byte 0xF else Z.shiftr byte 4 in
  let '(sc, m) := get_scale_min_k4_cpu j (fun i => u8 blk (4 + i)) in
  fsub (fmul (fmul (fp16_to_float (u16 blk 0)) (of_int sc)) (of_int nibble))
       (fmul (fp16_to_float (u16 blk 2)) (of_int m)).

Definition q6k_quant (blk : bytes) (r : nat) : Z :=
  let n := (r / 128)%nat in
  let c := (r mod 128 / 32)%nat in
  let l := (r mod 32)%nat in
  let byte := u8 blk (64 * n + 32 * (c mod 2) + l) in
  let low := if (c <? 2)%nat then Z.land byte 0xF else Z.shiftr byte 4 in
  let high := Z.land (Z.shiftr (u8 blk (128 + 32 * n + l)) (2 * Z.of_nat c)) 3 in
  Z.lor low (Z.shiftl high 4).

Definition q6k_value (blk : bytes) (r : nat) : float :=
  fmul (fmul (fp16_to_float (u16 blk 208)) (of_int (i8 (u8 blk (192 + r / 16))))) (of_int (q6k_quant blk r - 32)).

Definition block_bytes (embd_type : Z) : Z := if embd_type =? 12 then 144 else 210.
Definition block_value (embd_type : Z) : bytes -> nat -> float :=
  if embd_type =? 12 then q4k_value else q6k_value.
(** The value [i] of the row of a token: value [i mod 256] of block [i / 256]. *)
Definition row_value (embd_type : Z) (data : bytes) (token_id hidden_dim : Z) (i : nat) : float :=
  let nb := Z.quot hidden_dim 256 in
  let off := (token_id * nb + Z.of_nat (i / 256)) * block_bytes embd_type in
  block_value embd_type (default [] (peek_at data off (block_bytes embd_type))) (i mod 256).

(** ** Loops that write a buffer *)

Lemma for_inv {St : Type} (P : nat -> St -> Prop) n body (s : St) :
  P 0%nat s -> (forall i s, (i < n)%nat -> P i s -> exists s', body i s = Some s' /\ P (i + 1)%nat s') ->
  exists s', for_ n body s = Some s' /\ P n s'.
Proof.
  intros HP Hb. induction n as [|n IH]; [by exists s|].
  destruct IH as (s1 & E & HP1); [intros; apply Hb; [lia|done]|].
  destruct (Hb n s1) as (s2 & E2 & HP2); [lia|done|]. exists s2. unfold for_ in *.
  replace (S n) with (n + 1)%nat by lia. by rewrite launch_seq_S, E.
Qed.

(** [out] has the values [f] at the indices [D] and is [out0] elsewhere. *)
Definition filled {A} (out0 : list (option A)) (f : nat -> A) (D : nat -> Prop) (out : list (option A)) : Prop :=
  length out = length out0 /\
  forall i, (D i -> (i < length out0)%nat -> out !! i = Some (Some (f i))) /\ (~ D i -> out !! i = out0 !! i).

Lemma filled_iff {A} o (f : nat -> A) (D D' : nat -> Prop) out :
  filled o f D out -> (forall i, D i <-> D' i) -> filled o f D' out.
Proof. intros [HN HD] HI. split; [done|]. intros i. by rewrite <- HI. Qed.

Lemma put_filled o f D out i x :
  filled o f D out -> (i < length o)%nat -> x = f i ->
  exists out', put out i x = Some out' /\ filled o f (fun j => D j \/ j = i) out'.
Proof.
  intros [HN HD] Hi ->. unfold put. rewrite decide_True by lia. eexists. split; [done|]. split; [by rewrite length_insert|].
  intros j. destruct (decide (j = i)) as [->|Hne].
  - split; [intros _ _; rewrite list_lookup_insert_eq; [done|lia]|]. tauto.
  - rewrite list_lookup_insert_ne by done. destruct (HD j) as [H1 H2]. split; intros; [apply H1|apply H2]; tauto.
Qed.

(** A store, then the rest. *)
Lemma put_then {B} o f D out i x (k : row -> option B) (Q : B -> Prop) :
  filled o f D out -> (i < length o)%nat -> f i = x ->
  (forall out', filled o f (fun j => D j \/ j = i) out' -> exists b, k out' = Some b /\ Q b) ->
  exists b, put out i x ≫= k = Some b /\ Q b.
Proof. intros HF Hi Hx Hk. destruct (put_filled o f D out i x HF Hi (eq_sym Hx)) as (out' & -> & HF'). by apply Hk. Qed.

(** ** The Q4_K row *)

Lemma q4k_value_low blk il l :
  (l < 32)%nat ->
  let '(sc, m) := get_scale_min_k4_cpu (2 * il + 0) (fun i => u8 blk (4 + i)) in
  q4k_value blk (64 * il + l) =
  fsub (fmul (fmul (fp16_to_float (u16 blk 0)) (of_int sc)) (of_int (Z.land (u8 blk (16 + 32 * il + l)) 0xF)))
       (fmul (fp16_to_float (u16 blk 2)) (of_int m)).
Proof.
  intros Hl. unfold q4k_value.
  assert (E1 : ((64 * il + l) / 32 = 2 * il + 0)%nat) by (symmetry; apply (Nat.div_unique _ _ _ l); lia).
  assert (E2 : ((64 * il + l) mod 32 = l)%nat) by (symmetry; apply (Nat.mod_unique _ _ (2 * il)); lia).
  assert (E3 : ((2 * il + 0) / 2 = il)%nat) by (symmetry; apply (Nat.div_unique _ _ _ 0); lia).
  assert (E4 : Nat.even (2 * il + 0) = true) by (apply Nat.even_spec; exists il; lia).
  rewrite E1, E2, E3, E4. destruct (get_scale_min_k4_cpu _ _) as [sc m]. reflexivity.
Qed.

Lemma q4k_value_high blk il l :
  (l < 32)%nat ->
  let '(sc, m) := get_scale_min_k4_cpu (2 * il + 1) (fun i => u8 blk (4 + i)) in
  q4k_value blk (64 * il + l + 32) =
  fsub (fmul (fmul (fp16_to_float (u16 blk 0)) (of_int sc)) (of_int (Z.shiftr (u8 blk (16 + 32 * il + l)) 4)))
       (fmul (fp16_to_float (u16 blk 2)) (of_int m)).
Proof.
  intros Hl. unfold q4k_value.
  assert (E1 : ((64 * il + l + 32) / 32 = 2 * il + 1)%nat) by (symmetry; apply (Nat.div_unique _ _ _ l); lia).
  assert (E2 : ((64 * il + l + 32) mod 32 = l)%nat) by (symmetry; apply (Nat.mod_unique _ _ (2 * il + 1)); lia).
  assert (E3 : ((2 * il + 1) / 2 = il)%nat) by (symmetry; apply (Nat.div_unique _ _ _ 1); lia).
  assert (E4 : Nat.even (2 * il + 1) = false).
  { rewrite <- Nat.negb_odd. replace (Nat.odd (2 * il + 1)) with true; [done|]. symmetry. apply Nat.odd_spec. by exists il. }
  rewrite E1, E2, E3, E4. destruct (get_scale_min_k4_cpu _ _) as [sc m]. reflexivity.
Qed.

(** [n] values of block [b] from [r] on have been written. *)
Lemma q4k_group_filled o f blk b il out :
  (il < 4)%nat -> (b * 256 + 256 <= length o)%nat ->
  (forall r, (r < 256)%nat -> f (b * 256 + r)%nat = q4k_value blk r) ->
  filled o f (fun i => i < b * 256 + 64 * il)%nat out ->
  exists out', q4k_group blk b il out = Some out' /\ filled o f (fun i => i < b * 256 + 64 * (il + 1))%nat out'.
Proof.
  intros Hil HN Hf HF. unfold q4k_group.
  pose proof (fun l => q4k_value_low blk il l) as Lo. pose proof (fun l => q4k_value_high blk il l) as Hi.
  destruct (get_scale_min_k4_cpu (2 * il + 0) _) as [sc1 m1]. destruct (get_scale_min_k4_cpu (2 * il + 1) _) as [sc2 m2].
  remember (b * 256 + 64 * il)%nat as base eqn:Eb.
  destruct (for_inv (fun l => filled o f (fun i => i < base \/ base <= i < base + l \/ base + 32 <= i < base + 32 + l)%nat) 32
    (q4k_lane (fmul (fp16_to_float (u16 blk 0)) (of_int sc1)) (fmul (fp16_to_float (u16 blk 2)) (of_int m1))
       (fmul (fp16_to_float (u16 blk 0)) (of_int sc2)) (fmul (fp16_to_float (u16 blk 2)) (of_int m2))
       (fun i => u8 blk (16 + 32 * il + i)) base) out) as (out' & E & HF').
  - eapply filled_iff; [exact HF|]. intros i; cbn beta; lia.
  - intros l s Hl HS. unfold q4k_lane.
    eapply put_then; [exact HS|lia| |].
    { replace (base + l)%nat with (b * 256 + (64 * il + l))%nat by lia. rewrite Hf by lia. by apply Lo. }
    intros s1 HS1.
    destruct (put_filled o f _ s1 (base + l + 32) (q4k_value blk (64 * il + l + 32)) HS1) as (s2 & E2 & HS2); [lia| |].
    { replace (base + l + 32)%nat with (b * 256 + (64 * il + l + 32))%nat by lia. rewrite Hf by lia. done. }
    exists s2. split; [by rewrite <- Hi|]. eapply filled_iff; [exact HS2|]. intros i; cbn beta; lia.
  - exists out'. split; [exact E|]. eapply filled_iff; [exact HF'|]. intros i; cbn beta; lia.
Qed.

(** What the code of a block owes to the row. *)
Definition fills_block (value : bytes -> nat -> float) (block : bytes -> nat -> row -> option row) : Prop :=
  forall o f blk b out,
    (b * 256 + 256 <= length o)%nat -> (forall r, (r < 256)%nat -> f (b * 256 + r)%nat = value blk r) ->
    filled o f (fun i => i < b * 256)%nat out ->
    exists out', block blk b out = Some out' /\ filled o f (fun i => i < b * 256 + 256)%nat out'.

Lemma q4k_fills : fills_block q4k_value (fun blk b => for_ 4 (q4k_group blk b)).
Proof.
  intros o f blk b out HN Hf HF.
  destruct (for_inv (fun il => filled o f (fun i => i < b * 256 + 64 * il)%nat) 4 (q4k_group blk b) out) as (out' & E & HF').
  - eapply filled_iff; [exact HF|]. intros i; cbn beta; lia.
  - intros il s Hil HS. by apply q4k_group_filled.
  - exists out'. split; [exact E|]. eapply filled_iff; [exact HF'|]. intros i; cbn beta; lia.
Qed.

(** ** The Q6_K row *)

(** Where the value [128 n + 32 c + l] of a block comes from. *)
Lemma q6k_value_at blk n c l :
  (c < 4)%nat -> (l < 32)%nat ->
  let ql i := u8 blk (64 * n + i) in
  q6k_value blk (128 * n + (l + 32 * c)) =
  fmul (fmul (fp16_to_float (u16 blk 208)) (of_int (i8 (u8 blk (192 + 8 * n + (l / 16 + 2 * c))))))
    (of_int (Z.lor (if (c <? 2)%nat then Z.land (ql (if Nat.even c then l else l + 32)%nat) 0xF else Z.shiftr (ql (if Nat.even c then l else l + 32)%nat) 4)
                   (Z.shiftl (Z.land (Z.shiftr (u8 blk (128 + 32 * n + l)) (2 * Z.of_nat c)) 3) 4) - 32)).
Proof.
  intros Hc Hl ql. unfold q6k_value, q6k_quant, ql.
  assert (E0 : ((128 * n + (l + 32 * c)) mod 128 = l + 32 * c)%nat) by (symmetry; apply (Nat.mod_unique _ _ n); lia).
  assert (E1 : ((128 * n + (l + 32 * c)) / 128 = n)%nat) by (symmetry; apply (Nat.div_unique _ _ _ (l + 32 * c)); lia).
  assert (E2 : ((l + 32 * c) / 32 = c)%nat) by (symmetry; apply (Nat.div_unique _ _ _ l); lia).
  assert (E3 : ((128 * n + (l + 32 * c)) mod 32 = l)%nat) by (symmetry; apply (Nat.mod_unique _ _ (4 * n + c)); lia).
  assert (E4 : ((128 * n + (l + 32 * c)) / 16 = 8 * n + (l / 16 + 2 * c))%nat).
  { pose proof (Nat.div_mod_eq l 16). pose proof (Nat.mod_upper_bound l 16 ltac:(lia)).
    symmetry. apply (Nat.div_unique _ _ _ (l mod 16)); lia. }
  assert (E5 : (64 * n + 32 * (c mod 2) + l = 64 * n + if Nat.even c then l else l + 32)%nat).
  { assert (c = 0 \/ c = 1 \/ c = 2 \/ c = 3)%nat as [->|[->|[->| ->]]] by lia; cbn [Nat.even]; [| | |];
      [change (0 mod 2)%nat with 0%nat|change (1 mod 2)%nat with 1%nat|change (2 mod 2)%nat with 0%nat|change (3 mod 2)%nat with 1%nat]; lia. }
  by rewrite E0, E1, E2, E3, E4, E5.
Qed.

Lemma q6k_half_filled o f blk b n out :
  (n < 2)%nat -> (b * 256 + 256 <= length o)%nat ->
  (forall r, (r < 256)%nat -> f (b * 256 + r)%nat = q6k_value blk r) ->
  filled o f (fun i => i < b * 256 + 128 * n)%nat out ->
  exists out', q6k_half blk b n out = Some out' /\ filled o f (fun i => i < b * 256 + 128 * (n + 1))%nat out'.
Proof.
  intros Hn HN Hf HF. unfold q6k_half.
  pose proof (fun c l => q6k_value_at blk n c l) as V. cbn zeta in V.
  remember (b * 256 + 128 * n)%nat as y eqn:Ey.
  assert (Hv : forall c l, (c < 4)%nat -> (l < 32)%nat -> f (y + (l + 32 * c))%nat = q6k_value blk (128 * n + (l + 32 * c))).
  { intros c l Hc Hl. replace (y + (l + 32 * c))%nat with (b * 256 + (128 * n + (l + 32 * c)))%nat by lia. apply Hf. lia. }
  assert (lane_value : forall c l, (c < 4)%nat -> (l < 32)%nat -> f (y + (l + 32 * c))%nat =
    fmul (fmul (fp16_to_float (u16 blk 208)) (of_int (i8 (u8 blk (192 + 8 * n + (l / 16 + 2 * c))))))
    (of_int (Z.lor (if (c <? 2)%nat then Z.land (u8 blk (64 * n + (if Nat.even c then l else l + 32)%nat)) 0xF else Z.shiftr (u8 blk (64 * n + (if Nat.even c then l else l + 32)%nat)) 4)
                   (Z.shiftl (Z.land (Z.shiftr (u8 blk (128 + 32 * n + l)) (2 * Z.of_nat c)) 3) 4) - 32))).
  { intros c l Hc Hl. rewrite Hv by done. by apply V. }
  destruct (for_inv (fun l => filled o f (fun i => i < y \/ exists c k, c < 4 /\ k < l /\ i = y + (k + 32 * c))%nat) 32
    (q6k_lane (fp16_to_float (u16 blk 208)) (fun i => u8 blk (64 * n + i)) (fun i => u8 blk (128 + 32 * n + i))
      (fun i => i8 (u8 blk (192 + 8 * n + i))) y) out) as (out' & E & HF').
  - eapply filled_iff; [exact HF|]. cbn beta. intros i. split; [by left|]. intros [Hi|(c & k & ? & ? & ?)]; lia.
  - intros l s Hl HS. unfold q6k_lane.
    eapply put_then; [exact HS|lia|apply (lane_value 0%nat l); lia|]. intros s1 HS1.
    eapply put_then; [exact HS1|lia|apply (lane_value 1%nat l); lia|]. intros s2 HS2.
    eapply put_then; [exact HS2|lia|apply (lane_value 2%nat l); lia|]. intros s3 HS3.
    destruct (put_filled o f _ s3 (y + (l + 96)) _ HS3 ltac:(lia) (eq_sym (lane_value 3%nat l ltac:(lia) Hl))) as (s4 & E4 & HS4).
    exists s4. split; [exact E4|]. eapply filled_iff; [exact HS4|]. cbn beta. intros i. split.
    { intros [[[[[Hi|(c & k & Hc & Hk & Ei)]| ->]| ->]| ->]| ->]; [by left|right; exists c, k; lia|right..].
      - exists 0%nat, l. lia. - exists 1%nat, l. lia. - exists 2%nat, l. lia. - exists 3%nat, l. lia. }
    intros [Hi|(c & k & Hc & Hk & Ei)]; [tauto|].
    destruct (decide (k = l)) as [->|Hne]; [|left; left; left; left; right; exists c, k; lia].
    assert (c = 0 \/ c = 1 \/ c = 2 \/ c = 3)%nat as [->|[->|[->| ->]]] by lia; subst i; auto.
  - exists out'. split; [exact E|]. eapply filled_iff; [exact HF'|]. cbn beta. intros i. split.
    { intros [|(c & k & ? & ? & ?)]; lia. }
    intros Hi. destruct (decide (i < y)%nat) as [|Hge]; [by left|]. right. exists ((i - y) / 32)%nat, ((i - y) mod 32)%nat.
    pose proof (Nat.div_mod_eq (i - y) 32). pose proof (Nat.mod_upper_bound (i - y) 32 ltac:(lia)).
    split; [apply Nat.Div0.div_lt_upper_bound; lia|]. lia.
Qed.

Lemma q6k_fills : fills_block q6k_value (fun blk b => for_ 2 (q6k_half blk b)).
Proof.
  intros o f blk b out HN Hf HF.
  destruct (for_inv (fun n => filled o f (fun i => i < b * 256 + 128 * n)%nat) 2 (q6k_half blk b) out) as (out' & E & HF').
  - eapply filled_iff; [exact HF|]. intros i; cbn beta; lia.
  - intros n s Hn HS. by apply q6k_half_filled.
  - exists out'. split; [exact E|]. eapply filled_iff; [exact HF'|]. intros i; cbn beta; lia.
Qed.

(** ** Whole rows *)

Section Rows.
Context (value : bytes -> nat -> float) (block : bytes -> nat -> row -> option row) (bb : Z).
Context (block_ok : fills_block value block).

Definition block_rows (nb off : Z) (data : bytes) (out : row) : option row :=
  for_ (Z.to_nat nb) (fun b out => blk ← peek_at data (off + Z.of_nat b * bb) bb; block blk b out) out.

Definition block_at (data : bytes) (off : Z) (b : nat) : bytes := default [] (peek_at data (off + Z.of_nat b * bb) bb).

Lemma block_rows_filled nb off data out :
  0 <= nb -> 0 <= bb -> 0 <= off -> off + nb * bb <= zlen data -> nb * 256 <= zlen out ->
  exists out', block_rows nb off data out = Some out' /\
    filled out (fun i => value (block_at data off (i / 256)) (i mod 256)) (fun i => Z.of_nat i < nb * 256) out'.
Proof.
  intros Hnb Hbb Hoff Hdata Hout.
  set (f := fun i => value (block_at data off (i / 256)) (i mod 256)).
  destruct (for_inv (fun b => filled out f (fun i => i < b * 256)%nat) (Z.to_nat nb)
    (fun b out => blk ← peek_at data (off + Z.of_nat b * bb) bb; block blk b out) out) as (out' & E & HF).
  - split; [done|]. intros i. split; [lia|done].
  - intros b s Hb HS. assert (Hp : peek_at data (off + Z.of_nat b * bb) bb = Some (block_at data off b)).
    { unfold block_at. rewrite peek_at_Some by nia. done. }
    rewrite Hp. cbn [mbind option_bind].
    destruct (block_ok out f (block_at data off b) b s) as (s' & E & HS'); [unfold zlen in *; lia| |done|].
    + intros r Hr. unfold f. rewrite (Nat.div_add_l b 256 r), (Nat.div_small r) by lia.
      rewrite (Nat.add_comm _ r), Nat.Div0.mod_add, Nat.mod_small by lia. by rewrite Nat.add_0_r.
    + exists s'. split; [exact E|]. eapply filled_iff; [exact HS'|]. intros i; cbn beta; lia.
  - exists out'. split; [exact E|]. eapply filled_iff; [exact HF|]. intros i; cbn beta; lia.
Qed.

End Rows.

Lemma for_fails {St : Type} (P : St -> Prop) n i body (s : St) :
  P s -> (forall j s s', P s -> body j s = Some s' -> P s') -> (i < n)%nat -> (forall s, P s -> body i s = None) ->
  for_ n body s = None.
Proof.
  intros HP Hs Hi Hf. unfold for_. replace n with (i + (1 + (n - i - 1)))%nat by lia.
  rewrite seq_app, launch_app. destruct (launch body (seq 0 i) s) as [s1|] eqn:E; [|done]. cbn [mbind option_bind].
  assert (HP1 : P s1).
  { revert s HP E. generalize (seq 0 i). intros l. induction l as [|j l IH]; intros s HP E; [by injection E as <-|].
    cbn [launch] in E. destruct (body j s) as [s2|] eqn:E2; [|done]. by apply (IH s2); [eapply Hs|]. }
  cbn [seq launch Nat.add]. by rewrite Hf.
Qed.

Lemma round_row_filled hidden h_row h f :
  0 <= hidden <= zlen h -> (forall i, Z.of_nat i < hidden -> h_row !! i = Some (Some (f i))) ->
  exists h', round_row hidden h_row h = Some h' /\ filled h (fun i => f2h (f i)) (fun i => Z.of_nat i < hidden) h'.
Proof.
  intros Hh Hr. unfold round_row.
  match goal with |- context [for_ ?n ?b h] =>
    destruct (for_inv (fun k => filled h (fun i => f2h (f i)) (fun i => i < k)%nat) n b h) as (h' & E & HF) end.
  - split; [done|]. intros i. split; [lia|done].
  - intros i s Hi HS. rewrite Hr by lia. cbn [mbind option_bind]. destruct HS as [HN HD].
    unfold zlen in *. rewrite decide_True by lia. eexists. split; [done|]. split; [by rewrite length_insert|].
    intros j. destruct (decide (j = i)) as [->|Hne].
    + split; [intros _ _; rewrite list_lookup_insert_eq; [done|lia]|]. lia.
    + rewrite list_lookup_insert_ne by done. destruct (HD j) as [H1 H2]. split; intros; [apply H1|apply H2]; lia.
  - exists h'. split; [exact E|]. eapply filled_iff; [exact HF|]. intros i; cbn beta; lia.
Qed.

(** Reading an indeterminate value, or writing past [h_fp16], has no result. *)
Lemma round_row_fails hidden h_row h i :
  Z.of_nat i < hidden -> mjoin (h_row !! i) = None \/ zlen h <= Z.of_nat i -> round_row hidden h_row h = None.
Proof.
  intros Hi Hbad. unfold round_row. apply (for_fails (fun s => length s = length h) _ i); [done| |lia|].
  - intros j s s' Hs E. destruct (h_row !! j) as [[x|]|]; try done. cbn [mbind option_bind] in E.
    case_decide; [|done]. injection E as <-. by rewrite length_insert.
  - intros s Hs. destruct (h_row !! i) as [[x|]|] eqn:E; try done. cbn [mbind option_bind].
    destruct Hbad as [Hb|Hb]; [done|]. unfold zlen in Hb. rewrite decide_False by lia. done.
Qed.

(** The row as a list. *)
Lemma filled_take {A} (h : list (option A)) f n h' :
  filled h f (fun i => Z.of_nat i < n) h' -> 0 <= n <= zlen h ->
  mapM id (take (Z.to_nat n) h') = Some (f <$> seq 0 (Z.to_nat n)).
Proof.
  intros [HN HD] Hn. apply mapM_Some. unfold zlen in Hn.
  assert (E : take (Z.to_nat n) h' = (fun i => Some (f i)) <$> seq 0 (Z.to_nat n)).
  { apply list_eq. intros i. destruct (decide (i < Z.to_nat n)%nat) as [Hi|Hi].
    - rewrite lookup_take_lt, (proj1 (HD i)) by lia. rewrite list_lookup_fmap, lookup_seq_lt by done. done.
    - rewrite lookup_take_ge by lia. symmetry. rewrite list_lookup_fmap, lookup_seq_ge by lia. done. }
  rewrite E. clear. induction (seq 0 (Z.to_nat n)); cbn; constructor; done.
Qed.

(** ** The whole operation *)

Definition kquant (embd_type : Z) : bool := (embd_type =? 12) || (embd_type =? 14).

(** Bytes of a row. *)
Definition row_bytes (embd_type hidden_dim : Z) : Z :=
  if kquant embd_type then Z.quot hidden_dim 256 * block_bytes embd_type
  else if embd_type =? 0 then 4 * hidden_dim else if embd_type =? 1 then 2 * hidden_dim else 0.

(** The value [i] of the row, as a [half]. *)
Definition half_value (embd_type : Z) (data : bytes) (token_id hidden_dim : Z) (i : nat) : Z :=
  if kquant embd_type then f2h (row_value embd_type data token_id hidden_dim i)
  else if embd_type =? 0 then
    f2h (int_as_float (unle (default [] (peek_at data (4 * (token_id * hidden_dim + Z.of_nat i)) 4))))
  else if embd_type =? 1 then unle (default [] (peek_at data (2 * (token_id * hidden_dim + Z.of_nat i)) 2))
  else 0.

(** The row fits the buffers and has no incomplete block. *)
Definition row_fits (embd_type hidden_dim : Z) : bool :=
  (hidden_dim <=? 8192) && (negb (kquant embd_type) || (Z.rem hidden_dim 256 =? 0)).

Lemma blank_row {A} i : mjoin ((replicate MAX_ROW (@None A)) !! i) = None.
Proof.
  destruct (replicate MAX_ROW (@None A) !! i) as [x|] eqn:E; [|done].
  apply lookup_replicate in E as [-> _]. done.
Qed.

(** The K-quant branches, for the code of either block. *)
Lemma kquant_row value block bb data off hidden :
  fills_block value block -> 0 <= bb -> 0 <= off -> 0 < hidden -> off + Z.quot hidden 256 * bb <= zlen data ->
  let go : option (list (option Z)) := out ← block_rows block bb (Z.quot hidden 256) off data (replicate MAX_ROW None);
            round_row hidden out (replicate MAX_ROW None) in
  if (hidden <=? 8192) && (Z.rem hidden 256 =? 0) then
    exists h', go = Some h' /\
      filled (replicate MAX_ROW None) (fun i => f2h (value (block_at bb data off (i / 256)%nat) (i mod 256)%nat)) (fun i => Z.of_nat i < hidden) h'
  else go = None.
Proof.
  intros HB Hbb Hoff Hh Hd go. pose proof (Z.quot_rem hidden 256 ltac:(lia)) as Eq.
  pose proof (Z.rem_bound_pos hidden 256 ltac:(lia) ltac:(lia)).
  assert (HL : zlen (replicate MAX_ROW (@None float)) = 8192) by (unfold zlen; rewrite length_replicate; unfold MAX_ROW; lia).
  assert (HL' : zlen (replicate MAX_ROW (@None Z)) = 8192) by (unfold zlen; rewrite length_replicate; unfold MAX_ROW; lia).
  destruct (Z.leb_spec hidden 8192) as [Hle|Hgt]; cbn [andb].
  - destruct (block_rows_filled value block bb HB (Z.quot hidden 256) off data (replicate MAX_ROW None)) as (out & E & HF); [lia..|].
    unfold go. rewrite E. cbn [mbind option_bind]. destruct HF as [HN HD]. destruct (Z.eqb_spec (Z.rem hidden 256) 0) as [E0|E0].
    + apply round_row_filled; [lia|]. intros i Hi. apply HD; [lia|]. unfold zlen in HL. lia.
    + apply (round_row_fails _ _ _ (Z.to_nat (Z.quot hidden 256 * 256))); [lia|]. left.
      rewrite (proj2 (HD _)) by lia. apply blank_row.
  - unfold go. destruct (block_rows _ _ _ _ _ _) as [out|]; [|done]. cbn [mbind option_bind].
    apply (round_row_fails _ _ _ (Z.to_nat 8192)); lia.
Qed.

Lemma row_offset_exact token nb bb n : 0 <= token -> 0 <= nb -> 0 < bb -> (token + 1) * (nb * bb) <= n -> n < 2 ^ 62 ->
  row_offset token nb bb = token * (nb * bb) /\ 0 <= token * (nb * bb) <= n - nb * bb.
Proof.
  intros Ht Hnb Hbb Hn Hb. unfold row_offset. assert (0 <= token * nb) by nia.
  assert (token * nb <= token * (nb * bb)) by nia. assert (0 <= token * (nb * bb)) by nia.
  rewrite (i64_id (token * nb)) by lia. rewrite i64_id by lia. lia.
Qed.

Lemma row_block t data token hidden i :
  row_value t data token hidden i =
  block_value t (block_at (block_bytes t) data (token * (Z.quot hidden 256 * block_bytes t)) (i / 256)) (i mod 256).
Proof. unfold row_value, block_at. do 3 f_equal. lia. Qed.

Lemma zlen_blank {A} : zlen (replicate MAX_ROW (@None A)) = 8192.
Proof. unfold zlen. rewrite length_replicate. unfold MAX_ROW. lia. Qed.

Lemma filled_ext {A} o (f g : nat -> A) D out : filled o f D out -> (forall i, f i = g i) -> filled o g D out.
Proof. intros [HN HD] E. split; [done|]. intros i. rewrite <- E. apply HD. Qed.

(** What is shown of each branch. *)
Definition branch_ok (t : Z) (data : bytes) (token hidden : Z) : Prop :=
  if row_fits t hidden then
    exists h, host_row data token hidden t = Some h /\
      filled (replicate MAX_ROW None) (half_value t data token hidden) (fun i => Z.of_nat i < hidden) h
  else host_row data token hidden t = None.

Section Branches.
Context (data : bytes) (token hidden t : Z).
Context (Ht : 0 <= token) (Hh : 0 < hidden) (Hd : (token + 1) * row_bytes t hidden <= zlen data < 2 ^ 62).

Lemma kquant_branch : kquant t = true -> branch_ok t data token hidden.
Proof.
  intros Hk. unfold branch_ok, row_fits, row_bytes in *. rewrite Hk in *. cbn [negb orb].
  destruct (row_offset_exact token (Z.quot hidden 256) (block_bytes t) (zlen data)) as [Eo Ho];
    [done|apply Z.quot_pos; lia|unfold block_bytes; case_match; lia|lia..|].
  unfold half_value. rewrite Hk.
  assert (Hv : forall value block, fills_block value block -> block_value t = value ->
    (host_row data token hidden t = out ← block_rows block (block_bytes t) (Z.quot hidden 256)
       (row_offset token (Z.quot hidden 256) (block_bytes t)) data (replicate MAX_ROW None);
       round_row hidden out (replicate MAX_ROW None)) ->
    if (hidden <=? 8192) && (Z.rem hidden 256 =? 0) then
      exists h, host_row data token hidden t = Some h /\
        filled (replicate MAX_ROW None) (fun i => f2h (row_value t data token hidden i)) (fun i => Z.of_nat i < hidden) h
    else host_row data token hidden t = None).
  { intros value block HB Hv ->. rewrite Eo.
    pose proof (kquant_row value block (block_bytes t) data (token * (Z.quot hidden 256 * block_bytes t)) hidden HB
      ltac:(unfold block_bytes; case_match; lia) ltac:(lia) Hh ltac:(lia)) as K. cbn zeta in K.
    destruct (_ && _); [|done]. destruct K as (h & E & HF). exists h. split; [done|].
    eapply filled_ext; [exact HF|]. intros i. cbn beta. by rewrite row_block, Hv. }
  unfold kquant in Hk. apply orb_true_iff in Hk as [E|E]; apply Z.eqb_eq in E; subst t.
  - by apply (Hv q4k_value _ q4k_fills).
  - by apply (Hv q6k_value _ q6k_fills).
Qed.

Lemma f32_branch : t = 0 -> branch_ok t data token hidden.
Proof.
  intros ->. unfold branch_ok, row_fits. cbn [kquant Z.eqb orb negb andb]. rewrite andb_true_r.
  unfold row_bytes in Hd. cbn [kquant Z.eqb orb] in Hd.
  assert (Ei : i64 (token * hidden) = token * hidden) by (apply i64_id; nia).
  unfold host_row. cbn [Z.eqb]. rewrite Ei. destruct (Z.leb_spec hidden 8192) as [Hle|Hgt].
  - match goal with |- context [for_ ?n ?b ?h] =>
      destruct (for_inv (fun k => filled h (half_value 0 data token hidden) (fun i => i < k)%nat) n b h) as (h' & E & HF) end.
    + split; [done|]. intros i. split; [lia|done].
    + intros i s Hi HS. rewrite peek_at_Some by nia. cbn [mbind option_bind]. destruct HS as [HN HD].
      assert (HL : zlen s = 8192) by (unfold zlen; rewrite HN; apply (zlen_blank (A:=Z))). unfold zlen in HL.
      rewrite decide_True by lia. eexists. split; [done|]. split; [by rewrite length_insert|].
      intros j. destruct (decide (j = i)) as [->|Hne].
      * split; [intros _ _|lia]. rewrite list_lookup_insert_eq by lia. unfold half_value. cbn [kquant Z.eqb orb].
        by rewrite peek_at_Some by nia.
      * rewrite list_lookup_insert_ne by done. destruct (HD j) as [H1 H2]. split; intros; [apply H1|apply H2]; lia.
    + exists h'. split; [exact E|]. eapply filled_iff; [exact HF|]. intros i; cbn beta; lia.
  - apply (for_fails (fun s => zlen s = 8192) _ (Z.to_nat 8192)); [apply (zlen_blank (A:=Z))| |lia|].
    + intros j s s' Hs E. destruct (peek_at _ _ _); [|done]. cbn [mbind option_bind] in E. case_decide; [|done].
      injection E as <-. unfold zlen. by rewrite length_insert.
    + intros s Hs. destruct (peek_at _ _ _); [|done]. cbn [mbind option_bind]. unfold zlen in Hs. by rewrite decide_False by lia.
Qed.

(** A copy or a fill of the whole row. *)
Lemma poke_row (f : nat -> Z) vs :
  vs = (fun i => Some (f i)) <$> seq 0 (Z.to_nat hidden) ->
  if hidden <=? 8192 then
    exists h, poke_at (replicate MAX_ROW None) 0 vs = Some h /\
      filled (replicate MAX_ROW None) f (fun i => Z.of_nat i < hidden) h
  else poke_at (replicate MAX_ROW None) 0 vs = None.
Proof.
  intros ->. set (vs := (fun i => Some (f i)) <$> seq 0 (Z.to_nat hidden)).
  assert (Hv : zlen vs = hidden) by (unfold vs, zlen; rewrite length_fmap, length_seq; lia).
  pose proof (zlen_blank (A := Z)) as HB. destruct (Z.leb_spec hidden 8192) as [Hle|Hgt].
  - destruct (poke_at_is_Some (replicate MAX_ROW None) 0 vs) as [h E]; [lia|lia|]. exists h. split; [done|].
    split; [apply poke_at_length in E; unfold zlen in *; lia|]. intros i.
    rewrite (poke_at_lookup _ _ _ _ i E), Hv. split.
    + intros Hi _. rewrite decide_True by lia. unfold vs. rewrite list_lookup_fmap, lookup_seq_lt by lia. cbn. do 3 f_equal. lia.
    + intros Hi. by rewrite decide_False by lia.
  - unfold poke_at. destruct (in_block _ 0 (zlen vs)) eqn:E; [|done]. apply in_block_true in E. lia.
Qed.

Lemma f16_branch : t = 1 -> branch_ok t data token hidden.
Proof.
  intros ->. unfold branch_ok, row_fits. cbn [kquant Z.eqb orb negb andb]. rewrite andb_true_r.
  change (row_bytes 1 hidden) with (2 * hidden) in Hd.
  assert (Ei : i64 (token * hidden) = token * hidden) by (apply i64_id; nia).
  unfold host_row. cbn [Z.eqb]. rewrite Ei. rewrite peek_at_Some by nia. cbn [mbind option_bind].
  apply poke_row. apply list_fmap_ext. intros k i [-> Hk]%lookup_seq. cbn [Nat.add]. f_equal.
  unfold half_value. cbn [kquant Z.eqb orb]. rewrite peek_at_Some by nia. cbn [default from_option id]. f_equal.
  rewrite skipn_firstn_comm, take_take, drop_drop. f_equal; [lia|]. f_equal. lia.
Qed.

Lemma other_branch : t <> 12 -> t <> 14 -> t <> 0 -> t <> 1 -> branch_ok t data token hidden.
Proof.
  intros N12 N14 N0 N1. unfold branch_ok, row_fits, kquant. unfold host_row.
  rewrite (proj2 (Z.eqb_neq t 12)), (proj2 (Z.eqb_neq t 14)), (proj2 (Z.eqb_neq t 0)), (proj2 (Z.eqb_neq t 1)) by done.
  cbn [orb negb andb]. rewrite andb_true_r. apply poke_row. unfold half_value, kquant.
  rewrite (proj2 (Z.eqb_neq t 12)), (proj2 (Z.eqb_neq t 14)), (proj2 (Z.eqb_neq t 0)), (proj2 (Z.eqb_neq t 1)) by done.
  cbn [orb]. generalize 0%nat. induction (Z.to_nat hidden) as [|n IH]; intros k; [done|]. cbn. by rewrite <- IH.
Qed.

Lemma all_branches : branch_ok t data token hidden.
Proof.
  destruct (kquant t) eqn:E; [by apply kquant_branch|].
  destruct (decide (t = 0)) as [|N0]; [by apply f32_branch|]. destruct (decide (t = 1)) as [|N1]; [by apply f16_branch|].
  unfold kquant in E. apply orb_false_iff in E as [E1 E2]. apply Z.eqb_neq in E1, E2. by apply other_branch.
Qed.

End Branches.

Lemma embedding_on_host (fast : bool) (data : bytes) (token hidden t : Z) :
  0 <= token -> 0 < hidden -> (token + 1) * row_bytes t hidden <= zlen data < 2 ^ 62 ->
  dequant_embedding fast None data token hidden t =
    if row_fits t hidden then Some (half_value t data token hidden <$> seq 0 (Z.to_nat hidden)) else None.
Proof.
  intros Ht Hh Hd. unfold dequant_embedding.
  replace (if fast && _ then None else None) with (@None (list Z)) by (by destruct (fast && _)).
  pose proof (all_branches data token hidden t Ht Hh Hd) as HB. unfold branch_ok in HB.
  destruct (row_fits t hidden) eqn:E; [|by rewrite HB]. destruct HB as (h & -> & HF). cbn [mbind option_bind].
  apply (filled_take (replicate MAX_ROW None)); [done|]. rewrite zlen_blank.
  unfold row_fits in E. apply andb_true_iff in E as [E%Z.leb_le _]. lia.
Qed.


End Dequant.

(** ** Scales of 6 bits *)

(** The packing of eight scales and eight minima in twelve bytes. *)
Definition pack_scales (sc m : nat -> Z) (i : nat) : Z :=
  if (i <? 4)%nat then sc i + 64 * (sc (i + 4)%nat / 16)
  else if (i <? 8)%nat then m (i - 4)%nat + 64 * (m i / 16)
  else sc (i - 4)%nat mod 16 + 16 * (m (i - 4)%nat mod 16).

(** Two fields of a byte. *)
Lemma lor_fields a b k : 0 <= k -> 0 <= a < 2 ^ k -> 0 <= b -> Z.lor a (Z.shiftl b k) = a + b * 2 ^ k.
Proof.
  intros Hk Ha Hb. rewrite <- Z.shiftl_mul_pow2 by done. rewrite <- Z.add_lor_land.
  replace (Z.land a (Z.shiftl b k)) with 0; [lia|]. symmetry. apply Z.bits_inj'. intros n Hn.
  rewrite Z.land_spec, Z.bits_0. destruct (Z.ltb_spec n k) as [Hlt|Hge].
  - rewrite (Z.shiftl_spec_low b k n) by done. apply andb_false_r.
  - rewrite <- (Z.mod_small a (2 ^ k)) by done. by rewrite Z.mod_pow2_bits_high by lia.
Qed.

Lemma low_bits a k : 0 <= k -> Z.land a (Z.ones k) = a mod 2 ^ k.
Proof. intros. by apply Z.land_ones. Qed.

(** The fields in arithmetic. *)
Lemma scale_min_arith j q :
  (forall i, 0 <= q i < 256) ->
  get_scale_min_k4_cpu j q =
    if (j <? 4)%nat then (q j mod 64, q (j + 4)%nat mod 64)
    else (q (j + 4)%nat mod 16 + q (j - 4)%nat / 64 * 16, q (j + 4)%nat / 16 + q j / 64 * 16).
Proof.
  intros Hq. unfold get_scale_min_k4_cpu. change 63 with (Z.ones 6). change 0xF with (Z.ones 4).
  rewrite !low_bits, !Z.shiftr_div_pow2 by lia. change (2 ^ 6) with 64. change (2 ^ 4) with 16. rewrite Nat.sub_0_r.
  destruct (j <? 4)%nat; [done|]. pose proof (Hq (j + 4)%nat). pose proof (Hq (j - 4)%nat). pose proof (Hq j).
  rewrite !lor_fields; [done|lia|..]; try lia; change (2 ^ 4) with 16.
  - split; [apply Z.div_pos; lia|apply Z.div_lt_upper_bound; lia].
  - apply Z.div_pos; lia.
  - apply Z.mod_pos_bound. lia.
  - apply Z.div_pos; lia.
Qed.

Ltac all_bytes Hq :=
  repeat match goal with |- context [?q ?i] =>
    lazymatch type of Hq with forall i, 0 <= q i < 256 => idtac end;
    lazymatch goal with _ : 0 <= q i < 256 |- _ => fail | _ => pose proof (Hq i) end end.

(** The twelve bytes of scales of a Q4_K block hold exactly eight pairs of
    6-bit numbers: [get_scale_min_k4_cpu] reads back every pair that was
    packed, and packing what it reads gives the bytes back, so that no bit of
    them is lost or read twice. *)
Theorem scales_roundtrip (sc m q : nat -> Z) :
  (forall j, 0 <= sc j < 64 /\ 0 <= m j < 64) -> (forall i, 0 <= q i < 256) ->
  (forall j, (j < 8)%nat -> get_scale_min_k4_cpu j (pack_scales sc m) = (sc j, m j)) /\
  (forall i, (i < 12)%nat ->
     pack_scales (fun j => fst (get_scale_min_k4_cpu j q)) (fun j => snd (get_scale_min_k4_cpu j q)) i = q i).
Proof.
  intros Hs Hq. assert (Hp : forall i, 0 <= pack_scales sc m i < 256).
  { intros i. unfold pack_scales. destruct (Hs i), (Hs (i + 4)%nat), (Hs (i - 4)%nat). 
    destruct (i <? 4)%nat; [|destruct (i <? 8)%nat]; Z.to_euclidean_division_equations; lia. }
  split.
  - intros j Hj. rewrite scale_min_arith by done. destruct (Hs j), (Hs (j + 4)%nat).
    do 8 (destruct j as [|j]; [unfold pack_scales; cbn [Nat.ltb Nat.leb Nat.add Nat.sub]; f_equal;
      pose proof (Hs 0%nat); pose proof (Hs 1%nat); pose proof (Hs 2%nat); pose proof (Hs 3%nat);
      Z.to_euclidean_division_equations; lia|]). lia.
  - intros i Hi. unfold pack_scales.
    do 12 (destruct i as [|i]; [cbn [Nat.ltb Nat.leb Nat.add Nat.sub]; rewrite !scale_min_arith by done;
      cbn [Nat.ltb Nat.leb Nat.add Nat.sub fst snd]; all_bytes Hq; Z.to_euclidean_division_equations; lia|]). lia.
Qed.

(** ** Half precision in IEEE 754 binary32 *)

Definition of_Z (z : Z) : spec_float := binary_normalize 24 128 z 0 false.

(** The operations of the host that decoding uses are those of IEEE 754; the
    functions of the math library and the conversions of the device are not
    used here and are given. *)
Definition binary32 (other : spec_float -> spec_float) (to_half : spec_float -> Z) (bits : Z -> spec_float) : Floats := {|
  float := spec_float; h2f h := of_Z h; f2h := to_half; of_int := of_Z;
  fadd := SFadd 24 128; fsub := SFsub 24 128; fmul := SFmul 24 128; fdiv := SFdiv 24 128;
  fpow a _ := other a; fcos := other; fsin := other; fexp := other; fneg := SFopp; fabs := SFabs;
  fmax a b := if SFltb a b then b else a; rsqrt a := other a; fsqrt := SFsqrt 24 128;
  fpos a := SFltb (S754_zero false) a; int_rn _ := 0; float_as_int _ := 0; int_as_float := bits |}.

Definition binary32_host other to_half bits : @HostFloats (binary32 other to_half bits) :=
  @Build_HostFloats (binary32 other to_half bits) (fun x e => SFldexp 24 128 x e) S754_nan (S754_infinity false).

(** The encoding of a number that a [half] represents. *)
Definition half_bits (x : spec_float) : Z :=
  match x with
  | S754_zero s => if s then 0x8000 else 0
  | S754_infinity s => if s then 0xFC00 else 0x7C00
  | S754_nan => 0x7E00
  | S754_finite s m e =>
      let p := Z.log2 (Z.pos m) + e in
      (if s then 0x8000 else 0) +
      (if p <? -14 then Z.shiftl (Z.pos m) (e + 24)
       else (p + 15) * 1024 + (Z.shiftl (Z.pos m) (e - p + 10) - 1024))
  end.

(** [x] is exactly [(-1)^s * k * 2^e]. *)
Definition is_number (x : spec_float) (s : bool) (k e : Z) : bool :=
  match x with
  | S754_zero s' => Bool.eqb s s' && (k =? 0)
  | S754_finite s' m e' => Bool.eqb s s' && (e' <=? e) && (Z.pos m =? Z.shiftl k (e - e'))
  | _ => false
  end.

Section Half.
Context (other : spec_float -> spec_float) (to_half : spec_float -> Z) (bits : Z -> spec_float).
#[local] Existing Instance binary32_host.

Definition decode (h : Z) : spec_float := @fp16_to_float (binary32 other to_half bits) (binary32_host other to_half bits) h.

(** IEEE 754 binary16. *)
Definition half_ok (h : Z) : bool :=
  let s := 0x8000 <=? h in let e := h / 1024 mod 32 in let m := h mod 1024 in
  let x := decode h in
  if (e =? 31) && negb (m =? 0) then match x with S754_nan => true | _ => false end
  else
    (half_bits x =? h) &&
    (if e =? 31 then match x with S754_infinity s' => Bool.eqb s s' | _ => false end
     else if e =? 0 then is_number x s m (-24) else is_number x s (1024 + m) (e - 25)).

(** All 65536 patterns, by high and low byte. *)
Lemma halfs_ok : forallb (fun a => forallb (fun b => half_ok (a * 256 + b)) (upto 256)) (upto 256) = true.
Proof. vm_compute. reflexivity. Qed.

Lemma half_ok_all h : 0 <= h < 65536 -> half_ok h = true.
Proof.
  intros Hh. pose proof halfs_ok as H. rewrite forallb_forall in H.
  assert (Ha : 0 <= h / 256 < 256) by (split; [apply Z.div_pos; lia|apply Z.div_lt_upper_bound; lia]).
  pose proof (Z.mod_pos_bound h 256 ltac:(lia)) as Hb.
  specialize (H (h / 256) (proj1 (list_elem_of_In _ _) (proj2 (elem_of_upto _ _) Ha))).
  rewrite forallb_forall in H.
  specialize (H (h mod 256) (proj1 (list_elem_of_In _ _) (proj2 (elem_of_upto _ _) Hb))).
  rewrite (Z.mul_comm _ 256), <- Z.div_mod in H by lia. done.
Qed.

(** C27: [fp16_to_float] is exact on all 65536 patterns: it gives the number,
    infinity or NaN that IEEE 754 gives the pattern, without rounding, so that
    a pattern that is not a NaN is recovered from its value. *)
Theorem fp16_to_float_exact (h : Z) :
  0 <= h < 65536 ->
  let s := 0x8000 <=? h in let e := h / 1024 mod 32 in let m := h mod 1024 in
  (e = 31 -> decode h = if m =? 0 then S754_infinity s else S754_nan) /\
  (e <> 31 -> is_number (decode h) s (if e =? 0 then m else 1024 + m) (if e =? 0 then -24 else e - 25) = true) /\
  (e <> 31 \/ m = 0 -> half_bits (decode h) = h).
Proof.
  intros Hh s e m. pose proof (half_ok_all h Hh) as H. unfold half_ok in H. fold s e m in H.
  destruct (Z.eqb_spec m 0) as [Em|Em]; destruct (Z.eqb_spec e 31) as [Ee|Ee]; cbn [negb andb] in H.
  - apply andb_true_iff in H as [H1%Z.eqb_eq H2]. split_and!; [|done|done]. intros _.
    destruct (decode h) as [|s'| |]; try done. apply eqb_prop in H2. by rewrite H2.
  - apply andb_true_iff in H as [H1%Z.eqb_eq H2]. split_and!; [done| |done]. intros _. by destruct (e =? 0).
  - split_and!; [|done|lia]. intros _. by destruct (decode h).
  - apply andb_true_iff in H as [H1%Z.eqb_eq H2]. split_and!; [done| |done]. intros _. by destruct (e =? 0).
Qed.

End Half.

(** ** Concrete rows *)

#[local] Existing Instance demo_floats.
#[local] Instance demo_host : HostFloats := {| ldexpf m e := m * 2 ^ (e + 25); NAN := 0; INFINITY := 0 |}.

(** One Q4_K block: [d] is the pattern 1, [dmin] the pattern 2, every byte of
    scales and quants follows. *)
Definition demo_block : bytes := le 2 1 ++ le 2 2 ++ (zb <$> upto 140).


Lemma scales_roundtrip_witness :
  get_scale_min_k4_cpu 5 (pack_scales (fun j => Z.of_nat j mod 64) (fun j => (63 - Z.of_nat j) mod 64)) = (5, 58).
Proof.
  destruct (scales_roundtrip (fun j => Z.of_nat j mod 64) (fun j => (63 - Z.of_nat j) mod 64) (fun _ => 7)) as [H _].
  - intros j. split; apply Z.mod_pos_bound; lia.
  - lia.
  - exact (H 5%nat ltac:(lia)).
Defined.

Lemma fp16_to_float_exact_witness :
  is_number (decode (fun x => x) (fun _ => 0) of_Z 0xC400) true 1024 (-8) = true.
Proof. apply (fp16_to_float_exact (fun x => x) (fun _ => 0) of_Z 0xC400); [lia|vm_compute; done]. Defined.

End Quant.
