(* ===== verification/Softmax.v ===== *)
(** * Softmax: [softmax_kernel] of [src/kernels/softmax.cu]

    One block of 256 threads, that is eight warps.  The lanes of a warp move
    together; the warps interleave freely between the barriers.  The block is a
    transition system: a state has a program counter per warp, the logits, the
    shared memory and the register [max_val] of each warp, and a step runs one
    warp up to its next barrier or shared access.  Arithmetic on [float] is
    that of [Kernels], without laws. *)

From S2P Require Import Prelude Kernels.

Module Softmax.
Import Kernels.

Definition BLOCK : nat := 256.
Definition WARP : nat := 32.
Definition WARPS : nat := 8.

Section Softmax.
Context `{Floats}.

Definition neg_flt_max : float := int_as_float 0xFF7FFFFF.
Definition zero : float := of_int 0.
Definition one : float := of_int 1.

(** ** One warp *)

(** [for (int i = tid; i < n; i += stride)]: the values a thread visits. *)
Definition items (x : list float) (tid : nat) : list float :=
  omap (fun k => x !! (tid + BLOCK * k)%nat) (seq 0 (length x / BLOCK + 1)).

(** [v = op(v, __shfl_xor_sync(v, off))] for [off] = 16, 8, 4, 2, 1; the value
    of lane 0. *)
Definition shuffle (op : float -> float -> float) (v : list float) (off : nat) : list float :=
  imap (fun l a => op a (nth (Nat.lxor l off) v zero)) v.
Definition warp_reduce (op : float -> float -> float) (v : list float) : float :=
  nth 0 (foldl (shuffle op) v [16; 8; 4; 2; 1]%nat) zero.

Definition lanes (w : nat) : list nat := seq (WARP * w) WARP.

Definition warp_max (x : list float) (w : nat) : float :=
  warp_reduce fmax ((fun tid => foldl fmax neg_flt_max (items x tid)) <$> lanes w).

Definition exp_of (m v : float) : float := fexp (fsub v m).
Definition warp_sum (x : list float) (m : float) (w : nat) : float :=
  warp_reduce fadd ((fun tid => foldl (fun s v => fadd s (exp_of m v)) zero (items x tid)) <$> lanes w).

(** The warp that visits index [i]. *)
Definition owner (i : nat) : nat := (i mod BLOCK / WARP)%nat.
(** A pass of a warp over its values. *)
Definition pass (w : nat) (f : float -> float) (x : list float) : list float :=
  imap (fun i v => if decide (owner i = w) then f v else v) x.

(** ** The block *)

Record state := mkState { pc : list nat; logits : list float; smem : list float; max_val : list float }.

Definition set_pc (w : nat) (s : state) : state :=
  mkState (alter S w (pc s)) (logits s) (smem s) (max_val s).
Definition set_smem (i : nat) (v : float) (s : state) : state :=
  mkState (pc s) (logits s) (<[i := v]> (smem s)) (max_val s).
Definition set_max (w : nat) (v : float) (s : state) : state :=
  mkState (pc s) (logits s) (smem s) (<[w := v]> (max_val s)).
Definition set_logits (x : list float) (s : state) : state :=
  mkState (pc s) x (smem s) (max_val s).

(** [__syncthreads()]: every warp has come to the barrier. *)
Definition arrived (k : nat) (s : state) : bool := forallb (Nat.leb k) (pc s).

(** The loops of thread 0 over the warps. *)
Definition block_max (s : state) : float :=
  foldl (fun m w => fmax m (nth w (smem s) zero)) neg_flt_max (seq 0 WARPS).
Definition block_sum (s : state) : float :=
  foldl (fun a w => fadd a (nth w (smem s) zero)) zero (seq 0 WARPS).

(** One step of warp [w]; [None]: it waits at a barrier, or has ended. *)
Definition warp_step (w : nat) (s : state) : option state :=
  p ← pc s !! w;
  match p with
  | 0 => Some (set_pc w (set_smem w (warp_max (logits s) w) s))
  | 1 => if arrived 1 s then Some (set_pc w (if decide (w = 0) then set_smem 0 (block_max s) s else s)) else None
  | 2 => if arrived 2 s then Some (set_pc w (set_max w (nth 0 (smem s) zero) s)) else None
  | 3 =>
      let m := nth w (max_val s) zero in
      Some (set_pc w (set_smem w (warp_sum (logits s) m w) (set_logits (pass w (exp_of m) (logits s)) s)))
  | 4 => if arrived 4 s then Some (set_pc w (if decide (w = 0) then set_smem 0 (block_sum s) s else s)) else None
  | 5 =>
      if arrived 5 s then
        let inv_sum := fdiv one (nth 0 (smem s) zero) in
        Some (set_pc w (set_logits (pass w (fun v => fmul v inv_sum) (logits s)) s))
      else None
  | _ => None
  end%nat.

(** The launch: shared memory and registers are indeterminate. *)
Definition launched (x sm regs : list float) : state := mkState (replicate WARPS 0%nat) x sm regs.
Definition block_done (s : state) : bool := forallb (Nat.leb 6) (pc s).

(** A schedule names the warp of each step. *)
Fixpoint run (schedule : list nat) (s : state) : option state :=
  match schedule with
  | [] => Some s
  | w :: ws => s' ← warp_step w s; run ws s'
  end.

(** ** The block always gets to its end *)

Definition steps_left (s : state) : nat := sum_list_with (fun p => 6 - p)%nat (pc s).

Lemma warp_step_pc w s s' :
  warp_step w s = Some s' -> exists p, pc s !! w = Some p /\ (p < 6)%nat /\ pc s' = alter S w (pc s).
Proof.
  unfold warp_step. destruct (pc s !! w) as [p|] eqn:E; [|done]. cbn [mbind option_bind]. intros Es. exists p.
  do 6 (destruct p as [|p]; [split; [done|]; split; [lia|]; repeat case_match; simplify_eq; cbn; try case_decide; done|]). done.
Qed.

Lemma alter_left (l : list nat) w p :
  l !! w = Some p -> (p < 6)%nat ->
  (sum_list_with (fun p => 6 - p) (alter S w l) < sum_list_with (fun p => 6 - p) l)%nat.
Proof.
  revert w. induction l as [|q l IH]; intros [|w] E Hp; try done.
  - injection E as ->. change (alter S 0%nat (p :: l)) with (S p :: l). cbn. lia.
  - change (alter S (S w) (q :: l)) with (q :: alter S w l). cbn. specialize (IH w E Hp). lia.
Qed.

Lemma warp_step_decreases w s s' : warp_step w s = Some s' -> (steps_left s' < steps_left s)%nat.
Proof. intros (p & E & Hp & Ep)%warp_step_pc. unfold steps_left. rewrite Ep. by eapply alter_left. Qed.

Lemma run_length ws s s' : run ws s = Some s' -> (length ws + steps_left s' <= steps_left s)%nat.
Proof.
  revert s. induction ws as [|w ws IH]; intros s E; [injection E as <-; cbn; lia|]. cbn in E.
  destruct (warp_step w s) as [s1|] eqn:E1; [|done]. apply IH in E. apply warp_step_decreases in E1. cbn. lia.
Qed.

(** The warp that is furthest behind can move. *)
Lemma least (l : list nat) : l <> [] -> exists w p, l !! w = Some p /\ forallb (Nat.leb p) l = true.
Proof.
  induction l as [|a l IH]; [done|]. intros _. destruct l as [|b l].
  - exists 0%nat, a. cbn. by rewrite Nat.leb_refl.
  - destruct IH as (w & p & E & Hp); [done|]. destruct (Nat.leb_spec p a) as [Hle|Hgt].
    + exists (S w), p. split; [done|]. cbn [forallb]. by rewrite (proj2 (Nat.leb_le p a) Hle).
    + exists 0%nat, a. split; [done|]. apply forallb_forall. intros q [<-|Hq]; [apply Nat.leb_refl|].
      rewrite forallb_forall in Hp. specialize (Hp q Hq). apply Nat.leb_le in Hp. apply Nat.leb_le. lia.
Qed.

Lemma can_step s : pc s <> [] -> block_done s = false -> exists w, is_Some (warp_step w s).
Proof.
  intros Hne Hd. destruct (least (pc s) Hne) as (w & p & E & Hp). exists w. unfold warp_step. rewrite E. cbn [mbind option_bind].
  assert (p < 6)%nat.
  { destruct (decide (p < 6)%nat); [done|]. unfold block_done in Hd. rewrite <- not_true_iff_false in Hd. destruct Hd.
    apply forallb_forall. intros q Hq. rewrite forallb_forall in Hp. specialize (Hp q Hq). apply Nat.leb_le in Hp. apply Nat.leb_le. lia. }
  unfold arrived. do 6 (destruct p as [|p]; [try rewrite Hp; eauto|]). lia.
Qed.

Lemma run_pcs ws s s' : run ws s = Some s' -> length (pc s') = length (pc s).
Proof.
  revert s. induction ws as [|w ws IH]; intros s E; [by injection E as <-|]. cbn in E.
  destruct (warp_step w s) as [s1|] eqn:E1; [|done]. apply IH in E. apply warp_step_pc in E1 as (p & _ & _ & Ep).
  by rewrite E, Ep, length_alter.
Qed.

(** The softmax block never deadlocks and always ends: from the launch,
    whatever the schedule so far, either every warp has ended or some warp can
    go on, and no schedule has more than 48 steps. *)
Theorem softmax_ends (x sm regs : list float) (ws : list nat) (s : state) :
  run ws (launched x sm regs) = Some s ->
  (length ws <= 48)%nat /\ (block_done s = true \/ exists w, is_Some (warp_step w s)).
Proof.
  intros E. split; [apply run_length in E; cbn in E; lia|]. destruct (block_done s) eqn:Ed; [by left|right].
  apply can_step; [|done]. apply run_pcs in E. intros En. by rewrite En in E.
Qed.

(** ** What the block computes *)

(** The values of one softmax over [x]: the maximum and the sum are taken in
    the order of the reduction. *)
Definition max_ref (x : list float) : float := foldl (fun m w => fmax m (warp_max x w)) neg_flt_max (seq 0 WARPS).
Definition sum_ref (x : list float) : float :=
  let m := max_ref x in foldl (fun a w => fadd a (warp_sum x m w)) zero (seq 0 WARPS).
Definition softmax_ref (x : list float) : list float :=
  let m := max_ref x in let inv_sum := fdiv one (sum_ref x) in (fun v => fmul (exp_of m v) inv_sum) <$> x.

(** A schedule in which no warp goes on from line 44 before all have read
    [max_val], as if a barrier stood there. *)
Fixpoint ordered (ws : list nat) (s : state) : bool :=
  match ws with
  | [] => true
  | w :: ws =>
      (negb (bool_decide (pc s !! w = Some 3%nat)) || arrived 3 s) &&
      match warp_step w s with Some s' => ordered ws s' | None => true end
  end.

Section Ordered.
Context (x0 : list float).

(** What a value, a cell of shared memory have become when the warp is at [p]. *)
Definition stage (p : nat) (v : float) : float :=
  if (p <=? 3)%nat then v
  else if (p <=? 5)%nat then exp_of (max_ref x0) v else fmul (exp_of (max_ref x0) v) (fdiv one (sum_ref x0)).
Definition cell (w p : nat) : option float :=
  match p with
  | 0 => None
  | 1 => Some (warp_max x0 w)
  | 2 | 3 => Some (if decide (w = 0) then max_ref x0 else warp_max x0 w)
  | 4 => Some (warp_sum x0 (max_ref x0) w)
  | _ => Some (if decide (w = 0) then sum_ref x0 else warp_sum x0 (max_ref x0) w)
  end%nat.

Record inv (s : state) : Prop := {
  i_pc : length (pc s) = WARPS;
  i_smem : (WARPS <= length (smem s))%nat;
  i_max : length (max_val s) = WARPS;
  i_logits : logits s = imap (fun i v => stage (pc s !!! owner i) v) x0;
  i_cell w v : (w < WARPS)%nat -> cell w (pc s !!! w) = Some v -> smem s !! w = Some v;
  i_reg w : (w < WARPS)%nat -> pc s !!! w = 3%nat -> max_val s !! w = Some (max_ref x0);
  i_order w w' : (w < WARPS)%nat -> (w' < WARPS)%nat -> (pc s !!! w <= S (pc s !!! w'))%nat }.

Lemma owner_lt i : (owner i < WARPS)%nat.
Proof.
  unfold owner. pose proof (Nat.mod_upper_bound i BLOCK ltac:(done)). apply Nat.Div0.div_lt_upper_bound. exact H0.
Qed.

Lemma launched_inv sm regs : (WARPS <= length sm)%nat -> length regs = WARPS -> inv (launched x0 sm regs).
Proof.
  intros Hs Hr. assert (E : forall w, (w < WARPS)%nat -> replicate WARPS 0%nat !!! w = 0%nat).
  { intros w Hw. apply list_lookup_total_correct, lookup_replicate_2. done. }
  split; cbn [launched pc logits smem max_val]; try done.
  - apply list_eq. intros i. rewrite list_lookup_imap, E by apply owner_lt. by destruct (x0 !! i).
  - intros w v Hw. by rewrite E.
  - intros w Hw. by rewrite E.
  - intros w w' Hw Hw'. rewrite !E by done. lia.
Qed.

(** ** The steps keep it *)

Lemma cell_count s w p : inv s -> pc s !! w = Some p -> (w < WARPS)%nat /\ pc s !!! w = p.
Proof. intros I E. split; [rewrite <- (i_pc s I); by apply lookup_lt_Some in E|by apply list_lookup_total_correct]. Qed.

Lemma pc_alter (l : list nat) w p w' : l !! w = Some p -> alter S w l !!! w' = if decide (w' = w) then S p else l !!! w'.
Proof.
  intros E. case_decide as Hd.
  - subst w'. apply list_lookup_total_correct. rewrite list_lookup_alter_eq, E. done.
  - rewrite !list_lookup_total_alt, list_lookup_alter_ne by done. done.
Qed.

(** The parts that only look at the counters. *)
Lemma inv_advance s w p x sm rg :
  inv s -> pc s !! w = Some p -> arrived p s = true ->
  length sm = length (smem s) -> length rg = length (max_val s) ->
  x = imap (fun i v => stage (alter S w (pc s) !!! owner i) v) x0 ->
  (forall w' v, (w' < WARPS)%nat -> w' <> w -> cell w' (pc s !!! w') = Some v -> sm !! w' = Some v) ->
  (forall v, cell w (S p) = Some v -> sm !! w = Some v) ->
  (forall w', (w' < WARPS)%nat -> w' <> w -> rg !! w' = max_val s !! w') ->
  (S p = 3%nat -> rg !! w = Some (max_ref x0)) ->
  inv (mkState (alter S w (pc s)) x sm rg).
Proof.
  intros I E Ha Hsm Hrg Hx Hc Hcw Hr Hrw. destruct (cell_count s w p I E) as [Hw Ep].
  split; cbn [pc logits smem max_val]; rewrite ?length_alter.
  - apply I.
  - rewrite Hsm. apply I.
  - rewrite Hrg. apply I.
  - done.
  - intros w' v Hw'. rewrite (pc_alter _ _ _ _ E). case_decide as Hd; [subst w'; apply Hcw|]. by apply Hc.
  - intros w' Hw'. rewrite (pc_alter _ _ _ _ E). case_decide as Hd; [subst w'; apply Hrw|].
    intros E3. rewrite Hr by done. by apply I.
  - intros a b Ha' Hb'. rewrite !(pc_alter _ _ _ _ E). pose proof (i_order s I a b Ha' Hb') as O.
    assert (Hb : (p <= pc s !!! b)%nat).
    { unfold arrived in Ha. rewrite forallb_forall in Ha. apply Nat.leb_le, Ha, list_elem_of_In, list_elem_of_lookup. exists b.
      apply list_lookup_lookup_total_lt. by rewrite (i_pc s I). }
    repeat case_decide; subst; lia.
Qed.

(** A warp that has not written its values yet sees those of the input. *)
Lemma own_items s w tid :
  inv s -> (w < WARPS)%nat -> (pc s !!! w <= 3)%nat -> tid ∈ lanes w -> items (logits s) tid = items x0 tid.
Proof.
  intros I Hw Hp Ht. unfold items. rewrite (i_logits s I), length_imap.
  apply list_omap_ext. apply Forall_Forall2_diag, Forall_forall. intros k _. rewrite list_lookup_imap.
  assert (Eo : owner (tid + BLOCK * k) = w).
  { unfold lanes in Ht. apply elem_of_seq in Ht. unfold owner, BLOCK, WARP, WARPS in *.
    rewrite (Nat.mul_comm 256 k), Nat.Div0.mod_add, Nat.mod_small by lia.
    symmetry. apply (Nat.div_unique _ _ _ (tid - 32 * w)); lia. }
  rewrite Eo. destruct (x0 !! _); [|done]. cbn. unfold stage. by rewrite (proj2 (Nat.leb_le _ _) Hp).
Qed.

Lemma own_max s w : inv s -> (w < WARPS)%nat -> (pc s !!! w <= 3)%nat -> warp_max (logits s) w = warp_max x0 w.
Proof.
  intros I Hw Hp. unfold warp_max. f_equal. apply list_fmap_ext. intros k tid Ht%list_elem_of_lookup_2.
  by rewrite (own_items s w).
Qed.

Lemma own_sum s w m : inv s -> (w < WARPS)%nat -> (pc s !!! w <= 3)%nat -> warp_sum (logits s) m w = warp_sum x0 m w.
Proof.
  intros I Hw Hp. unfold warp_sum. f_equal. apply list_fmap_ext. intros k tid Ht%list_elem_of_lookup_2.
  by rewrite (own_items s w).
Qed.

(** A step that leaves the logits. *)
Lemma logits_kept s w p :
  inv s -> pc s !! w = Some p -> (forall v, stage (S p) v = stage p v) ->
  logits s = imap (fun i v => stage (alter S w (pc s) !!! owner i) v) x0.
Proof.
  intros I E Hs. rewrite (i_logits s I). apply imap_ext. intros i v _. rewrite (pc_alter _ _ _ _ E).
  case_decide as Hd; [|done]. rewrite Hd, Hs. by rewrite (list_lookup_total_correct _ _ _ E).
Qed.

(** A pass over the logits. *)
Lemma logits_passed s w p f :
  inv s -> pc s !! w = Some p -> (forall v, f (stage p v) = stage (S p) v) ->
  pass w f (logits s) = imap (fun i v => stage (alter S w (pc s) !!! owner i) v) x0.
Proof.
  intros I E Hf. unfold pass. rewrite (i_logits s I). apply list_eq. intros i. rewrite !list_lookup_imap.
  destruct (x0 !! i) as [v|]; [|done]. cbn. f_equal. rewrite (pc_alter _ _ _ _ E).
  case_decide as Hd; [|done]. rewrite Hd, (list_lookup_total_correct _ _ _ E). apply Hf.
Qed.

Lemma at_least s p w : inv s -> arrived p s = true -> (w < WARPS)%nat -> (p <= pc s !!! w)%nat.
Proof.
  intros I Ha Hw. unfold arrived in Ha. rewrite forallb_forall in Ha. apply Nat.leb_le, Ha, list_elem_of_In, list_elem_of_lookup.
  exists w. apply list_lookup_lookup_total_lt. by rewrite (i_pc s I).
Qed.

Lemma smem_cell s w v : inv s -> (w < WARPS)%nat -> cell w (pc s !!! w) = Some v -> nth w (smem s) zero = v.
Proof. intros I Hw E. rewrite nth_lookup. by rewrite (i_cell s I w v Hw E). Qed.

Lemma foldl_cells {A} (op : A -> float -> A) a s g :
  inv s -> (forall w, (w < WARPS)%nat -> cell w (pc s !!! w) = Some (g w)) ->
  foldl (fun m w => op m (nth w (smem s) zero)) a (seq 0 WARPS) = foldl (fun m w => op m (g w)) a (seq 0 WARPS).
Proof.
  intros I Hc. assert (Hl : Forall (fun w => w < WARPS)%nat (seq 0 WARPS)) by (apply Forall_forall; intros w Hw%elem_of_seq; lia).
  revert a. induction Hl as [|w l Hw Hl IH]; intros a; [done|]. cbn [foldl]. by rewrite (smem_cell s w (g w)), IH by auto.
Qed.

Lemma block_max_ref s : inv s -> arrived 1 s = true -> pc s !!! 0%nat = 1%nat -> block_max s = max_ref x0.
Proof.
  intros I Ha E0. unfold block_max, max_ref. apply foldl_cells; [done|]. intros w Hw.
  pose proof (at_least s 1 w I Ha Hw). pose proof (i_order s I w 0 Hw ltac:(unfold WARPS; lia)) as O. rewrite E0 in O.
  destruct (decide (w = 0%nat)) as [->|Hn]; [by rewrite E0|].
  assert (pc s !!! w = 1 \/ pc s !!! w = 2)%nat as [-> | ->] by lia; cbn [cell]; [done|]. by rewrite decide_False.
Qed.

Lemma block_sum_ref s : inv s -> arrived 4 s = true -> pc s !!! 0%nat = 4%nat -> block_sum s = sum_ref x0.
Proof.
  intros I Ha E0. unfold block_sum, sum_ref. apply foldl_cells; [done|]. intros w Hw.
  pose proof (at_least s 4 w I Ha Hw). pose proof (i_order s I w 0 Hw ltac:(unfold WARPS; lia)) as O. rewrite E0 in O.
  destruct (decide (w = 0%nat)) as [->|Hn]; [by rewrite E0|].
  assert (pc s !!! w = 4 \/ pc s !!! w = 5)%nat as [-> | ->] by lia; cbn [cell]; [done|]. by rewrite decide_False.
Qed.

(** The fields after an update. *)
Ltac fields := cbn [set_smem set_max set_logits smem logits max_val pc].

Lemma step_inv w s s' :
  inv s -> (pc s !! w = Some 3%nat -> arrived 3 s = true) -> warp_step w s = Some s' -> inv s'.
Proof.
  intros I H3 Es. unfold warp_step in Es. destruct (pc s !! w) as [p|] eqn:E; [|done]. cbn [mbind option_bind] in Es.
  destruct (cell_count s w p I E) as [Hw Ep]. pose proof (i_smem s I) as Hsm. pose proof (i_max s I) as Hmx.
  assert (Keep : forall w' v, (w' < WARPS)%nat -> w' <> w -> cell w' (pc s !!! w') = Some v -> smem s !! w' = Some v)
    by (intros w' v Hw' _; by apply I).
  destruct p as [|[|[|[|[|[|p]]]]]]; [| | | | | |done].
  - injection Es as <-. apply (inv_advance s w 0); try done; fields.
    + apply forallb_forall. intros q _. by apply Nat.leb_le, Nat.le_0_l.
    + by rewrite length_insert.
    + by apply (logits_kept s w 0).
    + intros w' v Hw' Hn Hc. rewrite list_lookup_insert_ne by done. by apply Keep.
    + intros v Hv. apply (inj Some) in Hv as <-. rewrite list_lookup_insert_eq by lia. f_equal. apply own_max; [done|done|lia].
  - destruct (arrived 1 s) eqn:Ha; [|done]. injection Es as <-. case_decide as Hz.
    + subst w. apply (inv_advance s 0 1); try done; fields; [by rewrite length_insert|by apply (logits_kept s 0 1)| |].
      * intros w' v Hw' Hn Hc. rewrite list_lookup_insert_ne by done. by apply Keep.
      * intros v Hv. apply (inj Some) in Hv as <-. rewrite list_lookup_insert_eq by lia. f_equal. by apply block_max_ref.
    + destruct s as [pcs x sm rg]. apply (inv_advance _ w 1 _ _ _ I E); try done; [by apply (logits_kept _ w 1)|].
      intros v Hv. apply (i_cell _ I w v Hw). rewrite Ep. cbn [cell] in *. by rewrite decide_False in Hv.
  - destruct (arrived 2 s) eqn:Ha; [|done]. injection Es as <-. apply (inv_advance s w 2); try done; fields.
    + by rewrite length_insert.
    + by apply (logits_kept s w 2).
    + intros v Hv. apply (i_cell _ I w v Hw). by rewrite Ep.
    + intros w' Hw' Hn. by rewrite list_lookup_insert_ne.
    + intros _. rewrite list_lookup_insert_eq by lia. f_equal. apply smem_cell; [done|unfold WARPS; lia|].
      pose proof (at_least s 2 0 I Ha ltac:(unfold WARPS; lia)). pose proof (i_order s I 0 w ltac:(unfold WARPS; lia) Hw).
      assert (pc s !!! 0 = 2 \/ pc s !!! 0 = 3)%nat as [-> | ->] by lia; done.
  - injection Es as <-. pose proof (H3 eq_refl) as Ha. apply (inv_advance s w 3); try done; fields.
    + by rewrite length_insert.
    + apply (logits_passed s w 3); [done|done|]. intros v. rewrite nth_lookup, (i_reg s I w) by done. done.
    + intros w' v Hw' Hn Hc. rewrite list_lookup_insert_ne by done. by apply Keep.
    + intros v Hv. apply (inj Some) in Hv as <-. rewrite list_lookup_insert_eq by lia. f_equal. rewrite nth_lookup, (i_reg s I w) by done.
      cbn [default from_option id]. apply own_sum; [done|done|lia].
  - destruct (arrived 4 s) eqn:Ha; [|done]. injection Es as <-. case_decide as Hz.
    + subst w. apply (inv_advance s 0 4); try done; fields; [by rewrite length_insert|by apply (logits_kept s 0 4)| |].
      * intros w' v Hw' Hn Hc. rewrite list_lookup_insert_ne by done. by apply Keep.
      * intros v Hv. apply (inj Some) in Hv as <-. rewrite list_lookup_insert_eq by lia. f_equal. by apply block_sum_ref.
    + destruct s as [pcs x sm rg]. apply (inv_advance _ w 4 _ _ _ I E); try done; [by apply (logits_kept _ w 4)|].
      intros v Hv. apply (i_cell _ I w v Hw). rewrite Ep. cbn [cell] in *. by rewrite decide_False in Hv.
  - destruct (arrived 5 s) eqn:Ha; [|done]. injection Es as <-. apply (inv_advance s w 5); try done; fields.
    + apply (logits_passed s w 5); [done|done|]. intros v.
      rewrite (smem_cell s 0 (sum_ref x0)); [done|done|unfold WARPS; lia|].
      pose proof (at_least s 5 0 I Ha ltac:(unfold WARPS; lia)).
      destruct (pc s !!! 0%nat) as [|[|[|[|[|q]]]]]; (lia || done).
    + intros v Hv. apply (i_cell _ I w v Hw). rewrite Ep. done.
Qed.

Lemma run_inv ws s s' : inv s -> ordered ws s = true -> run ws s = Some s' -> inv s'.
Proof.
  revert s. induction ws as [|w ws IH]; intros s I Ho E; [by injection E as <-|]. cbn [run ordered] in *.
  destruct (warp_step w s) as [s1|] eqn:E1; [|done]. apply andb_true_iff in Ho as [H3 Ho]. apply (IH s1); [|done|done].
  apply (step_inv w s); [done| |done]. intros E3. by rewrite (bool_decide_eq_true_2 _ E3) in H3.
Qed.

Lemma ordered_ref (sm regs : list float) (ws : list nat) (s : state) :
  (WARPS <= length sm)%nat -> length regs = WARPS ->
  ordered ws (launched x0 sm regs) = true -> run ws (launched x0 sm regs) = Some s -> block_done s = true ->
  logits s = softmax_ref x0.
Proof.
  intros Hs Hr Ho E Hd. pose proof (run_inv ws _ s (launched_inv sm regs Hs Hr) Ho E) as I.
  rewrite (i_logits s I). unfold softmax_ref. apply list_eq. intros i. rewrite list_lookup_imap, list_lookup_fmap.
  destruct (x0 !! i) as [v|]; [|done]. cbn [fmap option_fmap option_map]. f_equal. unfold stage.
  assert (6 <= pc s !!! owner i)%nat by (apply (at_least s 6 (owner i) I Hd), owner_lt).
  rewrite (proj2 (Nat.leb_gt _ 3)), (proj2 (Nat.leb_gt _ 5)) by lia. done.
Qed.


End Ordered.
End Softmax.

(** ** Two schedules of one launch *)

(** Integers as [float]s, with division to six places. *)
#[local] Instance demo_ints : Floats := {|
  float := Z; h2f := fun h => h; f2h := fun x => x; of_int := fun x => x;
  fadd := Z.add; fsub := Z.sub; fmul := Z.mul; fdiv := fun a b => Z.quot (a * 1000000) b; fpow := fun x _ => x;
  fcos := fun x => x; fsin := fun x => x; fexp := fun x => (x + 50) * (x + 50); fneg := Z.opp;
  fabs := Z.abs; fmax := Z.max; rsqrt := fun x => x; fsqrt := fun x => x; fpos := fun x => 0 <? x; int_rn := fun x => x;
  float_as_int := fun x => x; int_as_float := fun _ => -1000 |}.

(** Each warp in turn, to each barrier and to line 44. *)
Definition in_turn : list nat := concat (replicate 6 (seq 0 WARPS)).
(** The first warp goes on to line 59 before the second has read [max_val]. *)
Definition overtaking : list nat :=
  seq 0 WARPS ++ seq 0 WARPS ++ [0; 0]%nat ++ seq 1 7 ++ seq 1 7 ++ concat (replicate 2 (seq 0 WARPS)).

Definition demo_logits : list float := Z.of_nat <$> seq 0 40.
Definition demo_smem : list float := replicate 9 0.
Definition demo_regs : list float := replicate 8 0.

Definition end_in_turn : state :=
  Eval vm_compute in default (launched [] [] []) (run in_turn (launched demo_logits demo_smem demo_regs)).
Definition end_overtaking : state :=
  Eval vm_compute in default (launched [] [] []) (run overtaking (launched demo_logits demo_smem demo_regs)).

Lemma in_turn_ref : logits end_in_turn = softmax_ref demo_logits.
Proof.
  apply (ordered_ref demo_logits demo_smem demo_regs in_turn end_in_turn); [vm_compute; lia|reflexivity|..].
  - vm_cast_no_check (eq_refl true).
  - vm_cast_no_check (eq_refl (Some end_in_turn)).
  - vm_cast_no_check (eq_refl true).
Qed.

(** C13: The softmax block has a race.  Nothing orders the read of
    [max_val = smem[0]] (line 44) in one warp before the write of
    [smem[0] = local_sum] (line 59) in the first warp: of two complete
    schedules of one launch, one gives the softmax of the logits and the other
    one does not. *)
Theorem softmax_race :
  exists a b,
    run in_turn (launched demo_logits demo_smem demo_regs) = Some a /\ block_done a = true /\
    run overtaking (launched demo_logits demo_smem demo_regs) = Some b /\ block_done b = true /\
    logits a = softmax_ref demo_logits /\ logits b <> softmax_ref demo_logits.
Proof.
  exists end_in_turn, end_overtaking. split_and!.
  - vm_cast_no_check (eq_refl (Some end_in_turn)).
  - vm_cast_no_check (eq_refl true).
  - vm_cast_no_check (eq_refl (Some end_overtaking)).
  - vm_cast_no_check (eq_refl true).
  - exact in_turn_ref.
  - rewrite <- in_turn_ref. intros E. assert (E0 : nth 0 (logits end_overtaking) zero = nth 0 (logits end_in_turn) zero) by (by rewrite E).
    revert E0. apply Z.eqb_neq. vm_cast_no_check (eq_refl false).
Qed.

Lemma softmax_ends_witness : (length overtaking <= 48)%nat.
Proof.
  assert (E : run overtaking (launched demo_logits demo_smem demo_regs) = Some end_overtaking)
    by vm_cast_no_check (eq_refl (Some end_overtaking)).
  exact (proj1 (softmax_ends demo_logits demo_smem demo_regs overtaking end_overtaking E)).
Defined.


End Softmax.
