(* ===== verification/Forward.v ===== *)
(** * Forward: the transformer forward pass of [src/engine/decode.cu]

    [Engine::transformer_layer] and its helpers, [Engine::transformer_prefill],
    the two prefill loops of [Engine::generate] and the logits of
    [Engine::decode_step].  Keys and values go to the pool of [KVCache], byte
    for byte, through the addresses of [KVCache]; the kernels are those of
    [Kernels].  The matrix products and the attention belong to the library
    reflex-infer, which is not part of the repository: the class [ReflexInfer]
    names them, [ReflexLaws] states what the sources rely on.

    Activation buffers come from [ScratchPool], which keeps live buffers
    disjoint, and are values here; the engine does not look at the status of
    an allocation, a launch or a copy, and the model assumes they succeed. *)

From S2P Require Import Prelude Cuda KVCache ModelFile Kernels.

Module Forward.
Import ModelFile Kernels.

Abbreviation pool := KVCache.t.

(** ** The external library *)

(** A weight is its pointer in the mapped model file and its GGML type; the
    caches are the byte ranges a launch reads. *)
Class ReflexInfer `{Floats} := {
  gemv_quant : option Z -> Z -> list Z -> nat -> nat -> list Z;
  gemv_quant_add : option Z -> Z -> list Z -> list Z -> nat -> nat -> list Z;
  gemv_quant_pair : option Z -> Z -> nat -> option Z -> Z -> nat -> list Z -> nat -> list Z * list Z;
  gemv_quant_triple : option Z -> Z -> nat -> option Z -> Z -> nat -> option Z -> Z -> nat ->
    list Z -> nat -> (list Z * list Z) * list Z;
  gemm_quant_batched : option Z -> Z -> list Z -> nat -> nat -> nat -> list Z;
  gemv_quant_f32 : option Z -> Z -> list Z -> nat -> nat -> list float;
  (** heads, key heads, head size, sequence length, scale, [kv_int8], query,
      keys, values, and their scales *)
  flash_attention_decode : nat -> nat -> nat -> nat -> float -> bool -> list Z ->
    bytes -> bytes -> option bytes -> option bytes -> list Z;
  (** the same with the number of queries and the position of the first one *)
  flash_attention_prefill_batched : nat -> nat -> nat -> nat -> nat -> float -> bool -> list Z ->
    bytes -> bytes -> option bytes -> option bytes -> list Z }.

(** [include/jllm_kernels.h] and the comments of [decode.cu]: the combined and
    batched products change no value, the fused residual is [vec_add], and the
    batched attention runs the decode kernel once per query, on the keys up to
    its own position. *)
Class ReflexLaws `{RI : ReflexInfer} : Prop := {
  gemv_length W t x M K : length (gemv_quant W t x M K) = M;
  gemv_add_eq W t x res M K :
    length res = M -> gemv_quant_add W t x res M K = vec_add res (gemv_quant W t x M K) M;
  gemv_pair_eq W0 t0 M0 W1 t1 M1 x K :
    gemv_quant_pair W0 t0 M0 W1 t1 M1 x K = (gemv_quant W0 t0 x M0 K, gemv_quant W1 t1 x M1 K);
  gemv_triple_eq W0 t0 M0 W1 t1 M1 W2 t2 M2 x K :
    gemv_quant_triple W0 t0 M0 W1 t1 M1 W2 t2 M2 x K =
    ((gemv_quant W0 t0 x M0 K, gemv_quant W1 t1 x M1 K), gemv_quant W2 t2 x M2 K);
  gemm_rows W t xs M K :
    Forall (fun x => length x = K) xs ->
    gemm_quant_batched W t (concat xs) M (length xs) K =
    concat ((fun x => gemv_quant W t x M K) <$> xs);
  decode_length nh nkv hd n sc i8 q kb vb ks vs :
    length (flash_attention_decode nh nkv hd n sc i8 q kb vb ks vs) = (nh * hd)%nat;
  prefill_queries nh nkv hd start sc i8 qs kb vb ks vs :
    Forall (fun q => length q = (nh * hd)%nat) qs ->
    flash_attention_prefill_batched nh nkv hd (length qs) start sc i8 (concat qs) kb vb ks vs =
    concat (imap (fun i q =>
      let n := (start + i + 1)%nat in let row := (nkv * hd * (if i8 then 1 else 2))%nat in
      flash_attention_decode nh nkv hd n sc i8 q (take (n * row) kb) (take (n * row) vb)
        (take (n * (4 * nkv)) <$> ks) (take (n * (4 * nkv)) <$> vs)) qs) }.

Section Forward.
Context `{RI : ReflexInfer} `{cuda : CudaMem}.
(** The configuration, the weights and the quantisation of the cache; the
    content of the norm tensors, by pointer, format and index. *)
Context (config : ModelConfig) (mw : ModelWeights) (kv_int8 : bool)
        (norm_weight : option Z -> bool -> nat -> float).

Definition H_ : nat := Z.to_nat (hidden_dim config).
Definition NH : nat := Z.to_nat (n_heads config).
Definition NKV : nat := Z.to_nat (n_kv_heads config).
Definition HD : nat := Z.to_nat (head_dim config).
Definition I_ : nat := Z.to_nat (intermediate_dim config).
Definition Q_DIM : nat := (NH * HD)%nat.
Definition KV_DIM : nat := (NKV * HD)%nat.

Definition eps : float := int_as_float (rms_eps config).
Definition scale : float := fdiv (of_int 1) (fsqrt (of_int (head_dim config))).

Definition rope (pos : Z) : rope_args :=
  mkRope NH NKV HD pos (int_as_float (rope_theta config)) (rope_neox config).

(** ** Device memory *)

(** [half] values in memory. *)
Definition half_bytes (hs : list Z) : bytes := concat (le 2 <$> hs).
Fixpoint halfs (bs : bytes) : list Z :=
  match bs with
  | a :: b :: bs => unle [a; b] :: halfs bs
  | _ => []
  end.

Definition with_gpu (p : pool) (g : bytes) : pool :=
  KVCache.mkPool (KVCache.cfg_ p) (Some g) (KVCache.cpu_pool_ p) (KVCache.kv_scales_ p)
    (KVCache.used_tokens_ p) (KVCache.gpu_tokens_ p).
Definition with_cpu (p : pool) (m : bytes) : pool :=
  KVCache.mkPool (KVCache.cfg_ p) (KVCache.gpu_pool_ p) (Some m) (KVCache.kv_scales_ p)
    (KVCache.used_tokens_ p) (KVCache.gpu_tokens_ p).
Definition with_scales (p : pool) (m : bytes) : pool :=
  KVCache.mkPool (KVCache.cfg_ p) (KVCache.gpu_pool_ p) (KVCache.cpu_pool_ p) (Some m)
    (KVCache.used_tokens_ p) (KVCache.gpu_tokens_ p).

(** The [n] bytes a kernel reads at an address; [None] is an access outside
    the pool. *)
Definition block_at (p : pool) (a : KVCache.ptr) (n : Z) : option bytes :=
  match a with
  | KVCache.Gpu o => g ← KVCache.gpu_pool_ p; peek_at g o n
  | KVCache.Cpu o => m ← KVCache.cpu_pool_ p; peek_at m o n
  | KVCache.Scale i => s ← KVCache.kv_scales_ p; peek_at s (4 * i) n
  | KVCache.Null => None
  end.

(** A kernel writes bytes at an address. *)
Definition store_at (p : pool) (a : KVCache.ptr) (bs : bytes) : option pool :=
  match a with
  | KVCache.Gpu o => g ← KVCache.gpu_pool_ p; g ← poke_at g o bs; Some (with_gpu p g)
  | KVCache.Cpu o => m ← KVCache.cpu_pool_ p; m ← poke_at m o bs; Some (with_cpu p m)
  | KVCache.Scale i => s ← KVCache.kv_scales_ p; s ← poke_at s (4 * i) bs; Some (with_scales p s)
  | KVCache.Null => None
  end.

(** [cudaMemcpyAsync(a, src, n, cudaMemcpyDefault)]: its status is not looked at. *)
Definition copy_to (p : pool) (a : KVCache.ptr) (src : bytes) (n : Z) : option pool :=
  match a with
  | KVCache.Gpu o => g ← KVCache.gpu_pool_ p; Some (with_gpu p (cudaMemcpy g o src 0 n).2)
  | KVCache.Cpu o => m ← KVCache.cpu_pool_ p; Some (with_cpu p (cudaMemcpy m o src 0 n).2)
  | _ => None
  end.

(** [scale_out] may be [nullptr]. *)
Definition store_scales (p : pool) (a : KVCache.ptr) (scales : list float) : option pool :=
  match a with
  | KVCache.Null => Some p
  | a => store_at p a (concat (f32_bits <$> scales))
  end.

(** ** One token in one layer *)

(** RoPE and the store of the key and the value of a token. *)
Definition store_kv (layer pos : Z) (q k v : list Z) (p : pool)
  : option ((list Z * list Z) * pool) :=
  let kp := KVCache.key_ptr p layer pos in
  let vp := KVCache.val_ptr p layer pos in
  if negb kv_int8 && KVCache.is_fast_position p pos then
    kd ← block_at p kp (Z.of_nat (KV_DIM * 2));
    vd ← block_at p vp (Z.of_nat (KV_DIM * 2));
    '(qk, (kd, vd)) ← rope_inplace_store_kv_fp16 (rope pos) q k v (halfs kd) (halfs vd);
    p ← store_at p kp (half_bytes kd);
    p ← store_at p vp (half_bytes vd);
    Some (qk, p)
  else
    '(q, k) ← rope_inplace (rope pos) q k;
    if kv_int8 then
      let k_scales := KVCache.kv_scale_ptr p layer pos false in
      let v_scales := KVCache.kv_scale_ptr p layer pos true in
      let '(kb, ks) := fp16_to_int8 k NKV HD in
      let '(vb, vs) := fp16_to_int8 v NKV HD in
      p ← store_at p kp kb;
      p ← store_scales p k_scales ks;
      p ← store_at p vp vb;
      p ← store_scales p v_scales vs;
      Some ((q, k), p)
    else
      p ← copy_to p kp (half_bytes k) (Z.of_nat (KV_DIM * 2));
      p ← copy_to p vp (half_bytes v) (Z.of_nat (KV_DIM * 2));
      Some ((q, k), p).

(** Bytes of one key row as the attention reads it. *)
Definition row_bytes : Z := Z.of_nat (KV_DIM * (if kv_int8 then 1 else 2)).

(** The scales of the first [n] positions of a layer: [nullptr] outside INT8. *)
Definition scale_block (p : pool) (layer : Z) (is_value : bool) (n : Z) : option bytes :=
  if kv_int8 then block_at p (KVCache.kv_scale_ptr p layer 0 is_value) (n * n_kv_heads config * 4)
  else None.

Definition qk_norm (lw : LayerWeights) (rows : nat) (q k : list Z) : list Z * list Z :=
  match q_norm lw, k_norm lw with
  | Some _, Some _ =>
      (fused_rmsnorm (norm_weight (q_norm lw) (qk_norm_type lw =? 0)) eps (rows * NH) HD q,
       fused_rmsnorm (norm_weight (k_norm lw) (qk_norm_type lw =? 0)) eps (rows * NKV) HD k)
  | _, _ => (q, k)
  end.

Definition transformer_layer_attn_compute (lw : LayerWeights) (layer pos : Z) (q k v : list Z)
  (qk_norm_already : bool) (p : pool) : option (list Z * pool) :=
  let '(q, k) := if qk_norm_already then (q, k) else qk_norm lw 1 q k in
  '((q, _), p) ← store_kv layer pos q k v p;
  kb ← block_at p (KVCache.key_ptr p layer 0) ((pos + 1) * row_bytes);
  vb ← block_at p (KVCache.val_ptr p layer 0) ((pos + 1) * row_bytes);
  Some (flash_attention_decode NH NKV HD (Z.to_nat (pos + 1)) scale kv_int8 q kb vb
          (scale_block p layer false (pos + 1)) (scale_block p layer true (pos + 1)), p).

Definition transformer_layer_attn_block (lw : LayerWeights) (layer pos : Z) (x_in q k v : list Z)
  (qk_norm_already : bool) (p : pool) : option (list Z * pool) :=
  '(attn_out, p) ← transformer_layer_attn_compute lw layer pos q k v qk_norm_already p;
  Some (gemv_quant_add (wo lw) (type_wo lw) attn_out x_in H_ Q_DIM, p).

Definition transformer_layer_ffn_block (lw : LayerWeights) (x_attn swiglu_in : list Z) : list Z :=
  gemv_quant_add (w_down lw) (type_w_down lw) swiglu_in x_attn H_ I_.

Definition rms_norm (lw : LayerWeights) (w : option Z) (rows : nat) (x : list Z) : list Z :=
  fused_rmsnorm (norm_weight w (rms_type lw =? 0)) eps rows H_ x.

Definition transformer_layer (layer pos : Z) (x : list Z) (p : pool) : option (list Z * pool) :=
  lw ← layers mw !! Z.to_nat layer;
  let normed := rms_norm lw (rms_attn lw) 1 x in
  let '((q, k), v) :=
    gemv_quant_triple (wq lw) (type_wq lw) Q_DIM (wk lw) (type_wk lw) KV_DIM
      (wv lw) (type_wv lw) KV_DIM normed H_ in
  '(x2, p) ← transformer_layer_attn_block lw layer pos x q k v false p;
  let normed2 := rms_norm lw (rms_ffn lw) 1 x2 in
  let '(gate, up) := gemv_quant_pair (w_gate lw) (type_w_gate lw) I_ (w_up lw) (type_w_up lw) I_
      normed2 H_ in
  let swiglu_out := fused_swiglu gate up 1 I_ in
  Some (transformer_layer_ffn_block lw x2 swiglu_out, p).

(** ** A batch of tokens in one layer *)

(** Overwrite a row of a row-major buffer. *)
Definition set_row (cols r : nat) (row buf : list Z) : list Z :=
  take (r * cols) buf ++ row ++ drop (r * cols + cols) buf.

(** The per-token RoPE and store loop, from token [i] on. *)
Fixpoint store_loop (layer start_pos : Z) (ids : list nat) (q_batch k_batch v_batch : list Z) (p : pool)
  : option (list Z * pool) :=
  match ids with
  | [] => Some (q_batch, p)
  | i :: ids =>
      let pos := start_pos + Z.of_nat i in
      '((q_t, k_t), p) ← store_kv layer pos (row_of Q_DIM i q_batch) (row_of KV_DIM i k_batch)
                                  (row_of KV_DIM i v_batch) p;
      store_loop layer start_pos ids (set_row Q_DIM i q_t q_batch) (set_row KV_DIM i k_t k_batch)
                 v_batch p
  end.

Definition transformer_prefill (layer start_pos : Z) (n : nat) (x_batch : list Z) (p : pool)
  : option (list Z * pool) :=
  lw ← layers mw !! Z.to_nat layer;
  let normed_batch := rms_norm lw (rms_attn lw) n x_batch in
  let q_batch := gemm_quant_batched (wq lw) (type_wq lw) normed_batch Q_DIM n H_ in
  let k_batch := gemm_quant_batched (wk lw) (type_wk lw) normed_batch KV_DIM n H_ in
  let v_batch := gemm_quant_batched (wv lw) (type_wv lw) normed_batch KV_DIM n H_ in
  let '(q_batch, k_batch) := qk_norm lw n q_batch k_batch in
  '(q_batch, p) ← store_loop layer start_pos (seq 0 n) q_batch k_batch v_batch p;
  let len := start_pos + Z.of_nat n in
  kb ← block_at p (KVCache.key_ptr p layer 0) (len * row_bytes);
  vb ← block_at p (KVCache.val_ptr p layer 0) (len * row_bytes);
  let attn_out_batch :=
    flash_attention_prefill_batched NH NKV HD n (Z.to_nat start_pos) scale kv_int8 q_batch kb vb
      (scale_block p layer false len) (scale_block p layer true len) in
  let attn_proj_batch := gemm_quant_batched (wo lw) (type_wo lw) attn_out_batch H_ n Q_DIM in
  let x_attn_batch := vec_add x_batch attn_proj_batch (n * H_) in
  let normed2_batch := rms_norm lw (rms_ffn lw) n x_attn_batch in
  let gate_batch := gemm_quant_batched (w_gate lw) (type_w_gate lw) normed2_batch I_ n H_ in
  let up_batch := gemm_quant_batched (w_up lw) (type_w_up lw) normed2_batch I_ n H_ in
  let swiglu_batch := fused_swiglu gate_batch up_batch n I_ in
  let ffn_out_batch := gemm_quant_batched (w_down lw) (type_w_down lw) swiglu_batch H_ n I_ in
  Some (vec_add x_attn_batch ffn_out_batch (n * H_), p).

(** ** All layers *)

(** [for (l = 0; l < n_layers; l++) transformer_layer(l, pos, x)] *)
Fixpoint layers_at (ls : list Z) (pos : Z) (x : list Z) (p : pool) : option (list Z * pool) :=
  match ls with
  | [] => Some (x, p)
  | l :: ls => '(x, p) ← transformer_layer l pos x p; layers_at ls pos x p
  end.

(** The embedding of a token, of [hidden_dim] values. *)
Context (dequant_embedding : Z -> list Z).

Definition forward_token (tok pos : Z) (p : pool) : option (list Z * pool) :=
  layers_at (upto (n_layers config)) pos (dequant_embedding tok) p.

(** The per-token prefill loop: the last residual and the cache. *)
Fixpoint prefill_tokens (start : Z) (toks : list Z) (last : option (list Z)) (p : pool)
  : option (option (list Z) * pool) :=
  match toks with
  | [] => Some (last, p)
  | tok :: toks => '(x, p) ← forward_token tok start p; prefill_tokens (start + 1) toks (Some x) p
  end.

Fixpoint prefill_layers (ls : list Z) (start : Z) (n : nat) (x_batch : list Z) (p : pool)
  : option (list Z * pool) :=
  match ls with
  | [] => Some (x_batch, p)
  | l :: ls => '(x_batch, p) ← transformer_prefill l start n x_batch p;
               prefill_layers ls start n x_batch p
  end.

(** The batched prefill: the last row of the batch is the last residual. *)
Definition prefill_batched (start : Z) (toks : list Z) (p : pool)
  : option (option (list Z) * pool) :=
  let n := length toks in
  let x_batch := concat (dequant_embedding <$> toks) in
  '(x_batch, p) ← prefill_layers (upto (n_layers config)) start n x_batch p;
  Some (Some (row_of H_ (n - 1) x_batch), p).

(** The output norm and projection. *)
Definition logits_of (x : list Z) : list float :=
  let normed := fused_rmsnorm (norm_weight (output_norm mw) true) eps 1 H_ x in
  gemv_quant_f32 (output mw) (output_type mw) normed (Z.to_nat (vocab_size config)) H_.

End Forward.

(** ** INT8 without scales *)

(** When the table of scales cannot be allocated, [init] reports success on an
    INT8 pool; a store then drops the scales of the rows it quantises, and the
    attention is launched on INT8 rows without scales. *)
Theorem int8_without_scales `{HF : Floats} `{cuda : CudaMem} (config : ModelConfig) (a : KVCache.Alloc) (p p' : pool)
  (c : KVCache.Config) :
  KVCache.init a p c = (true, p') -> KVCache.kv_type_bytes c = 1 -> (forall n, KVCache.cudaMalloc_scales a n = None) ->
  KVCache.kv_type_bytes (KVCache.cfg_ p') = 1 /\
  (forall l pos v scales, store_scales p' (KVCache.kv_scale_ptr p' l pos v) scales = Some p') /\
  (forall l v n, scale_block config true p' l v n = None).
Proof.
  intros E Ht Ha. assert (Hp : KVCache.kv_type_bytes (KVCache.cfg_ p') = 1 /\ KVCache.kv_scales_ p' = None).
  { unfold KVCache.init in E. rewrite Ht, Z.eqb_refl in E. repeat case_match; simplify_eq; try done; by rewrite ?Ha in *. }
  destruct Hp as [Hc Hs]. split; [done|].
  split; intros; unfold scale_block, KVCache.kv_scale_ptr; by rewrite Hs.
Qed.

(** ** A concrete library and a concrete model *)

#[local] Existing Instance demo_floats.

Definition demo_gemv (W : option Z) (t : Z) (x : list Z) (M K : nat) : list Z :=
  (fun m => (default 0 W + t + Z.of_nat m + zsum x) mod 65536) <$> seq 0 M.

Definition demo_attention (nh nkv hd n : nat) (sc : Z) (i8 : bool) (q : list Z) (kb vb : bytes)
  (ks vs : option bytes) : list Z :=
  (fun i => (Z.of_nat i + Z.of_nat n + zsum q + zsum (bz <$> kb) + 3 * zsum (bz <$> vb) +
    5 * zsum (bz <$> default [] ks) + 7 * zsum (bz <$> default [] vs)) mod 65536)
  <$> seq 0 (nh * hd).

Definition demo_attention_batched (nh nkv hd N start : nat) (sc : Z) (i8 : bool) (q : list Z) (kb vb : bytes)
  (ks vs : option bytes) : list Z :=
  concat ((fun i => let n := (start + i + 1)%nat in let row := (nkv * hd * (if i8 then 1 else 2))%nat in
    demo_attention nh nkv hd n sc i8 (row_of (nh * hd) i q) (take (n * row) kb) (take (n * row) vb)
      (take (n * (4 * nkv)) <$> ks) (take (n * (4 * nkv)) <$> vs)) <$> seq 0 N).

#[local] Instance demo_reflex : ReflexInfer := {|
  gemv_quant := demo_gemv;
  gemv_quant_add W t x res M K := vec_add res (demo_gemv W t x M K) M;
  gemv_quant_pair W0 t0 M0 W1 t1 M1 x K := (demo_gemv W0 t0 x M0 K, demo_gemv W1 t1 x M1 K);
  gemv_quant_triple W0 t0 M0 W1 t1 M1 W2 t2 M2 x K :=
    ((demo_gemv W0 t0 x M0 K, demo_gemv W1 t1 x M1 K), demo_gemv W2 t2 x M2 K);
  gemm_quant_batched W t x M N K := concat ((fun r => demo_gemv W t (row_of K r x) M K) <$> seq 0 N);
  gemv_quant_f32 W t x M K := demo_gemv W t x M K;
  flash_attention_decode := demo_attention;
  flash_attention_prefill_batched := demo_attention_batched |}.

Lemma rows_of_concat {A} cols (f : nat -> list Z -> A) (xs : list (list Z)) :
  Forall (fun x => length x = cols) xs ->
  (fun r => f r (row_of cols r (concat xs))) <$> seq 0 (length xs) = imap f xs.
Proof.
  intros Hs. apply list_eq. intros i. rewrite list_lookup_fmap, list_lookup_imap.
  destruct (xs !! i) as [x|] eqn:Hx.
  - pose proof (lookup_lt_Some _ _ _ Hx). rewrite lookup_seq_lt by done. cbn.
    by rewrite (row_of_concat cols i xs x).
  - apply lookup_ge_None in Hx. by rewrite lookup_seq_ge.
Qed.

Lemma demo_attention_queries nh nkv hd start sc i8 qs kb vb ks vs :
  Forall (fun q => length q = (nh * hd)%nat) qs ->
  demo_attention_batched nh nkv hd (length qs) start sc i8 (concat qs) kb vb ks vs =
  concat (imap (fun i q =>
    let n := (start + i + 1)%nat in let row := (nkv * hd * (if i8 then 1 else 2))%nat in
    demo_attention nh nkv hd n sc i8 q (take (n * row) kb) (take (n * row) vb)
      (take (n * (4 * nkv)) <$> ks) (take (n * (4 * nkv)) <$> vs)) qs).
Proof.
  intros Hs. unfold demo_attention_batched. f_equal.
  exact (rows_of_concat (nh * hd) (fun i q =>
    let n := (start + i + 1)%nat in let row := (nkv * hd * (if i8 then 1 else 2))%nat in
    demo_attention nh nkv hd n sc i8 q (take (n * row) kb) (take (n * row) vb)
      (take (n * (4 * nkv)) <$> ks) (take (n * (4 * nkv)) <$> vs)) qs Hs).
Qed.

#[local] Instance demo_reflex_laws : ReflexLaws.
Proof.
  constructor; try done; cbn.
  - intros. unfold demo_gemv. by rewrite length_fmap, length_seq.
  - intros W t xs M K Hs. f_equal. rewrite (rows_of_concat K (fun _ x => demo_gemv W t x M K) xs Hs).
    apply imap_const.
  - intros. unfold demo_attention. by rewrite length_fmap, length_seq.
  - exact demo_attention_queries.
Qed.

(** Two layers, two query heads, one key head of two values. *)
Definition demo_config : ModelConfig := mkModel [] 2 2 1 2 3 4 5 8 1 1 true.
Definition demo_layer (i : Z) : LayerWeights :=
  mkLayer (Some i) (Some (i + 1)) (Some (i + 2)) (Some (i + 3)) (Some (i + 4)) (Some (i + 5))
    (Some (i + 6)) (Some 1) (Some 2) (Some 3) (Some 4) 12 12 12 12 12 12 14 0 0.
Definition demo_weights : ModelWeights :=
  mkWeights (Some 1) (Some 2) 12 (Some 3) 12 [demo_layer 10; demo_layer 20].
Definition demo_norm (w : option Z) (fp32 : bool) (i : nat) : float := default 1 w + Z.of_nat i.
Definition demo_embedding (t : Z) : list Z := [t; t + 1; 2 * t].

End Forward.
