(* ===== verification/Cells.v ===== *)
(** * Cells: what the KV pool of [Forward] holds

    The pool and, in INT8, its table of scales as one map from a layer, a
    position and key-or-value to an entry: a row of [half] values, or an INT8
    row followed by its scales.  Both blocks are arrays of slots; a store
    replaces one slot and nothing else, consecutive slots are one block. *)

From S2P Require Import Prelude Cuda KVCache ModelFile Kernels Forward.

Module Cells.
Import ModelFile Kernels Forward.

(** ** Bytes of [half] rows *)

Lemma half_bytes_length hs : zlen (half_bytes hs) = 2 * zlen hs.
Proof.
  unfold half_bytes. induction hs as [|h hs IH]; [done|].
  cbn [fmap list_fmap concat]. autorewrite with len. lia.
Qed.

Lemma halfs_length n bs : length bs = (n * 2)%nat -> length (halfs bs) = n.
Proof.
  revert bs. induction n as [|n IH]; intros bs Hb; [by destruct bs|].
  destruct bs as [|a [|b bs]]; simpl in *; try lia. by rewrite IH by lia.
Qed.

(** ** Arrays of slots

    The pool and the table of scales have one layout: for every layer the keys
    of all positions, then the values. *)

Section Array.
Context (h m L : Z) (Hh : 0 < h) (Hm : 0 <= m).

Definition slot_at (g : bytes) (l pos : Z) (v : bool) : option bytes := peek_at g (KVCache.slot_off h m l pos v) h.

Context (g : bytes) (Hg : zlen g = L * (m * (2 * h))).

Lemma slot_inside l pos v : 0 <= l < L -> 0 <= pos < m ->
  0 <= KVCache.slot_off h m l pos v /\ KVCache.slot_off h m l pos v + h <= zlen g.
Proof. intros Hl Hp. destruct (KVCache.slot_off_bound h L m l pos v); lia. Qed.

Lemma slot_at_Some l pos v : 0 <= l < L -> 0 <= pos < m -> exists bs, slot_at g l pos v = Some bs /\ zlen bs = h.
Proof.
  intros Hl Hp. destruct (slot_inside l pos v Hl Hp).
  destruct (in_block_peek g (KVCache.slot_off h m l pos v) h) as [bs Hb]; [apply in_block_true; lia|].
  exists bs. split; [done|]. by eapply peek_at_length.
Qed.

(** A row written at a slot replaces that slot and nothing else. *)
Lemma slot_poke l pos v bs : 0 <= l < L -> 0 <= pos < m -> zlen bs = h ->
  exists g', poke_at g (KVCache.slot_off h m l pos v) bs = Some g' /\ zlen g' = zlen g /\
    forall l' pos' v', 0 <= l' < L -> 0 <= pos' < m ->
      slot_at g' l' pos' v' = if decide ((l', pos', v') = (l, pos, v)) then Some bs else slot_at g l' pos' v'.
Proof.
  intros Hl Hp Hb. destruct (slot_inside l pos v Hl Hp).
  destruct (poke_at_is_Some g (KVCache.slot_off h m l pos v) bs) as [g' Hg']; [done|lia|].
  exists g'. split; [done|]. split; [exact (poke_at_length _ _ _ _ Hg')|]. intros l' pos' v' Hl' Hp'. unfold slot_at. case_decide as D.
  - injection D as -> -> ->. pose proof (peek_poke_same _ _ _ _ Hg') as E. by rewrite Hb in E.
  - apply (peek_poke_disjoint _ _ _ _ _ _ Hg'). rewrite Hb.
    destruct (KVCache.slot_off_disjoint h m l' pos' v' l pos v); lia || done.
Qed.

(** A split of a range. *)
Lemma peek_app (d : bytes) o a b x y :
  peek_at d o a = Some x -> peek_at d (o + a) b = Some y -> peek_at d o (a + b) = Some (x ++ y).
Proof.
  intros Hx Hy. destruct (peek_at_inv _ _ _ _ Hx) as [? ->], (peek_at_inv _ _ _ _ Hy) as [? ->].
  rewrite peek_at_Some by lia. f_equal.
  rewrite (Z2Nat.inj_add o a), <- drop_drop, Z2Nat.inj_add by lia. by rewrite take_take_drop.
Qed.

(** The slots of consecutive positions, read at once. *)
Lemma slots_joined l v (row : nat -> bytes) n :
  0 <= l < L -> (0 < n)%nat -> (forall i, (i < n)%nat -> slot_at g l (Z.of_nat i) v = Some (row i)) ->
  peek_at g (KVCache.slot_off h m l 0 v) (Z.of_nat n * h) = Some (concat (row <$> seq 0 n)) /\
  zlen (concat (row <$> seq 0 n)) = Z.of_nat n * h.
Proof.
  intros Hl Hn Hs. induction n as [|n IH]; [lia|]. rewrite seq_S, fmap_app, concat_app. cbn. rewrite app_nil_r.
  pose proof (Hs n ltac:(lia)) as Hp. unfold slot_at in Hp. pose proof (peek_at_length _ _ _ _ Hp) as Hlen.
  replace (KVCache.slot_off h m l (Z.of_nat n) v) with (KVCache.slot_off h m l 0 v + Z.of_nat n * h) in Hp by (unfold KVCache.slot_off; lia).
  destruct (decide (n = 0%nat)) as [->|Hn0].
  - rewrite Z.add_0_r in Hp. replace (Z.of_nat 1 * h) with h by lia. done.
  - destruct IH as [IH1 IH2]; [lia|intros; apply Hs; lia|].
    replace (Z.of_nat (S n) * h) with (Z.of_nat n * h + h) by lia. split; [by apply peek_app|].
    rewrite zlen_app. lia.
Qed.

(** Every byte belongs to a slot. *)
Lemma slot_of_byte i : 0 <= i < L * (m * (2 * h)) ->
  exists l pos v, 0 <= l < L /\ 0 <= pos < m /\ KVCache.slot_off h m l pos v <= i < KVCache.slot_off h m l pos v + h.
Proof.
  intros Hi. assert (Hm0 : 0 < m) by (destruct (decide (m = 0)); [subst; lia|lia]).
  set (s := i / h). set (l := s / (2 * m)). set (r := s mod (2 * m)).
  pose proof (Z.div_mod i h ltac:(lia)) as D1. pose proof (Z.mod_pos_bound i h Hh) as B1.
  pose proof (Z.div_mod s (2 * m) ltac:(lia)) as D2.
  pose proof (Z.mod_pos_bound s (2 * m) ltac:(lia)) as B2. fold s in D1. fold l r in D2, B2.
  assert (Hs : 0 <= s < L * (2 * m))
    by (unfold s; split; [apply Z.div_pos; lia|apply Z.div_lt_upper_bound; nia]).
  assert (Hl : 0 <= l < L)
    by (unfold l; split; [apply Z.div_pos; lia|apply Z.div_lt_upper_bound; lia]).
  exists l, (if m <=? r then r - m else r), (m <=? r).
  assert (E : KVCache.slot_off h m l (if m <=? r then r - m else r) (m <=? r) = h * s)
    by (unfold KVCache.slot_off; destruct (Z.leb_spec m r); f_equal; lia).
  rewrite E. split_and!; try lia. all: destruct (Z.leb_spec m r); lia.
Qed.

(** Arrays with the same slots are equal. *)
Lemma slots_ext g' : zlen g' = zlen g ->
  (forall l pos v, 0 <= l < L -> 0 <= pos < m -> slot_at g l pos v = slot_at g' l pos v) -> g = g'.
Proof.
  intros Hg' Hs. apply list_eq. intros i. destruct (decide (Z.of_nat i < zlen g)) as [Hi|Hi].
  2: { rewrite !lookup_ge_None_2 by (unfold zlen in *; lia). done. }
  destruct (slot_of_byte (Z.of_nat i)) as (l & pos & v & Hl & Hp & Ho); [lia|].
  destruct (slot_at_Some l pos v Hl Hp) as (d & Hd & _). pose proof Hd as Hd'. rewrite (Hs l pos v Hl Hp) in Hd'.
  unfold slot_at in Hd, Hd'. set (o := KVCache.slot_off h m l pos v) in *.
  destruct (slot_inside l pos v Hl Hp) as [B1 _]. fold o in B1.
  pose proof (peek_at_lookup _ _ _ _ (i - Z.to_nat o) Hd ltac:(lia)) as L1.
  pose proof (peek_at_lookup _ _ _ _ (i - Z.to_nat o) Hd' ltac:(lia)) as L2.
  rewrite L1 in L2. by replace (Z.to_nat o + (i - Z.to_nat o))%nat with i in L2 by lia.
Qed.

End Array.

(** ** The contents of the cache, slot by slot *)

(** The scales of the key or value of a token. *)
Definition read_scales (p : pool) (l pos : Z) (v : bool) : option bytes :=
  match KVCache.kv_scale_ptr p l pos v with
  | KVCache.Scale i => s ← KVCache.kv_scales_ p; peek_at s (4 * i) (4 * KVCache.n_kv_heads (KVCache.cfg_ p))
  | _ => None
  end.

(** What the cache holds for the key or value of a token: the row, in INT8
    followed by its scales. *)
Definition read_entry (i8 : bool) (p : pool) (l pos : Z) (v : bool) : option bytes :=
  if i8 then r ← KVCache.read_slot p l pos v; s ← read_scales p l pos v; Some (r ++ s) else KVCache.read_slot p l pos v.

Definition with_cache (p : pool) (g : bytes) (s : option bytes) : pool :=
  KVCache.mkPool (KVCache.cfg_ p) (Some g) (KVCache.cpu_pool_ p) s (KVCache.used_tokens_ p) (KVCache.gpu_tokens_ p).

Lemma with_cache_same p g : KVCache.pool_ok p g -> with_cache p g (KVCache.kv_scales_ p) = p.
Proof. intros [_ Hg _]. destruct p; cbn in *. by subst. Qed.

Section Slots.
Context (p : pool) (gpu : bytes) (Hp : KVCache.pool_ok p gpu).
Let c := KVCache.cfg_ p.

Lemma half_ctx_pos : 0 < KVCache.half c /\ 0 <= KVCache.max_context c.
Proof. destruct Hp as [Hc _ _]. split; [by apply KVCache.half_pos|apply Hc]. Qed.

Lemma slot_in_pool l pos v :
  0 <= l < KVCache.n_layers c -> 0 <= pos < KVCache.max_context c ->
  KVCache.slot_ptr p l pos v = KVCache.Gpu (KVCache.slot_off (KVCache.half c) (KVCache.max_context c) l pos v) /\
  0 <= KVCache.slot_off (KVCache.half c) (KVCache.max_context c) l pos v /\
  KVCache.slot_off (KVCache.half c) (KVCache.max_context c) l pos v + KVCache.half c <= zlen gpu.
Proof.
  intros Hl Hpos. destruct half_ctx_pos as [H1 H2]. pose proof (KVCache.pool_cfg _ _ Hp) as Hc. fold c in Hc.
  pose proof (KVCache.ok_overflow c Hc). split.
  - rewrite KVCache.slot_ptr_eq by (fold c; done || lia). fold c. by destruct (Z.ltb_spec pos (KVCache.max_context c)); [|lia].
  - by apply (slot_inside _ _ (KVCache.n_layers c) H1 gpu (KVCache.pool_len _ _ Hp)).
Qed.

Lemma read_slot_at l pos v : 0 <= l < KVCache.n_layers c -> 0 <= pos < KVCache.max_context c ->
  KVCache.read_slot p l pos v = slot_at (KVCache.half c) (KVCache.max_context c) gpu l pos v.
Proof.
  intros Hl Hpos. unfold KVCache.read_slot. destruct (slot_in_pool l pos v Hl Hpos) as [-> _].
  by rewrite (KVCache.pool_gpu _ _ Hp).
Qed.

Lemma read_slot_Some l pos v :
  0 <= l < KVCache.n_layers c -> 0 <= pos < KVCache.max_context c ->
  exists bs, KVCache.read_slot p l pos v = Some bs /\ zlen bs = KVCache.half c.
Proof.
  intros Hl Hpos. rewrite read_slot_at by done. destruct half_ctx_pos.
  by apply (slot_at_Some _ _ (KVCache.n_layers c)); [..|apply Hp| |].
Qed.

Lemma store_slot l pos v bs :
  0 <= l < KVCache.n_layers c -> 0 <= pos < KVCache.max_context c -> zlen bs = KVCache.half c ->
  exists g, store_at p (KVCache.slot_ptr p l pos v) bs = Some (with_gpu p g) /\
    KVCache.pool_ok (with_gpu p g) g /\
    forall l' pos' v', 0 <= l' < KVCache.n_layers c -> 0 <= pos' < KVCache.max_context c ->
      KVCache.read_slot (with_gpu p g) l' pos' v' =
      if decide ((l', pos', v') = (l, pos, v)) then Some bs else KVCache.read_slot p l' pos' v'.
Proof.
  intros Hl Hpos Hb. destruct half_ctx_pos as [H1 H2]. destruct (slot_in_pool l pos v Hl Hpos) as (E & _ & _).
  destruct (slot_poke _ _ (KVCache.n_layers c) H1 gpu (KVCache.pool_len _ _ Hp) l pos v bs) as (g & Hg & Hlen & Hs); [done..|].
  exists g. rewrite E. cbn [store_at]. rewrite (KVCache.pool_gpu _ _ Hp). cbn [mbind option_bind]. fold c in Hg, Hs |- *. rewrite Hg. split; [done|].
  assert (Hp' : KVCache.pool_ok (with_gpu p g) g).
  { destruct Hp as [Hc _ Hlg]. constructor; [done|done|]. cbn. by rewrite Hlen. }
  split; [done|]. intros l' pos' v' Hl' Hpos'. unfold KVCache.read_slot.
  change (KVCache.slot_ptr (with_gpu p g)) with (KVCache.slot_ptr p).
  destruct (slot_in_pool l' pos' v' Hl' Hpos') as [-> _]. rewrite (KVCache.pool_gpu _ _ Hp).
  cbn [with_gpu KVCache.gpu_pool_ KVCache.cfg_ mbind option_bind]. fold c. by apply Hs.
Qed.

Section Table.
Context (table : bytes) (Ht : KVCache.table_ok p table).
Abbreviation nkv := (4 * KVCache.n_kv_heads c).

Lemma nkv_pos : 0 < nkv.
Proof. destruct Hp as [Hc _ _]. pose proof (KVCache.ok_heads c Hc). lia. Qed.

Lemma scale_in_table l pos v : 0 <= l < KVCache.n_layers c -> 0 <= pos < KVCache.max_context c ->
  exists i, KVCache.kv_scale_ptr p l pos v = KVCache.Scale i /\ 4 * i = KVCache.slot_off nkv (KVCache.max_context c) l pos v.
Proof.
  intros Hl Hpos. destruct Ht as [Hty Htb Hlen Hbd]. pose proof (KVCache.pool_cfg _ _ Hp) as Hc.
  eexists. split; [apply KVCache.scale_ptr_eq; fold c; try done; rewrite Hlen in Hbd; fold c in Hbd; lia|]. fold c. unfold KVCache.slot_off. lia.
Qed.

Lemma read_scales_at l pos v : 0 <= l < KVCache.n_layers c -> 0 <= pos < KVCache.max_context c ->
  read_scales p l pos v = slot_at nkv (KVCache.max_context c) table l pos v.
Proof.
  intros Hl Hpos. unfold read_scales. destruct (scale_in_table l pos v Hl Hpos) as (i & -> & Ei).
  rewrite (KVCache.tb_table _ _ Ht). cbn [mbind option_bind]. fold c. by rewrite Ei.
Qed.

Lemma read_scales_Some l pos v : 0 <= l < KVCache.n_layers c -> 0 <= pos < KVCache.max_context c ->
  exists bs, read_scales p l pos v = Some bs /\ zlen bs = nkv.
Proof.
  intros Hl Hpos. rewrite read_scales_at by done. destruct half_ctx_pos. pose proof nkv_pos.
  by apply (slot_at_Some _ _ (KVCache.n_layers c)); [..|apply Ht| |].
Qed.

Lemma store_scale_row `{HF : Floats} l pos v (scales : list float) :
  0 <= l < KVCache.n_layers c -> 0 <= pos < KVCache.max_context c -> zlen (concat (f32_bits <$> scales)) = nkv ->
  exists s, store_scales p (KVCache.kv_scale_ptr p l pos v) scales = Some (with_scales p s) /\
    KVCache.table_ok (with_scales p s) s /\
    forall l' pos' v', 0 <= l' < KVCache.n_layers c -> 0 <= pos' < KVCache.max_context c ->
      read_scales (with_scales p s) l' pos' v' =
      if decide ((l', pos', v') = (l, pos, v)) then Some (concat (f32_bits <$> scales)) else read_scales p l' pos' v'.
Proof.
  intros Hl Hpos Hb. destruct half_ctx_pos as [_ H2]. pose proof nkv_pos as H1.
  destruct (scale_in_table l pos v Hl Hpos) as (i & E & Ei).
  destruct (slot_poke _ _ (KVCache.n_layers c) H1 table (KVCache.tb_len _ _ Ht) l pos v _ Hl Hpos Hb) as (s & Hs & Hlen & Hr).
  exists s. rewrite E. cbn [store_scales store_at]. rewrite (KVCache.tb_table _ _ Ht). cbn [mbind option_bind].
  fold c in Hs, Hr |- *. rewrite Ei, Hs. split; [done|]. split; [destruct Ht as [A1 A2 A3 A4]; by split; cbn; rewrite ?Hlen|].
  intros l' pos' v' Hl' Hpos'. rewrite read_scales_at by done. unfold read_scales.
  assert (Ep : KVCache.kv_scale_ptr (with_scales p s) l' pos' v' = KVCache.kv_scale_ptr p l' pos' v')
    by (unfold KVCache.kv_scale_ptr; cbn; by rewrite (KVCache.tb_table _ _ Ht)).
  rewrite Ep. destruct (scale_in_table l' pos' v' Hl' Hpos') as (i' & -> & Ei').
  cbn [with_scales KVCache.kv_scales_ KVCache.cfg_ mbind option_bind]. fold c. rewrite Ei'. by apply Hr.
Qed.

End Table.
End Slots.

(** ** The specification: a map from slots to entries *)

(** Keyed by layer, position and key-or-value. *)
Abbreviation kvmap := (gmap (Z * Z * bool) bytes).

Definition repr (i8 : bool) (p : pool) (V : kvmap) : Prop :=
  forall l pos v, 0 <= l < KVCache.n_layers (KVCache.cfg_ p) ->
    0 <= pos < KVCache.max_context (KVCache.cfg_ p) -> read_entry i8 p l pos v = V !! (l, pos, v).

(** A part of the entries of the first [n] positions of a layer, one after the
    other. *)
Definition hist (part : bytes -> bytes) (V : kvmap) (l : Z) (v : bool) (n : nat) : bytes :=
  concat ((fun i => part (default [] (V !! (l, Z.of_nat i, v)))) <$> seq 0 n).

Definition put_kv (V : kvmap) (l pos : Z) (k v : bytes) : kvmap :=
  <[(l, pos, true) := v]> (<[(l, pos, false) := k]> V).

Lemma hist_put_other f V l pos k v l' v' n :
  l' <> l \/ Z.of_nat n <= pos -> hist f (put_kv V l pos k v) l' v' n = hist f V l' v' n.
Proof.
  intros H. unfold hist. f_equal. apply list_fmap_ext. intros i x [-> Hi]%lookup_seq.
  unfold put_kv. rewrite !lookup_insert_ne; [done|..]; intros [= ? ? ?]; destruct H; lia || done.
Qed.

Lemma put_kv_comm V l pos k v l' pos' k' v' :
  l <> l' -> put_kv (put_kv V l pos k v) l' pos' k' v' = put_kv (put_kv V l' pos' k' v') l pos k v.
Proof.
  intros Hl. unfold put_kv.
  rewrite (insert_insert_ne _ (l', pos', false) (l, pos, true)) by congruence.
  rewrite (insert_insert_ne _ (l', pos', true) (l, pos, true)) by congruence.
  rewrite (insert_insert_ne _ (l', pos', false) (l, pos, false)) by congruence.
  by rewrite (insert_insert_ne _ (l', pos', true) (l, pos, false)) by congruence.
Qed.

(** The map of a pool. *)
Definition all_slots (c : KVCache.Config) : list (Z * Z * bool) :=
  l ← upto (KVCache.n_layers c); pos ← upto (KVCache.max_context c); [(l, pos, false); (l, pos, true)].

Definition view (i8 : bool) (p : pool) : kvmap :=
  list_to_map ((fun k : Z * Z * bool => (k, default [] (read_entry i8 p k.1.1 k.1.2 k.2)))
               <$> all_slots (KVCache.cfg_ p)).

(** A cache in which every entry can be read. *)
Definition readable (i8 : bool) (p : pool) : Prop :=
  forall l pos v, 0 <= l < KVCache.n_layers (KVCache.cfg_ p) ->
    0 <= pos < KVCache.max_context (KVCache.cfg_ p) -> is_Some (read_entry i8 p l pos v).

Lemma view_repr i8 p : readable i8 p -> repr i8 p (view i8 p).
Proof.
  intros Hg l pos v Hl Hpos. destruct (Hg l pos v Hl Hpos) as [bs Hb].
  rewrite Hb. symmetry. apply elem_of_list_to_map_1'.
  - intros y ([[l' pos'] v'] & [= -> -> -> ->] & _)%list_elem_of_fmap. cbn. by rewrite Hb.
  - apply list_elem_of_fmap. exists (l, pos, v). cbn. rewrite Hb. split; [done|].
    unfold all_slots. apply list_elem_of_bind. exists l. split; [|by apply elem_of_upto].
    apply list_elem_of_bind. exists pos. split; [|by apply elem_of_upto]. destruct v; set_solver.
Qed.

(** ** What the attention reads beyond the fast pool *)


(** The demo pool with an overflow of two positions. *)
Definition overflow_pool : pool :=
  KVCache.mkPool (KVCache.mkConfig 2 1 2 6 2 2) (Some (zb <$> upto 96)) (Some (replicate 32 Byte.x00)) None 0 0.


End Cells.
