(* ===== verification/Prefill.v ===== *)
(** * Prefill: the forward pass on the map of [Cells]

    [Forward] refines a specification on the map from slots to entries
    ([transformer_layer_ok], [transformer_prefill_ok]); on the specification
    the layer-major order of the batched prefill is the token-major order. *)

From S2P Require Import Prelude Cuda KVCache ModelFile Kernels Forward Cells.

Module Prefill.
Import ModelFile Kernels Forward Cells.

(** ** The specification of one token in one layer *)

Section Spec.
Context `{RL : ReflexLaws} `{cuda : CudaMem}.
Context (i8 : bool) (config : ModelConfig) (mw : ModelWeights) (norm_weight : option Z -> bool -> nat -> float).

(** Query, key and value of a token after the norms, and after RoPE. *)
Definition project (lw : LayerWeights) (x : list Z) : (list Z * list Z) * list Z :=
  let normed := rms_norm config norm_weight lw (rms_attn lw) 1 x in
  let q := gemv_quant (wq lw) (type_wq lw) normed (Q_DIM config) (H_ config) in
  let k := gemv_quant (wk lw) (type_wk lw) normed (KV_DIM config) (H_ config) in
  let v := gemv_quant (wv lw) (type_wv lw) normed (KV_DIM config) (H_ config) in
  (qk_norm config norm_weight lw 1 q k, v).

Definition front (lw : LayerWeights) (pos : Z) (x : list Z) : (list Z * list Z) * list Z :=
  let '((q, k), v) := project lw x in
  (default (q, k) (rope_inplace (rope config pos) q k), v).

(** What the cache keeps of a key or a value: the [half] values, or the INT8
    row and its scales. *)
Definition entry (row : list Z) : bytes :=
  if i8 then let '(q, scales) := fp16_to_int8 row (NKV config) (HD config) in q ++ concat (f32_bits <$> scales)
  else half_bytes row.

Definition row_part (e : bytes) : bytes := if i8 then take (KV_DIM config) e else e.
Definition scale_part (e : bytes) : bytes := drop (KV_DIM config) e.

Definition scale_hist (V : kvmap) (l : Z) (v : bool) (n : nat) : option bytes :=
  if i8 then Some (hist scale_part V l v n) else None.

Definition attend (l pos : Z) (q : list Z) (V : kvmap) : list Z :=
  let n := Z.to_nat (pos + 1) in
  flash_attention_decode (NH config) (NKV config) (HD config) n (scale config) i8 q
    (hist row_part V l false n) (hist row_part V l true n) (scale_hist V l false n) (scale_hist V l true n).

Definition ffn_front (lw : LayerWeights) (x2 : list Z) : list Z :=
  let normed2 := rms_norm config norm_weight lw (rms_ffn lw) 1 x2 in
  fused_swiglu (gemv_quant (w_gate lw) (type_w_gate lw) normed2 (I_ config) (H_ config))
               (gemv_quant (w_up lw) (type_w_up lw) normed2 (I_ config) (H_ config)) 1 (I_ config).

Definition ffn (lw : LayerWeights) (x2 : list Z) : list Z :=
  vec_add x2 (gemv_quant (w_down lw) (type_w_down lw) (ffn_front lw x2) (H_ config) (I_ config))
    (H_ config).

Definition attn_residual (lw : LayerWeights) (x attn : list Z) : list Z :=
  vec_add x (gemv_quant (wo lw) (type_wo lw) attn (H_ config) (Q_DIM config)) (H_ config).

Definition back (lw : LayerWeights) (x attn : list Z) : list Z := ffn lw (attn_residual lw x attn).

Definition put_token (lw : LayerWeights) (l pos : Z) (x : list Z) (V : kvmap) : kvmap :=
  put_kv V l pos (entry (front lw pos x).1.2) (entry (front lw pos x).2).

Definition layer_state (lw : LayerWeights) (l pos : Z) (x : list Z) (V : kvmap) : kvmap :=
  put_token lw l pos x V.
Definition layer_out (lw : LayerWeights) (l pos : Z) (x : list Z) (V : kvmap) : list Z :=
  back lw x (attend l pos (front lw pos x).1.1 (layer_state lw l pos x V)).

(** ** Refinement of one token in one layer *)

(** A pool of the shape of the model, with a table of scales in INT8. *)
Record fits (p : pool) : Prop := {
  fit_layers : KVCache.n_layers (KVCache.cfg_ p) = n_layers config;
  fit_heads : KVCache.n_kv_heads (KVCache.cfg_ p) = n_kv_heads config;
  fit_dim : KVCache.head_dim (KVCache.cfg_ p) = head_dim config;
  fit_type : KVCache.kv_type_bytes (KVCache.cfg_ p) = if i8 then 1 else 2;
  fit_even : Z.even (head_dim config) = true;
  fit_weights : zlen (layers mw) = n_layers config;
  fit_pool : exists gpu, KVCache.pool_ok p gpu;
  fit_table : i8 = true -> exists table, KVCache.table_ok p table }.

Abbreviation ctx p := (KVCache.max_context (KVCache.cfg_ p)).

(** A step changes the contents of the pool and, in INT8, of the table of
    scales, and leaves a cache that reads as [V]. *)
Record becomes (p p' : pool) (V : kvmap) : Prop := {
  bc_same : exists g sc, p' = with_cache p g sc /\ (i8 = false -> sc = KVCache.kv_scales_ p);
  bc_fits : fits p';
  bc_repr : repr i8 p' V }.

Lemma becomes_cfg p p' V : becomes p p' V -> KVCache.cfg_ p' = KVCache.cfg_ p.
Proof. by intros [(g & sc & -> & _) _ _]. Qed.

Lemma becomes_refl p V : fits p -> repr i8 p V -> becomes p p V.
Proof.
  intros Hf HV. split; [|done..]. destruct (fit_pool p Hf) as [g Hg]. exists g, (KVCache.kv_scales_ p).
  by rewrite with_cache_same.
Qed.

Lemma becomes_trans p p1 p2 V1 V2 : becomes p p1 V1 -> becomes p1 p2 V2 -> becomes p p2 V2.
Proof.
  intros [(g1 & s1 & -> & E1) _ _] [(g2 & s2 & -> & E2) Hf HV]. split; [|done..]. exists g2, s2.
  split; [done|]. intros Hi. by rewrite E2, <- E1.
Qed.

(** Two caches that read as the same map have the same rows and scales. *)
Lemma same_entries p1 p2 V l pos v :
  fits p1 -> fits p2 -> repr i8 p1 V -> repr i8 p2 V -> KVCache.cfg_ p2 = KVCache.cfg_ p1 ->
  0 <= l < KVCache.n_layers (KVCache.cfg_ p1) -> 0 <= pos < ctx p1 ->
  KVCache.read_slot p1 l pos v = KVCache.read_slot p2 l pos v /\
  (i8 = true -> read_scales p1 l pos v = read_scales p2 l pos v).
Proof.
  intros F1 F2 R1 R2 C Hl Hq. destruct (fit_pool _ F1) as [g1 P1], (fit_pool _ F2) as [g2 P2].
  pose proof (R1 l pos v Hl Hq) as A. rewrite <- R2 in A by by rewrite C.
  destruct (read_slot_Some p1 g1 P1 l pos v Hl Hq) as (r1 & Er1 & Lr1).
  destruct (read_slot_Some p2 g2 P2 l pos v) as (r2 & Er2 & Lr2); [by rewrite C..|]. rewrite C in Lr2.
  unfold read_entry in A. destruct i8 eqn:Hi; [|done].
  destruct (fit_table _ F1 Hi) as [t1 T1], (fit_table _ F2 Hi) as [t2 T2].
  destruct (read_scales_Some p1 g1 P1 t1 T1 l pos v Hl Hq) as (x1 & X1 & _).
  destruct (read_scales_Some p2 g2 P2 t2 T2 l pos v) as (x2 & X2 & _); [by rewrite C..|].
  rewrite Er1, Er2, X1, X2 in A |- *. cbn [mbind option_bind] in A. apply Some_inj in A.
  apply app_inj_1 in A as [-> ->]; [done|]. unfold zlen in *. lia.
Qed.

(** The map determines the cache. *)
Lemma becomes_unique p p1 p2 V : becomes p p1 V -> becomes p p2 V -> p1 = p2.
Proof.
  intros B1 B2. pose proof B1 as [(g1 & s1 & E1 & I1) F1 R1]. pose proof B2 as [(g2 & s2 & E2 & I2) F2 R2].
  assert (C : KVCache.cfg_ p2 = KVCache.cfg_ p1) by (rewrite (becomes_cfg _ _ _ B1); by apply becomes_cfg in B2).
  destruct (fit_pool _ F1) as [g1' P1], (fit_pool _ F2) as [g2' P2].
  assert (g1' = g1) as -> by (pose proof (KVCache.pool_gpu _ _ P1) as G; rewrite E1 in G; cbn in G; by simplify_eq).
  assert (g2' = g2) as -> by (pose proof (KVCache.pool_gpu _ _ P2) as G; rewrite E2 in G; cbn in G; by simplify_eq).
  pose proof (fun l pos v => same_entries p1 p2 V l pos v F1 F2 R1 R2 C) as HE.
  pose proof (half_ctx_pos p1 g1 P1) as [H1 H2]. pose proof (KVCache.pool_len _ _ P1) as L1.
  assert (g1 = g2) as ->.
  { pose proof (KVCache.pool_len _ _ P2) as L2. rewrite C, <- L1 in L2.
    apply (slots_ext _ _ _ H1 H2 g1 L1 g2 L2). intros l pos v Hl Hq. rewrite <- (read_slot_at p1 g1 P1) by done.
    pose proof (read_slot_at p2 g2 P2 l pos v) as A. rewrite C in A. rewrite <- A by done. by apply HE. }
  assert (s1 = s2) as ->; [|by rewrite E1, E2]. destruct i8 eqn:Hi; [|by rewrite I1, I2].
  destruct (fit_table _ F1 Hi) as [t1 T1], (fit_table _ F2 Hi) as [t2 T2].
  pose proof (KVCache.tb_table _ _ T1) as S1. pose proof (KVCache.tb_table _ _ T2) as S2.
  rewrite E1 in S1. rewrite E2 in S2. cbn in S1, S2. rewrite S1, S2. f_equal.
  pose proof (KVCache.tb_len _ _ T1) as M1. pose proof (KVCache.tb_len _ _ T2) as M2. rewrite C, <- M1 in M2.
  apply (slots_ext _ _ _ (nkv_pos p1 _ P1) H2 t1 M1 t2 M2).
  intros l pos v Hl Hq. rewrite <- (read_scales_at p1 _ P1 t1 T1) by done.
  pose proof (read_scales_at p2 _ P2 t2 T2 l pos v) as A. rewrite C in A. rewrite <- A by done. by apply HE.
Qed.

Lemma fits_half p : fits p -> KVCache.half (KVCache.cfg_ p) = row_bytes config i8.
Proof.
  intros Hf. destruct (fit_pool p Hf) as [gpu Hg]. pose proof (KVCache.pool_cfg _ _ Hg) as Hc. destruct Hc.
  unfold KVCache.half, row_bytes, KV_DIM, NKV, HD. rewrite <- (fit_heads p Hf), <- (fit_dim p Hf), (fit_type p Hf) in *.
  destruct i8; lia.
Qed.

Lemma rope_dims p : fits p -> r_dim (rope config 0) = (2 * half_dim (rope config 0))%nat.
Proof.
  intros [_ _ Hd _ He _ [gpu Hg] _]. destruct (KVCache.pool_cfg _ _ Hg). rewrite Hd in *.
  apply Z.even_spec in He as [m Hm]. unfold half_dim, rope, HD.
  cbn [r_dim]. rewrite Hm.
  replace (Z.to_nat (2 * m)) with (Z.to_nat m * 2)%nat by lia. rewrite Nat.div_mul by lia. lia.
Qed.

Lemma front_lengths p lw pos x :
  fits p ->
  rope_inplace (rope config pos) (project lw x).1.1 (project lw x).1.2 = Some (front lw pos x).1 /\
  (front lw pos x).2 = (project lw x).2 /\
  (length (project lw x).1.1 = Q_DIM config /\ length (project lw x).1.2 = KV_DIM config /\
   length (project lw x).2 = KV_DIM config) /\
  length (front lw pos x).1.1 = Q_DIM config /\ length (front lw pos x).1.2 = KV_DIM config.
Proof.
  intros Hf. assert (Hq : length (project lw x).1.1 = Q_DIM config /\
    length (project lw x).1.2 = KV_DIM config /\ length (project lw x).2 = KV_DIM config).
  { unfold project, qk_norm. destruct (q_norm lw), (k_norm lw); cbn [fst snd];
      rewrite ?fused_rmsnorm_length, ?gemv_length, ?Nat.mul_1_l; done. }
  unfold front. destruct (project lw x) as [[q' k'] v']. cbn [fst snd] in *.
  destruct Hq as (Hq & Hk & Hv). destruct (rope_launch_ok (rope config pos)
    (threads (total_pairs (rope config pos)) BLOCK_SIZE) q' k') as (q2 & k2 & E & H1 & H2);
    [rewrite Hq; done|rewrite Hk; done|].
  unfold rope_inplace. rewrite E. cbn. split_and!; (done || lia).
Qed.

(** *** Stores *)

Lemma fits_with_gpu p g : fits p -> KVCache.pool_ok (with_gpu p g) g -> fits (with_gpu p g).
Proof.
  intros [] ?. constructor; try done; [by exists g|]. intros Hi.
  destruct (fit_table0 Hi) as [t []]. exists t. by split.
Qed.

Lemma fits_with_scales p sc : fits p -> KVCache.table_ok (with_scales p sc) sc -> fits (with_scales p sc).
Proof.
  intros [] ?. constructor; try done; [|by exists sc]. destruct fit_pool0 as [g []]. exists g. by split.
Qed.

Lemma fits_known p l : fits p -> 0 <= l < n_layers config -> 0 <= l < KVCache.n_layers (KVCache.cfg_ p).
Proof. intros Hf. by rewrite (fit_layers p Hf). Qed.

(** An FP16 row. *)
Lemma store_fp16 p V l pos v bs :
  i8 = false -> fits p -> repr i8 p V -> 0 <= l < n_layers config -> 0 <= pos < ctx p ->
  zlen bs = row_bytes config i8 ->
  exists g, store_at p (KVCache.slot_ptr p l pos v) bs = Some (with_gpu p g) /\
    becomes p (with_gpu p g) (<[(l, pos, v) := bs]> V).
Proof.
  intros Hi Hf HV Hl Hpos Hb. apply (fits_known p l Hf) in Hl. destruct (fit_pool p Hf) as [gpu Hg].
  rewrite <- (fits_half p Hf) in Hb.
  destruct (store_slot p gpu Hg l pos v bs Hl Hpos Hb) as (g & E & Hg' & Hr). exists g. split; [done|].
  split; [by exists g, (KVCache.kv_scales_ p)|by apply fits_with_gpu|].
  intros l' pos' v' Hl' Hp'. unfold repr, read_entry in *. rewrite Hi in *. rewrite Hr by done.
  case_decide as D; [by rewrite D, lookup_insert_eq|]. rewrite lookup_insert_ne by done. by apply HV.
Qed.

(** An INT8 row and its scales. *)
Lemma store_int8 p V l pos v bs scales :
  i8 = true -> fits p -> repr i8 p V -> 0 <= l < n_layers config -> 0 <= pos < ctx p ->
  zlen bs = row_bytes config i8 -> length scales = NKV config ->
  exists p1 p2, store_at p (KVCache.slot_ptr p l pos v) bs = Some p1 /\
    store_scales p1 (KVCache.kv_scale_ptr p l pos v) scales = Some p2 /\
    becomes p p2 (<[(l, pos, v) := bs ++ concat (f32_bits <$> scales)]> V) /\
    KVCache.kv_scale_ptr p2 = KVCache.kv_scale_ptr p.
Proof.
  intros Hi Hf HV Hl Hpos Hb Hsc. pose proof (fits_known p l Hf Hl) as Hl'. destruct (fit_pool p Hf) as [gpu Hg].
  rewrite <- (fits_half p Hf) in Hb.
  destruct (store_slot p gpu Hg l pos v bs Hl' Hpos Hb) as (g & E & Hg' & Hr).
  pose proof (fits_with_gpu p g Hf Hg') as Hf1. destruct (fit_table _ Hf1 Hi) as [t Ht].
  destruct (store_scale_row (with_gpu p g) g Hg' t Ht l pos v scales Hl' Hpos) as (sc & E' & Ht' & Hr').
  { unfold zlen. rewrite f32_bits_length, Hsc. unfold NKV. cbn. rewrite <- (fit_heads p Hf).
    pose proof (KVCache.ok_heads _ (KVCache.pool_cfg _ _ Hg)). lia. }
  exists (with_gpu p g), (with_scales (with_gpu p g) sc). split; [done|]. split; [exact E'|]. split; [split|].
  - exists g, (Some sc). split; [done|]. by rewrite Hi.
  - by apply fits_with_scales.
  - intros l' pos' v' Hl2 Hp2. unfold repr, read_entry in *. rewrite Hi in *.
    change (KVCache.read_slot (with_scales (with_gpu p g) sc)) with (KVCache.read_slot (with_gpu p g)).
    rewrite Hr, Hr' by done. change (read_scales (with_gpu p g)) with (read_scales p).
    case_decide as D; [by rewrite D, lookup_insert_eq|]. rewrite lookup_insert_ne by done. by apply HV.
  - destruct Ht as [_ Et _ _]. unfold KVCache.kv_scale_ptr. cbn in *. by rewrite Et.
Qed.

(** The store of a token replaces its two entries. *)
Lemma store_kv_int8 p V l pos k v q qk' :
  i8 = true -> fits p -> repr i8 p V -> 0 <= l < n_layers config -> 0 <= pos < ctx p ->
  length qk'.2 = KV_DIM config -> length v = KV_DIM config -> rope_inplace (rope config pos) q k = Some qk' ->
  exists p', store_kv config i8 l pos q k v p = Some (qk', p') /\
    becomes p p' (put_kv V l pos (entry qk'.2) (entry v)).
Proof.
  intros Hi Hf HV Hl Hpos Hk Hv E. unfold store_kv. rewrite E, Hi. cbn [negb andb mbind option_bind].
  destruct qk' as [q' k']. unfold entry. rewrite Hi. cbn [snd] in *.
  destruct (fp16_to_int8_length k' (NKV config) (HD config) Hk) as [Lkb Lks].
  destruct (fp16_to_int8_length v (NKV config) (HD config) Hv) as [Lvb Lvs].
  destruct (fp16_to_int8 k' _ _) as [kb ks], (fp16_to_int8 v _ _) as [vb vs]. cbn [fst snd] in *.
  assert (Hrow : row_bytes config i8 = Z.of_nat (NKV config * HD config))
    by (unfold row_bytes, KV_DIM; rewrite Hi; lia).
  change (KVCache.key_ptr p l pos) with (KVCache.slot_ptr p l pos false).
  change (KVCache.val_ptr p l pos) with (KVCache.slot_ptr p l pos true).
  destruct (store_int8 p V l pos false kb ks Hi Hf HV Hl Hpos) as (p1 & p2 & -> & E2 & B2 & S2);
    [unfold zlen; lia|done|]. cbn [mbind option_bind]. rewrite E2. cbn [mbind option_bind].
  pose proof (becomes_cfg _ _ _ B2) as C2. destruct B2 as [(g & sc & -> & I) F2 R2].
  change (KVCache.slot_ptr p l pos true) with (KVCache.slot_ptr (with_cache p g sc) l pos true).
  rewrite <- S2. destruct (store_int8 _ _ l pos true vb vs Hi F2 R2 Hl Hpos) as (p3 & p4 & -> & E4 & B4 & _);
    [unfold zlen; lia|done|]. cbn [mbind option_bind]. rewrite E4. cbn [mbind option_bind].
  exists p4. split; [done|]. eapply becomes_trans; [split; [|exact F2|exact R2]|exact B4]. by exists g, sc.
Qed.

Lemma store_kv_fp16 p V l pos q k v qk' :
  i8 = false -> fits p -> repr i8 p V -> 0 <= l < n_layers config -> 0 <= pos < ctx p ->
  length q = Q_DIM config -> length k = KV_DIM config -> length v = KV_DIM config ->
  rope_inplace (rope config pos) q k = Some qk' ->
  exists p', store_kv config i8 l pos q k v p = Some (qk', p') /\
    becomes p p' (put_kv V l pos (entry qk'.2) (entry v)).
Proof.
  intros Hi Hf HV Hl Hpos Hq Hk Hv E. destruct (fit_pool p Hf) as [gpu Hg].
  pose proof (fits_half p Hf) as Hh. pose proof (rope_dims p Hf) as Hd.
  assert (Hrow : row_bytes config i8 = Z.of_nat (KV_DIM config * 2)) by (unfold row_bytes; by rewrite Hi).
  assert (Hblk : forall b, exists bs, block_at p (KVCache.slot_ptr p l pos b) (Z.of_nat (KV_DIM config * 2))
    = Some bs /\ length (halfs bs) = KV_DIM config).
  { intros b. destruct (read_slot_Some p gpu Hg l pos b) as (bs & Hr & Hlen); [by apply fits_known|done|].
    exists bs. unfold KVCache.read_slot, block_at in *. rewrite <- Hrow, <- Hh.
    destruct (slot_in_pool p gpu Hg l pos b) as (Es & _); [by apply fits_known|done|]. rewrite Es in *. split; [done|].
    apply halfs_length. unfold zlen in Hlen. lia. }
  unfold store_kv, KVCache.is_fast_position, entry. rewrite Hi. destruct (Z.ltb_spec pos (ctx p)); [|lia]. cbn [negb andb].
  change (KVCache.key_ptr p l pos) with (KVCache.slot_ptr p l pos false).
  change (KVCache.val_ptr p l pos) with (KVCache.slot_ptr p l pos true).
  destruct (Hblk false) as (kd & -> & Hkd), (Hblk true) as (vd & -> & Hvd). cbn [mbind option_bind].
  destruct (rope_store_spec (rope config pos) q k v (halfs kd) (halfs vd))
    as (q' & k' & E' & Hq' & Hk' & ->); [done|rewrite Hq; done|done..|].
  rewrite E' in E. apply Some_inj in E as <-. cbn [mbind option_bind snd].
  destruct (store_fp16 p V l pos false (half_bytes k') Hi Hf HV Hl Hpos) as (g1 & -> & B1);
    [rewrite half_bytes_length; unfold zlen; lia|]. cbn [mbind option_bind].
  change (KVCache.slot_ptr p l pos true) with (KVCache.slot_ptr (with_gpu p g1) l pos true).
  destruct (store_fp16 _ _ l pos true (half_bytes v) Hi (bc_fits _ _ _ B1) (bc_repr _ _ _ B1) Hl Hpos) as (g2 & -> & B2);
    [rewrite half_bytes_length; unfold zlen; lia|]. cbn [mbind option_bind].
  exists (with_gpu (with_gpu p g1) g2). split; [done|]. by eapply becomes_trans.
Qed.

Lemma store_kv_ok p V l pos q k v qk' :
  fits p -> repr i8 p V -> 0 <= l < n_layers config -> 0 <= pos < ctx p ->
  length q = Q_DIM config -> length k = KV_DIM config -> length v = KV_DIM config -> length qk'.2 = KV_DIM config ->
  rope_inplace (rope config pos) q k = Some qk' ->
  exists p', store_kv config i8 l pos q k v p = Some (qk', p') /\
    becomes p p' (put_kv V l pos (entry qk'.2) (entry v)).
Proof. intros. destruct (decide (i8 = true)) as [Hi|Hi%not_true_is_false]; [by eapply store_kv_int8|by eapply store_kv_fp16]. Qed.

Lemma vec_add_length a b n : length a = n -> length b = n -> length (vec_add a b n) = n.
Proof. intros. unfold vec_add. rewrite length_take, length_zip_with. lia. Qed.

Lemma back_length lw x attn : length x = H_ config -> length (back lw x attn) = H_ config.
Proof. intros. by apply vec_add_length, gemv_length; apply vec_add_length, gemv_length. Qed.

(** *** What the attention of a token reads *)

(** Every entry is a row and, in INT8, its scales. *)
Lemma entry_parts p V l pos v :
  fits p -> repr i8 p V -> 0 <= l < n_layers config -> 0 <= pos < ctx p ->
  let e := default [] (V !! (l, pos, v)) in
  KVCache.read_slot p l pos v = Some (row_part e) /\ (i8 = true -> read_scales p l pos v = Some (scale_part e)).
Proof.
  intros Hf HV Hl Hpos e. apply (fits_known p l Hf) in Hl. destruct (fit_pool p Hf) as [gpu Hg].
  destruct (read_slot_Some p gpu Hg l pos v Hl Hpos) as (r & Er & Lr). pose proof (HV l pos v Hl Hpos) as A.
  rewrite (fits_half p Hf) in Lr. unfold row_bytes, zlen in Lr.
  unfold e, row_part, scale_part. rewrite <- A. unfold read_entry. destruct i8 eqn:Hi; [|by rewrite Er].
  destruct (fit_table p Hf Hi) as [t Ht]. destruct (read_scales_Some p gpu Hg t Ht l pos v Hl Hpos) as (x & Ex & _).
  rewrite Er, Ex. cbn [mbind option_bind default from_option]. unfold id. rewrite take_app_length', drop_app_length' by lia. done.
Qed.

Lemma attention_rows p V l n v :
  fits p -> repr i8 p V -> 0 <= l < n_layers config -> (0 < n)%nat -> Z.of_nat n <= ctx p ->
  block_at p (KVCache.slot_ptr p l 0 v) (Z.of_nat n * row_bytes config i8) = Some (hist row_part V l v n) /\
  length (hist row_part V l v n) = (n * (NKV config * HD config * (if i8 then 1 else 2)))%nat.
Proof.
  intros Hf HV Hl Hn Hc. pose proof (fits_known p l Hf Hl) as Hl'. destruct (fit_pool p Hf) as [gpu Hg].
  rewrite <- (fits_half p Hf). destruct (slot_in_pool p gpu Hg l 0 v Hl' ltac:(lia)) as [-> _].
  cbn [block_at]. rewrite (KVCache.pool_gpu _ _ Hg). cbn [mbind option_bind].
  destruct (slots_joined (KVCache.half (KVCache.cfg_ p)) (ctx p) (KVCache.n_layers (KVCache.cfg_ p)) gpu l v (fun i => row_part (default [] (V !! (l, Z.of_nat i, v)))) n) as [E1 E2]; [done|done| |].
  - intros i Hi. rewrite <- (read_slot_at p gpu Hg) by (done || lia). apply entry_parts; done || lia.
  - split; [exact E1|]. unfold hist. rewrite (fits_half p Hf) in E2. unfold row_bytes, KV_DIM, zlen in E2. destruct i8; lia.
Qed.

Lemma attention_scales p V l n v :
  fits p -> repr i8 p V -> 0 <= l < n_layers config -> (0 < n)%nat -> Z.of_nat n <= ctx p ->
  scale_block config i8 p l v (Z.of_nat n) = scale_hist V l v n /\
  (i8 = true -> length (hist scale_part V l v n) = (n * (4 * NKV config))%nat).
Proof.
  intros Hf HV Hl Hn Hc. unfold scale_block, scale_hist. destruct i8 eqn:Hi; [|done].
  pose proof (fits_known p l Hf Hl) as Hl'. destruct (fit_pool p Hf) as [gpu Hg]. destruct (fit_table p Hf Hi) as [t Ht].
  destruct (scale_in_table p gpu Hg t Ht l 0 v Hl' ltac:(lia)) as (i & -> & Ei).
  cbn [block_at]. rewrite (KVCache.tb_table _ _ Ht). cbn [mbind option_bind]. rewrite Ei.
  pose proof (nkv_pos p gpu Hg) as Hnk. rewrite (fit_heads p Hf) in *.
  replace (Z.of_nat n * n_kv_heads config * 4) with (Z.of_nat n * (4 * n_kv_heads config)) by lia.
  destruct (slots_joined (4 * n_kv_heads config) (ctx p) (KVCache.n_layers (KVCache.cfg_ p)) t l v (fun i => scale_part (default [] (V !! (l, Z.of_nat i, v)))) n) as [E1 E2]; [done|done| |].
  - intros j Hj. pose proof (read_scales_at p gpu Hg t Ht l (Z.of_nat j) v Hl' ltac:(lia)) as A.
    rewrite (fit_heads p Hf) in A. rewrite <- A. rewrite <- Hi in HV. apply entry_parts; done || lia.
  - split; [exact E1|]. intros _. unfold hist, NKV. unfold zlen in E2. lia.
Qed.

Lemma transformer_layer_ok p V lw l pos x :
  fits p -> repr i8 p V -> 0 <= l < n_layers config -> 0 <= pos < ctx p ->
  layers mw !! Z.to_nat l = Some lw -> length x = H_ config ->
  exists p', transformer_layer config mw i8 norm_weight l pos x p = Some (layer_out lw l pos x V, p') /\
    becomes p p' (layer_state lw l pos x V).
Proof.
  intros Hf HV Hl Hpos Hlw Hx.
  destruct (front_lengths p lw pos x Hf) as (E & Ev & (Hq & Hk & Hv) & _ & Hk').
  destruct (store_kv_ok p V l pos _ _ _ _ Hf HV Hl Hpos Hq Hk Hv Hk' E) as (p' & Es & HB).
  exists p'. rewrite <- Ev in HB. split; [|done]. pose proof HB as [_ Hf' HV']. pose proof (becomes_cfg _ _ _ HB) as Hc.
  unfold transformer_layer. rewrite Hlw. cbn [mbind option_bind]. rewrite gemv_triple_eq.
  unfold transformer_layer_attn_block, transformer_layer_attn_compute.
  destruct (project lw x) as [[q k] v] eqn:Ep. cbn [fst snd] in *. unfold project in Ep.
  cbn zeta in Ep. injection Ep as Eqk Evv. rewrite Eqk, Evv, Es.
  cbn [mbind option_bind]. destruct (front lw pos x) as [[q' k'] v'] eqn:Ef. cbn [fst snd] in *.
  change (KVCache.key_ptr p' l 0) with (KVCache.slot_ptr p' l 0 false).
  change (KVCache.val_ptr p' l 0) with (KVCache.slot_ptr p' l 0 true).
  replace (pos + 1) with (Z.of_nat (Z.to_nat (pos + 1))) by lia.
  rewrite !(fun v => proj1 (attention_rows _ _ l (Z.to_nat (pos + 1)) v Hf' HV' Hl ltac:(lia) ltac:(rewrite Hc; lia))).
  rewrite !(fun v => proj1 (attention_scales _ _ l (Z.to_nat (pos + 1)) v Hf' HV' Hl ltac:(lia) ltac:(rewrite Hc; lia))).
  cbn [mbind option_bind]. rewrite gemv_add_eq by done. rewrite gemv_pair_eq.
  unfold transformer_layer_ffn_block. rewrite gemv_add_eq
    by (apply vec_add_length; [done|apply gemv_length]).
  rewrite Nat2Z.id. unfold layer_out, layer_state, put_token, attend, back, ffn, ffn_front, attn_residual.
  rewrite Ef. done.
Qed.

(** ** Refinement of a batch in one layer *)

Abbreviation sized n xs := (Forall (fun x : list Z => length x = n) xs).

Lemma concat_length n (xs : list (list Z)) : sized n xs -> length (concat xs) = (length xs * n)%nat.
Proof. induction 1 as [|x xs Hx _ IH]; [done|]. simpl. rewrite length_app, Hx, IH. lia. Qed.

Lemma set_row_concat cols r row x (xs ys : list (list Z)) :
  r = length xs -> sized cols xs -> length x = cols ->
  set_row cols r row (concat (xs ++ x :: ys)) = concat (xs ++ row :: ys).
Proof.
  intros -> Hxs Hx. pose proof (concat_length _ _ Hxs) as Hl. unfold set_row.
  rewrite !concat_app. simpl. rewrite take_app_length' by lia. do 2 f_equal.
  rewrite drop_app_ge by lia. rewrite drop_app_ge by lia.
  replace (length xs * cols + cols - length (concat xs) - length x)%nat with 0%nat by lia.
  by rewrite drop_0.
Qed.

Lemma row_of_middle cols r x (xs ys : list (list Z)) :
  r = length xs -> sized cols (xs ++ x :: ys) -> row_of cols r (concat (xs ++ x :: ys)) = x.
Proof.
  intros -> Hs. eapply row_of_concat; [done|]. rewrite lookup_app_r, Nat.sub_diag by lia. done.
Qed.

Lemma sized_fmap {A} n (f : A -> list Z) xs : (forall x, length (f x) = n) -> sized n (f <$> xs).
Proof. intros Hf. induction xs; constructor; auto. Qed.

(** The stores of a batch. *)
Fixpoint puts (lw : LayerWeights) (l start : Z) (xs : list (list Z)) (V : kvmap) : kvmap :=
  match xs with
  | [] => V
  | x :: xs => puts lw l (start + 1) xs (put_token lw l start x V)
  end.

Lemma store_loop_ok lw l start p V (qd kd vd xs : list (list Z)) :
  fits p -> repr i8 p V -> 0 <= l < n_layers config -> 0 <= start ->
  start + zlen qd + zlen xs <= ctx p ->
  sized (Q_DIM config) qd -> sized (KV_DIM config) kd -> sized (KV_DIM config) vd ->
  length kd = length qd -> length vd = length qd ->
  exists p', store_loop config i8 l start (seq (length qd) (length xs))
      (concat (qd ++ ((fun x => (project lw x).1.1) <$> xs)))
      (concat (kd ++ ((fun x => (project lw x).1.2) <$> xs)))
      (concat (vd ++ ((fun x => (project lw x).2) <$> xs))) p =
    Some (concat (qd ++ imap (fun i x => (front lw (start + zlen qd + Z.of_nat i) x).1.1) xs), p') /\
    becomes p p' (puts lw l (start + zlen qd) xs V).
Proof.
  revert p V qd kd vd. induction xs as [|x xs IH]; intros p V qd kd vd Hf HV Hl Hs Hc Hq Hk Hv Ek Ev.
  { exists p. split; [cbn; by rewrite ?app_nil_r|]. by apply becomes_refl. }
  destruct (front_lengths p lw (start + zlen qd) x Hf) as (E & Ef & (Lq & Lk & Lv) & Lf & Lk').
  assert (Lp : forall y, length (project lw y).1.1 = Q_DIM config /\
    length (project lw y).1.2 = KV_DIM config /\ length (project lw y).2 = KV_DIM config)
    by (intros y; by destruct (front_lengths p lw 0 y Hf) as (_ & _ & ? & _)).
  rewrite zlen_cons in Hc. pose proof (zlen_nonneg xs). pose proof (zlen_nonneg qd).
  cbn [length seq store_loop fmap list_fmap].
  rewrite (row_of_middle (Q_DIM config)), !(row_of_middle (KV_DIM config))
    by (done || (apply Forall_app; split; [done|constructor; [done|apply sized_fmap; apply Lp]])).
  change (Z.of_nat (length qd)) with (zlen qd).
  destruct (store_kv_ok p V l (start + zlen qd) _ _ _ _ Hf HV Hl ltac:(lia) Lq Lk Lv Lk' E)
    as (p1 & -> & B1).
  cbn [mbind option_bind]. rewrite <- Ef in B1. pose proof (becomes_cfg _ _ _ B1) as C1.
  destruct (front lw (start + zlen qd) x) as [[q' k'] v'] eqn:Efr. cbn [fst snd] in *.
  rewrite !set_row_concat by done.
  destruct (IH _ _ (qd ++ [q']) (kd ++ [k']) (vd ++ [(project lw x).2]) (bc_fits _ _ _ B1) (bc_repr _ _ _ B1) Hl Hs)
    as (p2 & E3 & B2).
  { rewrite C1, zlen_app, zlen_cons, zlen_nil. lia. }
  1-3: apply Forall_app; split; [done|]; constructor; done.
  1-2: rewrite !length_app; cbn; lia.
  exists p2. rewrite length_app, Nat.add_1_r, <- !app_assoc in E3. cbn [app] in E3.
  rewrite E3, zlen_app, zlen_cons, zlen_nil in *. split; [|eapply becomes_trans; [exact B1|]].
  - do 3 f_equal. cbn [imap].
    replace (start + zlen qd + Z.of_nat 0) with (start + zlen qd) by lia. rewrite Efr. cbn [fst].
    do 2 f_equal. apply imap_ext. intros i y _. unfold compose.
    by replace (start + (zlen qd + (1 + 0)) + Z.of_nat i) with (start + zlen qd + Z.of_nat (S i)) by lia.
  - cbn [puts]. unfold put_token at 1. rewrite Efr. cbn [fst snd].
    replace (start + zlen qd + 1) with (start + (zlen qd + (1 + 0))) by lia. exact B2.
Qed.

Lemma rms_norm_batch lw w xs :
  sized (H_ config) xs ->
  rms_norm config norm_weight lw w (length xs) (concat xs) =
  concat (rms_norm config norm_weight lw w 1 <$> xs).
Proof.
  intros Hs. unfold rms_norm.
  replace (length xs) with (length xs * 1)%nat by lia. apply fused_rmsnorm_batch.
  eapply Forall_impl; [exact Hs|]. intros x Hx. by rewrite Nat.mul_1_l.
Qed.

Lemma rms_norm_sized lw w xs :
  sized (H_ config) (rms_norm config norm_weight lw w 1 <$> xs).
Proof. apply sized_fmap. intros x. unfold rms_norm. by rewrite fused_rmsnorm_length, Nat.mul_1_l. Qed.

(** A batched product is the product of every row. *)
Lemma gemm_fmap {A} W t M K (f : A -> list Z) xs n :
  n = length xs -> (forall x, length (f x) = K) ->
  gemm_quant_batched W t (concat (f <$> xs)) M n K = concat ((fun x => gemv_quant W t (f x) M K) <$> xs).
Proof.
  intros -> Hf. rewrite <- (length_fmap f xs), gemm_rows by by apply sized_fmap.
  by rewrite <- list_fmap_compose.
Qed.

Lemma project_batch lw xs :
  sized (H_ config) xs ->
  let n := length xs in
  let normed := rms_norm config norm_weight lw (rms_attn lw) n (concat xs) in
  qk_norm config norm_weight lw n
    (gemm_quant_batched (wq lw) (type_wq lw) normed (Q_DIM config) n (H_ config))
    (gemm_quant_batched (wk lw) (type_wk lw) normed (KV_DIM config) n (H_ config)) =
  (concat ((fun x => (project lw x).1.1) <$> xs), concat ((fun x => (project lw x).1.2) <$> xs)) /\
  gemm_quant_batched (wv lw) (type_wv lw) normed (KV_DIM config) n (H_ config) =
  concat ((fun x => (project lw x).2) <$> xs).
Proof.
  intros Hs n normed. unfold normed, n. rewrite rms_norm_batch by done.
  assert (Hf : forall x, length (rms_norm config norm_weight lw (rms_attn lw) 1 x) = H_ config)
    by (intros x; unfold rms_norm; by rewrite fused_rmsnorm_length, Nat.mul_1_l).
  rewrite !gemm_fmap by done. split; [|done]. unfold project, qk_norm.
  destruct (q_norm lw), (k_norm lw); cbn [fst snd]; try done.
  set (fq := fun x => gemv_quant (wq lw) _ _ _ _). set (fk := fun x => gemv_quant (wk lw) _ _ _ _).
  rewrite <- (length_fmap fq xs) at 1. rewrite <- (length_fmap fk xs) at 1.
  rewrite !fused_rmsnorm_batch by (apply sized_fmap; intros; unfold fq, fk; apply gemv_length).
  rewrite <- !list_fmap_compose, !Nat.mul_1_l. done.
Qed.

Lemma vec_add_concat n (xs ys : list (list Z)) m :
  sized n xs -> sized n ys -> length xs = length ys -> m = length xs ->
  vec_add (concat xs) (concat ys) (m * n) = concat (zip_with (fun x y => vec_add x y n) xs ys).
Proof.
  intros Hx Hy Hl ->. unfold vec_add. rewrite zip_with_concat.
  - rewrite take_ge.
    + f_equal. clear Hl. revert ys Hy. induction Hx as [|x xs Hx _ IH]; intros [|y ys] Hy; try done.
      apply Forall_cons in Hy as [Hy Hys]. simpl. rewrite take_ge by (rewrite length_zip_with; lia).
      by rewrite <- IH.
    + rewrite concat_length with (n := n); [by rewrite length_zip_with; nia|].
      clear Hl. revert ys Hy. induction Hx as [|x xs Hx _ IH]; intros [|y ys] Hy; try constructor.
      * apply Forall_cons in Hy as [Hy Hys]. rewrite length_zip_with. lia.
      * apply Forall_cons in Hy as [Hy Hys]. by apply IH.
  - apply Forall2_same_length_lookup. split; [done|]. intros i x y Hi Hj.
    rewrite (Forall_lookup_1 _ _ _ _ Hx Hi), (Forall_lookup_1 _ _ _ _ Hy Hj). done.
Qed.

Lemma swiglu_concat {A} n (f g : A -> list Z) xs m :
  (forall x, length (f x) = n) -> (forall x, length (g x) = n) -> m = length xs ->
  fused_swiglu (concat (f <$> xs)) (concat (g <$> xs)) m n =
  concat ((fun x => fused_swiglu (f x) (g x) 1 n) <$> xs).
Proof.
  intros Hf Hg ->. unfold fused_swiglu. rewrite zip_with_concat.
  - induction xs as [|x xs IH]; [done|].
    cbn [fmap list_fmap zip_with concat length]. rewrite <- IH.
    assert (Hl : length (zip_with swiglu_elem (f x) (g x)) = n)
      by (rewrite length_zip_with, Hf, Hg; lia).
    rewrite take_app_ge by lia. rewrite (take_ge (zip_with _ (f x) (g x))) by lia.
    rewrite Hl. do 2 f_equal. lia.
  - induction xs; constructor; [by rewrite Hf, Hg|done].
Qed.

Lemma ffn_batch lw ys n :
  sized (H_ config) ys -> n = length ys ->
  vec_add (concat ys)
    (gemm_quant_batched (w_down lw) (type_w_down lw)
      (fused_swiglu
        (gemm_quant_batched (w_gate lw) (type_w_gate lw)
          (rms_norm config norm_weight lw (rms_ffn lw) n (concat ys)) (I_ config) n (H_ config))
        (gemm_quant_batched (w_up lw) (type_w_up lw)
          (rms_norm config norm_weight lw (rms_ffn lw) n (concat ys)) (I_ config) n (H_ config))
        n (I_ config)) (H_ config) n (I_ config)) (n * H_ config) =
  concat (ffn lw <$> ys).
Proof.
  intros Hs ->. rewrite rms_norm_batch by done.
  assert (Hf : forall x, length (rms_norm config norm_weight lw (rms_ffn lw) 1 x) = H_ config)
    by (intros x; unfold rms_norm; by rewrite fused_rmsnorm_length, Nat.mul_1_l).
  rewrite !gemm_fmap by done. rewrite swiglu_concat by (done || (intros; apply gemv_length)).
  assert (Hsw : forall a b, length a = I_ config -> length b = I_ config ->
    length (fused_swiglu a b 1 (I_ config)) = I_ config).
  { intros a b Ha Hb. unfold fused_swiglu. rewrite length_take, length_zip_with. lia. }
  rewrite gemm_fmap by (done || (intros; apply Hsw; apply gemv_length)).
  rewrite vec_add_concat; [|done|apply sized_fmap; intros; apply gemv_length|by rewrite length_fmap|done].
  f_equal. by rewrite zip_with_fmap_r, zip_with_diag.
Qed.

Lemma residual_batch lw xs ats n :
  sized (H_ config) xs -> sized (Q_DIM config) ats -> length ats = length xs -> n = length xs ->
  vec_add (concat xs) (gemm_quant_batched (wo lw) (type_wo lw) (concat ats) (H_ config) n (Q_DIM config))
    (n * H_ config) = concat (zip_with (attn_residual lw) xs ats).
Proof.
  intros Hx Ha Hl ->. rewrite <- Hl at 1. rewrite gemm_rows by done.
  rewrite vec_add_concat;
    [|done|apply sized_fmap; intros; apply gemv_length|by rewrite length_fmap|done].
  f_equal. by rewrite zip_with_fmap_r.
Qed.

Lemma hist_prefix f V l v m n : (m <= n)%nat -> exists rest, hist f V l v n = hist f V l v m ++ rest.
Proof.
  intros Hmn. unfold hist. exists (concat ((fun i => f (default [] (V !! (l, Z.of_nat i, v)))) <$> seq m (n - m))).
  rewrite <- concat_app, <- fmap_app. do 2 f_equal.
  replace n with (m + (n - m))%nat at 1 by lia. by rewrite seq_app.
Qed.

Lemma attend_batch lw l start p V xs :
  fits p -> repr i8 p V -> 0 <= l < n_layers config -> 0 <= start -> start + zlen xs <= ctx p ->
  let N := (Z.to_nat start + length xs)%nat in
  flash_attention_prefill_batched (NH config) (NKV config) (HD config) (length xs) (Z.to_nat start)
    (scale config) i8 (concat (imap (fun i x => (front lw (start + Z.of_nat i) x).1.1) xs))
    (hist row_part V l false N) (hist row_part V l true N) (scale_hist V l false N) (scale_hist V l true N) =
  concat (imap (fun i x => attend l (start + Z.of_nat i) (front lw (start + Z.of_nat i) x).1.1 V) xs).
Proof.
  intros Hf HV Hl Hs Hc N. set (qs := imap _ xs).
  assert (Hqs : sized (Q_DIM config) qs).
  { apply Forall_lookup_2. intros i q (x & Hx & ->)%list_lookup_imap_Some.
    by destruct (front_lengths p lw (start + Z.of_nat i) x Hf) as (_ & _ & _ & ? & _). }
  replace (length xs) with (length qs) by (unfold qs; by rewrite length_imap).
  rewrite prefill_queries by done. f_equal. apply list_eq. intros i.
  rewrite !list_lookup_imap. unfold qs. rewrite list_lookup_imap.
  destruct (xs !! i) as [x|] eqn:Hx; [|done]. cbn [fmap option_fmap option_map]. f_equal.
  apply lookup_lt_Some in Hx. unfold attend.
  replace (Z.to_nat (start + Z.of_nat i + 1)) with (Z.to_nat start + i + 1)%nat by lia.
  set (n := (Z.to_nat start + i + 1)%nat). assert (Hn : (0 < n <= N)%nat) by lia. unfold zlen in Hc.
  assert (Htake : forall v, take (n * (NKV config * HD config * (if i8 then 1 else 2))) (hist row_part V l v N) =
    hist row_part V l v n).
  { intros v. destruct (hist_prefix row_part V l v n N) as [rest ->]; [lia|].
    destruct (attention_rows p V l n v Hf HV Hl) as [_ Hlen]; [lia|lia|]. by rewrite take_app_length' by lia. }
  assert (Hscales : forall v, take (n * (4 * NKV config)) <$> scale_hist V l v N = scale_hist V l v n).
  { intros v. unfold scale_hist. destruct i8 eqn:Hi; [|done]. cbn [fmap option_fmap option_map]. f_equal.
    destruct (hist_prefix scale_part V l v n N) as [rest ->]; [lia|]. rewrite <- Hi in HV.
    destruct (attention_scales p V l n v Hf HV Hl) as [_ Hlen]; [lia|lia|]. by rewrite take_app_length' by (by rewrite Hlen). }
  by rewrite !Htake, !Hscales.
Qed.

(** A batch in one layer: all stores, then every token against the rows up to
    its own. *)
Definition batch_out (lw : LayerWeights) (l start : Z) (xs : list (list Z)) (V : kvmap)
  : list (list Z) :=
  zip_with (back lw) xs
    (imap (fun i x => attend l (start + Z.of_nat i) (front lw (start + Z.of_nat i) x).1.1 V) xs).

Lemma transformer_prefill_ok p V lw l start xs :
  fits p -> repr i8 p V -> 0 <= l < n_layers config -> 0 <= start -> start + zlen xs <= ctx p ->
  (0 < length xs)%nat -> layers mw !! Z.to_nat l = Some lw -> sized (H_ config) xs ->
  exists p', transformer_prefill config mw i8 norm_weight l start (length xs) (concat xs) p =
      Some (concat (batch_out lw l start xs (puts lw l start xs V)), p') /\
    becomes p p' (puts lw l start xs V).
Proof.
  intros Hf HV Hl Hs Hc Hn Hlw Hxs.
  destruct (store_loop_ok lw l start p V [] [] [] xs Hf HV Hl Hs) as (p' & Es & HB);
    [rewrite zlen_nil; lia|constructor|constructor|constructor|done|done|].
  rewrite zlen_nil, Z.add_0_r in Es, HB. exists p'. split; [|done].
  pose proof HB as [_ Hf' HV']. pose proof (becomes_cfg _ _ _ HB) as Hcf.
  unfold transformer_prefill. rewrite Hlw. cbn [mbind option_bind].
  destruct (project_batch lw xs Hxs) as [Eqk Ev]. rewrite Eqk, Ev.
  cbn [app length] in Es. rewrite Es. cbn [mbind option_bind].
  change (KVCache.key_ptr p' l 0) with (KVCache.slot_ptr p' l 0 false).
  change (KVCache.val_ptr p' l 0) with (KVCache.slot_ptr p' l 0 true).
  set (V' := puts lw l start xs V) in *. set (N := (Z.to_nat start + length xs)%nat).
  replace (start + Z.of_nat (length xs)) with (Z.of_nat N) by lia.
  assert (HN : Z.of_nat N <= ctx p') by (rewrite Hcf; unfold zlen in Hc; lia).
  rewrite !(fun v => proj1 (attention_rows _ _ l N v Hf' HV' Hl ltac:(lia) HN)).
  rewrite !(fun v => proj1 (attention_scales _ _ l N v Hf' HV' Hl ltac:(lia) HN)).
  cbn [mbind option_bind]. unfold N.
  rewrite (attend_batch lw l start _ V' xs Hf' HV') by (done || by rewrite Hcf).
  set (ats := imap (fun i x => attend _ _ _ _) xs).
  assert (Hats : sized (Q_DIM config) ats).
  { apply Forall_lookup_2. intros i q (x & Hx & ->)%list_lookup_imap_Some. apply decode_length. }
  assert (Hla : length ats = length xs) by (unfold ats; by rewrite length_imap).
  rewrite residual_batch by done.
  rewrite ffn_batch.
  - unfold batch_out. do 3 f_equal. fold ats. clear -xs. generalize ats. clear ats.
    induction xs as [|x xs IH]; intros [|a ats]; try done. cbn. f_equal. apply IH.
  - apply Forall_lookup_2. intros i y Hy. apply lookup_zip_with_Some in Hy as (x & a & -> & Hx & _).
    apply vec_add_length, gemv_length. by apply (Forall_lookup_1 _ _ _ _ Hxs Hx).
  - rewrite length_zip_with. lia.
Qed.

(** ** Batched and per-token order agree *)

(** The tokens of a batch one after the other, in one layer. *)
Fixpoint seq_layer (lw : LayerWeights) (l start : Z) (xs : list (list Z)) (V : kvmap)
  : list (list Z) * kvmap :=
  match xs with
  | [] => ([], V)
  | x :: xs =>
      let '(ys, V') := seq_layer lw l (start + 1) xs (layer_state lw l start x V) in
      (layer_out lw l start x V :: ys, V')
  end.

Lemma hist_puts lw l start xs V l' v n :
  l' <> l \/ Z.of_nat n <= start -> forall f, hist f (puts lw l start xs V) l' v n = hist f V l' v n.
Proof.
  intros Hn f. revert start V Hn. induction xs as [|x xs IH]; intros start V Hn; [done|]. cbn [puts].
  rewrite IH by (destruct Hn; [by left|right; lia]). by apply hist_put_other.
Qed.

(** Storing the whole batch before any attention changes nothing: a query sees
    the keys up to its own position only. *)
Lemma batch_is_seq lw l start xs V :
  0 <= start ->
  seq_layer lw l start xs V = (batch_out lw l start xs (puts lw l start xs V), puts lw l start xs V).
Proof.
  revert start V. induction xs as [|x xs IH]; intros start V Hs; [done|].
  cbn [seq_layer puts]. rewrite IH by lia. unfold layer_state. f_equal.
  unfold batch_out. cbn [imap zip_with]. rewrite Z.add_0_r. f_equal.
  - unfold layer_out, layer_state, attend, scale_hist. by rewrite !hist_puts by (right; lia).
  - f_equal. apply imap_ext. intros i y _. unfold compose.
    by replace (start + 1 + Z.of_nat i) with (start + Z.of_nat (S i)) by lia.
Qed.

(** All layers of one token, and all layers of a batch, on the specification;
    [ls] pairs a layer with its weights. *)
Fixpoint token_layers (ls : list (Z * LayerWeights)) (pos : Z) (x : list Z) (V : kvmap)
  : list Z * kvmap :=
  match ls with
  | [] => (x, V)
  | (l, lw) :: ls => token_layers ls pos (layer_out lw l pos x V) (layer_state lw l pos x V)
  end.

Fixpoint batch_layers (ls : list (Z * LayerWeights)) (start : Z) (xs : list (list Z)) (V : kvmap)
  : list (list Z) * kvmap :=
  match ls with
  | [] => (xs, V)
  | (l, lw) :: ls => let '(xs, V) := seq_layer lw l start xs V in batch_layers ls start xs V
  end.

Lemma hist_layer_state lw f l pos x V l' v n :
  l' <> l -> hist f (layer_state lw l pos x V) l' v n = hist f V l' v n.
Proof. intros. apply hist_put_other. by left. Qed.

(** Different layers do not see each other. *)
Lemma layer_swap lw l pos x lw' l' pos' x' V :
  l <> l' ->
  layer_out lw' l' pos' x' (layer_state lw l pos x V) = layer_out lw' l' pos' x' V /\
  layer_state lw' l' pos' x' (layer_state lw l pos x V) =
  layer_state lw l pos x (layer_state lw' l' pos' x' V).
Proof.
  intros Hl. assert (E : layer_state lw' l' pos' x' (layer_state lw l pos x V) =
    layer_state lw l pos x (layer_state lw' l' pos' x' V)) by (by apply put_kv_comm).
  split; [|done]. unfold layer_out, attend, scale_hist. rewrite E.
  by rewrite !(hist_layer_state lw _ l) by congruence.
Qed.

Lemma seq_layer_swap lw l start xs lw' l' pos' x' V :
  l <> l' ->
  layer_out lw' l' pos' x' (seq_layer lw l start xs V).2 = layer_out lw' l' pos' x' V /\
  seq_layer lw l start xs (layer_state lw' l' pos' x' V) =
    ((seq_layer lw l start xs V).1, layer_state lw' l' pos' x' (seq_layer lw l start xs V).2).
Proof.
  intros Hl. revert start V. induction xs as [|x xs IH]; intros start V; [done|]. cbn [seq_layer].
  destruct (layer_swap lw l start x lw' l' pos' x' V Hl) as [E1 E2].
  destruct (layer_swap lw' l' pos' x' lw l start x V ltac:(done)) as [E3 _].
  destruct (IH (start + 1) (layer_state lw l start x V)) as [E4 E5].
  rewrite <- E2, E5, E3. destruct (seq_layer lw l (start + 1) xs _) as [ys V']. cbn [fst snd] in *.
  split; [|done]. by rewrite E4, E1.
Qed.

Lemma token_layers_swap lw l start xs ls pos x V :
  l ∉ ls.*1 ->
  token_layers ls pos x (seq_layer lw l start xs V).2 =
    ((token_layers ls pos x V).1, (seq_layer lw l start xs (token_layers ls pos x V).2).2) /\
  (seq_layer lw l start xs (token_layers ls pos x V).2).1 = (seq_layer lw l start xs V).1.
Proof.
  revert x V. induction ls as [|[l' lw'] ls IH]; intros x V Hl; [done|]. cbn [token_layers].
  cbn in Hl. apply not_elem_of_cons in Hl as [Hne Hl].
  destruct (seq_layer_swap lw l start xs lw' l' pos x V Hne) as [E1 E2].
  destruct (IH (layer_out lw' l' pos x V) (layer_state lw' l' pos x V) Hl) as [E3 E4].
  rewrite E1. rewrite E2 in E3, E4. cbn [fst snd] in *. by rewrite E3, E4.
Qed.

(** The layer-major order is the token-major order. *)
Lemma batch_layers_cons ls start x xs V :
  NoDup ls.*1 ->
  batch_layers ls start (x :: xs) V =
  ((token_layers ls start x V).1 :: (batch_layers ls (start + 1) xs (token_layers ls start x V).2).1,
   (batch_layers ls (start + 1) xs (token_layers ls start x V).2).2).
Proof.
  revert x xs V. induction ls as [|[l lw] ls IH]; intros x xs V Hn; [done|].
  cbn in Hn. apply NoDup_cons in Hn as [Hl Hn].
  cbn [batch_layers token_layers seq_layer].
  destruct (token_layers_swap lw l (start + 1) xs ls start (layer_out lw l start x V)
    (layer_state lw l start x V) Hl) as [E1 E2].
  destruct (seq_layer lw l (start + 1) xs (layer_state lw l start x V)) as [ys V'] eqn:Es.
  rewrite IH by done. cbn [fst snd] in E1, E2. rewrite E1. cbn [fst snd].
  destruct (seq_layer lw l (start + 1) xs (token_layers _ _ _ _).2) as [ys' V''] eqn:Es'.
  cbn [fst snd] in *. by subst ys'.
Qed.

(** ** All layers of the model *)

(** The layers with their weights, in order. *)
Definition model_layers : list (Z * LayerWeights) := zip (upto (n_layers config)) (layers mw).

Definition known (ls : list (Z * LayerWeights)) : Prop :=
  Forall (fun q => 0 <= q.1 < n_layers config /\ layers mw !! Z.to_nat q.1 = Some q.2) ls.

Lemma model_layers_known p :
  fits p -> known model_layers /\ model_layers.*1 = upto (n_layers config) /\ NoDup model_layers.*1.
Proof.
  intros [_ _ _ _ _ Hw [gpu Hg] _].
  assert (Hl : length (upto (n_layers config)) = length (layers mw)).
  { unfold upto, zlen in *. rewrite length_fmap, length_seq. lia. }
  assert (E : model_layers.*1 = upto (n_layers config)) by (apply fst_zip; lia).
  split; [|split; [done|rewrite E; apply KVCache.NoDup_upto]].
  apply Forall_lookup_2. intros i [l lw] (l' & lw' & [= <- <-] & Hi & Hlw)%lookup_zip_with_Some.
  cbn [fst snd]. split; [apply elem_of_upto, list_elem_of_lookup; eauto|].
  unfold upto in Hi. apply list_lookup_fmap_Some in Hi as (j & -> & Hj%lookup_seq).
  destruct Hj as [-> _]. by rewrite Nat2Z.id.
Qed.

Lemma layers_at_ok ls pos p V x :
  fits p -> repr i8 p V -> 0 <= pos < ctx p -> known ls -> length x = H_ config ->
  exists p', layers_at config mw i8 norm_weight ls.*1 pos x p = Some ((token_layers ls pos x V).1, p') /\
    becomes p p' (token_layers ls pos x V).2 /\
    length (token_layers ls pos x V).1 = H_ config.
Proof.
  revert p V x. induction ls as [|[l lw] ls IH]; intros p V x Hf HV Hpos Hk Hx.
  - exists p. split_and?; try done. by apply becomes_refl.
  - apply Forall_cons in Hk as [[Hl Hlw] Hk]. cbn [fst snd] in *.
    destruct (transformer_layer_ok p V lw l pos x Hf HV Hl Hpos Hlw Hx) as (p1 & E & B1).
    destruct (IH _ _ (layer_out lw l pos x V) (bc_fits _ _ _ B1) (bc_repr _ _ _ B1)) as (p2 & E' & B2 & Hlen).
    { by rewrite (becomes_cfg _ _ _ B1). } { done. } { by apply back_length. }
    exists p2. cbn [fmap list_fmap layers_at fst]. rewrite E. cbn [mbind option_bind].
    cbn [token_layers]. split; [exact E'|]. split; [by eapply becomes_trans|exact Hlen].
Qed.

Lemma seq_layer_sized lw l start xs V :
  sized (H_ config) xs -> sized (H_ config) (seq_layer lw l start xs V).1.
Proof.
  intros Hs. revert start V. induction Hs as [|x xs Hx Hs IH]; intros start V; [constructor|].
  cbn [seq_layer]. specialize (IH (start + 1) (layer_state lw l start x V)).
  destruct (seq_layer _ _ _ _ _) as [ys V']. constructor; [by apply back_length|exact IH].
Qed.

Lemma seq_layer_length lw l start xs V : length (seq_layer lw l start xs V).1 = length xs.
Proof.
  revert start V. induction xs as [|x xs IH]; intros start V; [done|]. cbn [seq_layer].
  specialize (IH (start + 1) (layer_state lw l start x V)).
  destruct (seq_layer _ _ _ _ _) as [ys V']. cbn in *. by rewrite IH.
Qed.

Lemma prefill_layers_ok ls start p V xs :
  fits p -> repr i8 p V -> 0 <= start -> start + zlen xs <= ctx p -> known ls ->
  (0 < length xs)%nat -> sized (H_ config) xs ->
  exists p', prefill_layers config mw i8 norm_weight ls.*1 start (length xs) (concat xs) p =
      Some (concat (batch_layers ls start xs V).1, p') /\
    becomes p p' (batch_layers ls start xs V).2.
Proof.
  revert p V xs. induction ls as [|[l lw] ls IH]; intros p V xs Hf HV Hs Hc Hk Hn Hxs.
  - exists p. split_and?; try done. by apply becomes_refl.
  - apply Forall_cons in Hk as [[Hl Hlw] Hk]. cbn [fst snd] in *.
    destruct (transformer_prefill_ok p V lw l start xs Hf HV Hl Hs Hc Hn Hlw Hxs) as (p1 & E & B1).
    pose proof (batch_is_seq lw l start xs V Hs) as Eb.
    pose proof (seq_layer_sized lw l start xs V Hxs) as Hys.
    pose proof (seq_layer_length lw l start xs V) as Hly. rewrite Eb in Hys, Hly. cbn [fst] in Hys, Hly.
    set (ys := batch_out lw l start xs (puts lw l start xs V)) in *.
    destruct (IH _ _ ys (bc_fits _ _ _ B1) (bc_repr _ _ _ B1) Hs) as (p2 & E' & B2);
      [rewrite (becomes_cfg _ _ _ B1); unfold zlen; by rewrite Hly|done|lia|done|].
    exists p2. cbn [fmap list_fmap prefill_layers fst]. rewrite E. cbn [mbind option_bind].
    rewrite <- Hly, E'. cbn [batch_layers]. rewrite Eb. split; [done|by eapply becomes_trans].
Qed.

(** A cache of the shape of the model reads as its own map. *)
Lemma fits_view p : fits p -> repr i8 p (view i8 p).
Proof.
  intros Hf. apply view_repr. intros l pos v Hl Hq. destruct (fit_pool p Hf) as [g Hg].
  destruct (read_slot_Some p g Hg l pos v Hl Hq) as (r & Er & _). unfold read_entry. rewrite Er. destruct i8 eqn:Hi; [|by eexists].
  destruct (fit_table p Hf Hi) as [t Ht]. destruct (read_scales_Some p g Hg t Ht l pos v Hl Hq) as (x & -> & _). by eexists.
Qed.

(** ** Prefill *)

Context (dequant_embedding : Z -> list Z).

(** The tokens of a prefill one after the other, on the specification. *)
Fixpoint prefill_spec (start : Z) (toks : list Z) (last : option (list Z)) (V : kvmap)
  : option (list Z) * kvmap :=
  match toks with
  | [] => (last, V)
  | tok :: toks =>
      let '(x, V) := token_layers model_layers start (dequant_embedding tok) V in
      prefill_spec (start + 1) toks (Some x) V
  end.

Lemma prefill_tokens_ok start toks last p V :
  fits p -> repr i8 p V -> 0 <= start -> start + zlen toks <= ctx p ->
  (forall t, length (dequant_embedding t) = H_ config) ->
  exists p', prefill_tokens config mw i8 norm_weight dequant_embedding start toks last p =
      Some ((prefill_spec start toks last V).1, p') /\
    becomes p p' (prefill_spec start toks last V).2.
Proof.
  intros Hf HV Hs Hc He. revert start last p V Hf HV Hs Hc.
  induction toks as [|tok toks IH]; intros start last p V Hf HV Hs Hc.
  - exists p. split_and?; try done. by apply becomes_refl.
  - rewrite zlen_cons in Hc. pose proof (zlen_nonneg toks).
    destruct (model_layers_known p Hf) as (Hk & Em & _).
    destruct (layers_at_ok model_layers start p V (dequant_embedding tok) Hf HV ltac:(lia) Hk (He tok))
      as (p1 & E & B1 & _).
    cbn [prefill_tokens prefill_spec]. unfold forward_token. rewrite <- Em, E. cbn [mbind option_bind].
    destruct (token_layers model_layers start (dequant_embedding tok) V) as [x V']. cbn [fst snd] in *.
    destruct (IH (start + 1) (Some x) _ V' (bc_fits _ _ _ B1) (bc_repr _ _ _ B1)) as (p2 & E' & B2);
      [lia|rewrite (becomes_cfg _ _ _ B1); lia|].
    exists p2. rewrite E'. split; [done|by eapply becomes_trans].
Qed.

Lemma batch_layers_spec start toks V last :
  NoDup model_layers.*1 ->
  (prefill_spec start toks last V).2 =
    (batch_layers model_layers start (dequant_embedding <$> toks) V).2 /\
  (toks <> [] -> (prefill_spec start toks last V).1 =
    (batch_layers model_layers start (dequant_embedding <$> toks) V).1 !! (length toks - 1)%nat) /\
  length (batch_layers model_layers start (dequant_embedding <$> toks) V).1 = length toks.
Proof.
  intros Hn. revert start V last. induction toks as [|tok toks IH]; intros start V last.
  - cbn [fmap list_fmap prefill_spec]. assert (E : batch_layers model_layers start [] V = ([], V)).
    { clear. induction model_layers as [|[l lw] ls IH]; [done|]. cbn. exact IH. }
    by rewrite E.
  - cbn [fmap list_fmap prefill_spec]. rewrite batch_layers_cons by done.
    destruct (token_layers model_layers start (dequant_embedding tok) V) as [x V'] eqn:Et.
    cbn [fst snd length]. destruct (IH (start + 1) V' (Some x)) as (E1 & E2 & E3).
    split_and!; [done| |by rewrite E3]. intros _. rewrite Nat.sub_succ, Nat.sub_0_r.
    destruct toks as [|tok' toks]; [done|]. rewrite E2 by done. cbn. by rewrite Nat.sub_0_r.
Qed.

Lemma batch_layers_sized ls start xs V :
  sized (H_ config) xs -> sized (H_ config) (batch_layers ls start xs V).1.
Proof.
  revert xs V. induction ls as [|[l lw] ls IH]; intros xs V Hs; [done|]. cbn [batch_layers].
  pose proof (seq_layer_sized lw l start xs V Hs) as H'.
  destruct (seq_layer lw l start xs V) as [ys V']. by apply IH.
Qed.

Lemma prefill_batched_ok start toks p V :
  fits p -> repr i8 p V -> 0 <= start -> start + zlen toks <= ctx p -> toks <> [] ->
  (forall t, length (dequant_embedding t) = H_ config) ->
  exists p', prefill_batched config mw i8 norm_weight dequant_embedding start toks p =
      Some ((prefill_spec start toks None V).1, p') /\
    becomes p p' (prefill_spec start toks None V).2 /\
    is_Some (prefill_spec start toks None V).1.
Proof.
  intros Hf HV Hs Hc Hne He. destruct (model_layers_known p Hf) as (Hk & Em & Hn).
  set (xs := dequant_embedding <$> toks).
  assert (Hxs : sized (H_ config) xs) by (by apply sized_fmap).
  assert (Hl : length xs = length toks) by apply length_fmap.
  destruct (prefill_layers_ok model_layers start p V xs Hf HV Hs) as (p' & E & HB);
    [unfold zlen; by rewrite Hl|done|rewrite Hl; destruct toks; [done|cbn; lia]|done|].
  destruct (batch_layers_spec start toks V None Hn) as (B1 & B2 & B3). specialize (B2 Hne).
  fold xs in B1, B2, B3. rewrite B1, B2. exists p'.
  set (ys := (batch_layers model_layers start xs V).1) in *.
  destruct (lookup_lt_is_Some_2 ys (length toks - 1)) as [x Hx]; [destruct toks; [done|cbn in *; lia]|].
  rewrite Hx. split_and!; [|done|by eexists].
  unfold prefill_batched. fold xs. rewrite <- Hl, <- Em, E. cbn [mbind option_bind].
  rewrite Hl. erewrite row_of_concat; [done| |done]. by apply batch_layers_sized.
Qed.


End Spec.

(** ** A concrete cache *)

#[local] Existing Instances demo_floats demo_reflex demo_reflex_laws.

(** The same cache in both formats: FP16, and INT8 with its table of scales. *)
Definition demo_pool : pool :=
  KVCache.mkPool (KVCache.mkConfig 2 1 2 6 0 2) (Some (replicate 96 Byte.x00)) None None 0 0.
Definition demo_pool8 : pool :=
  KVCache.mkPool (KVCache.mkConfig 2 1 2 6 0 1) (Some (replicate 48 Byte.x00)) None (Some (replicate 96 Byte.x00)) 0 0.

Lemma demo_fits : fits false demo_config demo_weights demo_pool.
Proof.
  constructor; try reflexivity; [|discriminate]. exists (replicate 96 Byte.x00).
  constructor; [constructor; ground|reflexivity|reflexivity].
Qed.

Lemma demo_fits8 : fits true demo_config demo_weights demo_pool8.
Proof.
  constructor; try reflexivity.
  - exists (replicate 48 Byte.x00). constructor; [constructor; ground|reflexivity|reflexivity].
  - intros _. exists (replicate 96 Byte.x00). constructor; reflexivity.
Qed.


(** ** A format the pool does not have *)

(** The cache format of a request is not checked against the pool.  On a pool
    loaded for INT8 (one byte per element) a request that asks for FP16 makes
    the store of the last position of the last layer leave the pool. *)
Theorem request_format_overruns :
  let int8_pool := KVCache.mkPool (KVCache.mkConfig 2 1 2 6 0 1) (Some (replicate 48 Byte.x00)) None None 0 0 in
  KVCache.pool_ok int8_pool (replicate 48 Byte.x00) /\
  store_kv (cuda := sim_cuda) demo_config false 1 5 [1; 2; 3; 4] [5; 6] [7; 8] int8_pool = None.
Proof.
  split; [constructor; [constructor; ground|reflexivity|reflexivity]|]. vm_compute. reflexivity.
Qed.

End Prefill.
