(* ===== verification/Bridge.v ===== *)
(** * Bridge: the calls of the external library ([src/kernels/gemv_q4.cu],
      [src/kernels/attention.cu])

    The functions of these files fill an argument record, resolve the device
    pointer of each weight, call [reflex::infer] and look at the status.  The
    library is not part of the repository: [Products] names its arithmetic,
    [Infer] its calls, [InferLaws] what a call that reports success has done
    according to [include/jllm_kernels.h].  Of a call that fails nothing is
    assumed.

    Activation buffers are kept apart by [ScratchPool]; here they are lists
    under their address. *)

From S2P Require Import Prelude CLib Cuda Budget KVCache KVFile ModelFile Weights Engine Kernels Quant Forward.

Module Bridge.
Import ModelFile Kernels Weights.

(** ** The library *)

Inductive Status :=
| Success
| Failed (code : Z).

Record GemvQuantArgs := mkGemv {
  gv_y : Z; gv_weights : Z; gv_weights_device : Z; gv_type : Z; gv_x : Z; gv_M : Z; gv_K : Z; gv_stream : Z }.
Record GemvQuantAddArgs := mkGemvAdd {
  ga_y : Z; ga_weights : Z; ga_weights_device : Z; ga_type : Z; ga_x : Z; ga_residual : Z; ga_M : Z; ga_K : Z;
  ga_stream : Z }.
Record GemvQuantPairArgs := mkGemvPair {
  gp_y0 : Z; gp_weights0 : Z; gp_weights0_device : Z; gp_type0 : Z; gp_M0 : Z;
  gp_y1 : Z; gp_weights1 : Z; gp_weights1_device : Z; gp_type1 : Z; gp_M1 : Z;
  gp_x : Z; gp_K : Z; gp_stream : Z }.
Record GemvQuantTripleArgs := mkGemvTriple {
  gt_y0 : Z; gt_weights0 : Z; gt_weights0_device : Z; gt_type0 : Z; gt_M0 : Z;
  gt_y1 : Z; gt_weights1 : Z; gt_weights1_device : Z; gt_type1 : Z; gt_M1 : Z;
  gt_y2 : Z; gt_weights2 : Z; gt_weights2_device : Z; gt_type2 : Z; gt_M2 : Z;
  gt_x : Z; gt_K : Z; gt_stream : Z }.
Record GemmQuantBatchedArgs := mkGemm {
  gm_y : Z; gm_weights : Z; gm_weights_device : Z; gm_type : Z; gm_x : Z; gm_M : Z; gm_N : Z; gm_K : Z; gm_stream : Z }.
Record GemvQuantF32Args := mkGemvF32 {
  gf_y : Z; gf_weights : Z; gf_weights_device : Z; gf_type : Z; gf_x : Z; gf_M : Z; gf_K : Z; gf_stream : Z }.
Record DequantEmbeddingRowArgs := mkRow {
  er_dst : Z; er_weights : Z; er_weights_device : Z; er_type : Z; er_token_id : Z; er_hidden_dim : Z; er_stream : Z }.

Section Bridge.
Context `{Floats}.

Record AttentionDecodeArgs := mkAttn {
  ad_output : Z; ad_q : Z; ad_k_cache : Z; ad_v_cache : Z; ad_n_heads : Z; ad_n_kv_heads : Z; ad_head_dim : Z;
  ad_seq_len : Z; ad_scale : float; ad_kv_int8 : bool; ad_k_scales : Z; ad_v_scales : Z; ad_stream : Z }.
Record AttentionPrefillBatchedArgs := mkPrefill {
  ap_output : Z; ap_q : Z; ap_k_cache : Z; ap_v_cache : Z; ap_n_heads : Z; ap_n_kv_heads : Z; ap_head_dim : Z;
  ap_N : Z; ap_start_pos : Z; ap_scale : float; ap_kv_int8 : bool; ap_k_scales : Z; ap_v_scales : Z; ap_stream : Z }.

(** A call of the library. *)
Inductive Call :=
| GemvQuant (a : GemvQuantArgs)
| GemvQuantAdd (a : GemvQuantAddArgs)
| GemvQuantPair (a : GemvQuantPairArgs)
| GemvQuantTriple (a : GemvQuantTripleArgs)
| GemmQuantBatched (a : GemmQuantBatchedArgs)
| GemvQuantF32 (a : GemvQuantF32Args)
| DequantEmbeddingRow (a : DequantEmbeddingRowArgs)
| AttentionDecode (a : AttentionDecodeArgs)
| AttentionPrefillBatched (a : AttentionPrefillBatchedArgs).

(** Buffers of [half] and [float] values by address; the bytes of the caches
    and of their scales from an address to the end of the block. *)
Record Mem := mkMem { halfs : gmap Z (list Z); floats : gmap Z (list float); caches : gmap Z bytes }.

(** The first [n] values at [p]. *)
Definition get {A} (m : gmap Z (list A)) (p n : Z) : option (list A) :=
  buf ← m !! p; if (0 <=? n) && (n <=? zlen buf) then Some (take (Z.to_nat n) buf) else None.
(** Overwrite them. *)
Definition put {A} (m : gmap Z (list A)) (p : Z) (vs : list A) : option (gmap Z (list A)) :=
  buf ← m !! p; if zlen vs <=? zlen buf then Some (<[p := vs ++ drop (length vs) buf]> m) else None.
Definition put_halfs (p : Z) (vs : list Z) (m : Mem) : option Mem :=
  h ← put (halfs m) p vs; Some (mkMem h (floats m) (caches m)).
Definition put_floats (p : Z) (vs : list float) (m : Mem) : option Mem :=
  f ← put (floats m) p vs; Some (mkMem (halfs m) f (caches m)).

(** The arithmetic, on the bytes of the weights. *)
Class Products := {
  product : bytes -> Z -> list Z -> nat -> nat -> list Z;
  product_add : bytes -> Z -> list Z -> list Z -> nat -> nat -> list Z;
  product_batched : bytes -> Z -> list Z -> nat -> nat -> nat -> list Z;
  product_f32 : bytes -> Z -> list Z -> nat -> nat -> list float;
  embedding_row : bytes -> Z -> Z -> Z -> list Z;
  attention : nat -> nat -> nat -> nat -> float -> bool -> list Z -> bytes -> bytes -> option bytes -> option bytes -> list Z;
  attention_batched : nat -> nat -> nat -> nat -> nat -> float -> bool -> list Z -> bytes -> bytes ->
    option bytes -> option bytes -> list Z }.

Context `{Products}.

(** The [n] bytes behind a pair of pointers: [D] is the device pointer of [W]. *)
Definition weight_bytes (w : World) (W D n : Z) : option bytes :=
  if (0 <? n) && negb (D =? 0) && (D =? resolve_weight_device_ptr w W) then weight_seen w W n else None.
Definition matrix (w : World) (W D type M K : Z) : option bytes := weight_bytes w W D (kquant_tensor_bytes type M K).

(** Keys or values of [n] positions; their scales, [nullptr] outside INT8. *)
Definition cache_rows (m : Mem) (p n nkv hd : Z) (kv_int8 : bool) : option bytes :=
  get (caches m) p (n * (nkv * hd * (if kv_int8 then 1 else 2))).
Definition cache_scales (m : Mem) (p n nkv : Z) (kv_int8 : bool) : option (option bytes) :=
  if kv_int8 then s ← get (caches m) p (n * nkv * 4); Some (Some s)
  else if p =? 0 then Some None else None.

(** What a call does, where it is legal. *)
Definition effect (c : Call) (w : World) (m : Mem) : option Mem :=
  match c with
  | GemvQuant (mkGemv y W D t x M K _) =>
      ws ← matrix w W D t M K; xs ← get (halfs m) x K;
      put_halfs y (product ws t xs (Z.to_nat M) (Z.to_nat K)) m
  | GemvQuantAdd (mkGemvAdd y W D t x r M K _) =>
      ws ← matrix w W D t M K; xs ← get (halfs m) x K; rs ← get (halfs m) r M;
      put_halfs y (product_add ws t xs rs (Z.to_nat M) (Z.to_nat K)) m
  | GemvQuantPair (mkGemvPair y0 W0 D0 t0 M0 y1 W1 D1 t1 M1 x K _) =>
      w0 ← matrix w W0 D0 t0 M0 K; w1 ← matrix w W1 D1 t1 M1 K; xs ← get (halfs m) x K;
      m ← put_halfs y0 (product w0 t0 xs (Z.to_nat M0) (Z.to_nat K)) m;
      put_halfs y1 (product w1 t1 xs (Z.to_nat M1) (Z.to_nat K)) m
  | GemvQuantTriple (mkGemvTriple y0 W0 D0 t0 M0 y1 W1 D1 t1 M1 y2 W2 D2 t2 M2 x K _) =>
      w0 ← matrix w W0 D0 t0 M0 K; w1 ← matrix w W1 D1 t1 M1 K; w2 ← matrix w W2 D2 t2 M2 K; xs ← get (halfs m) x K;
      m ← put_halfs y0 (product w0 t0 xs (Z.to_nat M0) (Z.to_nat K)) m;
      m ← put_halfs y1 (product w1 t1 xs (Z.to_nat M1) (Z.to_nat K)) m;
      put_halfs y2 (product w2 t2 xs (Z.to_nat M2) (Z.to_nat K)) m
  | GemmQuantBatched (mkGemm y W D t x M N K _) =>
      ws ← matrix w W D t M K; xs ← get (halfs m) x (N * K);
      put_halfs y (product_batched ws t xs (Z.to_nat M) (Z.to_nat N) (Z.to_nat K)) m
  | GemvQuantF32 (mkGemvF32 y W D t x M K _) =>
      ws ← matrix w W D t M K; xs ← get (halfs m) x K;
      put_floats y (product_f32 ws t xs (Z.to_nat M) (Z.to_nat K)) m
  | DequantEmbeddingRow (mkRow dst W D t token hidden _) =>
      ws ← matrix w W D t (token + 1) hidden; put_halfs dst (embedding_row ws t token hidden) m
  | AttentionDecode (mkAttn o q kc vc nh nkv hd n sc i8 ks vs _) =>
      qs ← get (halfs m) q (nh * hd);
      kb ← cache_rows m kc n nkv hd i8; vb ← cache_rows m vc n nkv hd i8;
      kss ← cache_scales m ks n nkv i8; vss ← cache_scales m vs n nkv i8;
      put_halfs o (attention (Z.to_nat nh) (Z.to_nat nkv) (Z.to_nat hd) (Z.to_nat n) sc i8 qs kb vb kss vss) m
  | AttentionPrefillBatched (mkPrefill o q kc vc nh nkv hd n start sc i8 ks vs _) =>
      qs ← get (halfs m) q (n * (nh * hd));
      kb ← cache_rows m kc (start + n) nkv hd i8; vb ← cache_rows m vc (start + n) nkv hd i8;
      kss ← cache_scales m ks (start + n) nkv i8; vss ← cache_scales m vs (start + n) nkv i8;
      put_halfs o (attention_batched (Z.to_nat nh) (Z.to_nat nkv) (Z.to_nat hd) (Z.to_nat n) (Z.to_nat start) sc i8
        qs kb vb kss vss) m
  end.

Class Infer := infer : Call -> World -> Mem -> Status * Mem.

Class InferLaws `{Infer} : Prop :=
  infer_ok c w m m1 m2 : effect c w m = Some m1 -> infer c w m = (Success, m2) -> m2 = m1.

Context `{Infer}.

(** ** The two files *)

(** [warned]: the flags of the two [log_reflex_failure], one per file. *)
Record device := mkDevice {
  world : World; mem : Mem; warned_gemv : bool; warned_attention : bool; stderr : list (bytes * Z) }.

Definition reflex_stream (stream : Z) : Z := stream.

Definition reflex_success (status : Status) : bool := match status with Success => true | Failed _ => false end.
Definition status_code (status : Status) : Z := match status with Success => 0 | Failed code => code end.

(** [log_reflex_failure] of [gemv_q4.cu], of [attention.cu]. *)
Definition log_gemv (op : bytes) (status : Status) (s : device) : device :=
  if warned_gemv s then s
  else mkDevice (world s) (mem s) true (warned_attention s) (stderr s ++ [(op, status_code status)]).
Definition log_attention (op : bytes) (status : Status) (s : device) : device :=
  if warned_attention s then s
  else mkDevice (world s) (mem s) (warned_gemv s) true (stderr s ++ [(op, status_code status)]).

(** The call and the look at its status. *)
Definition called (log : bytes -> Status -> device -> device) (op : bytes) (c : Call) (s : device) : bool * device :=
  let '(status, m) := infer c (world s) (mem s) in
  let s := mkDevice (world s) m (warned_gemv s) (warned_attention s) (stderr s) in
  if negb (reflex_success status) then (false, log op status s) else (true, s).

Definition gemv_quant (y W ggml_type x M K stream : Z) (s : device) : device :=
  (called log_gemv (str "gemv_quant")
    (GemvQuant (mkGemv y W (resolve_weight_device_ptr (world s) W) ggml_type x M K (reflex_stream stream))) s).2.

Definition gemv_q4 (y W_q4 scales x M K group_size stream : Z) (s : device) : device :=
  gemv_quant y W_q4 12 x M K stream s.

Definition gemv_quant_add (y W ggml_type x residual M K stream : Z) (s : device) : device :=
  (called log_gemv (str "gemv_quant_add")
    (GemvQuantAdd (mkGemvAdd y W (resolve_weight_device_ptr (world s) W) ggml_type x residual M K
       (reflex_stream stream))) s).2.

Definition gemv_quant_pair (y0 W0 ggml_type0 M0 y1 W1 ggml_type1 M1 x K stream : Z) (s : device) : device :=
  (called log_gemv (str "gemv_quant_pair")
    (GemvQuantPair (mkGemvPair
       y0 W0 (resolve_weight_device_ptr (world s) W0) ggml_type0 M0
       y1 W1 (resolve_weight_device_ptr (world s) W1) ggml_type1 M1 x K (reflex_stream stream))) s).2.

Definition gemv_quant_triple (y0 W0 ggml_type0 M0 y1 W1 ggml_type1 M1 y2 W2 ggml_type2 M2 x K stream : Z)
  (s : device) : device :=
  (called log_gemv (str "gemv_quant_triple")
    (GemvQuantTriple (mkGemvTriple
       y0 W0 (resolve_weight_device_ptr (world s) W0) ggml_type0 M0
       y1 W1 (resolve_weight_device_ptr (world s) W1) ggml_type1 M1
       y2 W2 (resolve_weight_device_ptr (world s) W2) ggml_type2 M2 x K (reflex_stream stream))) s).2.

Definition gemm_quant_batched (y W ggml_type x M N K stream : Z) (s : device) : device :=
  (called log_gemv (str "gemm_quant_batched")
    (GemmQuantBatched (mkGemm y W (resolve_weight_device_ptr (world s) W) ggml_type x M N K (reflex_stream stream))) s).2.

Definition gemv_quant_f32 (y W ggml_type x M K stream : Z) (s : device) : device :=
  (called log_gemv (str "gemv_quant_f32")
    (GemvQuantF32 (mkGemvF32 y W (resolve_weight_device_ptr (world s) W) ggml_type x M K (reflex_stream stream))) s).2.

Definition dequant_embedding_row (dst W ggml_type token_id hidden_dim stream : Z) (s : device) : bool * device :=
  called log_gemv (str "dequant_embedding_row")
    (DequantEmbeddingRow (mkRow dst W (resolve_weight_device_ptr (world s) W) ggml_type token_id hidden_dim
       (reflex_stream stream))) s.

Definition flash_attention_decode (output q k_cache v_cache n_heads n_kv_heads head_dim seq_len : Z) (scale : float)
  (kv_int8 : bool) (k_scales v_scales stream : Z) (s : device) : device :=
  (called log_attention (str "flash_attention_decode")
    (AttentionDecode (mkAttn output q k_cache v_cache n_heads n_kv_heads head_dim seq_len scale kv_int8
       k_scales v_scales (reflex_stream stream))) s).2.

Definition flash_attention_prefill_batched (output q k_cache v_cache n_heads n_kv_heads head_dim N start_pos : Z)
  (scale : float) (kv_int8 : bool) (k_scales v_scales stream : Z) (s : device) : device :=
  (called log_attention (str "flash_attention_prefill_batched")
    (AttentionPrefillBatched (mkPrefill output q k_cache v_cache n_heads n_kv_heads head_dim N start_pos scale
       kv_int8 k_scales v_scales (reflex_stream stream))) s).2.

(** ** Sequences of calls *)

(** A call of one of the functions above. *)
Inductive op :=
| OpQ4 (y W scales x M K group_size stream : Z)
| OpGemv (y W t x M K stream : Z)
| OpAdd (y W t x residual M K stream : Z)
| OpPair (y0 W0 t0 M0 y1 W1 t1 M1 x K stream : Z)
| OpTriple (y0 W0 t0 M0 y1 W1 t1 M1 y2 W2 t2 M2 x K stream : Z)
| OpGemm (y W t x M N K stream : Z)
| OpF32 (y W t x M K stream : Z)
| OpRow (dst W t token hidden stream : Z)
| OpDecode (output q kc vc nh nkv hd n : Z) (sc : float) (i8 : bool) (ks vs stream : Z)
| OpPrefill (output q kc vc nh nkv hd n start : Z) (sc : float) (i8 : bool) (ks vs stream : Z).

Definition exec (o : op) : device -> device :=
  match o with
  | OpQ4 y W scales x M K g st => gemv_q4 y W scales x M K g st
  | OpGemv y W t x M K st => gemv_quant y W t x M K st
  | OpAdd y W t x r M K st => gemv_quant_add y W t x r M K st
  | OpPair y0 W0 t0 M0 y1 W1 t1 M1 x K st => gemv_quant_pair y0 W0 t0 M0 y1 W1 t1 M1 x K st
  | OpTriple y0 W0 t0 M0 y1 W1 t1 M1 y2 W2 t2 M2 x K st => gemv_quant_triple y0 W0 t0 M0 y1 W1 t1 M1 y2 W2 t2 M2 x K st
  | OpGemm y W t x M N K st => gemm_quant_batched y W t x M N K st
  | OpF32 y W t x M K st => gemv_quant_f32 y W t x M K st
  | OpRow dst W t token hidden st => fun s => (dequant_embedding_row dst W t token hidden st s).2
  | OpDecode out q kc vc nh nkv hd n sc i8 ks vs st => flash_attention_decode out q kc vc nh nkv hd n sc i8 ks vs st
  | OpPrefill out q kc vc nh nkv hd n start sc i8 ks vs st =>
      flash_attention_prefill_batched out q kc vc nh nkv hd n start sc i8 ks vs st
  end.

Definition run (ops : list op) (s : device) : device := foldl (fun s o => exec o s) s ops.

(** ** The interface of the forward pass *)

(** The bytes of a weight matrix, as the kernels see them. *)
Definition bytes_of (w : World) (W : option Z) (t : Z) (M K : nat) : bytes :=
  default [] (Engine.seen w W (kquant_tensor_bytes t (Z.of_nat M) (Z.of_nat K))).

(** The products that [Forward] takes as parameters, for a way to find the
    bytes of a matrix. *)
Definition products_on (matrix : option Z -> Z -> nat -> nat -> bytes) : Forward.ReflexInfer := {|
  Forward.gemv_quant W t x M K := product (matrix W t M K) t x M K;
  Forward.gemv_quant_add W t x r M K := product_add (matrix W t M K) t x r M K;
  Forward.gemv_quant_pair W0 t0 M0 W1 t1 M1 x K :=
    (product (matrix W0 t0 M0 K) t0 x M0 K, product (matrix W1 t1 M1 K) t1 x M1 K);
  Forward.gemv_quant_triple W0 t0 M0 W1 t1 M1 W2 t2 M2 x K :=
    ((product (matrix W0 t0 M0 K) t0 x M0 K, product (matrix W1 t1 M1 K) t1 x M1 K),
     product (matrix W2 t2 M2 K) t2 x M2 K);
  Forward.gemm_quant_batched W t x M N K := product_batched (matrix W t M K) t x M N K;
  Forward.gemv_quant_f32 W t x M K := product_f32 (matrix W t M K) t x M K;
  Forward.flash_attention_decode := attention;
  Forward.flash_attention_prefill_batched := attention_batched |}.

Definition interface (w : World) : Forward.ReflexInfer := products_on (bytes_of w).

(** What [Forward] relies on, said of the arithmetic: the combined products
    change no value, and the batched attention is the attention of each query. *)
Class ProductLaws : Prop := {
  product_length ws t x M K : length (product ws t x M K) = M;
  product_add_eq ws t x res M K : length res = M -> product_add ws t x res M K = vec_add res (product ws t x M K) M;
  product_rows ws t xs M K : Forall (fun x => length x = K) xs ->
    product_batched ws t (concat xs) M (length xs) K = concat ((fun x => product ws t x M K) <$> xs);
  attention_length nh nkv hd n sc i8 q kb vb ks vs : length (attention nh nkv hd n sc i8 q kb vb ks vs) = (nh * hd)%nat;
  attention_queries nh nkv hd start sc i8 qs kb vb ks vs :
    Forall (fun q => length q = (nh * hd)%nat) qs ->
    attention_batched nh nkv hd (length qs) start sc i8 (concat qs) kb vb ks vs =
    concat (imap (fun i q =>
      let n := (start + i + 1)%nat in let row := (nkv * hd * (if i8 then 1 else 2))%nat in
      attention nh nkv hd n sc i8 q (take (n * row) kb) (take (n * row) vb)
        (take (n * (4 * nkv)) <$> ks) (take (n * (4 * nkv)) <$> vs)) qs) }.

#[export] Instance products_laws {laws : ProductLaws} matrix : @Forward.ReflexLaws _ (products_on matrix).
Proof.
  destruct laws. split; cbn; intros; [done|by auto|done|done|by auto|done|by auto].
Qed.

(** The kernels can read the whole matrix. *)
Definition readable (w : World) (W t M K : Z) : bool :=
  let n := kquant_tensor_bytes t M K in (0 <? n) && bool_decide (is_Some (weight_seen w W n)).

(** What a call does, said with the interface of the forward pass; [None]: a
    buffer is too small or a matrix is out of reach. *)
Definition ref_op (w : World) (o : op) (m : Mem) : option Mem :=
  let _ := interface w in
  let gemv y W t x M K :=
    if readable w W t M K then
      xs ← get (halfs m) x K; put_halfs y (Forward.gemv_quant (Some W) t xs (Z.to_nat M) (Z.to_nat K)) m
    else None in
  match o with
  | OpQ4 y W _ x M K _ _ => gemv y W 12 x M K
  | OpGemv y W t x M K _ => gemv y W t x M K
  | OpAdd y W t x r M K _ =>
      if readable w W t M K then
        xs ← get (halfs m) x K; rs ← get (halfs m) r M;
        put_halfs y (Forward.gemv_quant_add (Some W) t xs rs (Z.to_nat M) (Z.to_nat K)) m
      else None
  | OpPair y0 W0 t0 M0 y1 W1 t1 M1 x K _ =>
      if readable w W0 t0 M0 K && readable w W1 t1 M1 K then
        xs ← get (halfs m) x K;
        let '(v0, v1) := Forward.gemv_quant_pair (Some W0) t0 (Z.to_nat M0) (Some W1) t1 (Z.to_nat M1) xs (Z.to_nat K) in
        m ← put_halfs y0 v0 m; put_halfs y1 v1 m
      else None
  | OpTriple y0 W0 t0 M0 y1 W1 t1 M1 y2 W2 t2 M2 x K _ =>
      if readable w W0 t0 M0 K && readable w W1 t1 M1 K && readable w W2 t2 M2 K then
        xs ← get (halfs m) x K;
        let '((v0, v1), v2) := Forward.gemv_quant_triple (Some W0) t0 (Z.to_nat M0) (Some W1) t1 (Z.to_nat M1)
                                 (Some W2) t2 (Z.to_nat M2) xs (Z.to_nat K) in
        m ← put_halfs y0 v0 m; m ← put_halfs y1 v1 m; put_halfs y2 v2 m
      else None
  | OpGemm y W t x M N K _ =>
      if readable w W t M K then
        xs ← get (halfs m) x (N * K);
        put_halfs y (Forward.gemm_quant_batched (Some W) t xs (Z.to_nat M) (Z.to_nat N) (Z.to_nat K)) m
      else None
  | OpF32 y W t x M K _ =>
      if readable w W t M K then
        xs ← get (halfs m) x K; put_floats y (Forward.gemv_quant_f32 (Some W) t xs (Z.to_nat M) (Z.to_nat K)) m
      else None
  | OpRow dst W t token hidden _ =>
      if readable w W t (token + 1) hidden then
        put_halfs dst (embedding_row (bytes_of w (Some W) t (Z.to_nat (token + 1)) (Z.to_nat hidden)) t token hidden) m
      else None
  | OpDecode out q kc vc nh nkv hd n sc i8 ks vs _ =>
      qs ← get (halfs m) q (nh * hd);
      kb ← cache_rows m kc n nkv hd i8; vb ← cache_rows m vc n nkv hd i8;
      kss ← cache_scales m ks n nkv i8; vss ← cache_scales m vs n nkv i8;
      put_halfs out (Forward.flash_attention_decode (Z.to_nat nh) (Z.to_nat nkv) (Z.to_nat hd) (Z.to_nat n) sc i8
        qs kb vb kss vss) m
  | OpPrefill out q kc vc nh nkv hd n start sc i8 ks vs _ =>
      qs ← get (halfs m) q (n * (nh * hd));
      kb ← cache_rows m kc (start + n) nkv hd i8; vb ← cache_rows m vc (start + n) nkv hd i8;
      kss ← cache_scales m ks (start + n) nkv i8; vss ← cache_scales m vs (start + n) nkv i8;
      put_halfs out (Forward.flash_attention_prefill_batched (Z.to_nat nh) (Z.to_nat nkv) (Z.to_nat hd) (Z.to_nat n)
        (Z.to_nat start) sc i8 qs kb vb kss vss) m
  end.

Fixpoint ref_run (w : World) (ops : list op) (m : Mem) : option Mem :=
  match ops with
  | [] => Some m
  | o :: ops => m ← ref_op w o m; ref_run w ops m
  end.

(** ** What the functions have in common *)

(** The call a function makes, its name and its file. *)
Definition request (w : World) (o : op) : Call :=
  let dev := resolve_weight_device_ptr w in
  match o with
  | OpQ4 y W _ x M K _ st => GemvQuant (mkGemv y W (dev W) 12 x M K st)
  | OpGemv y W t x M K st => GemvQuant (mkGemv y W (dev W) t x M K st)
  | OpAdd y W t x r M K st => GemvQuantAdd (mkGemvAdd y W (dev W) t x r M K st)
  | OpPair y0 W0 t0 M0 y1 W1 t1 M1 x K st =>
      GemvQuantPair (mkGemvPair y0 W0 (dev W0) t0 M0 y1 W1 (dev W1) t1 M1 x K st)
  | OpTriple y0 W0 t0 M0 y1 W1 t1 M1 y2 W2 t2 M2 x K st =>
      GemvQuantTriple (mkGemvTriple y0 W0 (dev W0) t0 M0 y1 W1 (dev W1) t1 M1 y2 W2 (dev W2) t2 M2 x K st)
  | OpGemm y W t x M N K st => GemmQuantBatched (mkGemm y W (dev W) t x M N K st)
  | OpF32 y W t x M K st => GemvQuantF32 (mkGemvF32 y W (dev W) t x M K st)
  | OpRow dst W t token hidden st => DequantEmbeddingRow (mkRow dst W (dev W) t token hidden st)
  | OpDecode out q kc vc nh nkv hd n sc i8 ks vs st => AttentionDecode (mkAttn out q kc vc nh nkv hd n sc i8 ks vs st)
  | OpPrefill out q kc vc nh nkv hd n start sc i8 ks vs st =>
      AttentionPrefillBatched (mkPrefill out q kc vc nh nkv hd n start sc i8 ks vs st)
  end.

Definition name (o : op) : bytes :=
  match o with
  | OpQ4 _ _ _ _ _ _ _ _ | OpGemv _ _ _ _ _ _ _ => str "gemv_quant"
  | OpAdd _ _ _ _ _ _ _ _ => str "gemv_quant_add"
  | OpPair _ _ _ _ _ _ _ _ _ _ _ => str "gemv_quant_pair"
  | OpTriple _ _ _ _ _ _ _ _ _ _ _ _ _ _ _ => str "gemv_quant_triple"
  | OpGemm _ _ _ _ _ _ _ _ => str "gemm_quant_batched"
  | OpF32 _ _ _ _ _ _ _ => str "gemv_quant_f32"
  | OpRow _ _ _ _ _ _ => str "dequant_embedding_row"
  | OpDecode _ _ _ _ _ _ _ _ _ _ _ _ _ => str "flash_attention_decode"
  | OpPrefill _ _ _ _ _ _ _ _ _ _ _ _ _ _ => str "flash_attention_prefill_batched"
  end.

Definition in_attention (o : op) : bool :=
  match o with OpDecode _ _ _ _ _ _ _ _ _ _ _ _ _ | OpPrefill _ _ _ _ _ _ _ _ _ _ _ _ _ _ => true | _ => false end.

Lemma exec_called o s :
  exec o s = (called (if in_attention o then log_attention else log_gemv) (name o) (request (world s) o) s).2.
Proof. by destruct o. Qed.

(** The status of a call and the memory it leaves. *)
Definition answer (o : op) (s : device) : Status * Mem := infer (request (world s) o) (world s) (mem s).
Definition warned (b : bool) (s : device) : bool := if b then warned_attention s else warned_gemv s.

(** One call, on either status. *)
Definition after (o : op) (s : device) : device :=
  let '(status, m) := answer o s in
  match status with
  | Success => mkDevice (world s) m (warned_gemv s) (warned_attention s) (stderr s)
  | Failed code =>
      mkDevice (world s) m (warned_gemv s || negb (in_attention o)) (warned_attention s || in_attention o)
        (stderr s ++ if warned (in_attention o) s then [] else [(name o, code)])
  end.

Lemma exec_after o s : exec o s = after o s.
Proof.
  rewrite exec_called. unfold after, called, answer. destruct (infer _ _ _) as [[|code] m]; [done|].
  destruct s as [w m' [] [] e], (in_attention o); cbn; by rewrite ?app_nil_r.
Qed.

Lemma run_cons o ops s : run (o :: ops) s = run ops (after o s).
Proof. unfold run. cbn [foldl]. by rewrite exec_after. Qed.

Lemma run_world ops s : world (run ops s) = world s.
Proof.
  revert s. induction ops as [|o ops IH]; intros s; [done|]. rewrite run_cons, IH.
  unfold after. by destruct (answer o s) as [[|] m].
Qed.

(** A flag, once up, stays up. *)
Lemma warned_kept b ops s : warned b s = true -> warned b (run ops s) = true.
Proof.
  revert s. induction ops as [|o ops IH]; intros s Hs; [done|]. rewrite run_cons. apply IH.
  unfold after. destruct (answer o s) as [[|] m]; destruct b; cbn in *; rewrite Hs; done.
Qed.

Lemma warned_failed b ops s o code m :
  answer o s = (Failed code, m) -> in_attention o = b -> warned b (run (o :: ops) s) = true.
Proof.
  intros E <-. rewrite run_cons. apply warned_kept. unfold after. rewrite E.
  destruct (in_attention o); cbn; by rewrite orb_true_r.
Qed.

(** ** Calls that succeed *)

Lemma kquant_positive t M K : 0 < kquant_tensor_bytes t M K -> 0 < M /\ 0 < K.
Proof. unfold kquant_tensor_bytes. destruct (Z.leb_spec M 0); [cbn; lia|]. destruct (Z.leb_spec K 0); [cbn; lia|]. lia. Qed.

Lemma matrix_readable w W t M K :
  readable w W t M K = true ->
  matrix w W (resolve_weight_device_ptr w W) t M K = Some (bytes_of w (Some W) t (Z.to_nat M) (Z.to_nat K)).
Proof.
  unfold readable, matrix, weight_bytes, bytes_of. intros [Hn Hs]%andb_true_iff. apply bool_decide_eq_true_1 in Hs as [ws Hs].
  rewrite Hn. apply Z.ltb_lt, kquant_positive in Hn as [HM HK]. rewrite !Z2Nat.id by lia. cbn [Engine.seen].
  rewrite Z.eqb_refl, Hs, andb_true_r. unfold weight_seen in Hs.
  destruct (resolve_weight_device_ptr w W =? 0); done.
Qed.

(** The argument records say what the reference says. *)
Lemma request_effect w o m m' : ref_op w o m = Some m' -> effect (request w o) w m = Some m'.
Proof.
  intros E. destruct o; cbn [ref_op request effect] in *; try exact E;
    repeat match type of E with context [readable ?w ?W ?t ?M ?K] =>
      destruct (readable w W t M K) eqn:?; rewrite ?andb_false_r in E; cbn [andb] in E; try discriminate E
    end;
    rewrite !matrix_readable by done; exact E.
Qed.

(** C9: The bridge gives the forward pass the products it is written with.  If a
    sequence of calls has printed no warning, and the library keeps its word
    when it reports success, then memory has become what the same sequence of
    the pure functions of [Forward.ReflexInfer] makes it, where a weight pointer
    stands for the bytes the kernels see behind it: every argument record names
    the right buffers, sizes and device pointers. *)
Theorem bridge_refines `{!InferLaws} (ops : list op) (s : device) (m : Mem) :
  warned_gemv (run ops s) = false -> warned_attention (run ops s) = false ->
  ref_run (world s) ops (mem s) = Some m -> mem (run ops s) = m /\ stderr (run ops s) = stderr s.
Proof.
  revert s. induction ops as [|o ops IH]; intros s Hg Ha E; [by injection E as <-|].
  cbn [ref_run] in E. destruct (ref_op (world s) o (mem s)) as [m1|] eqn:E1; [|done]. cbn [mbind option_bind] in E.
  destruct (answer o s) as [[|code] m2] eqn:E2.
  - rewrite run_cons in *. unfold after in *. rewrite E2 in *.
    rewrite (infer_ok _ _ _ _ _ (request_effect _ _ _ _ E1) E2) in *.
    by destruct (IH (mkDevice (world s) m1 (warned_gemv s) (warned_attention s) (stderr s)) Hg Ha E).
  - pose proof (warned_failed (in_attention o) ops s o code m2 E2 eq_refl) as Hw.
    unfold warned in Hw. destruct (in_attention o); congruence.
Qed.

(** ** Calls that fail *)

(** The failures of a run: file, name and status code of each. *)
Fixpoint failures (ops : list op) (s : device) : list (bool * (bytes * Z)) :=
  match ops with
  | [] => []
  | o :: ops =>
      match (answer o s).1 with
      | Success => failures ops (after o s)
      | Failed code => (in_attention o, (name o, code)) :: failures ops (after o s)
      end
  end.

(** The first failure of each file, unless the flag of the file was up. *)
Fixpoint firsts (gemv attn : bool) (fs : list (bool * (bytes * Z))) : list (bytes * Z) :=
  match fs with
  | [] => []
  | (true, f) :: fs => (if attn then [] else [f]) ++ firsts gemv true fs
  | (false, f) :: fs => (if gemv then [] else [f]) ++ firsts true attn fs
  end.

Lemma firsts_le g a fs : (length (firsts g a fs) + (if g then 1 else 0) + (if a then 1 else 0) <= 2)%nat.
Proof.
  revert g a. induction fs as [|[[] f] fs IH]; intros g a; cbn [firsts]; [destruct g, a; cbn; lia| |].
  - specialize (IH g true). rewrite length_app. destruct g, a; cbn in *; lia.
  - specialize (IH true a). rewrite length_app. destruct g, a; cbn in *; lia.
Qed.

(** Failures of the library stay inside the bridge.  Whatever the library
    does, every sequence of calls is carried out to its end with the weights
    left alone, and the messages are the first failure of each of the two
    files and nothing else: at most two lines, and none of the callers, which
    go on with what the buffers hold, learns of any failure. *)
Theorem failures_contained (ops : list op) (s : device) :
  world (run ops s) = world s /\
  stderr (run ops s) = stderr s ++ firsts (warned_gemv s) (warned_attention s) (failures ops s) /\
  (length (stderr (run ops s)) <= length (stderr s) + 2)%nat.
Proof.
  assert (E : stderr (run ops s) = stderr s ++ firsts (warned_gemv s) (warned_attention s) (failures ops s)).
  { revert s. induction ops as [|o ops IH]; intros s; [cbn; by rewrite app_nil_r|].
    rewrite run_cons, IH. cbn [failures]. unfold after. destruct (answer o s) as [[|code] m]; cbn [fst]; [done|].
    destruct s as [w m' g a e], (in_attention o); cbn [firsts stderr warned_gemv warned_attention warned world mem];
      rewrite <- app_assoc, ?orb_false_r, ?orb_true_r; done. }
  split; [apply run_world|]. split; [done|]. rewrite E, length_app.
  pose proof (firsts_le (warned_gemv s) (warned_attention s) (failures ops s)). lia.
Qed.

(** ** The model file *)

Section Loaded.
Context `{laws : RuntimeLaws}.
Context (kv_alloc : World -> KVCache.Alloc) (rd : KVFile.Reader)
        (sort_by_size : list (bytes * Z) -> list (bytes * Z)) (e : env).
Context `{!InferLaws} (product_length : forall ws t x M K, length (product ws t x M K) = M).

(** The matrix [sp] of the file, at offset [o], that the loaded engine reads at [W]. *)
Record loaded_at (c : bytes) (cfg : ModelConfig) (mw : ModelWeights) (eng : Engine.Engine) (sp : Spec) (o W : Z) : Prop := {
  la_layer : exists i lw0 lw, ModelFile.layers mw !! i = Some lw0 /\ ModelFile.layers (Engine.model_weights_ eng) !! i = Some lw /\
               sp ∈ specs lw0 cfg /\ slot_ptr (spec_slot sp) lw = Some W;
  la_src : spec_src sp = Some o;
  la_bytes : 0 < spec_bytes sp }.

(** A product in the running engine is the product with the model file.
    After a successful load, in a mode in which kernels reach the weights, let
    [gemv_quant] be called with the pointer the engine has for a matrix of a
    layer, wherever [load] has put the matrix (the arena of the layer on the
    device, or the mapped file behind its alias).  If the call prints no
    warning, the output buffer has the product with the bytes that the file
    has at the offset of that tensor. *)
Theorem loaded_product (path c : bytes) (meminfo : option bytes) (p : Engine.LoadParams) (w0 w1 : World) (eng : Engine.Engine) :
  wf w0 -> g_region w0 = no_region -> Engine.fits path (Some c) ->
  Engine.load kv_alloc rd sort_by_size e path (Some c) meminfo p Engine.constructed w0 = (Some (true, eng), w1) ->
  Engine.reachable_mode e w1 eng ->
  exists cfg mw, Engine.model_of path (Some c) c cfg mw /\
    forall sp o W y x stream xs ybuf s,
      loaded_at c cfg mw eng sp o W -> world s = w1 ->
      get (halfs (mem s)) x (spec_cols sp) = Some xs ->
      halfs (mem s) !! y = Some ybuf -> spec_rows sp <= zlen ybuf ->
      let s' := gemv_quant y W (spec_type sp) x (spec_rows sp) (spec_cols sp) stream s in
      warned_gemv s' = false ->
      exists ws, peek_at c o (spec_bytes sp) = Some ws /\
        get (halfs (mem s')) y (spec_rows sp) = Some (product ws (spec_type sp) xs (Z.to_nat (spec_rows sp)) (Z.to_nat (spec_cols sp))).
Proof.
  intros Wf Eg Hf E Hr.
  destruct (Engine.resident_after_load kv_alloc rd sort_by_size e path c meminfo p w0 w1 eng Wf Eg Hf E Hr)
    as (cfg & mw & Hm & HL & _).
  exists cfg, mw. split; [done|]. intros sp o W y x stream xs ybuf s [(i & lw0 & lw & L0 & L1 & Hs & Hp) Ho Hn] Ew Ex Ey Hy s' Hw.
  pose proof (Engine.lr_matrices _ _ _ _ _ (Forall2_lookup_lr _ _ _ _ _ _ HL L0 L1) sp Hs Hn) as Seen.
  rewrite Hp, Ho in Seen. cbn [Engine.seen Engine.file_bytes] in Seen.
  destruct (Hf _ _ _ Hm) as [_ T _ _]. pose proof (Forall_lookup_1 _ _ _ _ T L0) as [_ _ _ _ F].
  rewrite Forall_forall in F. pose proof (F sp Hs) as Hin. destruct (Hin o Ho) as (? & ? & ?).
  destruct (peek_at c o (spec_bytes sp)) as [ws|] eqn:Ews; [|by rewrite peek_at_Some in Ews by lia].
  exists ws. split; [done|]. destruct (kquant_positive _ _ _ Hn) as [HM HK].
  assert (Er : effect (request (world s) (OpGemv y W (spec_type sp) x (spec_rows sp) (spec_cols sp) stream)) (world s) (mem s) =
    put_halfs y (product ws (spec_type sp) xs (Z.to_nat (spec_rows sp)) (Z.to_nat (spec_cols sp))) (mem s)).
  { cbn [request effect]. rewrite Ew. rewrite matrix_readable.
    - cbn [mbind option_bind]. rewrite Ex. cbn [mbind option_bind]. unfold bytes_of. rewrite !Z2Nat.id by lia.
      cbn [Engine.seen]. fold (spec_bytes sp). by rewrite Seen.
    - unfold readable. fold (spec_bytes sp). by rewrite (proj2 (Z.ltb_lt _ _) Hn), Seen. }
  set (v := product _ _ _ _ _) in *. assert (Hv : zlen v = spec_rows sp) by (unfold v, zlen; rewrite product_length; lia).
  unfold put_halfs, put in Er. rewrite Ey in Er. cbn [mbind option_bind] in Er. rewrite (proj2 (Z.leb_le _ _)) in Er by lia.
  cbn [mbind option_bind] in Er.
  change (gemv_quant y W (spec_type sp) x (spec_rows sp) (spec_cols sp) stream s) with
    (run [OpGemv y W (spec_type sp) x (spec_rows sp) (spec_cols sp) stream] s) in s'.
  subst s'. destruct (answer (OpGemv y W (spec_type sp) x (spec_rows sp) (spec_cols sp) stream) s) as [[|code] m2] eqn:E2.
  2:{ pose proof (warned_failed false [] s _ code m2 E2 eq_refl) as Hf'. unfold warned in Hf'. congruence. }
  rewrite run_cons. unfold after. rewrite E2. cbn [run foldl mem]. rewrite (infer_ok _ _ _ _ _ Er E2). cbn [halfs].
  unfold get. rewrite lookup_insert_eq. cbn [mbind option_bind]. rewrite (proj2 (Z.leb_le 0 _)) by lia. cbn [andb].
  rewrite (proj2 (Z.leb_le _ _)).
  - f_equal. replace (Z.to_nat (spec_rows sp)) with (length v) by (unfold zlen in Hv; lia). by rewrite take_app_length.
  - autorewrite with len. pose proof (zlen_nonneg (drop (length v) ybuf)). lia.
Qed.

End Loaded.

(** ** The embedding of a token, by the library or on the host *)

Section Embedding.
Context `{!Quant.HostFloats} `{!InferLaws}.

(** The library decodes the formats as the host does. *)
Definition rows_decoded : Prop := forall ws t token hidden,
  Quant.kquant t = true -> Quant.row_fits t hidden = true -> 0 <= token -> 0 < hidden ->
  (token + 1) * Quant.row_bytes t hidden <= zlen ws ->
  embedding_row ws t token hidden = Quant.half_value t ws token hidden <$> seq 0 (Z.to_nat hidden).

(** The row on the device, where the call of [dequant_embedding] succeeds. *)
Definition gpu_row (dst W t token hidden stream : Z) (s : device) : option (list Z) :=
  let '(ok, s) := dequant_embedding_row dst W t token hidden stream s in
  if ok then get (halfs (mem s)) dst hidden else None.

Lemma kquant_rows t token hidden :
  Quant.kquant t = true -> Quant.row_fits t hidden = true -> 0 <= token -> 0 < hidden ->
  (token + 1) * Quant.row_bytes t hidden < 2 ^ 62 ->
  kquant_tensor_bytes t (token + 1) hidden = (token + 1) * Quant.row_bytes t hidden /\
  0 < (token + 1) * Quant.row_bytes t hidden.
Proof.
  intros Hk Hf Ht Hh Hb. unfold Quant.row_fits in Hf. rewrite Hk in Hf. cbn [negb orb] in Hf.
  apply andb_true_iff in Hf as [_ Hr%Z.eqb_eq]. unfold Quant.row_bytes in *. rewrite Hk in *.
  pose proof (Z.quot_rem hidden 256 ltac:(lia)) as Eq.
  assert (Hq : 0 < Z.quot hidden 256) by lia.
  assert (Eb : kquant_block_bytes t = Quant.block_bytes t /\ 0 < Quant.block_bytes t).
  { unfold Quant.kquant in Hk. apply orb_true_iff in Hk as [E|E]; apply Z.eqb_eq in E; by subst t. }
  destruct Eb as [Eb Hpos]. unfold kquant_tensor_bytes.
  rewrite (proj2 (Z.leb_gt (token + 1) 0)), (proj2 (Z.leb_gt hidden 0)), (proj2 (Z.eqb_eq _ _) Hr), Eb by lia. cbn [negb orb].
  rewrite <- Z.mul_assoc. assert (0 < (token + 1) * (Z.quot hidden 256 * Quant.block_bytes t)) by nia.
  rewrite u64_id by lia. done.
Qed.

Lemma peek_prefix (data ws : bytes) n off k :
  peek_at data 0 n = Some ws -> 0 <= off -> 0 <= k -> off + k <= n -> peek_at ws off k = peek_at data off k.
Proof. intros E Ho Hk Hn. by rewrite <- (peek_sub data 0 n ws off k). Qed.

(** A row decoded from the rows up to it. *)
Lemma half_value_prefix t data ws token hidden i :
  Quant.kquant t = true -> Quant.row_fits t hidden = true -> 0 <= token ->
  peek_at data 0 ((token + 1) * Quant.row_bytes t hidden) = Some ws -> (i < Z.to_nat hidden)%nat ->
  Quant.half_value t ws token hidden i = Quant.half_value t data token hidden i.
Proof.
  intros Hk Hf Ht E Hi. unfold Quant.half_value. rewrite Hk. unfold Quant.row_value.
  unfold Quant.row_fits in Hf. rewrite Hk in Hf. cbn [negb orb] in Hf. apply andb_true_iff in Hf as [_ Hr%Z.eqb_eq].
  unfold Quant.row_bytes in E. rewrite Hk in E. pose proof (Z.quot_rem hidden 256 ltac:(lia)) as Eq.
  assert (Hd : Z.of_nat (i / 256) < Z.quot hidden 256).
  { rewrite Nat2Z.inj_div. apply Z.div_lt_upper_bound; lia. }
  assert (Hb : 0 < Quant.block_bytes t) by (unfold Quant.block_bytes; case_match; lia).
  rewrite (peek_prefix data ws _ _ _ E); [done|nia|lia|nia].
Qed.

Context (embedding_row_eq : rows_decoded).

(** The row, when the fast path gives none or the row itself. *)
Lemma row_either_way fast g data token hidden t :
  0 <= token -> 0 < hidden -> (token + 1) * Quant.row_bytes t hidden <= zlen data < 2 ^ 62 ->
  Quant.row_fits t hidden = true ->
  let row := Quant.half_value t data token hidden <$> seq 0 (Z.to_nat hidden) in
  (Quant.kquant t = true -> g = None \/ g = Some row) -> Quant.dequant_embedding fast g data token hidden t = Some row.
Proof.
  intros Ht Hh Hd Hf row Hg.
  pose proof (Quant.embedding_on_host fast data token hidden t Ht Hh Hd) as E. rewrite Hf in E. fold row in E.
  unfold Quant.dequant_embedding in *. unfold Quant.kquant in Hg.
  destruct fast; cbn [andb] in *; [|done]. destruct ((t =? 12) || (t =? 14)); [|done].
  by destruct (Hg eq_refl) as [-> | ->].
Qed.

(** A row decoded by the library from the rows up to it. *)
Lemma decoded_row data ws token hidden t :
  Quant.kquant t = true -> Quant.row_fits t hidden = true -> 0 <= token -> 0 < hidden ->
  peek_at data 0 ((token + 1) * Quant.row_bytes t hidden) = Some ws ->
  embedding_row ws t token hidden = Quant.half_value t data token hidden <$> seq 0 (Z.to_nat hidden).
Proof.
  intros Hk Hf Ht Hh E. rewrite embedding_row_eq by (done || (apply peek_at_length in E; lia)).
  apply list_fmap_ext. intros k i [-> Hi]%lookup_seq. by apply half_value_prefix.
Qed.

(** The embedding does not depend on who computes it.  Where the device sees
    the bytes of the embedding matrix and the row fits the host's buffers,
    [dequant_embedding] leaves the same values, those of the format, whether
    the fast path is enabled or not and whether the call of the library
    succeeds or fails. *)
Theorem embedding_either_way (fast : bool) (data ws : bytes) (dst W t token hidden stream : Z) (buf : list Z) (s : device) :
  Quant.kquant t = true -> Quant.row_fits t hidden = true -> 0 <= token -> 0 < hidden ->
  zlen data < 2 ^ 62 -> peek_at data 0 ((token + 1) * Quant.row_bytes t hidden) = Some ws ->
  weight_seen (world s) W ((token + 1) * Quant.row_bytes t hidden) = Some ws ->
  halfs (mem s) !! dst = Some buf -> hidden <= zlen buf ->
  Quant.dequant_embedding fast (gpu_row dst W t token hidden stream s) data token hidden t =
  Some (Quant.half_value t data token hidden <$> seq 0 (Z.to_nat hidden)).
Proof.
  intros Hk Hf Ht Hh Hd Ed Ew Eb Hb. pose proof (peek_at_inv _ _ _ _ Ed) as ((_ & Hn & Hl) & _).
  destruct (kquant_rows t token hidden Hk Hf Ht Hh) as [Ek Hp]; [lia|].
  apply row_either_way; [done|done|lia|done|]. intros _. unfold gpu_row, dequant_embedding_row, called.
  destruct (infer _ _ _) as [[|code] m2] eqn:E2; cbn [reflex_success negb]; [right|by left].
  assert (Hv : length (embedding_row ws t token hidden) = Z.to_nat hidden).
  { rewrite embedding_row_eq by (done || (apply peek_at_length in Ed; lia)). by rewrite length_fmap, length_seq. }
  assert (Ef : effect (request (world s) (OpRow dst W t token hidden stream)) (world s) (mem s) =
    put_halfs dst (embedding_row ws t token hidden) (mem s)).
  { cbn [request effect]. rewrite matrix_readable.
    - cbn [mbind option_bind]. unfold bytes_of. rewrite !Z2Nat.id by lia. cbn [Engine.seen]. by rewrite Ek, Ew.
    - unfold readable. rewrite Ek, Ew. by rewrite (proj2 (Z.ltb_lt _ _) Hp). }
  unfold put_halfs, put in Ef. rewrite Eb in Ef. cbn [mbind option_bind] in Ef.
  rewrite (proj2 (Z.leb_le _ _)) in Ef by (unfold zlen in *; lia). cbn [mbind option_bind] in Ef.
  rewrite (infer_ok _ _ _ _ _ Ef E2). cbn [mem halfs]. unfold get. rewrite lookup_insert_eq. cbn [mbind option_bind].
  rewrite (proj2 (Z.leb_le 0 _)) by lia. cbn [andb]. rewrite (proj2 (Z.leb_le _ _)).
  - f_equal. transitivity (embedding_row ws t token hidden); [rewrite <- Hv; apply take_app_length|]. by apply decoded_row.
  - autorewrite with len. pose proof (zlen_nonneg (drop (length (embedding_row ws t token hidden)) buf)). unfold zlen in *. lia.
Qed.

End Embedding.

End Bridge.

(** ** A concrete library *)

#[local] Existing Instances demo_floats Quant.demo_host.

Definition demo_product (ws : bytes) (t : Z) (x : list Z) (M K : nat) : list Z :=
  (fun m => (Z.of_nat m + t + zsum (bz <$> ws) + zsum x) mod 65536) <$> seq 0 M.

#[local] Instance demo_products : Products := {|
  product := demo_product;
  product_add ws t x r M K := vec_add r (demo_product ws t x M K) M;
  product_batched ws t x M N K := concat ((fun i => demo_product ws t (row_of K i x) M K) <$> seq 0 N);
  product_f32 := demo_product;
  embedding_row ws t token hidden := Quant.half_value t ws token hidden <$> seq 0 (Z.to_nat hidden);
  attention := Forward.demo_attention;
  attention_batched := Forward.demo_attention_batched |}.

Lemma demo_product_length ws t x M K : length (demo_product ws t x M K) = M.
Proof. unfold demo_product. by rewrite length_fmap, length_seq. Qed.

Lemma demo_product_laws : ProductLaws.
Proof.
  split; cbn.
  - exact demo_product_length.
  - done.
  - intros ws t xs M K Hs. f_equal. rewrite (Forward.rows_of_concat K (fun _ x => demo_product ws t x M K) xs Hs).
    apply imap_const.
  - intros. unfold Forward.demo_attention. by rewrite length_fmap, length_seq.
  - exact Forward.demo_attention_queries.
Qed.

(** A library that does every legal call, and one that refuses all. *)
Definition willing : Infer := fun c w m => match effect c w m with Some m => (Success, m) | None => (Failed 1, m) end.
Definition refusing : Infer := fun _ _ m => (Failed 7, m).

Lemma willing_laws : @InferLaws _ _ willing.
Proof. intros c w m m1 m2 E. unfold infer, willing. rewrite E. by intros [= <-]. Qed.
Lemma refusing_laws : @InferLaws _ _ refusing.
Proof. intros c w m m1 m2 _. done. Qed.

(** Two matrices of one row, one after the other, in a block of the device. *)
Definition demo_block : bytes := Quant.demo_block ++ Quant.demo_block.
Definition demo_world : World := mkWorld 0 {[ 4096 := demo_block ]} [] ∅ ∅ ∅ ∅ no_region false.
Definition demo_mem : Mem := mkMem {[ 1 := replicate 256 2; 2 := [0; 0]; 3 := [5]; 4 := replicate 256 0 ]} ∅ ∅.
Definition demo_device : device := mkDevice demo_world demo_mem false false [].

Definition demo_ops : list op := [OpGemv 3 4096 12 1 1 256 0; OpAdd 2 (4096 + 144) 12 1 3 1 256 0].

Lemma bridge_refines_witness :
  halfs (mem (@run _ willing demo_ops demo_device)) !! 3 = Some (demo_product Quant.demo_block 12 (replicate 256 2) 1 256) /\
  stderr (@run _ willing demo_ops demo_device) = [].
Proof.
  assert (E : (fun m => halfs m !! 3) <$> ref_run demo_world demo_ops demo_mem =
    Some (Some (demo_product Quant.demo_block 12 (replicate 256 2) 1 256))) by (vm_cast_no_check (eq_refl (Some (Some (demo_product Quant.demo_block 12 (replicate 256 2) 1 256))))).
  assert (G : warned_gemv (@run _ willing demo_ops demo_device) = false) by (vm_cast_no_check (eq_refl false)).
  assert (A : warned_attention (@run _ willing demo_ops demo_device) = false) by (vm_cast_no_check (eq_refl false)).
  pose proof (fun m => @bridge_refines _ _ willing willing_laws demo_ops demo_device m G A) as H.
  change (world demo_device) with demo_world in H. change (mem demo_device) with demo_mem in H.
  revert E H. generalize (ref_run demo_world demo_ops demo_mem). intros [m|] E H; [|discriminate E].
  destruct (H m eq_refl) as [-> ->]. split; [by injection E|reflexivity].
Defined.

Lemma embedding_either_way_witness :
  Quant.dequant_embedding true (@gpu_row _ willing 4 4096 12 1 256 0 demo_device) demo_block 1 256 12 =
  Quant.dequant_embedding true (@gpu_row _ refusing 4 4096 12 1 256 0 demo_device) demo_block 1 256 12.
Proof.
  transitivity (Some (Quant.half_value 12 demo_block 1 256 <$> seq 0 (Z.to_nat 256))).
  - apply (@embedding_either_way _ _ willing _ willing_laws (fun _ _ _ _ _ _ _ _ _ => eq_refl) true demo_block demo_block
      4 4096 12 1 256 0 (replicate 256 0) demo_device); try (vm_compute; reflexivity); vm_compute; discriminate.
  - symmetry. apply (@embedding_either_way _ _ refusing _ refusing_laws (fun _ _ _ _ _ _ _ _ _ => eq_refl) true demo_block demo_block
      4 4096 12 1 256 0 (replicate 256 0) demo_device); try (vm_compute; reflexivity); vm_compute; discriminate.
Defined.

(** The up projection of the model of [Engine], through the alias of the file. *)
#[local] Existing Instances Engine.sim_runtime Engine.sim_runtime_laws.

#[local] Abbreviation demo_load :=
  (Engine.load (fun _ => KVCache.demo_alloc) KVFile.demo_reader (fun l => l) Engine.default_env Engine.demo_path
    (Some Engine.demo_file) (Some Budget.demo_meminfo) Engine.demo_params Engine.constructed Engine.demo_world).

Lemma loaded_product_witness :
  match demo_load with
  | (Some (_, eng), w1) =>
      exists lw W ws, lw ∈ ModelFile.layers (Engine.model_weights_ eng) /\ w_up lw = Some W /\
        peek_at Engine.demo_file (Engine.data_start + 5 * Engine.stride) 144 = Some ws /\
        forall s', s' = @gemv_quant _ willing 3 W 12 1 1 256 0 (mkDevice w1 demo_mem false false []) ->
          warned_gemv s' = false -> get (halfs (mem s')) 3 1 = Some (demo_product ws 12 (replicate 256 2) 1 256)
  | _ => False
  end.
Proof.
  pose proof (@loaded_product _ demo_products willing _ _ (fun _ => KVCache.demo_alloc) KVFile.demo_reader (fun l => l)
    Engine.default_env willing_laws demo_product_length Engine.demo_path Engine.demo_file (Some Budget.demo_meminfo)
    Engine.demo_params Engine.demo_world) as H.
  assert (E : ((let '(r, w1) := demo_load in
      (fun r => (fst r, negb (resolve_mapped_weight_device_ptr (g_region w1) (Engine.weights_ (snd r)) =? 0),
                 w_up <$> ModelFile.layers (Engine.model_weights_ (snd r)))) <$> r) = Some (true, true, [Some 6720])))
    by (vm_compute; reflexivity).
  revert H E. generalize demo_load. intros [[[ok eng]|] w1] H E; [|discriminate E].
  cbn -[resolve_mapped_weight_device_ptr] in E. injection E as -> Er El.
  destruct (H w1 eng Engine.demo_world_wf eq_refl Engine.demo_model_fits eq_refl) as (cfg & mw & Hm & HP);
    [intros E0; change (resolve_mapped_weight_device_ptr (g_region w1) (Engine.weights_ eng) = 0) in E0; by rewrite E0 in Er|].
  destruct Hm as (_ & Ec & ok & Em).
  assert (C : (fun cfg => (n_layers cfg, intermediate_dim cfg, hidden_dim cfg)) <$>
    load_gguf_config Engine.demo_path (Some Engine.demo_file) = Some (1, 1, 256)) by (vm_compute; reflexivity).
  rewrite Ec in C. injection C as Cn Ci Ch. rewrite Cn in Em.
  assert (M : (fun r => (fun l => (w_up l, type_w_up l)) <$> ModelFile.layers (snd r)) <$>
    load_and_map_weights (Some Engine.demo_file) true 1 = Some [(Some (Engine.data_start + 5 * Engine.stride), 12)]) by (vm_compute; reflexivity).
  rewrite Em in M. cbn [fmap option_fmap option_map snd] in M.
  destruct (ModelFile.layers mw) as [|lw0 [|]] eqn:L0; [discriminate M| |discriminate M]. cbn in M. injection M as Mu Mt.
  destruct (ModelFile.layers (Engine.model_weights_ eng)) as [|lw [|]] eqn:L1; [discriminate El| |discriminate El].
  cbn in El. injection El as El.
  set (up := mkSpec WUp (w_up lw0) (type_w_up lw0) (intermediate_dim cfg) (hidden_dim cfg)).
  assert (Eb : spec_bytes up = 144) by (unfold spec_bytes, up; cbn [spec_type spec_rows spec_cols]; by rewrite Mt, Ci, Ch).
  pose proof (fun s => HP up (Engine.data_start + 5 * Engine.stride) 6720 3 1 0 (replicate 256 2) [5] s) as HU.
  unfold up in HU. cbn [spec_type spec_rows spec_cols] in HU. fold up in HU. rewrite Mt, Ci, Ch, Eb in HU.
  destruct (peek_at Engine.demo_file (Engine.data_start + 5 * Engine.stride) 144) as [ws|] eqn:Ews.
  2:{ exfalso. revert Ews. vm_compute. discriminate. }
  exists lw, 6720, ws. split; [by left|]. split; [exact El|]. split; [reflexivity|]. intros s' -> Hw.
  destruct (HU (mkDevice w1 demo_mem false false [])) as (ws' & E' & G);
    [|reflexivity|vm_compute; reflexivity|vm_compute; reflexivity|vm_compute; discriminate|exact Hw|].
  - split; [|exact Mu|rewrite Eb; reflexivity]. exists 0%nat, lw0, lw. rewrite L0, L1. split_and!; [reflexivity|reflexivity| |exact El].
    unfold specs, up. do 5 right. left.
  - injection E' as <-. exact G.
Defined.

End Bridge.
