(* ===== verification/Generate.v ===== *)
(** * Generate: one request, [Engine::generate] of [src/engine/decode.cu]

    The limits on the prompt, hydration, both prefill paths, the first token
    (Path A), the decode loop with its stop conditions, and the save.  The
    forward pass is that of [Forward], the two ends of the persistent cache are
    those of [Session], the tokenizer is that of [Tokenizer].  Sampling is a
    parameter: any function of the logits, the recent tokens and a generator
    state.  What the outside decides during a request (the stop flag, the
    memory that is left, the status of the logits copy) is the record
    [Events].  Timing, temperature and messages are omitted. *)

From S2P Require Import Prelude Cuda Budget KVCache KVFile KVDir Session.
From S2P Require Import Tokenizer ModelFile Kernels Forward Cells Prefill.

Module Generate.
Import ModelFile Kernels Forward Cells Prefill.

(** The fields of [GenParams] and [GenStats] this file uses. *)
Record GenParams := mkParams { max_tokens : Z; conversation_id : bytes; kv_int8 : bool }.
Record GenStats := mkStats { prompt_tokens : Z; completion_tokens : Z; oom_stops : Z }.

Record Events := mkEvents {
  (** [stop_flag_] when the condition of iteration [i] is evaluated *)
  stop_flag : Z -> bool;
  (** [/proc/meminfo] at the memory check of a position *)
  meminfo : Z -> option bytes;
  (** [batched_prefill_enabled()] and [scratch_.capacity()] *)
  batched_enabled : bool;
  scratch_capacity : Z;
  (** buffers and logits copy of Path A, and of [decode_step(pos)] *)
  first_ok : bool;
  logits_ok : Z -> bool;
  (** host allocations *)
  alloc_ok : Z -> bool }.

(** [std::vector<uint32_t>::max_size()] *)
Definition max_size_u32 : Z := 2 ^ 61 - 1.

Section Generate.
Context `{RI : ReflexInfer} `{cuda : CudaMem}.
Context (config : ModelConfig) (mw : ModelWeights) (norm_weight : option Z -> bool -> nat -> float)
        (dequant_embedding : Z -> list Z).
Context (tk : Tokenizer.t) {R : Type} (sample_token : list float -> list Z -> R -> Z * R).
Context (params : GenParams) (ev : Events).

(** The state of a request: the cache, [last_token_], [recent_tokens_],
    [kv_tokens], [pos], the tokens passed to the callback so far, and the
    state of the sampler. *)
Record st := mkSt {
  kv : pool; last_token_ : Z; recent_tokens_ : list Z; kv_tokens : list Z; pos : Z;
  delivered : list Z; rng : R }.

(** What [token_cb] receives for a token. *)
Definition callback (token : Z) : bytes * bool :=
  (Tokenizer.decode tk token, token =? Tokenizer.eos_id tk).

(** [recent_tokens_]: at most 64. *)
Definition push_recent (recent : list Z) (token : Z) : list Z :=
  let recent := recent ++ [token] in
  if 64 <? zlen recent then tail recent else recent.

(** ** One decode step *)

Definition decode_step (p : Z) (s : st) : option (Z * st) :=
  '(x, pool') ← forward_token config mw (kv_int8 params) norm_weight dequant_embedding
                              (last_token_ s) p (kv s);
  if negb (logits_ok ev p) then
    Some (Tokenizer.eos_id tk,
          mkSt pool' (last_token_ s) (recent_tokens_ s) (kv_tokens s) (pos s) (delivered s) (rng s))
  else
    let '(token, r) := sample_token (logits_of config mw norm_weight x) (recent_tokens_ s) (rng s) in
    Some (token, mkSt pool' token (push_recent (recent_tokens_ s) token) (kv_tokens s) (pos s)
                      (delivered s) r).

(** The memory half of [check_memory_and_thermal]; the thermal half only
    sleeps. *)
Definition check_memory (p : Z) : bool :=
  Budget.can_extend 256 (meminfo ev p) (kv_per_token_bytes config (if kv_int8 params then 1 else 2)).

(** Before [decode_step(pos)]: the token about to be written is recorded. *)
Definition track (s : st) : st :=
  if i32 (zlen (kv_tokens s)) =? pos s
  then mkSt (kv s) (last_token_ s) (recent_tokens_ s) (kv_tokens s ++ [u32 (last_token_ s)]) (pos s)
            (delivered s) (rng s)
  else s.

(** After it: the position advances and the token is delivered. *)
Definition deliver (token : Z) (s : st) : st :=
  mkSt (kv s) (last_token_ s) (recent_tokens_ s) (kv_tokens s) (i32 (pos s + 1))
       (delivered s ++ [token]) (rng s).

(** The decode loop from iteration [i]; [n] is the number of iterations left,
    [max_tokens - i].  The second result is [oom_stops]. *)
Fixpoint decode_loop (limit : Z) (n : nat) (i : Z) (s : st) : option (st * Z) :=
  match n with
  | O => Some (s, 0)
  | S n =>
      if stop_flag ev i then Some (s, 0)
      else if limit <=? pos s then Some (s, 0)
      else if negb (check_memory (pos s)) then Some (s, 1)
      else
        '(token, s) ← decode_step (pos s) (track s);
        let s := deliver token s in
        if token =? Tokenizer.eos_id tk then Some (s, 0) else decode_loop limit n (i + 1) s
  end.

(** ** Prefill *)

(** [batched_fits]: the scratch the batched prefill needs, with a margin. *)
Definition batched_fits (n : Z) : bool :=
  let q := i32 (n_heads config * head_dim config) in
  let kvd := i32 (n_kv_heads config * head_dim config) in
  let per_token :=
    i64 (i32 (5 * hidden_dim config + 2 * q + 2 * kvd + 3 * intermediate_dim config) * 2) in
  let total := i64 (i64 (n * hidden_dim config * 2) + i64 (n * per_token)) in
  4 * 1024 * 1024 <=? i64 (scratch_capacity ev - total).

(** The tokens from [start] on; the result is [last_prefill_x] and the cache. *)
Definition prefill (start : Z) (toks : list Z) (p : pool) : option (option (list Z) * pool) :=
  let rest := drop (Z.to_nat start) toks in
  if bool_decide (rest = []) then Some (None, p)
  else if batched_enabled ev && batched_fits (zlen toks)
  then prefill_batched config mw (kv_int8 params) norm_weight dequant_embedding start rest p
  else prefill_tokens config mw (kv_int8 params) norm_weight dequant_embedding start rest None p.

(** ** Path A *)

(** The state after the prefill of [toks], and whether the loop is skipped. *)
Definition start_state (toks : list Z) (p : pool) (r : R) : st :=
  mkSt p (default 0 (last toks)) [] (u32 <$> toks) (zlen toks) [] r.

Definition path_a (toks : list Z) (x : option (list Z)) (s : st) : option Z * st :=
  match x with
  | Some x =>
      if first_ok ev then
        let '(first, r) := sample_token (logits_of config mw norm_weight x) [] (rng s) in
        if 0 <=? first then
          (Some first, mkSt (kv s) first (push_recent [] first) (kv_tokens s) (pos s) [first] r)
        else (None, mkSt (kv s) (last_token_ s) [] (kv_tokens s) (Z.max 0 (zlen toks - 1)) [] r)
      else (None, mkSt (kv s) (last_token_ s) [] (kv_tokens s) (Z.max 0 (zlen toks - 1)) [] (rng s))
  | None => (None, mkSt (kv s) (last_token_ s) [] (kv_tokens s) (Z.max 0 (zlen toks - 1)) [] (rng s))
  end.

(** The first token and the loop. *)
Definition decode_all (limit : Z) (toks : list Z) (x : option (list Z)) (p : pool) (r : R)
  : option (st * Z) :=
  match path_a toks x (start_state toks p r) with
  | (Some first, s) =>
      if first =? Tokenizer.eos_id tk then Some (s, 0)
      else decode_loop limit (Z.to_nat (max_tokens params - 1)) 1 s
  | (None, s) => decode_loop limit (Z.to_nat (max_tokens params)) 0 s
  end.

(** ** The request *)

(** The prompt's tokens; never empty. *)
Definition prompt_ids (prompt : bytes) : list Z :=
  let toks := Tokenizer.encode tk prompt in
  if bool_decide (toks = []) then [Tokenizer.bos_id tk] else toks.

(** The checks before any work: [false] throws. *)
Definition admits (limit : Z) (prompt : bytes) : bool :=
  let max_prompt_bytes := Z.max 4096 (u64 (u64 limit * 8)) in
  let n := zlen (prompt_ids prompt) in
  negb (max_prompt_bytes <? zlen prompt) && negb (limit <=? i32 n) &&
  negb (max_size_u32 <? u64 (n + max_tokens params)) && alloc_ok ev (4 * u64 (n + max_tokens params)).

(** [d] and [fp] are those of [Session]; [w] is the file system. *)
Definition generate `{KVDir.StdSort} (d : Session.Disk) (fp prompt : bytes) (p : pool) (r : R)
  (w : KVFile.world)
  : Session.outcome (GenStats * st * KVFile.world) :=
  let limit := KVCache.max_tokens p in
  if negb (admits limit prompt) then Session.Throws
  else
    let toks := prompt_ids prompt in
    let path := KVDir.path_for_conv_id (Session.cache_dir d) (conversation_id params) in
    match Session.try_hydrate_kv (Session.reader d) (alloc_ok ev) p fp (KVFile.files w !! path) toks
            (conversation_id params) with
    | Session.Throws => Session.Throws
    | Session.Undefined => Session.Undefined
    | Session.Done (prefill_start, p) =>
        match '(x, p) ← prefill prefill_start toks p; decode_all limit toks x p r with
        | None => Session.Undefined
        | Some (s, oom) =>
            let w := Session.persist_turn d (kv s) fp (conversation_id params)
                       (kv_tokens s) (kv_int8 params) w in
            Session.Done (mkStats (zlen (Tokenizer.encode tk prompt)) (zlen (delivered s)) oom, s, w)
        end
    end.

End Generate.

(** ** The specification: autoregressive decoding *)

Section Spec.
Context `{RL : ReflexLaws} `{cuda : CudaMem} {cuda_laws : CudaMemLaws}.
Context (i8 : bool) (config : ModelConfig) (mw : ModelWeights) (norm_weight : option Z -> bool -> nat -> float)
        (dequant_embedding : Z -> list Z).
Context (tk : Tokenizer.t) {R : Type} (sample_token : list float -> list Z -> R -> Z * R).

Abbreviation spec start toks last V :=
  (prefill_spec i8 config mw norm_weight dequant_embedding start toks last V).
Abbreviation one_token pos t V :=
  (token_layers i8 config norm_weight (model_layers config mw) pos (dequant_embedding t) V).

(** The cache and the last residual of a token sequence, computed from an empty
    cache, one token after the other. *)
Definition kv_of (toks : list Z) : kvmap := (spec 0 toks None ∅).2.
Definition residual (toks : list Z) : list Z := default [] (spec 0 toks None ∅).1.
Definition next_logits (toks : list Z) : list float := logits_of config mw norm_weight (residual toks).

(** The tokens an ideal decoder emits after [toks]: every token is sampled from
    the logits of the whole sequence so far; it stops after [eos], when [n]
    tokens are out, or when the context is full. *)
Fixpoint reference (limit : Z) (n : nat) (toks recent : list Z) (r : R) : list Z :=
  match n with
  | O => []
  | S n =>
      if limit <=? zlen toks - 1 then []
      else
        let '(t, r) := sample_token (next_logits toks) recent r in
        t :: (if t =? Tokenizer.eos_id tk then []
              else reference limit n (toks ++ [t]) (push_recent recent t) r)
  end.

(** A cache holds the rows of a token sequence. *)
Definition same_on (P : Z -> Z -> Prop) (V V' : kvmap) : Prop :=
  forall l i v, P l i -> V !! (l, i, v) = V' !! (l, i, v).
Definition slots_of (toks : list Z) (l i : Z) : Prop := 0 <= l < n_layers config /\ 0 <= i < zlen toks.
Definition holds (V : kvmap) (toks : list Z) : Prop := same_on (slots_of toks) V (kv_of toks).

Lemma zlen_snoc {A} (l : list A) x : zlen (l ++ [x]) = zlen l + 1.
Proof. unfold zlen. rewrite length_app. cbn. lia. Qed.

(** ** A token depends on the rows before it only *)

Lemma hist_same P V V' l v n :
  same_on P V V' -> (forall i : nat, (i < n)%nat -> P l (Z.of_nat i)) ->
  forall part, hist part V l v n = hist part V' l v n.
Proof.
  intros Hs HP part. unfold hist. f_equal. apply list_fmap_ext. intros i x [-> Hi]%lookup_seq.
  cbn. by rewrite (Hs l (Z.of_nat i) v) by by apply HP.
Qed.

Lemma put_kv_lookup (V : kvmap) (l pos : Z) (k v' : bytes) (l' i : Z) (v : bool) :
  put_kv V l pos k v' !! (l', i, v) =
  if decide (l' = l /\ i = pos) then Some (if v then v' else k) else V !! (l', i, v).
Proof.
  unfold put_kv. case_decide as D.
  - destruct D as [-> ->]. destruct v; [by rewrite lookup_insert_eq|].
    rewrite lookup_insert_ne by congruence. by rewrite lookup_insert_eq.
  - rewrite !lookup_insert_ne; [done|..]; intros [= <- <- ?]; by apply D.
Qed.

Lemma token_layers_same ls pos x P V V' :
  0 <= pos -> same_on P V V' -> (forall l i, l ∈ ls.*1 -> 0 <= i < pos -> P l i) ->
  (token_layers i8 config norm_weight ls pos x V).1 = (token_layers i8 config norm_weight ls pos x V').1 /\
  same_on (fun l i => P l i \/ l ∈ ls.*1 /\ i = pos)
    (token_layers i8 config norm_weight ls pos x V).2 (token_layers i8 config norm_weight ls pos x V').2.
Proof.
  intros Hp. revert P V V' x. induction ls as [|[l lw] ls IH]; intros P V V' x Hs HP.
  { split; [done|]. intros l i v [Hl|[Hl _]]; [by apply Hs|by apply not_elem_of_nil in Hl]. }
  cbn [token_layers fmap list_fmap fst] in *.
  set (Q := fun l' i => P l' i \/ l' = l /\ i = pos).
  assert (HQ : same_on Q (layer_state i8 config norm_weight lw l pos x V)
                         (layer_state i8 config norm_weight lw l pos x V')).
  { intros l' i v HQ. unfold layer_state, put_token. rewrite !put_kv_lookup. case_decide; [done|].
    apply Hs. by destruct HQ. }
  assert (Hout : layer_out i8 config norm_weight lw l pos x V = layer_out i8 config norm_weight lw l pos x V').
  { assert (Hh : forall part v, hist part (layer_state i8 config norm_weight lw l pos x V) l v (Z.to_nat (pos + 1)) =
      hist part (layer_state i8 config norm_weight lw l pos x V') l v (Z.to_nat (pos + 1))).
    { intros part v. apply (hist_same Q); [done|]. intros i Hi.
      destruct (decide (Z.of_nat i = pos)); [by right|left; apply HP; [left|lia]]. }
    unfold layer_out, attend, scale_hist. by rewrite !Hh. }
  rewrite Hout. destruct (IH Q _ _ (layer_out i8 config norm_weight lw l pos x V') HQ) as [E1 E2].
  { intros l' i Hl' Hi. left. apply HP; [by right|done]. }
  split; [exact E1|]. intros l' i v [Hl|[[->|Hl]%elem_of_cons Hi]]; apply E2; unfold Q; auto.
Qed.

Lemma token_layers_keeps ls pos x V (l i : Z) (v : bool) :
  i <> pos -> (token_layers i8 config norm_weight ls pos x V).2 !! (l, i, v) = V !! (l, i, v).
Proof.
  intros Hi. revert V x. induction ls as [|[l' lw] ls IH]; intros V x; [done|]. cbn [token_layers].
  rewrite IH. unfold layer_state, put_token. rewrite put_kv_lookup, decide_False; [done|].
  by intros [_ ?].
Qed.

Lemma spec_app start a b last V :
  spec start (a ++ b) last V =
  spec (start + zlen a) b (spec start a last V).1 (spec start a last V).2.
Proof.
  revert start last V. induction a as [|t a IH]; intros start last V.
  - cbn [app]. by rewrite zlen_nil, Z.add_0_r.
  - cbn [app prefill_spec]. destruct (one_token start t V) as [x V']. rewrite IH, zlen_cons.
    by replace (start + (1 + zlen a)) with (start + 1 + zlen a) by lia.
Qed.

Lemma spec_keeps start toks last V (l i : Z) (v : bool) :
  i < start -> (spec start toks last V).2 !! (l, i, v) = V !! (l, i, v).
Proof.
  revert start last V. induction toks as [|t toks IH]; intros start last V Hi; [done|].
  cbn [prefill_spec]. pose proof (token_layers_keeps (model_layers config mw) start (dequant_embedding t)
    V l i v ltac:(lia)) as E. destruct (one_token start t V) as [x V']. rewrite IH by lia. exact E.
Qed.

Lemma kv_of_snoc toks t :
  kv_of (toks ++ [t]) = (one_token (zlen toks) t (kv_of toks)).2 /\
  residual (toks ++ [t]) = (one_token (zlen toks) t (kv_of toks)).1.
Proof.
  unfold kv_of, residual. rewrite spec_app. cbn [prefill_spec]. rewrite Z.add_0_l.
  by destruct (one_token (zlen toks) t _).
Qed.

Lemma holds_prefix V a b : holds V (a ++ b) -> holds V a.
Proof.
  intros Hh l i v [Hl Hi]. rewrite Hh; [|split; [done|rewrite zlen_app; pose proof (zlen_nonneg b); lia]].
  unfold kv_of. rewrite spec_app, spec_keeps by lia. done.
Qed.

Context (Hlayers : (model_layers config mw).*1 = upto (n_layers config)).

(** One more token. *)
Lemma holds_snoc V toks t :
  holds V toks ->
  (one_token (zlen toks) t V).1 = residual (toks ++ [t]) /\
  holds (one_token (zlen toks) t V).2 (toks ++ [t]).
Proof.
  intros Hh. destruct (kv_of_snoc toks t) as [Ek Er]. pose proof (zlen_nonneg toks).
  destruct (token_layers_same (model_layers config mw) (zlen toks) (dequant_embedding t)
    (slots_of toks) V (kv_of toks)) as [E1 E2]; [done|done| |].
  { intros l i Hl Hi. rewrite Hlayers, elem_of_upto in Hl. by split. }
  rewrite Er. split; [exact E1|]. intros l i v [Hl Hi]. rewrite Ek. apply E2.
  rewrite zlen_snoc in Hi.
  destruct (decide (i = zlen toks)) as [->|]; [right|left; split; lia].
  rewrite Hlayers, elem_of_upto. done.
Qed.

(** A prefill of the rest of a sequence. *)
Lemma holds_prefill V pre rest last :
  holds V pre -> rest <> [] ->
  default [] (spec (zlen pre) rest last V).1 = residual (pre ++ rest) /\
  is_Some (spec (zlen pre) rest last V).1 /\ holds (spec (zlen pre) rest last V).2 (pre ++ rest).
Proof.
  revert V pre last. induction rest as [|t rest IH]; intros V pre last Hh Hne; [done|].
  cbn [prefill_spec]. destruct (holds_snoc V pre t Hh) as [E1 E2].
  destruct (one_token (zlen pre) t V) as [x V']. cbn [fst snd] in *.
  destruct rest as [|u rest]; [cbn; subst x; by eauto|].
  destruct (IH V' (pre ++ [t]) (Some x) E2 ltac:(done)) as (F1 & F2 & F3).
  rewrite <- app_assoc in F1, F3. rewrite zlen_snoc in F1, F2, F3. done.
Qed.

Lemma holds_nil V : holds V [].
Proof. intros l i v [_ [? Hi]]. unfold zlen in Hi. cbn in Hi. lia. Qed.

(** ** The decode loop follows the reference *)

Context (params : GenParams) (ev : Events).
Context (Hi8 : kv_int8 params = i8)
        (Hembed : forall t, length (dequant_embedding t) = H_ config)
        (Hsample : forall logits recent r, 0 <= (sample_token logits recent r).1 < 2 ^ 31)
        (Hlogits : forall p, logits_ok ev p = true).

Abbreviation tok_ok := (fun t : Z => 0 <= t < 2 ^ 31).
Abbreviation state := (st (R := R)).
Abbreviation loop := (decode_loop config mw norm_weight dequant_embedding tk sample_token params ev).

(** The cache of a state holds the rows of its [kv_tokens]. *)
Definition coherent (c : KVCache.Config) (s : state) : Prop :=
  fits i8 config mw (kv s) /\ KVCache.cfg_ (kv s) = c /\
  zlen (kv_tokens s) <= KVCache.max_context c /\
  exists V b, repr i8 (kv s) V /\ holds V b /\ kv_tokens s = u32 <$> b /\ Forall tok_ok b.

(** Before an iteration: [t] is the last token, [body] the tokens before it.
    In the fallback of Path A the row of [t] is already there. *)
Definition inv (c : KVCache.Config) (s : state) (body : list Z) (t : Z) : Prop :=
  fits i8 config mw (kv s) /\ KVCache.cfg_ (kv s) = c /\ last_token_ s = t /\ pos s = zlen body /\
  Forall tok_ok (body ++ [t]) /\ zlen (kv_tokens s) <= KVCache.max_context c /\
  exists V, repr i8 (kv s) V /\ holds V body /\
    (kv_tokens s = u32 <$> body \/ kv_tokens s = u32 <$> (body ++ [t]) /\ holds V (body ++ [t])).

Lemma inv_coherent c s body t : inv c s body t -> coherent c s.
Proof.
  intros (Hf & Hc & _ & _ & Ht & Hn & V & HV & Hh & Hk). split; [done|]. split; [done|]. split; [done|].
  destruct Hk as [Hk|[Hk Hh']]; [exists V, body|exists V, (body ++ [t])]; split_and!; try done.
  by apply Forall_app in Ht as [? _].
Qed.

(** One pass through the model. *)
Lemma forward_ok p V t ps :
  fits i8 config mw p -> repr i8 p V -> 0 <= ps < KVCache.max_context (KVCache.cfg_ p) ->
  exists p', forward_token config mw i8 norm_weight dequant_embedding t ps p = Some ((one_token ps t V).1, p') /\
    becomes i8 config mw p p' (one_token ps t V).2.
Proof.
  intros Hf HV Hp. destruct (model_layers_known i8 config mw p Hf) as (Hk & Em & _).
  destruct (layers_at_ok i8 config mw norm_weight _ ps p V (dequant_embedding t) Hf HV Hp Hk (Hembed t))
    as (p' & E & HB & _).
  exists p'. unfold forward_token. by rewrite <- Em, E.
Qed.

(** One iteration. *)
Lemma step_ok c s body t :
  inv c s body t -> zlen body < KVCache.max_context c -> KVCache.max_context c < 2 ^ 31 ->
  let '(u, r) := sample_token (next_logits (body ++ [t])) (recent_tokens_ s) (rng s) in
  exists s', decode_step config mw norm_weight dequant_embedding tk sample_token params ev (pos s) (track s)
      = Some (u, s') /\ inv c (deliver u s') (body ++ [t]) u /\
    delivered (deliver u s') = delivered s ++ [u] /\
    recent_tokens_ (deliver u s') = push_recent (recent_tokens_ s) u /\ rng (deliver u s') = r.
Proof.
  intros (Hf & Hc & Hl & Hp & Ht & Hn & V & HV & Hh & Hk) Hctx H31. pose proof (zlen_nonneg body).
  destruct (sample_token _ _ _) as [u r] eqn:Es.
  assert (Ek : track s = mkSt (kv s) (last_token_ s) (recent_tokens_ s) (u32 <$> (body ++ [t])) (pos s)
                              (delivered s) (rng s)).
  { unfold track. destruct Hk as [Hk|[Hk _]]; rewrite Hk, Hp; unfold zlen at 1; rewrite length_fmap.
    - fold (zlen body). rewrite i32_id by lia. rewrite Z.eqb_refl, Hl, fmap_app. done.
    - fold (zlen (body ++ [t])). rewrite zlen_snoc, i32_id by lia.
      destruct (Z.eqb_spec (zlen body + 1) (zlen body)); [lia|]. rewrite <- Hk, <- Hp. by destruct s. }
  rewrite Ek. unfold decode_step. cbn [kv last_token_ recent_tokens_ rng kv_tokens pos delivered].
  rewrite Hi8, Hl, Hp. destruct (forward_ok (kv s) V t (zlen body) Hf HV) as (p' & -> & HB);
    [rewrite Hc; lia|]. pose proof (becomes_cfg _ _ _ _ _ _ HB) as Hc'. destruct HB as [_ Hf' HV'].
  cbn [mbind option_bind]. rewrite Hlogits. cbn [negb].
  destruct (holds_snoc V body t Hh) as [E1 E2].
  unfold next_logits in Es. rewrite <- E1 in Es. rewrite Es.
  eexists. split; [done|]. unfold inv, deliver.
  cbn [kv last_token_ recent_tokens_ rng kv_tokens pos delivered]. split_and!; try done.
  - by rewrite Hc'.
  - rewrite zlen_snoc, i32_id by lia. done.
  - apply Forall_app. split; [done|]. constructor; [|done].
    pose proof (Hsample (logits_of config mw norm_weight (one_token (zlen body) t V).1)
      (recent_tokens_ s) (rng s)) as Hs. by rewrite Es in Hs.
  - unfold zlen at 1. rewrite length_fmap. fold (zlen (body ++ [t])). rewrite zlen_snoc. lia.
  - exists (one_token (zlen body) t V).2. split_and!; [done|done|]. by left.
Qed.

(** Nothing interrupts the request. *)
Definition quiet : Prop :=
  (forall i, stop_flag ev i = false) /\ (forall p, check_memory config params ev p = true).

Lemma decode_loop_ok c limit n i s body t :
  inv c s body t -> limit <= KVCache.max_context c -> KVCache.max_context c < 2 ^ 31 ->
  exists s' oom, loop limit n i s = Some (s', oom) /\ coherent c s' /\
    (exists k, delivered s' = delivered s ++
       take k (reference limit n (body ++ [t]) (recent_tokens_ s) (rng s))) /\
    (quiet -> delivered s' = delivered s ++ reference limit n (body ++ [t]) (recent_tokens_ s) (rng s)).
Proof.
  intros Hi Hlim H31. revert i s body t Hi. induction n as [|n IH]; intros i s body t Hi.
  { exists s, 0. cbn. split_and!; [done|by eapply inv_coherent|exists 0%nat|]; by rewrite app_nil_r. }
  assert (Hcoh : coherent c s) by (by eapply inv_coherent).
  assert (Hk0 : exists k, delivered s = delivered s ++
    take k (reference limit (S n) (body ++ [t]) (recent_tokens_ s) (rng s)))
    by (exists 0%nat; by rewrite take_0, app_nil_r).
  assert (Hp : pos s = zlen body) by by destruct Hi as (_ & _ & _ & ? & _).
  cbn [decode_loop]. destruct (stop_flag ev i) eqn:Est.
  { exists s, 0. split_and!; try done. intros [Hq _]. by rewrite Hq in Est. }
  destruct (Z.leb_spec limit (pos s)) as [Hfull|Hroom].
  { exists s, 0. split_and!; try done. intros _. cbn [reference]. rewrite zlen_snoc. destruct (Z.leb_spec limit (zlen body + 1 - 1)); [|lia].
    by rewrite app_nil_r. }
  destruct (check_memory config params ev (pos s)) eqn:Em; cbn [negb].
  2: { exists s, 1. split_and!; try done. intros [_ Hq]. by rewrite Hq in Em. }
  cbn [reference]. rewrite zlen_snoc. destruct (Z.leb_spec limit (zlen body + 1 - 1)); [lia|].
  pose proof (step_ok c s body t Hi ltac:(lia) H31) as Hstep.
  destruct (sample_token (next_logits (body ++ [t])) (recent_tokens_ s) (rng s)) as [u r].
  destruct Hstep as (s1 & -> & Hi1 & Hd1 & Hr1 & Hg1). cbn [mbind option_bind].
  destruct (u =? Tokenizer.eos_id tk).
  - exists (deliver u s1), 0. split_and!; [done|by eapply inv_coherent|exists 1%nat|]; by rewrite Hd1.
  - destruct (IH (i + 1) (deliver u s1) (body ++ [t]) u Hi1) as (s' & o & E & Hc & [k Hk] & Hq).
    exists s', o. rewrite E, Hr1, Hg1, Hd1 in *. split_and!; [done|done| |].
    + exists (S k). rewrite Hk, <- app_assoc. done.
    + intros Hqu. rewrite (Hq Hqu), <- app_assoc. done.
Qed.

(** ** Prefill and the first token *)

Lemma prefill_ok p V toks start :
  fits i8 config mw p -> repr i8 p V -> 0 <= start <= zlen toks ->
  zlen toks <= KVCache.max_context (KVCache.cfg_ p) -> holds V (take (Z.to_nat start) toks) ->
  exists x p', prefill config mw norm_weight dequant_embedding params ev start toks p = Some (x, p') /\
    fits i8 config mw p' /\ KVCache.cfg_ p' = KVCache.cfg_ p /\
    (exists V', repr i8 p' V' /\ holds V' toks) /\ (x = None \/ x = Some (residual toks)).
Proof.
  intros Hf HV Hs Hc Hh. unfold prefill. rewrite Hi8.
  set (pre := take (Z.to_nat start) toks) in *. set (rest := drop (Z.to_nat start) toks).
  assert (E : pre ++ rest = toks) by apply take_drop.
  assert (Hpre : zlen pre = start) by (unfold pre, zlen in *; rewrite length_take; lia).
  destruct (decide (rest = [])) as [Hr|Hr].
  { rewrite bool_decide_true by done. rewrite Hr, app_nil_r in E. exists None, p.
    split_and!; try done; [|by left]. exists V. by rewrite <- E. }
  rewrite bool_decide_false by done.
  assert (Hlen : start + zlen rest <= KVCache.max_context (KVCache.cfg_ p))
    by (rewrite <- Hpre, <- zlen_app, E; lia).
  destruct (holds_prefill V pre rest None Hh Hr) as (E1 & [x E2] & E3).
  rewrite Hpre, E in *. rewrite E2 in E1. cbn [from_option] in E1. unfold id in E1. subst x.
  destruct (batched_enabled ev && _).
  - destruct (prefill_batched_ok i8 config mw norm_weight dequant_embedding start rest p V Hf HV)
      as (p' & E4 & HB & _); [lia|done|done|done|].
    exists (Some (residual toks)), p'. rewrite E4, E2. pose proof (becomes_cfg _ _ _ _ _ _ HB).
    destruct HB as [_ Hf' HV']. split_and!; try done; [eauto|by right].
  - destruct (prefill_tokens_ok i8 config mw norm_weight dequant_embedding start rest None p V Hf HV)
      as (p' & E4 & HB); [lia|done|done|].
    exists (Some (residual toks)), p'. rewrite E4, E2. pose proof (becomes_cfg _ _ _ _ _ _ HB).
    destruct HB as [_ Hf' HV']. split_and!; try done; [eauto|by right].
Qed.

(** The state after Path A, or its fallback, satisfies the loop invariant. *)
Lemma decode_all_ok c limit toks x p V r :
  fits i8 config mw p -> KVCache.cfg_ p = c -> repr i8 p V -> holds V toks -> toks <> [] ->
  Forall tok_ok toks -> zlen toks < limit -> limit <= KVCache.max_context c ->
  KVCache.max_context c < 2 ^ 31 -> x = None \/ x = Some (residual toks) -> 1 <= max_tokens params ->
  exists s oom,
    decode_all config mw norm_weight dequant_embedding tk sample_token params ev limit toks x p r
      = Some (s, oom) /\ coherent c s /\
    (exists k, delivered s = take k (reference limit (Z.to_nat (max_tokens params)) toks [] r)) /\
    (quiet -> delivered s = reference limit (Z.to_nat (max_tokens params)) toks [] r).
Proof.
  intros Hf Hc HV Hh Hne Htok Hlt Hlim H31 Hx Hmax.
  destruct (exists_last Hne) as (body & t & Eb).
  assert (Hlast : last toks = Some t) by (rewrite Eb; apply last_snoc).
  (* the fallback: the loop starts one position back *)
  assert (Hfall : forall r0, inv c (mkSt p (default 0 (last toks)) [] (u32 <$> toks)
                              (Z.max 0 (zlen toks - 1)) [] r0) body t).
  { intros r0. split_and!; try done; cbn [kv last_token_ pos kv_tokens].
    - by rewrite Hlast.
    - rewrite Eb, zlen_snoc. pose proof (zlen_nonneg body). lia.
    - by rewrite <- Eb.
    - unfold zlen at 1. rewrite length_fmap. fold (zlen toks). lia.
    - exists V. rewrite <- Eb. split_and!; [done| |by right]. rewrite Eb in Hh. by eapply holds_prefix. }
  assert (Hfb : exists s oom, loop limit (Z.to_nat (max_tokens params)) 0
      (mkSt p (default 0 (last toks)) [] (u32 <$> toks) (Z.max 0 (zlen toks - 1)) [] r) = Some (s, oom) /\
    coherent c s /\
    (exists k, delivered s = take k (reference limit (Z.to_nat (max_tokens params)) toks [] r)) /\
    (quiet -> delivered s = reference limit (Z.to_nat (max_tokens params)) toks [] r)).
  { destruct (decode_loop_ok c limit (Z.to_nat (max_tokens params)) 0 _ body t (Hfall r) Hlim H31)
      as (s & oom & E & H'). rewrite <- Eb in H'. by exists s, oom. }
  unfold decode_all, path_a, start_state. cbn [kv last_token_ kv_tokens pos rng].
  destruct Hx as [->| ->]; [exact Hfb|]. destruct (first_ok ev); [|exact Hfb].
  pose proof (Hsample (next_logits toks) [] r) as Hs0.
  assert (Eref : reference limit (Z.to_nat (max_tokens params)) toks [] r =
    let '(t, r) := sample_token (next_logits toks) [] r in
    t :: (if t =? Tokenizer.eos_id tk then []
          else reference limit (Z.to_nat (max_tokens params - 1)) (toks ++ [t]) (push_recent [] t) r)).
  { replace (Z.to_nat (max_tokens params)) with (S (Z.to_nat (max_tokens params - 1))) by lia.
    cbn [reference]. destruct (Z.leb_spec limit (zlen toks - 1)); [lia|done]. }
  rewrite Eref. unfold next_logits in Hs0, Eref |- *.
  destruct (sample_token (logits_of config mw norm_weight (residual toks)) [] r) as [u r'].
  cbn [fst] in Hs0. destruct (Z.leb_spec 0 u); [|lia].
  assert (Hi : inv c (mkSt p u (push_recent [] u) (u32 <$> toks) (zlen toks) [u] r') toks u).
  { split_and!; try done; [apply Forall_app; split; [done|by constructor]| |].
    { cbn [kv_tokens]. unfold zlen at 1. rewrite length_fmap. fold (zlen toks). lia. } exists V.
    split_and!; [done|done|by left]. }
  destruct (u =? Tokenizer.eos_id tk).
  - eexists _, 0. split_and!; [done|by eapply inv_coherent|by exists 1%nat|done].
  - destruct (decode_loop_ok c limit (Z.to_nat (max_tokens params - 1)) 1 _ toks u Hi Hlim H31)
      as (s & oom & E & Hco & [k Hk] & Hq). cbn [delivered recent_tokens_ rng] in Hk, Hq.
    exists s, oom. split_and!; [done|done|exists (S k); by rewrite Hk|]. intros Hqu. by rewrite (Hq Hqu).
Qed.

(** ** A request, and a conversation of requests *)

(** The cache file of a conversation is absent, or holds the rows of some token
    sequence, for this model, configuration and fingerprint.  An INT8 cache is
    never saved. *)
Definition trusted (c : KVCache.Config) (fp : bytes) (file : option bytes) : Prop :=
  file = None \/
  i8 = false /\ exists ts f, file = Some f /\ Forall tok_ok ts /\
    Session.holds_turn c fp (fun l ps v => kv_of ts !! (l, ps, v)) ts f.

(** Every file a conversation may find in the cache directory is. *)
Definition trusted_dir (c : KVCache.Config) (fp dir : bytes) (fs : gmap bytes bytes) : Prop :=
  forall id, id <> [] -> KVDir.validate_conversation_id id = true ->
    trusted c fp (fs !! KVDir.path_for_conv_id dir id).

Lemma u32_toks ts : Forall tok_ok ts -> u32 <$> ts = ts.
Proof.
  induction 1 as [|t ts Ht _ IH]; [done|]. cbn [fmap list_fmap]. rewrite u32_id by lia.
  f_equal. exact IH.
Qed.

Lemma kv_of_take ts m : holds (kv_of ts) (take m ts).
Proof. apply holds_prefix with (b := drop m ts). rewrite take_drop. by intros l i v _. Qed.

(** Hydration leaves the rows of a prefix of the prompt, possibly empty. *)
Lemma hydrate_ok rd fp file p toks :
  fits i8 config mw p -> Session.int_config (KVCache.cfg_ p) -> length fp = 32%nat ->
  KVFile.reader_ok rd -> (forall n, alloc_ok ev n = true) -> toks <> [] -> Forall tok_ok toks ->
  (conversation_id params <> [] -> KVDir.validate_conversation_id (conversation_id params) = true ->
   trusted (KVCache.cfg_ p) fp file) ->
  exists start p', Session.try_hydrate_kv rd (alloc_ok ev) p fp file toks (conversation_id params)
      = Session.Done (start, p') /\
    fits i8 config mw p' /\ KVCache.cfg_ p' = KVCache.cfg_ p /\ 0 <= start <= zlen toks /\
    exists V, repr i8 p' V /\ holds V (take (Z.to_nat start) toks).
Proof.
  intros Hf Hic Hfp Hrd Hal Hne Htok Htr. destruct (fit_pool _ _ _ p Hf) as [gp Hgp].
  assert (Hcold : exists V, repr i8 p V /\ holds V (take (Z.to_nat 0) toks))
    by (exists (view i8 p); split; [by eapply fits_view|apply holds_nil]).
  pose proof (zlen_nonneg toks) as Hz.
  destruct (decide (conversation_id params = [] \/ KVDir.validate_conversation_id (conversation_id params) = false))
    as [Hid|Hid].
  { exists 0, p. split_and!; try done. unfold Session.try_hydrate_kv. destruct Hid as [->|Hv]; [done|].
    rewrite Hv, orb_true_r. done. }
  assert (Hv : KVDir.validate_conversation_id (conversation_id params) = true)
    by (destruct (KVDir.validate_conversation_id _); [done|exfalso; auto]).
  destruct (Htr (fun Hi => Hid (or_introl Hi)) Hv) as [->|(H16 & ts & f & -> & Hts & Hturn)].
  { exists 0, p. split_and!; try done. unfold Session.try_hydrate_kv.
    rewrite Hv, !bool_decide_false by auto. unfold KVFile.peek_kv_header. cbn. by destruct (negb _). }
  destruct (Session.hydrate_holds rd (alloc_ok ev) p gp fp (conversation_id params) ts toks
    (fun l ps v => kv_of ts !! (l, ps, v)) f Hic Hgp Hfp)
    as (start & p' & g & E & Hg & Hcfg & Hr & _ & Hrows);
    [eapply Forall_impl; [exact Hts|cbn; lia]|done|auto|done|done|done|exact Hturn|].
  destruct (Session.matched_prefix_spec ts toks) as [Em _].
  destruct (Session.matched_prefix_bound ts toks) as [Hb1 Hb2].
  set (m := Session.matched_prefix ts toks) in *. exists start, p'.
  split_and!; [done| |done|destruct Hr; unfold zlen; lia|destruct Hr; unfold zlen; lia|].
  { destruct Hf. constructor; rewrite ?Hcfg; try done; [by exists g|by rewrite H16]. }
  exists (view i8 p'). rewrite H16. assert (Hrd' : repr false p' (view false p')).
  { apply view_repr. intros l ps v Hl Hq. destruct (read_slot_Some p' g Hg l ps v Hl Hq) as (bs & E' & _). by exists bs. }
  split; [exact Hrd'|].
  destruct Hr as [->| ->]; [apply holds_nil|]. rewrite Nat2Z.id.
  assert (Htk : take m toks = take m ts).
  { rewrite Em. symmetry. apply u32_toks. by apply Forall_take. }
  rewrite Htk. intros l i v [Hl Hi]. rewrite <- (kv_of_take ts m) by by split.
  assert (Hlen : zlen (take m ts) = Z.of_nat m) by (unfold zlen; rewrite length_take; lia).
  rewrite Hlen in Hi. destruct Hturn as [Hturn _].
  assert (Hin : 0 <= l < KVCache.n_layers (KVCache.cfg_ p)) by by rewrite (fit_layers _ _ _ _ Hf).
  assert (Hctx : 0 <= i < KVCache.max_context (KVCache.cfg_ p)) by (unfold zlen in *; lia).
  rewrite <- Hrd' by by rewrite Hcfg. cbn [read_entry].
  rewrite Hrows by (done || lia). destruct (Z.ltb_spec i (Z.of_nat m)); [done|lia].
Qed.

(** Every state of the save and of the two passes after it. *)
Lemma save_ok `{KVDir.StdSort} d c fp s fs files :
  coherent c s -> Session.int_config c -> length fp = 32%nat -> zlen (kv_tokens s) < 2 ^ 31 ->
  trusted_dir c fp (Session.cache_dir d) fs ->
  files ∈ KVFile.visited (Session.persist_turn d (kv s) fp (conversation_id params) (kv_tokens s) i8
                            (KVFile.W fs [])) ->
  trusted_dir c fp (Session.cache_dir d) files.
Proof.
  intros (Hf & Hc & _ & V & b & HV & Hh & Hk & Htok) Hic Hfp Hlen Htr Hs id Hid Hv.
  destruct (fit_pool _ _ _ _ Hf) as [g Hg].
  pose proof (KVDir.default_kv_cache_dir_nonempty (Session.env_dir d)) as Hd.
  fold (Session.cache_dir d) in Hd.
  assert (Htmp : KVDir.path_for_conv_id (Session.cache_dir d) id <>
    KVFile.tmp_of (KVDir.path_for_conv_id (Session.cache_dir d) (conversation_id params)))
    by by apply KVDir.path_for_conv_id_tmp.
  rewrite <- Hc in Hic. destruct (Session.persist_turn_states d (kv s) g fp (conversation_id params)
    (kv_tokens s) i8 fs files _ Hic Hg Hfp Hlen Hs Htmp) as [->|[->|(Hi & f & Ef & Hn & body & Eb & Hbl & Hrows)]];
    [by apply Htr|by left|].
  rewrite Hk, (u32_toks b Htok) in Hn, Eb, Hbl, Hrows. rewrite Hc in *.
  right. split; [done|]. exists b, f. split; [done|]. split; [done|]. split; [exact Hn|].
  exists body. split; [done|]. split; [done|].
  intros l ps v Hl Hps. rewrite Hrows by done. pose proof (HV l ps v) as HVe. rewrite Hi, Hc in HVe. cbn [read_entry] in HVe.
  rewrite HVe by (done || lia). apply Hh.
  split; [|done]. by rewrite <- (fit_layers _ _ _ _ Hf), Hc.
Qed.

(** A request that is admitted completes; see [generate_correct]. *)
Lemma generate_ok `{KVDir.StdSort} d fp prompt p r fs :
  fits i8 config mw p -> Session.int_config (KVCache.cfg_ p) ->
  KVCache.overflow_context (KVCache.cfg_ p) = 0 -> length fp = 32%nat ->
  KVFile.reader_ok (Session.reader d) -> (forall n, alloc_ok ev n = true) ->
  Forall tok_ok (prompt_ids tk prompt) -> zlen (prompt_ids tk prompt) < 2 ^ 31 ->
  1 <= max_tokens params -> admits tk params ev (KVCache.max_tokens p) prompt = true ->
  trusted_dir (KVCache.cfg_ p) fp (Session.cache_dir d) fs ->
  let ref := reference (KVCache.max_tokens p) (Z.to_nat (max_tokens params)) (prompt_ids tk prompt) [] r in
  exists stats s w',
    generate config mw norm_weight dequant_embedding tk sample_token params ev
      d fp prompt p r (KVFile.W fs []) = Session.Done (stats, s, w') /\
    completion_tokens stats = zlen (delivered s) /\
    (exists k, delivered s = take k ref) /\ (quiet -> delivered s = ref) /\
    coherent (KVCache.cfg_ p) s /\
    (forall files, files ∈ KVFile.visited w' ->
       trusted_dir (KVCache.cfg_ p) fp (Session.cache_dir d) files).
Proof.
  intros Hf Hic Hov Hfp Hrd Hal Htok Hlen Hmax Hadm Htr ref.
  pose proof (Session.ic_ok _ Hic) as Hc. pose proof (KVCache.ok_tokens _ Hc) as Ht31.
  pose proof (KVCache.ok_ctx _ Hc) as Hc0.
  assert (Hlimit : KVCache.max_tokens p = KVCache.max_context (KVCache.cfg_ p))
    by (unfold KVCache.max_tokens; rewrite Hov, i32_id by lia; lia).
  set (toks := prompt_ids tk prompt) in *.
  assert (Hne : toks <> []) by (unfold toks, prompt_ids; case_bool_decide; done).
  assert (Hlt : zlen toks < KVCache.max_tokens p).
  { unfold admits in Hadm. fold toks in Hadm. pose proof (zlen_nonneg toks).
    rewrite !andb_true_iff, !negb_true_iff in Hadm. destruct Hadm as [[[_ Hadm] _] _].
    apply Z.leb_gt in Hadm. by rewrite i32_id in Hadm by lia. }
  destruct (hydrate_ok (Session.reader d) fp
    (fs !! KVDir.path_for_conv_id (Session.cache_dir d) (conversation_id params)) p toks Hf Hic Hfp Hrd
    Hal Hne Htok (fun Hid Hv => Htr _ Hid Hv))
    as (start & p1 & E1 & Hf1 & Hc1 & Hs1 & V1 & HV1 & Hh1).
  destruct (prefill_ok p1 V1 toks start Hf1 HV1 Hs1) as (x & p2 & E2 & Hf2 & Hc2 & (V2 & HV2 & Hh2) & Hx);
    [rewrite Hc1; lia|done|].
  destruct (decode_all_ok (KVCache.cfg_ p) (KVCache.max_tokens p) toks x p2 V2 r Hf2)
    as (s & oom & E3 & Hco & Hk & Hq); [congruence|done|done|done|done|done|lia|lia|done|done|].
  unfold generate. rewrite Hadm. cbn [negb]. fold toks. cbn [KVFile.files]. rewrite E1, E2.
  cbn [mbind option_bind]. rewrite E3, Hi8. eexists _, s, _. split; [done|]. split; [done|].
  split; [exact Hk|]. split; [exact Hq|]. split; [exact Hco|].
  intros files Hfs. eapply save_ok; try done. destruct Hco as (_ & _ & Hn & _). lia.
Qed.

End Spec.

(** ** Theorems *)

Section Theorems.
Context `{RL : ReflexLaws} `{cuda : CudaMem} {cuda_laws : CudaMemLaws}.
Context (i8 : bool) (config : ModelConfig) (mw : ModelWeights) (norm_weight : option Z -> bool -> nat -> float)
        (dequant_embedding : Z -> list Z).
Context (tk : Tokenizer.t) {R : Type} (sample_token : list float -> list Z -> R -> Z * R).

Abbreviation tok_ok := (fun t : Z => 0 <= t < 2 ^ 31).
Abbreviation ref limit n toks r :=
  (reference i8 config mw norm_weight dequant_embedding tk sample_token limit n toks [] r).
Abbreviation trust c fp dir fs := (trusted_dir i8 config mw norm_weight dequant_embedding c fp dir fs).
Abbreviation run_generate params ev d fp prompt p r w :=
  (generate config mw norm_weight dequant_embedding tk sample_token params ev d fp prompt p r w).

(** An engine without overflow pool, in either cache format. *)
Record engine_ok (p : pool) : Prop := {
  eo_fits : fits i8 config mw p;
  eo_int : Session.int_config (KVCache.cfg_ p);
  eo_overflow : KVCache.overflow_context (KVCache.cfg_ p) = 0 }.

(** A request the engine admits, on a device and an operating system that do
    what is asked of them. *)
Record request_ok (params : GenParams) (ev : Events) (rd : KVFile.Reader) (prompt : bytes) (p : pool)
  : Prop := {
  ro_kv : kv_int8 params = i8;
  ro_logits : forall q, logits_ok ev q = true;
  ro_alloc : forall n, alloc_ok ev n = true;
  ro_reader : KVFile.reader_ok rd;
  ro_tokens : Forall tok_ok (prompt_ids tk prompt);
  ro_length : zlen (prompt_ids tk prompt) < 2 ^ 31;
  ro_max : 1 <= max_tokens params;
  ro_admit : admits tk params ev (KVCache.max_tokens p) prompt = true }.

(** What the model and the sampler produce. *)
Record model_ok : Prop := {
  mo_embedding : forall t, length (dequant_embedding t) = H_ config;
  mo_sampler : forall logits recent r, 0 <= (sample_token logits recent r).1 < 2 ^ 31 }.

Lemma generate_run `{KVDir.StdSort} params ev d fp prompt p r fs :
  model_ok -> engine_ok p -> request_ok params ev (Session.reader d) prompt p -> length fp = 32%nat ->
  trust (KVCache.cfg_ p) fp (Session.cache_dir d) fs ->
  exists stats s w',
    run_generate params ev d fp prompt p r (KVFile.W fs []) = Session.Done (stats, s, w') /\
    completion_tokens stats = zlen (delivered s) /\
    (exists k, delivered s =
       take k (ref (KVCache.max_tokens p) (Z.to_nat (max_tokens params)) (prompt_ids tk prompt) r)) /\
    (quiet config params ev -> delivered s =
       ref (KVCache.max_tokens p) (Z.to_nat (max_tokens params)) (prompt_ids tk prompt) r) /\
    engine_ok (kv s) /\ KVCache.cfg_ (kv s) = KVCache.cfg_ p /\
    (forall files, files ∈ KVFile.visited w' -> trust (KVCache.cfg_ p) fp (Session.cache_dir d) files).
Proof.
  intros [He Hsm] [Hf Hic Hov] [H8 Hlg Hal Hrd Htok Hlen Hmax Hadm] Hfp Htr.
  destruct (model_layers_known i8 config mw p Hf) as (_ & Hlayers & _).
  destruct (generate_ok i8 config mw norm_weight dequant_embedding tk sample_token Hlayers params ev
    H8 He Hsm Hlg d fp prompt p r fs) as (stats & s & w' & E & H1 & H2 & H3 & H4 & H5);
    [done..|]. destruct H4 as (Hf' & Hc' & _).
  exists stats, s, w'. split_and!; try done. constructor; by rewrite ?Hc'.
Qed.


(** ** Conversations *)

(** One turn of one of the conversations.  [killed]: the process dies during
    the save, [k] file system states before its end; [restarted] is the pool
    of a new engine process that serves this turn. *)
Record turn := mkTurn {
  t_params : GenParams; t_events : Events; t_prompt : bytes; t_seed : R; t_disk : Session.Disk;
  killed : option nat; restarted : option pool }.

Definition files_after (t : turn) (w : KVFile.world) : gmap bytes bytes :=
  default (KVFile.files w) (k ← killed t; KVFile.visited w !! k).

(** The turns share the cache directory; the pool is that of the last turn or
    of a new process. *)
Fixpoint converse `{KVDir.StdSort} (fp : bytes) (turns : list turn) (p : pool) (fs : gmap bytes bytes)
  : Session.outcome (list (list Z)) :=
  match turns with
  | [] => Session.Done []
  | t :: turns =>
      match run_generate (t_params t) (t_events t) (t_disk t) fp (t_prompt t)
              (default p (restarted t)) (t_seed t) (KVFile.W fs []) with
      | Session.Throws => Session.Throws
      | Session.Undefined => Session.Undefined
      | Session.Done (_, s, w) =>
          match converse fp turns (kv s) (files_after t w) with
          | Session.Done outs => Session.Done (delivered s :: outs)
          | Session.Throws => Session.Throws
          | Session.Undefined => Session.Undefined
          end
      end
  end.

(** Every turn is acceptable for the configuration [c], whatever pool of that
    configuration it runs on. *)
Definition turn_ok (c : KVCache.Config) (dir : bytes) (t : turn) : Prop :=
  (forall q, KVCache.cfg_ q = c ->
     request_ok (t_params t) (t_events t) (Session.reader (t_disk t)) (t_prompt t) q) /\
  (forall q, restarted t = Some q -> engine_ok q /\ KVCache.cfg_ q = c) /\
  Session.cache_dir (t_disk t) = dir.

(** What a turn has to deliver: its ideal answer, or a part of it when it is
    interrupted. *)
Definition answers (limit : Z) (t : turn) (out : list Z) : Prop :=
  let ideal := ref limit (Z.to_nat (max_tokens (t_params t))) (prompt_ids tk (t_prompt t)) (t_seed t) in
  (exists k, out = take k ideal) /\ (quiet config (t_params t) (t_events t) -> out = ideal).


End Theorems.

(** ** A concrete conversation *)

#[local] Existing Instances demo_floats demo_reflex demo_reflex_laws sim_cuda sim_cuda_laws.

Definition chat_pool : pool :=
  KVCache.mkPool (KVCache.mkConfig 2 1 2 12 0 2) (Some (replicate 192 Byte.x00)) None None 0 0.
(** The pool of another process, with other contents. *)
Definition chat_pool2 : pool :=
  KVCache.mkPool (KVCache.mkConfig 2 1 2 12 0 2) (Some (replicate 192 Byte.xff)) None None 0 0.

(** The pool of an INT8 engine. *)
Definition chat_pool8 : pool :=
  KVCache.mkPool (KVCache.mkConfig 2 1 2 12 0 1) (Some (replicate 96 Byte.xff)) None (Some (replicate 192 Byte.xff)) 0 0.

Definition chat_sample (logits : list Z) (recent : list Z) (r : Z) : Z * Z :=
  ((zsum logits + 7 * zlen recent + r) mod 250, r + 1).

Definition chat_request (i8 : bool) : GenParams := mkParams 3 (str "c1") i8.
Definition chat_params : GenParams := chat_request false.
Definition chat_events : Events :=
  mkEvents (fun _ => false) (fun _ => Some Budget.demo_meminfo) true (64 * 1024 * 1024) true
           (fun _ => true) (fun _ => true).

Definition chat_disk : Session.Disk :=
  Session.mkDisk KVFile.demo_os KVFile.demo_reader (Some (str "/c")) false (fun _ => Some KVDir.demo_dir)
    (fun _ => true) 1000 None None.

#[local] Existing Instance KVDir.merge_std_sort.

Abbreviation chat_generate i8 prompt p r w :=
  (generate demo_config demo_weights demo_norm demo_embedding Tokenizer.demo_tk chat_sample (chat_request i8)
     chat_events chat_disk Session.demo_fp prompt p r w).

Lemma chat_model_ok : model_ok demo_config demo_embedding chat_sample.
Proof.
  constructor; [reflexivity|]. intros logits recent r. unfold chat_sample. cbn.
  pose proof (Z.mod_pos_bound (zsum logits + 7 * zlen recent + r) 250). lia.
Qed.

Lemma chat_engine_ok : engine_ok false demo_config demo_weights chat_pool /\
  engine_ok false demo_config demo_weights chat_pool2 /\ engine_ok true demo_config demo_weights chat_pool8.
Proof.
  split_and!; constructor; try (constructor; try reflexivity; try discriminate);
    try (eexists; constructor; [constructor; ground|reflexivity|reflexivity]); try (constructor; ground).
  intros _. eexists. constructor; reflexivity.
Qed.

Definition chat_prompt1 : bytes := str "hello".
Definition chat_prompt2 : bytes := str "hello ho".

Lemma chat_request_ok (i8 : bool) prompt p :
  prompt = chat_prompt1 \/ prompt = chat_prompt2 ->
  KVCache.cfg_ p = KVCache.cfg_ (if i8 then chat_pool8 else chat_pool) ->
  request_ok i8 Tokenizer.demo_tk (chat_request i8) chat_events KVFile.demo_reader prompt p.
Proof.
  intros Hp Hc. constructor; try reflexivity; try exact KVFile.demo_reader_ok; try done.
  - destruct Hp as [->| ->]; [apply (bool_decide_unpack _); vm_compute; exact I..].
  - destruct Hp as [->| ->]; vm_compute; reflexivity.
  - unfold KVCache.max_tokens. rewrite Hc. destruct Hp as [->| ->], i8; vm_compute; reflexivity.
Qed.


Abbreviation chat_converse turns p fs :=
  (converse demo_config demo_weights demo_norm demo_embedding Tokenizer.demo_tk chat_sample
     Session.demo_fp turns p fs).

(** Three turns: the process of the first is killed during the save, the
    second runs in a new process whose pool holds other bytes. *)
Definition chat_turns : list (turn (R := Z)) :=
  [mkTurn chat_params chat_events chat_prompt1 5 chat_disk (Some 1%nat) None;
   mkTurn chat_params chat_events chat_prompt1 8 chat_disk None (Some chat_pool2);
   mkTurn chat_params chat_events chat_prompt2 9 chat_disk None None].

Lemma chat_turn_ok t : t ∈ chat_turns ->
  turn_ok false demo_config demo_weights Tokenizer.demo_tk (KVCache.cfg_ chat_pool) (str "/c") t.
Proof.
  unfold chat_turns. intros [->|[->|[->|[]%not_elem_of_nil]%elem_of_cons]%elem_of_cons]%elem_of_cons;
    (split; [|split]); cbn [t_params t_events t_disk t_prompt restarted]; try reflexivity; try done;
    try (intros q Hq; apply (chat_request_ok false); auto; fail).
  intros q [= <-]. split; [exact (proj1 (proj2 chat_engine_ok))|reflexivity].
Qed.


(** ** Token limits the request does not keep *)

(** A request for no tokens.  Whatever [max_tokens] is, zero and small
    negative values included, Path A delivers the first token before the loop
    looks at the limit. *)
Theorem zero_limit_delivers `{RI : ReflexInfer} `{cuda : CudaMem} (config : ModelConfig) (mw : ModelWeights)
  (norm_weight : option Z -> bool -> nat -> float) (dequant_embedding : Z -> list Z) (tk : Tokenizer.t)
  {R : Type} (sample_token : list float -> list Z -> R -> Z * R) (params : GenParams) (ev : Events)
  (limit : Z) (toks x : list Z) (p : pool) (r : R) :
  max_tokens params <= 1 -> first_ok ev = true ->
  0 <= (sample_token (logits_of config mw norm_weight x) [] r).1 ->
  exists s, decode_all config mw norm_weight dequant_embedding tk sample_token params ev limit toks
              (Some x) p r = Some (s, 0) /\
    delivered s = [(sample_token (logits_of config mw norm_weight x) [] r).1].
Proof.
  intros Hm Hf Hs. unfold decode_all, path_a, start_state. rewrite Hf. cbn [rng].
  destruct (sample_token _ _ r) as [t r']. cbn [fst] in *. destruct (Z.leb_spec 0 t); [|lia].
  replace (Z.to_nat (max_tokens params - 1)) with 0%nat by lia. cbn [decode_loop].
  destruct (t =? _); eexists; split; reflexivity.
Qed.

Lemma zero_limit_delivers_witness :
  exists s, decode_all demo_config demo_weights demo_norm demo_embedding Tokenizer.demo_tk chat_sample
              (mkParams 0 [] false) chat_events 12 [3] (Some [1; 2]) chat_pool 5 = Some (s, 0) /\
    zlen (delivered s) = 1.
Proof.
  destruct (zero_limit_delivers demo_config demo_weights demo_norm demo_embedding Tokenizer.demo_tk
    chat_sample (mkParams 0 [] false) chat_events 12 [3] [1; 2] chat_pool 5) as (s & E & Hd).
  - cbn. lia.
  - reflexivity.
  - apply (mo_sampler _ _ _ chat_model_ok).
  - exists s. split; [exact E|]. rewrite Hd. reflexivity.
Defined.

End Generate.
