(* ===== verification/Chat.v ===== *)
(** * Chat: the chat endpoint's text processing ([src/server/http_server.cpp])

    The prompt template, the splitter that separates a streamed answer into
    reasoning and content, and its use by the plain and the streaming
    completion. *)

From S2P Require Import Prelude CLib.

Module Chat.

(** A callback receives a C string, which ends at the first zero byte. *)
Definition c_str (text : bytes) : bytes := c_string text.

(** ** ThinkSplit *)

Inductive Mode := INIT | THINKING | CONTENT.
Record ThinkSplit := mkSplit { mode : Mode; buf : bytes }.
Inductive Kind := Reasoning | Content.
Abbreviation segment := (Kind * bytes)%type.

Definition OPEN : bytes := str "<think>".
Definition CLOSE : bytes := str "</think>".
Definition separator (c : byte) : bool := (bz c =? 10) || (bz c =? 32).

(** The body of the [for (;;)] of [feed]: the state, the segments passed to
    [emit], and whether the loop goes on ([continue]) or returns. *)
Definition feed_step (s : ThinkSplit) : ThinkSplit * list segment * bool :=
  match mode s with
  | INIT =>
      if (zlen (buf s) <? zlen OPEN) && starts_with (buf s) OPEN then (s, [], false)
      else if starts_with OPEN (buf s) then (mkSplit THINKING (drop (length OPEN) (buf s)), [], true)
      else (mkSplit CONTENT (buf s), [], true)
  | THINKING =>
      match find CLOSE (buf s) with
      | Some pos =>
          (mkSplit CONTENT (span separator (drop (pos + length CLOSE) (buf s))).2,
           if (0 <? pos)%nat then [(Reasoning, take pos (buf s))] else [], true)
      | None =>
          if zlen CLOSE <? zlen (buf s) then
            let safe := (length (buf s) - (length CLOSE - 1))%nat in
            (mkSplit THINKING (drop safe (buf s)), [(Reasoning, take safe (buf s))], false)
          else (s, [], false)
      end
  | CONTENT => (mkSplit CONTENT [], if bool_decide (buf s = []) then [] else [(Content, buf s)], false)
  end.

Fixpoint feed_loop (fuel : nat) (s : ThinkSplit) : option (ThinkSplit * list segment) :=
  match fuel with
  | O => None
  | S fuel =>
      match feed_step s with
      | (s, out, false) => Some (s, out)
      | (s, out, true) => '(s, out') ← feed_loop fuel s; Some (s, out ++ out')
      end
  end.

Definition feed (s : ThinkSplit) (chunk : bytes) : option (ThinkSplit * list segment) :=
  feed_loop 3 (mkSplit (mode s) (buf s ++ chunk)).

Definition flush (s : ThinkSplit) : ThinkSplit * list segment :=
  if bool_decide (buf s = []) then (s, [])
  else (mkSplit (mode s) [], [(match mode s with THINKING => Reasoning | _ => Content end, buf s)]).

Fixpoint feed_all (s : ThinkSplit) (chunks : list bytes) : option (ThinkSplit * list segment) :=
  match chunks with
  | [] => Some (s, [])
  | c :: chunks =>
      '(s, out) ← feed s c; '(s, out') ← feed_all s chunks; Some (s, out ++ out')
  end.

Definition think_split : ThinkSplit := mkSplit INIT [].

(** The segments of an answer that arrives in [chunks]. *)
Definition split_answer (chunks : list bytes) : option (list segment) :=
  '(s, out) ← feed_all think_split chunks; Some (out ++ (flush s).2).

(** What a list of segments says of each kind. *)
Definition kind_eqb (a b : Kind) : bool :=
  match a, b with Reasoning, Reasoning | Content, Content => true | _, _ => false end.
Definition said (k : Kind) (out : list segment) : bytes :=
  concat (snd <$> List.filter (fun g => kind_eqb (fst g) k) out).

(** ** Facts about the splitter *)

(** How many more times the loop can go round. *)
Definition rank (m : Mode) : nat := match m with INIT => 2 | THINKING => 1 | CONTENT => 0 end.

Lemma feed_step_rank s s' out : feed_step s = (s', out, true) -> (rank (mode s') < rank (mode s))%nat.
Proof.
  unfold feed_step. destruct (mode s); [| |by intros [= <- <-]].
  - repeat case_match; intros [= <- <-]; cbn; lia.
  - destruct (find _ _); [intros [= <- <-]; cbn; lia|]. by destruct (_ <? _).
Qed.

Lemma feed_loop_ends s fuel :
  (3 <= fuel)%nat -> exists r, feed_loop 3 s = Some r /\ feed_loop fuel s = Some r.
Proof.
  assert (H : forall n m s, (rank (mode s) < n <= m)%nat ->
    exists r, feed_loop n s = Some r /\ feed_loop m s = Some r).
  { induction n as [|n IH]; intros [|m] t Hn; [lia..|]. cbn [feed_loop].
    destruct (feed_step t) as [[t' out] []] eqn:E; [|eauto].
    apply feed_step_rank in E. destruct (IH m t' ltac:(lia)) as ([u o] & -> & ->). by eauto. }
  intros Hf. apply H. destruct s as [[]]; cbn; lia.
Qed.

(** The loop of [feed] ends: from every state it goes round at most three
    times, and more fuel changes nothing. *)
Theorem feed_terminates (s : ThinkSplit) (fuel : nat) :
  (3 <= fuel)%nat -> exists r, feed_loop 3 s = Some r /\ feed_loop fuel s = Some r.
Proof. apply feed_loop_ends. Qed.

Lemma feed_terminates_witness : exists r, feed_loop 7 (mkSplit INIT (str "<think>a</think> b")) = Some r.
Proof.
  destruct (feed_terminates (mkSplit INIT (str "<think>a</think> b")) 7) as (r & _ & E); [lia|].
  exists r. exact E.
Defined.

(** ** What the splitter computes *)

(** The reasoning and the rest of a complete answer. *)
Definition split_spec (text : bytes) : bytes * bytes :=
  if starts_with OPEN text then
    let rest := drop (length OPEN) text in
    match find CLOSE rest with
    | Some pos => (take pos rest, drop (pos + length CLOSE) rest)
    | None => (rest, [])
    end
  else ([], text).

Definition is_sep (c : byte) : Prop := separator c = true.
Definition kinds (k : Kind) (out : list segment) : Prop := Forall (fun g => fst g = k) out.
(** No segment of reasoning follows a segment of content. *)
Definition ordered (out : list segment) : Prop :=
  exists a b, out = a ++ b /\ kinds Reasoning a /\ kinds Content b.

Lemma said_app k a b : said k (a ++ b) = said k a ++ said k b.
Proof. unfold said. by rewrite List.filter_app, fmap_app, concat_app. Qed.

Lemma said_other k k' out : kinds k' out -> k <> k' -> said k out = [].
Proof.
  intros H Hk. induction H as [|[k'' t] out E _ IH]; [done|]. cbn [fst] in E. subst k''.
  unfold said in *. cbn [List.filter fst]. destruct k, k'; try done; exact IH.
Qed.

Lemma ordered_content out g : ordered out -> fst g = Content -> ordered (out ++ [g]).
Proof.
  intros (a & b & -> & Ha & Hb) Hg. exists a, (b ++ [g]). rewrite app_assoc. split; [done|].
  split; [done|]. apply Forall_app. split; [done|by constructor].
Qed.

(** [R ++ buf] has no closing tag that starts inside [R]. *)
Definition no_early (R buf : bytes) : Prop :=
  forall i r, drop i (R ++ buf) = CLOSE ++ r -> (length R <= i)%nat.

Lemma no_early_find R buf pos :
  no_early R buf -> find CLOSE buf = Some pos -> find CLOSE (R ++ buf) = Some (length R + pos)%nat.
Proof.
  intros Hn Hf. destruct (find_Some _ _ _ Hf) as (r & E & Hl).
  assert (Ed : drop pos buf = CLOSE ++ r).
  { rewrite E. rewrite drop_app_ge by (rewrite length_take; lia).
    rewrite length_take, Nat.min_l by lia. by rewrite Nat.sub_diag. }
  destruct (find CLOSE (R ++ buf)) as [i|] eqn:Ei.
  - destruct (find_Some _ _ _ Ei) as (r' & E' & Hl'). f_equal.
    assert (Ed' : drop i (R ++ buf) = CLOSE ++ r').
    { rewrite E' at 1. rewrite drop_app_ge by (rewrite length_take; lia).
      rewrite length_take, Nat.min_l by lia. by rewrite Nat.sub_diag. }
    pose proof (Hn _ _ Ed') as HR. rewrite length_app in Hl'.
    assert (i <= length R + pos)%nat.
    { eapply find_first; [exact Ei| |rewrite length_app; lia].
      rewrite drop_app_ge by lia. by replace (length R + pos - length R)%nat with pos by lia. }
    rewrite drop_app_ge in Ed' by done.
    pose proof (find_first _ _ _ (i - length R)%nat _ Hf Ed' ltac:(lia)). lia.
  - exfalso. apply (find_None _ _ (length R + pos) r Ei); [|rewrite length_app; lia].
    rewrite drop_app_ge by lia. by replace (length R + pos - length R)%nat with pos by lia.
Qed.

Lemma no_early_more R buf chunk :
  find CLOSE (R ++ buf) = None -> R = [] \/ (length CLOSE <= S (length buf))%nat ->
  no_early R (buf ++ chunk).
Proof.
  intros Hn HR i r Hd. destruct (le_lt_dec (length R) i) as [|Hi]; [done|exfalso].
  destruct HR as [->|HR]; [cbn in Hi; lia|].
  apply (find_None _ (R ++ buf) i (drop (length CLOSE) (drop i (R ++ buf))) Hn);
    [|rewrite length_app; lia].
  rewrite <- (take_drop (length CLOSE) (drop i (R ++ buf))) at 1. f_equal.
  apply (f_equal (take (length CLOSE))) in Hd. rewrite take_app_length in Hd.
  transitivity (take (length CLOSE) (drop i (R ++ buf ++ chunk))); [|exact Hd].
  rewrite app_assoc, (drop_app_le (R ++ buf)) by (rewrite length_app; lia).
  symmetry. apply take_app_le. rewrite length_drop, length_app. lia.
Qed.

(** The state before the loop runs on a [text] whose segments so far are [out]. *)
Definition pending (text : bytes) (s : ThinkSplit) (out : list segment) : Prop :=
  match mode s with
  | INIT => text = buf s /\ out = []
  | THINKING => text = OPEN ++ said Reasoning out ++ buf s /\ kinds Reasoning out /\
                no_early (said Reasoning out) (buf s) /\
                (said Reasoning out = [] \/ (length CLOSE <= S (length (buf s)))%nat)
  | CONTENT => ordered out /\
      ((forall r, starts_with OPEN (text ++ r) = false) /\ said Reasoning out = [] /\
         text = said Content out ++ buf s \/
       exists seps, text = OPEN ++ said Reasoning out ++ CLOSE ++ seps ++ said Content out ++ buf s /\
         Forall is_sep seps /\
         find CLOSE (said Reasoning out ++ CLOSE) = Some (length (said Reasoning out)))
  end.

(** The state when [feed] returns. *)
Definition waiting (text : bytes) (s : ThinkSplit) (out : list segment) : Prop :=
  pending text s out /\
  match mode s with
  | INIT => starts_with (buf s) OPEN = true /\ zlen (buf s) < zlen OPEN
  | THINKING => find CLOSE (said Reasoning out ++ buf s) = None
  | CONTENT => buf s = []
  end.

Lemma pending_feed text s out chunk :
  waiting text s out -> pending (text ++ chunk) (mkSplit (mode s) (buf s ++ chunk)) out.
Proof.
  unfold waiting, pending. destruct s as [[] b]; cbn [mode buf].
  - intros [[-> ->] _]. done.
  - intros [(-> & Hk & _ & Hb) Hf]. rewrite <- !app_assoc. split; [done|]. split; [done|].
    split; [by apply no_early_more|]. rewrite length_app. destruct Hb; [by left|right; lia].
  - intros [[Ho [(Hs & HR & ->)|(seps & -> & Hsep & Hf)]] ->]; (split; [done|]); [left|right].
    + split; [intros r; by rewrite <- app_assoc|]. split; [done|]. by rewrite app_nil_r.
    + exists seps. by rewrite <- !app_assoc, !app_nil_l.
Qed.

Lemma said_here k t : said k [(k, t)] = t.
Proof. destruct k; apply app_nil_r. Qed.

Lemma not_open b r :
  (zlen b <? zlen OPEN) && starts_with b OPEN = false -> starts_with OPEN b = false ->
  starts_with OPEN (b ++ r) = false.
Proof.
  intros H1 H2. destruct (starts_with OPEN (b ++ r)) eqn:E; [exfalso|done].
  apply starts_with_spec in E as [t E].
  destruct (le_lt_dec (length OPEN) (length b)) as [Hl|Hl].
  - apply (f_equal (take (length OPEN))) in E. rewrite take_app_length, take_app_le in E by done.
    assert (starts_with OPEN b = true)
      by (apply starts_with_spec; exists (drop (length OPEN) b); rewrite <- E at 1; by rewrite take_drop).
    congruence.
  - apply (f_equal (take (length b))) in E. rewrite take_app_length, take_app_le in E by lia.
    assert (Hs : starts_with b OPEN = true)
      by (apply starts_with_spec; exists (drop (length b) OPEN); rewrite E at 1; by rewrite take_drop).
    rewrite Hs, andb_true_r in H1. apply Z.ltb_ge in H1. unfold zlen in H1. lia.
Qed.

(** A closing tag: what precedes it is reasoning, separators after it are
    dropped. *)
Lemma pending_close text b out pos :
  pending text (mkSplit THINKING b) out -> find CLOSE b = Some pos ->
  pending text (mkSplit CONTENT (span separator (drop (pos + length CLOSE) b)).2)
    (out ++ if (0 <? pos)%nat then [(Reasoning, take pos b)] else []).
Proof.
  intros (-> & Hk & Hn & _) Ef. cbn [buf] in *. destruct (find_Some _ _ _ Ef) as (r & E & Hl).
  set (new := if (0 <? pos)%nat then [(Reasoning, take pos b)] else []).
  assert (Hnew : said Reasoning new = take pos b /\ kinds Reasoning new).
  { unfold new. destruct pos as [|pos]; cbn [Nat.ltb Nat.leb].
    - rewrite take_0. split; [done|constructor].
    - split; [apply said_here|by constructor]. }
  destruct Hnew as [HR Hkn]. assert (Hkind : kinds Reasoning (out ++ new)) by by apply Forall_app.
  assert (HC : said Content (out ++ new) = []) by by apply said_other with Reasoning.
  assert (Ed : drop (pos + length CLOSE) b = r).
  { rewrite <- drop_drop. rewrite E at 1. rewrite drop_app_ge by (rewrite length_take; lia).
    rewrite length_take, Nat.min_l, Nat.sub_diag, drop_0 by lia. apply drop_app_length. }
  split; [exists (out ++ new), []; rewrite app_nil_r; by repeat constructor|].
  right. rewrite HC, said_app, HR, Ed. exists (span separator r).1. cbn [buf].
  split; [|split; [apply span_all|]].
  - rewrite app_nil_l, span_app. rewrite E at 1. by rewrite <- !app_assoc.
  - assert (Hf := no_early_find _ _ _ Hn Ef). apply find_cut in Hf.
    rewrite length_app, length_take, Nat.min_l by lia. rewrite <- Hf. f_equal.
    rewrite <- Nat.add_assoc, take_app_add, <- app_assoc. f_equal.
    replace (pos + length CLOSE)%nat with (length (take pos b ++ CLOSE))
      by (rewrite length_app, length_take; lia).
    rewrite E at 3. rewrite app_assoc. symmetry. apply take_app_length.
Qed.

(** No closing tag yet: none in the whole of the reasoning so far. *)
Lemma no_early_none R b : no_early R b -> find CLOSE b = None -> find CLOSE (R ++ b) = None.
Proof.
  intros Hn Hb. destruct (find CLOSE (R ++ b)) as [i|] eqn:E; [exfalso|done].
  destruct (find_Some _ _ _ E) as (r & Er & Hl). rewrite length_app in Hl.
  assert (Hd : drop i (R ++ b) = CLOSE ++ r).
  { rewrite Er at 1. rewrite drop_app_ge by (rewrite length_take; lia).
    by rewrite length_take, Nat.min_l, Nat.sub_diag by (rewrite length_app; lia). }
  pose proof (Hn _ _ Hd). rewrite drop_app_ge in Hd by done.
  apply (find_None _ _ _ _ Hb Hd). lia.
Qed.

(** What has to be kept of a text without closing tag is its tail. *)
Lemma waiting_think text b out :
  pending text (mkSplit THINKING b) out -> find CLOSE b = None -> forall safe,
  (safe = 0 \/ length CLOSE <= S (length b - safe) /\ safe <= length b)%nat ->
  waiting text (mkSplit THINKING (drop safe b))
    (out ++ if (0 <? safe)%nat then [(Reasoning, take safe b)] else []).
Proof.
  intros (-> & Hk & Hn & Hb) Hf safe Hs. cbn [buf] in *. set (new := if (0 <? safe)%nat then _ else _).
  assert (Hnew : said Reasoning new = take safe b /\ kinds Reasoning new).
  { unfold new. destruct safe; cbn [Nat.ltb Nat.leb].
    - rewrite take_0. split; [done|constructor].
    - split; [apply said_here|by constructor]. }
  destruct Hnew as [HR Hkn]. pose proof (no_early_none _ _ Hn Hf) as Hnone.
  assert (E : (said Reasoning out ++ take safe b) ++ drop safe b = said Reasoning out ++ b)
    by by rewrite <- app_assoc, take_drop.
  unfold waiting, pending. cbn [mode buf]. rewrite said_app, HR, E. split_and!; [..|done].
  - by rewrite <- E, <- app_assoc.
  - by apply Forall_app.
  - intros i r Hd. rewrite E in Hd. exfalso. destruct (le_lt_dec i (length (said Reasoning out ++ b))).
    + by apply (find_None _ _ _ _ Hnone Hd).
    + rewrite drop_ge in Hd by lia. discriminate.
  - rewrite length_drop. destruct Hs as [->|[Hs _]]; [|right; lia].
    rewrite take_0, app_nil_r, Nat.sub_0_r. exact Hb.
Qed.

(** One pass of the loop; the segments it emits are added to [out]. *)
Lemma pending_step text s out s' new more :
  pending text s out -> feed_step s = (s', new, more) ->
  if more then pending text s' (out ++ new) else waiting text s' (out ++ new).
Proof.
  destruct s as [[] b]; unfold feed_step; cbn [mode buf].
  - intros [-> ->]. destruct ((zlen b <? zlen OPEN) && starts_with b OPEN) eqn:Ew.
    { intros [= <- <- <-]. split; [done|]. apply andb_true_iff in Ew as [?%Z.ltb_lt ?]. done. }
    destruct (starts_with OPEN b) eqn:Eo; intros [= <- <- <-].
    + apply starts_with_spec in Eo as [r ->]. unfold pending. cbn [mode buf].
      change 7%nat with (length OPEN). rewrite drop_app_length. split; [done|]. split; [constructor|].
      split; [intros i t _; cbn; lia|by left].
    + split; [exists [], []; by repeat constructor|]. left. split; [|done]. intros r. by apply not_open.
  - intros Hp. destruct (find CLOSE b) as [pos|] eqn:Ef; [intros [= <- <- <-]; by apply pending_close|].
    pose proof (waiting_think text b out Hp Ef) as Hw.
    destruct (Z.ltb_spec (zlen CLOSE) (zlen b)) as [Hl|Hl]; intros [= <- <- <-].
    + unfold zlen in Hl. change (length b - 7)%nat with (length b - (length CLOSE - 1))%nat.
      specialize (Hw (length b - (length CLOSE - 1))%nat). cbn [length] in *.
      destruct (Nat.ltb_spec 0 (length b - (length CLOSE - 1))) as [|Hz]; [|cbn in *; lia].
      apply Hw. right. cbn in *. lia.
    + rewrite app_nil_r. specialize (Hw 0%nat (or_introl eq_refl)). cbn [Nat.ltb Nat.leb] in Hw.
      by rewrite drop_0, app_nil_r in Hw.
  - intros [Ho Hc] [= <- <- <-]. destruct (bool_decide_reflect (b = [])) as [->|Hb].
    + rewrite app_nil_r. split; [by split|done].
    + assert (E : said Content (out ++ [(Content, b)]) = said Content out ++ b /\
                  said Reasoning (out ++ [(Content, b)]) = said Reasoning out)
        by (rewrite !said_app, said_here; split; [done|apply app_nil_r]).
      destruct E as [E1 E2]. split; [|done]. split; [by apply ordered_content|]. cbn [buf] in *.
      rewrite E1, E2, app_nil_r. destruct Hc as [Hc|(seps & -> & Hc)]; [by left|right].
      by exists seps.
Qed.

Lemma feed_loop_waiting fuel text s out s' new :
  pending text s out -> feed_loop fuel s = Some (s', new) -> waiting text s' (out ++ new).
Proof.
  revert s out new. induction fuel as [|fuel IH]; intros s out new Hp E; [done|].
  cbn [feed_loop] in E. destruct (feed_step s) as [[s1 n1] more] eqn:E1.
  pose proof (pending_step _ _ _ _ _ _ Hp E1) as H1. destruct more; [|by injection E as <- <-].
  destruct (feed_loop fuel s1) as [[s2 n2]|] eqn:E2; [|done]. cbn in E. injection E as <- <-.
  rewrite app_assoc. by eapply IH.
Qed.

Lemma feed_some s chunk : is_Some (feed s chunk).
Proof. destruct (feed_loop_ends (mkSplit (mode s) (buf s ++ chunk)) 3) as (r & E & _); [lia|]. by exists r. Qed.

Lemma feed_all_total s chunks : is_Some (feed_all s chunks).
Proof.
  revert s. induction chunks as [|c chunks IH]; intros s; cbn [feed_all]; [by eexists|].
  destruct (feed_some s c) as [[s1 n1] ->]. cbn [mbind option_bind].
  destruct (IH s1) as [[s2 n2] ->]. by eexists.
Qed.

Lemma feed_all_waiting text s out chunks :
  waiting text s out ->
  exists s' new, feed_all s chunks = Some (s', new) /\ waiting (text ++ concat chunks) s' (out ++ new).
Proof.
  revert text s out. induction chunks as [|c chunks IH]; intros text s out Hw.
  - exists s, []. cbn. by rewrite !app_nil_r.
  - cbn [feed_all concat]. destruct (feed_some s c) as [[s1 n1] E1]. rewrite E1. cbn [mbind option_bind].
    pose proof (feed_loop_waiting _ _ _ _ _ _ (pending_feed _ _ _ c Hw) E1) as H1.
    destruct (IH _ _ _ H1) as (s2 & n2 & -> & H2). cbn [mbind option_bind].
    exists s2, (n1 ++ n2). by rewrite !app_assoc in *.
Qed.

(** At the end of the text. *)
Lemma waiting_flush text s out :
  waiting text s out ->
  let all := out ++ (flush s).2 in
  ordered all /\ said Reasoning all = (split_spec text).1 /\
  exists seps, (split_spec text).2 = seps ++ said Content all /\ Forall is_sep seps /\
    (starts_with OPEN text = false -> seps = []).
Proof.
  intros [Hp Hw]. cbv zeta. unfold flush, split_spec. destruct s as [[] b]; cbn [mode buf] in *.
  - destruct Hp as [-> ->], Hw as [_ Hl]. cbn [buf] in *.
    assert (Ho : starts_with OPEN b = false).
    { destruct (starts_with OPEN b) eqn:E; [|done]. apply starts_with_length in E. unfold zlen in Hl. lia. }
    rewrite Ho. destruct (bool_decide_reflect (b = [])) as [->|].
    + split; [exists [], []; by repeat constructor|]. split; [done|]. by exists [].
    + split; [exists [], [(Content, b)]; by repeat constructor|]. split; [done|].
      exists []. cbn [snd app]. by rewrite said_here.
  - destruct Hp as (-> & Hk & _). cbn [buf] in *. rewrite starts_with_app, drop_app_length, Hw.
    set (last := if bool_decide (b = []) then _ else _).
    assert (Hl : said Reasoning last.2 = b /\ kinds Reasoning last.2).
    { unfold last. destruct (bool_decide_reflect (b = [])) as [->|]; cbn [snd].
      - split; [done|constructor].
      - split; [apply said_here|by constructor]. }
    destruct Hl as [Hl1 Hl2]. assert (Hk' : kinds Reasoning (out ++ last.2)) by by apply Forall_app.
    split; [exists (out ++ last.2), []; rewrite app_nil_r; by repeat constructor|].
    split; [by rewrite said_app, Hl1|]. exists [].
    by rewrite (said_other Content Reasoning) by done.
  - subst b. rewrite bool_decide_true by done. cbn [snd]. rewrite app_nil_r.
    destruct Hp as [Ho [(Hs & HR & ->)|(seps & -> & Hsep & Hf)]]; cbn [buf] in *; rewrite ?app_nil_r in *.
    + specialize (Hs []). rewrite app_nil_r in Hs. rewrite Hs, HR. split; [done|]. split; [done|]. by exists [].
    + rewrite starts_with_app, drop_app_length.
      rewrite (app_assoc (said Reasoning out)), (find_app _ _ _ _ Hf), <- app_assoc, take_app_length.
      split; [done|]. split; [done|]. exists seps. rewrite <- drop_drop, drop_app_length, drop_app_length. done.
Qed.

Lemma split_answer_total (chunks : list bytes) :
  exists out, split_answer chunks = Some out /\ ordered out /\
    said Reasoning out = (split_spec (concat chunks)).1 /\
    exists seps, (split_spec (concat chunks)).2 = seps ++ said Content out /\ Forall is_sep seps /\
      (starts_with OPEN (concat chunks) = false -> seps = []).
Proof.
  destruct (feed_all_waiting [] think_split [] chunks) as (s & out & E & Hw).
  { split; [done|]. by split. }
  unfold split_answer. rewrite E. cbn [mbind option_bind]. exists (out ++ (flush s).2).
  split; [done|]. by apply waiting_flush.
Qed.

(** C20: The streamed split.  However the answer is cut into chunks, the splitter
    emits no reasoning after content, its reasoning is exactly the text between
    a leading [<think>] and the first [</think>], and its content is what
    follows, without separators at its start that arrived in the chunk of the
    closing tag; an answer that does not start with the tag is passed on
    unchanged. *)
Theorem split_answer_spec (chunks : list bytes) :
  exists out, split_answer chunks = Some out /\ ordered out /\
    said Reasoning out = (split_spec (concat chunks)).1 /\
    exists seps, (split_spec (concat chunks)).2 = seps ++ said Content out /\ Forall is_sep seps /\
      (starts_with OPEN (concat chunks) = false -> seps = []).
Proof. apply split_answer_total. Qed.

(** What was meant as the removal of the separator after the closing tag
    depends on where the chunks end: cut after the tag, as the tokenizer does,
    the separator is delivered as content. *)
Theorem separator_depends_on_chunks :
  said Content <$> split_answer [str "<think>a</think>"; [Byte.x0a; Byte.x0a]; str "hi"] =
    Some ([Byte.x0a; Byte.x0a] ++ str "hi") /\
  said Content <$> split_answer [str "<think>a</think>" ++ [Byte.x0a; Byte.x0a] ++ str "hi"] =
    Some (str "hi").
Proof. vm_compute. done. Qed.

End Chat.
