(* ===== verification/Server.v ===== *)
(** * Server: the HTTP endpoints ([src/server/http_server.cpp])

    The chat template, the plain and the streaming completion, and the handler
    of [POST /v1/chat/completions] from the request body to the reply,
    exceptions included.  JSON (nlohmann) and the HTTP library are parameters:
    the source builds documents out of literals ([doc]), and what it reads goes
    through [parse], [value] and [dump]. *)

From S2P Require Import Prelude CLib KVDir Chat.

Module Server.
Import Chat.

(** ** Exceptions *)

(** [std::length_error], or another [std::exception], with its [what()]. *)
Inductive exn := LengthError (what : bytes) | StdException (what : bytes).
Inductive result (A : Type) := Ok (x : A) | Raise (e : exn).
Arguments Ok {A} _. Arguments Raise {A} _.

Lemma Ok_inj {A} (x y : A) : Ok x = Ok y -> x = y.
Proof. by intros [= ->]. Qed.

#[export] Instance result_ret : MRet result := fun A x => Ok x.
#[export] Instance result_bind : MBind result := fun A B f m =>
  match m with Ok x => f x | Raise e => Raise e end.

Definition what (e : exn) : bytes := match e with LengthError w | StdException w => w end.

(** ** JSON *)

(** The documents the source writes as literals; [num] is [float]. *)
#[warnings="-register-all"]
Inductive doc (num : Type) :=
  | DStr (s : bytes) | DInt (z : Z) | DNum (x : num) | DBool (b : bool) | DNull
  | DArr (l : list (doc num)) | DObj (l : list (bytes * doc num)).
Arguments DStr {num} s. Arguments DInt {num} z. Arguments DNum {num} x. Arguments DBool {num} b.
Arguments DNull {num}. Arguments DArr {num} l. Arguments DObj {num} l.

Class Json := {
  num : Type;
  json : Type;
  parse : bytes -> result json;
  empty_array : json;
  is_array : json -> bool;
  elements : json -> list json;
  value_json : json -> bytes -> json -> result json;
  value_str : json -> bytes -> bytes -> result bytes;
  value_int : json -> bytes -> Z -> result Z;
  value_num : json -> bytes -> num -> result num;
  value_bool : json -> bytes -> bool -> result bool;
  (** the literals [0.7f] and [0.9f] *)
  num_0_7 : num; num_0_9 : num;
  dump : doc num -> result bytes }.

(** ** Requests and runs of the engine *)

Section Server.
Context {J : Json}.

(** The fields of [GenParams] the handler sets. *)
Record GenParams := mkParams {
  max_tokens : Z; temperature : num; top_k : Z; top_p : num; kv_int8 : bool; conversation_id : bytes }.

(** The fields of [GenStats] the reply shows. *)
Record GenStats := mkStats {
  prompt_tokens : Z; completion_tokens : Z; decode_tok_per_sec : num; prompt_tok_per_sec : num;
  ttft_ms : num; peak_memory_mb : Z; peak_thermal_c : num }.

(** What [Engine::generate] does: the tokens it passes to the callback and, at
    the end, its statistics or an exception. *)
Record run := mkRun { tokens : list (bytes * bool); finish : result GenStats }.

(** ** Qwen chat template *)

Definition render (role content : bytes) : bytes :=
  str "<|im_start|>" ++ role ++ [Byte.x0a] ++ content ++ str "<|im_end|>" ++ [Byte.x0a].

Fixpoint render_all (messages : list json) : result bytes :=
  match messages with
  | [] => Ok []
  | m :: messages =>
      role ← value_str m (str "role") (str "user");
      content ← value_str m (str "content") [];
      rest ← render_all messages;
      Ok (render role content ++ rest)
  end.

Definition generation_header (think : bool) : bytes :=
  str "<|im_start|>assistant" ++ [Byte.x0a] ++
  (if think then [] else str "<think>" ++ [Byte.x0a; Byte.x0a] ++ str "</think>" ++ [Byte.x0a; Byte.x0a]).

Definition format_qwen_chat (messages : json) (think : bool) : result bytes :=
  out ← render_all (elements messages); Ok (out ++ generation_header think).

(** ** Plain completion *)

(** The callback of [build_completion]: the [eos] text is skipped; a C string
    reaches the splitter. *)
Fixpoint absorb_tokens (s : ThinkSplit) (toks : list (bytes * bool)) (out : list segment)
  : option (ThinkSplit * list segment) :=
  match toks with
  | [] => Some (s, out)
  | (text, eos) :: toks =>
      if eos : bool then absorb_tokens s toks out
      else '(s, new) ← feed s (c_str text); absorb_tokens s toks (out ++ new)
  end.

Definition message (content reasoning : bytes) : doc num :=
  DObj ([(str "role", DStr (str "assistant")); (str "content", DStr content)] ++
        if bool_decide (reasoning = []) then [] else [(str "reasoning_content", DStr reasoning)]).

(** [t_id], [t_created]: the two calls of [std::time]. *)
Definition completion_doc (name : bytes) (t_id t_created : Z) (msg : doc num) (stats : GenStats) : doc num :=
  DObj [(str "id", DStr (str "jllm-" ++ dec t_id));
        (str "object", DStr (str "chat.completion"));
        (str "created", DInt t_created);
        (str "model", DStr name);
        (str "choices", DArr [DObj [(str "index", DInt 0); (str "message", msg);
                                    (str "finish_reason", DStr (str "stop"))]]);
        (str "usage", DObj [(str "prompt_tokens", DInt (prompt_tokens stats));
                            (str "completion_tokens", DInt (completion_tokens stats));
                            (str "total_tokens", DInt (i32 (prompt_tokens stats + completion_tokens stats)))]);
        (str "jetson", DObj [(str "decode_tok_s", DNum (decode_tok_per_sec stats));
                             (str "prompt_tok_s", DNum (prompt_tok_per_sec stats));
                             (str "ttft_ms", DNum (ttft_ms stats));
                             (str "peak_mem_mb", DInt (peak_memory_mb stats));
                             (str "peak_temp_c", DNum (peak_thermal_c stats))])].

(** [None]: the splitter did not return (it does, see [build_completion_spec]). *)
Definition build_completion (name : bytes) (t_id t_created : Z) (r : run) : option (result (doc num)) :=
  '(s, out) ← absorb_tokens think_split (tokens r) [];
  match finish r with
  | Raise e => Some (Raise e)
  | Ok stats =>
      let out := out ++ (flush s).2 in
      Some (Ok (completion_doc name t_id t_created (message (said Content out) (said Reasoning out)) stats))
  end.

(** ** Streaming *)

Definition sse_data (d : doc num) : result bytes :=
  text ← dump d; Ok (str "data: " ++ text ++ [Byte.x0a; Byte.x0a]).

Definition sse_chunk (id : bytes) (created : Z) (model : bytes) (delta : doc num)
  (finish_reason : option bytes) : result bytes :=
  sse_data (DObj [(str "id", DStr id); (str "object", DStr (str "chat.completion.chunk"));
                  (str "created", DInt created); (str "model", DStr model);
                  (str "choices", DArr [DObj [(str "index", DInt 0); (str "delta", delta);
                     (str "finish_reason", match finish_reason with Some f => DStr f | None => DNull end)]])]).

Definition delta_of (g : segment) : doc num :=
  match g with
  | (Reasoning, seg) => DObj [(str "reasoning_content", DStr seg)]
  | (Content, seg) => DObj [(str "content", DStr seg)]
  end.

(** The stream: the frames the client took, the number of writes so far,
    [client_alive], and whether [Engine::stop] was called. *)
Record stream := mkStream { frames : list bytes; writes : nat; client_alive : bool; stopped : bool }.

(** [DataSink::write] of the [n]-th frame succeeds or the client is gone. *)
Context (accepts : nat -> bool).

Definition sink_write (frame : bytes) (s : stream) : bool * stream :=
  let ok := accepts (writes s) in
  (ok, mkStream (if ok then frames s ++ [frame] else frames s) (S (writes s)) (client_alive s) (stopped s)).

Section Chunk.
Context (chunk : doc num -> option bytes -> result bytes).

Definition emit_segment (g : segment) (s : stream) : result stream :=
  if negb (client_alive s) then Ok s
  else
    frame ← chunk (delta_of g) None;
    let '(ok, s) := sink_write frame s in
    Ok (if ok then s else mkStream (frames s) (writes s) false true).

(** An exception leaves the stream as it was when it was thrown. *)
Fixpoint emit_all (gs : list segment) (s : stream) : stream * option exn :=
  match gs with
  | [] => (s, None)
  | g :: gs =>
      match emit_segment g s with
      | Ok s => emit_all gs s
      | Raise e => (s, Some e)
      end
  end.

(** [token_cb] for the tokens of the run. *)
Fixpoint stream_tokens (sp : ThinkSplit) (toks : list (bytes * bool)) (s : stream)
  : option (ThinkSplit * stream * option exn) :=
  match toks with
  | [] => Some (sp, s, None)
  | (text, eos) :: toks =>
      if negb (client_alive s) || eos then stream_tokens sp toks s
      else
        '(sp, new) ← feed sp (c_str text);
        match emit_all new s with
        | (s, Some e) => Some (sp, s, Some e)
        | (s, None) => stream_tokens sp toks s
        end
  end.

(** The [try] block: [generate], then the flush; an exception of a callback
    leaves [generate]. *)
Definition stream_run (r : run) (s : stream) : option (stream * option exn) :=
  '(sp, s, thrown) ← stream_tokens think_split (tokens r) s;
  match thrown, finish r with
  | Some e, _ => Some (s, Some e)
  | None, Raise e => Some (s, Some e)
  | None, Ok _ => Some (emit_all (flush sp).2 s)
  end.
End Chunk.

Definition done_frame : bytes := str "data: [DONE]" ++ [Byte.x0a; Byte.x0a].
Definition error_doc (e : exn) : doc num :=
  DObj [(str "error", DObj [(str "message", DStr (what e)); (str "type", DStr (str "internal_error"))])].

(** The content provider; [Raise]: an exception leaves it. *)
Definition stream_chat_completion (name : bytes) (t_id t_created : Z) (r : run) : option (result stream) :=
  let chunk := sse_chunk (str "jllm-" ++ dec t_id) t_created name in
  match chunk (DObj [(str "role", DStr (str "assistant"))]) None with
  | Raise e => Some (Raise e)
  | Ok opener =>
      match sink_write opener (mkStream [] 0 true false) with
      | (false, s) => Some (Ok s)
      | (true, s) =>
          '(s, errored) ← stream_run chunk r s;
          Some
            (s ← match errored with
                 | Some e => if client_alive s then frame ← sse_data (error_doc e); Ok (sink_write frame s).2
                             else Ok s
                 | None => Ok s
                 end;
             if client_alive s then
               s ← match errored with
                   | None => fin ← chunk (DObj []) (Some (str "stop")); Ok (sink_write fin s).2
                   | Some _ => Ok s
                   end;
               Ok (sink_write done_frame s).2
             else Ok s)
      end
  end.

(** ** The handler *)

Inductive reply :=
  | Reply (status : Z) (body : bytes)
  | Stream (s : stream)
  | Uncaught (e : exn).

Definition reply_doc (status : Z) (d : doc num) : reply :=
  match dump d with Ok body => Reply status body | Raise e => Uncaught e end.

Definition send_error (code : Z) (msg type : bytes) : reply :=
  reply_doc code (DObj [(str "error", DObj [(str "message", DStr msg); (str "type", DStr type);
                                            (str "code", DInt code)])]).

Definition invalid_request : bytes := str "invalid_request_error".

(** The parameters of a request. *)
Definition request_params (default_kv_int8 : bool) (body : json) : result GenParams :=
  mt ← value_int body (str "max_tokens") 256;
  te ← value_num body (str "temperature") num_0_7;
  tk ← value_int body (str "top_k") 40;
  tp ← value_num body (str "top_p") num_0_9;
  i8 ← value_bool body (str "kv_int8") default_kv_int8;
  conv_id ← value_str body (str "conversation_id") [];
  Ok (mkParams mt te tk tp i8
        (if negb (bool_decide (conv_id = [])) && KVDir.validate_conversation_id conv_id then conv_id else [])).

(** What the engine has to do for a request: nothing, or one [generate]. *)
Inductive job :=
  | Answer (r : reply)
  | Generate (prompt : bytes) (params : GenParams) (streaming : bool).

Definition of_result (r : result job) : job := match r with Ok j => j | Raise e => Answer (Uncaught e) end.

(** The handler up to the call of [generate]. *)
Definition prepare (default_kv_int8 : bool) (req_body : bytes) : job :=
  match parse req_body with
  | Raise e => Answer (send_error 400 (str "invalid json: " ++ what e) invalid_request)
  | Ok body => of_result (
      messages ← value_json body (str "messages") empty_array;
      if negb (is_array messages) || bool_decide (elements messages = [])
      then Ok (Answer (send_error 400 (str "messages: non-empty array required") invalid_request))
      else
        params ← request_params default_kv_int8 body;
        think ← value_bool body (str "think") false;
        prompt ← format_qwen_chat messages think;
        streaming ← value_bool body (str "stream") false;
        Ok (Generate prompt params streaming))
  end.

(** From the run of the engine to the reply. *)
Definition conclude (name : bytes) (t_id t_created : Z) (streaming : bool) (r : run) : option reply :=
  if streaming then
    s ← stream_chat_completion name t_id t_created r;
    Some (match s with Ok s => Stream s | Raise e => Uncaught e end)
  else
    c ← build_completion name t_id t_created r;
    Some (match (d ← c; dump d) with
          | Ok body => Reply 200 body
          | Raise (LengthError w) => send_error 400 w invalid_request
          | Raise (StdException w) => send_error 500 w (str "internal_error")
          end).

(** The whole handler, for an engine with state [E]; [None] is undefined
    behaviour of [generate]. *)
Definition handle {E : Type} (generate : bytes -> GenParams -> E -> option (run * E))
  (default_kv_int8 : bool) (name : bytes) (t_id t_created : Z) (req_body : bytes) (e : E)
  : option (reply * E) :=
  match prepare default_kv_int8 req_body with
  | Answer r => Some (r, e)
  | Generate prompt params streaming =>
      '(r, e) ← generate prompt params e;
      rep ← conclude name t_id t_created streaming r; Some (rep, e)
  end.

End Server.

(** ** Facts *)

(** Runs through the binds of a computation that may raise. *)
Ltac raises :=
  repeat match goal with
  | |- mbind _ ?m = Ok _ -> _ => destruct m; [|done]; cbn [mbind result_bind]
  end.

(** The strings of a document, keys included. *)
Fixpoint doc_strings {num} (d : doc num) : list bytes :=
  match d with
  | DStr s => [s]
  | DArr l => concat (List.map doc_strings l)
  | DObj l => concat (List.map (fun f => fst f :: doc_strings (snd f)) l)
  | _ => []
  end.

(** Well-formed UTF-8 (Unicode, table 3-7). *)
Definition cont (b : byte) : bool := between 128 191 b.

Fixpoint valid_utf8 (s : bytes) : bool :=
  match s with
  | [] => true
  | a :: r =>
      if bz a <? 128 then valid_utf8 r
      else match r with
      | [] => false
      | b :: r =>
          if between 194 223 a then cont b && valid_utf8 r
          else match r with
          | [] => false
          | c :: r =>
              if between 224 239 a then
                between (if bz a =? 224 then 160 else 128) (if bz a =? 237 then 159 else 191) b &&
                cont c && valid_utf8 r
              else match r with
              | [] => false
              | d :: r =>
                  between 240 244 a && between (if bz a =? 240 then 144 else 128) (if bz a =? 244 then 143 else 191) b &&
                  cont c && cont d && valid_utf8 r
              end
          end
      end
  end.

(** [dump] with its default error handler: [type_error] 316 for a string that
    is not UTF-8. *)
Class JsonLaws (J : Json) : Prop :=
  dump_utf8 : forall d : doc num, forallb valid_utf8 (doc_strings d) = false ->
    exists w, dump d = Raise (StdException w).

(** The texts that reach the splitter. *)
Fixpoint texts (toks : list (bytes * bool)) : list bytes :=
  match toks with
  | [] => []
  | (text, eos) :: toks => if eos : bool then texts toks else c_str text :: texts toks
  end.

Section Facts.
Context {J : Json}.

Lemma absorb_feed_all s toks out :
  absorb_tokens s toks out = '(s, new) ← feed_all s (texts toks); Some (s, out ++ new).
Proof.
  revert s out. induction toks as [|[text eos] toks IH]; intros s out; cbn [absorb_tokens texts].
  - cbn. by rewrite app_nil_r.
  - destruct eos; [apply IH|]. cbn [feed_all]. destruct (feed s (c_str text)) as [[s1 n1]|]; [|done].
    cbn [mbind option_bind]. rewrite IH. destruct (feed_all s1 _) as [[s2 n2]|]; [|done].
    cbn [mbind option_bind]. by rewrite app_assoc.
Qed.

(** The plain completion.  It always returns; its message carries, for the
    tokens before the end marker, the reasoning and the content of the split of
    their concatenated text, wherever the token boundaries fall. *)
Theorem build_completion_spec (name : bytes) (t_id t_created : Z) (toks : list (bytes * bool))
  (stats : GenStats) :
  exists content reasoning seps,
    build_completion name t_id t_created (mkRun toks (Ok stats)) =
      Some (Ok (completion_doc name t_id t_created (message content reasoning) stats)) /\
    split_spec (concat (texts toks)) = (reasoning, seps ++ content) /\ Forall is_sep seps.
Proof.
  destruct (split_answer_total (texts toks)) as (out & E & _ & HR & seps & HC & Hs & _).
  exists (said Content out), (said Reasoning out), seps. unfold build_completion, split_answer in *.
  rewrite absorb_feed_all. cbn [tokens finish].
  destruct (feed_all think_split (texts toks)) as [[s new]|]; [|done]. cbn [mbind option_bind app] in *.
  injection E as <-. split; [done|]. split; [|done]. rewrite HR, <- HC. by destruct (split_spec _).
Qed.

(** *** The stream of a client that takes [k] frames *)

Section Client.
Context (k : nat).
Let accepts (n : nat) : bool := (n <? k)%nat.

(** [frames] more frames sent to the client. *)
Definition push (fs : list bytes) (s : stream) : stream :=
  if client_alive s then
    if (writes s + length fs <=? k)%nat then mkStream (frames s ++ fs) (writes s + length fs) true (stopped s)
    else mkStream (frames s ++ take (k - writes s) fs) (S k) false true
  else s.

Lemma push_gone fs s : client_alive s = false -> push fs s = s.
Proof. unfold push. by intros ->. Qed.

Lemma push_app a b s : (writes s <= k)%nat \/ client_alive s = false -> push (a ++ b) s = push b (push a s).
Proof.
  unfold push. destruct (client_alive s) eqn:E; [|by rewrite E]. intros [Hk|]; [|done].
  rewrite !length_app. destruct (Nat.leb_spec (writes s + length a) k).
  - cbn [client_alive writes frames stopped]. destruct (Nat.leb_spec (writes s + (length a + length b)) k),
      (Nat.leb_spec (writes s + length a + length b) k); try lia.
    + rewrite app_assoc. f_equal. lia.
    + by rewrite take_app_ge, <- app_assoc, Nat.sub_add_distr by lia.
  - destruct (Nat.leb_spec (writes s + (length a + length b)) k); [lia|]. cbn [client_alive].
    by rewrite take_app_le by lia.
Qed.

Lemma push_writes fs s :
  (writes s <= k)%nat \/ client_alive s = false ->
  (writes (push fs s) <= k)%nat \/ client_alive (push fs s) = false.
Proof.
  unfold push. destruct (client_alive s) eqn:E; [|by auto]. intros [Hk|]; [|done].
  destruct (Nat.leb_spec (writes s + length fs) k); cbn; auto.
Qed.

Context (chunk : doc num -> option bytes -> result bytes).

(** All the segments can be encoded. *)
Definition encoded (gs : list segment) (fs : list bytes) : Prop :=
  Forall2 (fun g f => chunk (delta_of g) None = Ok f) gs fs.

Lemma emit_all_push gs fs s :
  encoded gs fs -> (writes s <= k)%nat \/ client_alive s = false ->
  emit_all accepts chunk gs s = (push fs s, None).
Proof.
  intros H. revert s. induction H as [|g f gs fs E _ IH]; intros s Hs; cbn [emit_all].
  - unfold push. destruct (client_alive s) eqn:Ea; [|done]. destruct Hs as [Hs|]; [|done]. cbn [length].
    rewrite app_nil_r, Nat.add_0_r. destruct (Nat.leb_spec (writes s) k); [|lia]. f_equal. by destruct s; cbn in *; subst.
  - change (f :: fs) with ([f] ++ fs). rewrite push_app by done.
    assert (He : emit_segment accepts chunk g s = Ok (push [f] s)).
    { unfold emit_segment, push. destruct (client_alive s) eqn:Ea; [|done]. destruct Hs as [Hs|]; [|done].
      cbn [negb]. rewrite E. cbn [mbind result_bind]. unfold sink_write, accepts. cbn [length].
      destruct (Nat.ltb_spec (writes s) k), (Nat.leb_spec (writes s + 1) k); try lia.
      - do 2 f_equal; [lia|done].
      - cbn [frames writes]. replace (k - writes s)%nat with 0%nat by lia. cbn [take].
        rewrite app_nil_r. do 2 f_equal. lia. }
    rewrite He. apply IH. by apply push_writes.
Qed.

Lemma emit_all_gone gs s : client_alive s = false -> emit_all accepts chunk gs s = (s, None).
Proof.
  intros Hs. induction gs as [|g gs IH]; [done|]. cbn [emit_all]. unfold emit_segment. by rewrite Hs.
Qed.

Lemma stream_tokens_gone sp toks s :
  client_alive s = false -> stream_tokens accepts chunk sp toks s = Some (sp, s, None).
Proof.
  intros Hs. induction toks as [|[text eos] toks IH]; [done|]. cbn [stream_tokens]. by rewrite Hs.
Qed.

Lemma stream_tokens_push toks sp s sp' gs fs :
  feed_all sp (texts toks) = Some (sp', gs) -> encoded gs fs ->
  (writes s <= k)%nat \/ client_alive s = false ->
  exists sp1, stream_tokens accepts chunk sp toks s = Some (sp1, push fs s, None) /\
    (client_alive (push fs s) = true -> sp1 = sp').
Proof.
  revert sp s gs fs. induction toks as [|[text eos] toks IH]; intros sp s gs fs Hf He Hs;
    (destruct (client_alive s) eqn:Ea; [|exists sp; rewrite stream_tokens_gone by done;
       unfold push; rewrite Ea; split; [done|congruence]]);
    (destruct Hs as [Hs|]; [|done]); apply (or_introl (B := client_alive s = false)) in Hs.
  - injection Hf as <- <-. inversion He; subst. exists sp. split; [|done].
    pose proof (emit_all_push [] [] s He Hs) as E.
    cbn in E |- *. by injection E as <-.
  - cbn [stream_tokens texts] in *. rewrite Ea. cbn [negb orb]. destruct eos; [by apply (IH sp s gs fs)|].
    cbn [feed_all] in Hf. destruct (feed sp (c_str text)) as [[sp1 g1]|]; [|done]. cbn [mbind option_bind] in *.
    destruct (feed_all sp1 (texts toks)) as [[sp2 g2]|] eqn:Hf2; [|done]. injection Hf as <- <-.
    apply Forall2_app_inv_l in He as (f1 & f2 & H1 & H2 & ->).
    rewrite (emit_all_push _ _ s H1 Hs), push_app by done.
    destruct (IH sp1 (push f1 s) g2 f2 Hf2 H2) as (sp3 & -> & Hsp); [by apply push_writes|]. eauto.
Qed.

Lemma stream_run_push toks stats s out fs :
  split_answer (texts toks) = Some out -> encoded out fs ->
  (writes s <= k)%nat \/ client_alive s = false ->
  stream_run accepts chunk (mkRun toks (Ok stats)) s = Some (push fs s, None).
Proof.
  unfold split_answer, stream_run. cbn [tokens finish].
  destruct (feed_all think_split (texts toks)) as [[sp gs]|] eqn:Hf; [|done]. cbn [mbind option_bind].
  intros [= <-] He Hs. apply Forall2_app_inv_l in He as (f1 & f2 & H1 & H2 & ->).
  destruct (stream_tokens_push toks think_split s sp gs f1 Hf H1 Hs) as (sp1 & -> & Hsp).
  cbn [mbind option_bind]. rewrite push_app by done.
  destruct (client_alive (push f1 s)) eqn:Ea.
  - rewrite Hsp by done. by rewrite (emit_all_push _ _ _ H2) by by apply push_writes.
  - by rewrite emit_all_gone, (push_gone f2).
Qed.

End Client.

(** C21: The stream of a completion.  A client that takes every frame gets the
    role, one frame for each segment of the split of the answer, the finish
    reason and [\[DONE\]]; a client that leaves after [k] frames got exactly the
    first [k] of them, and the engine is told to stop exactly when it leaves
    between the role and the last segment. *)
Theorem stream_frames (k : nat) (name : bytes) (t_id t_created : Z) (toks : list (bytes * bool))
  (stats : GenStats) (opener fin : bytes) (out : list segment) (fs : list bytes) :
  let chunk := sse_chunk (str "jllm-" ++ dec t_id) t_created name in
  chunk (DObj [(str "role", DStr (str "assistant"))]) None = Ok opener ->
  chunk (DObj []) (Some (str "stop")) = Ok fin ->
  split_answer (texts toks) = Some out -> encoded chunk out fs ->
  exists s, stream_chat_completion (fun n => (n <? k)%nat) name t_id t_created (mkRun toks (Ok stats))
      = Some (Ok s) /\
    frames s = take k (opener :: fs ++ [fin; done_frame]) /\
    stopped s = bool_decide (1 <= k <= length fs)%nat.
Proof.
  intros chunk Ho Hfin Hout He. unfold stream_chat_completion. fold chunk. rewrite Ho.
  unfold sink_write at 1. cbn [writes frames client_alive stopped app].
  destruct (Nat.ltb_spec 0 k) as [Hk|Hk].
  2: { assert (k = 0%nat) as -> by lia. eexists. split; [done|]. split; [done|]. cbn. by rewrite bool_decide_false by lia. }
  rewrite (stream_run_push k chunk toks stats _ out fs Hout He) by (cbn; left; lia).
  cbn [mbind option_bind]. unfold push. cbn [client_alive writes frames stopped].
  destruct (Nat.leb_spec (1 + length fs) k) as [Hl|Hl].
  - cbn [mbind result_bind client_alive]. rewrite Hfin. cbn [mbind result_bind]. eexists. split; [done|].
    unfold sink_write at 1. cbn [writes frames client_alive stopped snd].
    unfold sink_write. cbn [writes frames client_alive stopped snd app].
    split; [|by rewrite bool_decide_false by lia].
    destruct k as [|k]; [lia|].
    destruct (Nat.ltb_spec (1 + length fs) (S k)), (Nat.ltb_spec (S (1 + length fs)) (S k)); try lia;
      cbn [take app]; f_equal.
    + rewrite take_ge by (rewrite length_app; cbn; lia). by rewrite <- app_assoc.
    + rewrite take_app_ge by lia. by replace (k - length fs)%nat with 1%nat by lia.
    + rewrite take_app_ge by lia. replace (k - length fs)%nat with 0%nat by lia. by rewrite app_nil_r.
  - cbn [mbind result_bind client_alive]. eexists. split; [done|]. cbn [frames stopped].
    split; [|by rewrite bool_decide_true by lia].
    destruct k as [|k]; [lia|]. cbn [take app]. rewrite take_app_le by lia. f_equal. f_equal. lia.
Qed.

(** *** The template *)

Definition IM_START : bytes := str "<|im_start|>".
Definition IM_END : bytes := str "<|im_end|>".

(** The messages of a prompt, read back from the text. *)
Fixpoint read_chat (fuel : nat) (text : bytes) : list (bytes * bytes) :=
  match fuel with
  | O => []
  | S fuel =>
      if starts_with IM_START text then
        let '(role, rest) := span (fun c => negb (Byte.eqb c Byte.x0a)) (drop (length IM_START) text) in
        match find IM_END (tail rest) with
        | Some i => (role, take i (tail rest)) :: read_chat fuel (drop (i + length IM_END + 1) (tail rest))
        | None => []
        end
      else []
  end.

(** A role without newline and a content without end marker. *)
Definition clean (m : bytes * bytes) : Prop := (Byte.x0a ∉ fst m) /\ find IM_END (snd m) = None.

Lemma read_chat_render fuel role content rest :
  clean (role, content) -> read_chat (S fuel) (render role content ++ rest) = (role, content) :: read_chat fuel rest.
Proof.
  intros [Hr Hc]. cbn [fst snd] in *. cbn [read_chat]. unfold render. fold IM_START IM_END.
  rewrite <- !app_assoc, starts_with_app, drop_app_length. cbn [app]. rewrite span_prefix.
  - cbn [tail]. rewrite (find_after IM_END "<"%byte (str "|im_end|>") content _ eq_refl); [| |done].
    + rewrite take_app_length. do 2 f_equal.
      replace (length content + length IM_END + 1)%nat with (length (content ++ IM_END ++ [Byte.x0a]))
        by (rewrite !length_app; cbn; lia).
      change (Byte.x0a :: rest) with ([Byte.x0a] ++ rest).
      rewrite !app_assoc. apply drop_app_length.
    + apply (bool_decide_unpack _). vm_compute. exact I.
  - apply Forall_forall. intros b Hb. destruct (Byte.eqb b Byte.x0a) eqn:E; [|done].
    apply byte_eqb_eq in E as ->. done.
  - by intros b r [= <- _].
Qed.

(** The template is faithful to clean messages: the prompt determines the
    roles and the contents, in order, whatever the header asks for. *)
Theorem chat_template_roundtrip (messages : json) (think : bool) (msgs : list (bytes * bytes)) (prompt : bytes) :
  Forall2 (fun m rc => value_str m (str "role") (str "user") = Ok (fst rc) /\
                       value_str m (str "content") [] = Ok (snd rc)) (elements messages) msgs ->
  Forall clean msgs -> format_qwen_chat messages think = Ok prompt ->
  read_chat (S (length msgs)) prompt = msgs.
Proof.
  unfold format_qwen_chat. intros Hm. revert prompt.
  generalize dependent (elements messages). intros ms Hm.
  induction Hm as [|m [role content] ms msgs [Hr Hc] _ IH]; intros prompt Hcl.
  - cbn. intros [= <-]. by destruct think.
  - apply Forall_cons in Hcl as [Hcl Hcls]. cbn [render_all fst snd] in *. rewrite Hr, Hc. cbn [mbind result_bind].
    destruct (render_all ms) as [rest|] eqn:E; [|done]. cbn [mbind result_bind] in *. intros <-%Ok_inj.
    rewrite <- app_assoc. cbn [length]. rewrite read_chat_render by done. f_equal. by apply IH.
Qed.

(** *** The handler *)

Lemma absorb_total s toks out : is_Some (absorb_tokens s toks out).
Proof.
  rewrite absorb_feed_all. destruct (feed_all_total s (texts toks)) as [[s' new] ->]. by eexists.
Qed.

Lemma stream_tokens_total accepts chunk sp toks s : is_Some (stream_tokens accepts chunk sp toks s).
Proof.
  revert sp s. induction toks as [|[text eos] toks IH]; intros sp s; cbn [stream_tokens]; [by eexists|].
  destruct (_ || _); [apply IH|]. destruct (feed_some sp (c_str text)) as [[sp1 g] ->].
  cbn [mbind option_bind]. destruct (emit_all _ _ _ _) as [s1 [e|]]; [by eexists|apply IH].
Qed.

Lemma conclude_total accepts name t_id t_created streaming r :
  is_Some (conclude accepts name t_id t_created streaming r).
Proof.
  unfold conclude. destruct streaming.
  - unfold stream_chat_completion. destruct (sse_chunk _ _ _ _ _) as [opener|e]; [|by eexists].
    destruct (sink_write _ _ _) as [[] s]; [|by eexists]. unfold stream_run.
    destruct (stream_tokens_total accepts (sse_chunk (str "jllm-" ++ dec t_id) t_created name) think_split
      (tokens r) s) as [[[sp s1] thrown] ->]. cbn [mbind option_bind].
    destruct thrown, (finish r); cbn [mbind option_bind]; try by eexists.
    destruct (emit_all _ _ _ _); by eexists.
  - unfold build_completion. destruct (absorb_total think_split (tokens r) []) as [[sp out] ->].
    cbn [mbind option_bind]. destruct (finish r); cbn [mbind option_bind];
      match goal with |- context [match ?x with Ok _ => _ | Raise _ => _ end] => destruct x as [?|[]] end; by eexists.
Qed.

Lemma request_params_conv d body params :
  request_params d body = Ok params ->
  conversation_id params = [] \/ KVDir.validate_conversation_id (conversation_id params) = true.
Proof.
  unfold request_params. raises. intros [= <-]. cbn [conversation_id]. destruct (_ && _) eqn:E; [|by left].
  apply andb_true_iff in E as [_ E]. by right.
Qed.

(** The guard of the handler.  For every request body and every engine, the
    handler answers without the engine, or runs it exactly once for a
    well-formed request: the body parses, [messages] is a non-empty array, the
    prompt is its rendering, and the conversation identifier is empty or valid;
    whatever the run then delivers or throws, there is a reply. *)
Theorem handle_guards {E : Type} (generate : bytes -> GenParams -> E -> option (run * E))
  (accepts : nat -> bool) (default_kv_int8 : bool) (name : bytes) (t_id t_created : Z) (req_body : bytes)
  (e : E) :
  let reply := handle accepts generate default_kv_int8 name t_id t_created req_body e in
  (exists rep, reply = Some (rep, e)) \/
  exists body messages prompt params,
    parse req_body = Ok body /\ value_json body (str "messages") empty_array = Ok messages /\
    is_array messages = true /\ elements messages <> [] /\
    (exists think, format_qwen_chat messages think = Ok prompt) /\
    (conversation_id params = [] \/ KVDir.validate_conversation_id (conversation_id params) = true) /\
    match generate prompt params e with
    | None => reply = None
    | Some (r, e') => exists rep, reply = Some (rep, e')
    end.
Proof.
  cbv zeta. unfold handle.
  destruct (prepare default_kv_int8 req_body) as [r|prompt params streaming] eqn:Ep; [left; by exists r|right].
  unfold prepare in Ep. destruct (parse req_body) as [body|]; [|done].
  destruct (value_json body _ _) as [messages|] eqn:Em; [|done]. cbn [mbind result_bind] in Ep.
  destruct (is_array messages) eqn:Ea; [|done]. destruct (bool_decide_reflect (elements messages = [])); [done|].
  cbn [negb orb] in Ep.
  destruct (request_params _ body) as [params'|] eqn:Epar; [|done]. cbn [mbind result_bind] in Ep.
  destruct (value_bool body (str "think") false) as [think|]; [|done]. cbn [mbind result_bind] in Ep.
  destruct (format_qwen_chat messages think) as [prompt'|] eqn:Ef; [|done]. cbn [mbind result_bind] in Ep.
  destruct (value_bool body (str "stream") false); [|done]. injection Ep as -> -> _.
  exists body, messages, prompt, params. split_and!; try done; [by exists think|by eapply request_params_conv|].
  destruct (generate prompt params e) as [[r e']|]; [|done]. cbn [mbind option_bind].
  destruct (conclude_total accepts name t_id t_created streaming r) as [rep ->]. by exists rep.
Qed.

End Facts.

(** ** A concrete JSON library *)

(** Values as a small tree; one body parses. *)
Inductive jv := JArr (l : list (bytes * bytes)) | JMsg (role content : bytes) | JReq (l : list (bytes * bytes)).

Definition demo_body : bytes := str "{messages:[{role:user,content:hi}]}".

Definition demo_value {A} (j : jv) (d : A) : result A :=
  match j with JReq _ => Ok d | _ => Raise (StdException (str "type_error")) end.

#[local] Instance demo_json : Json := {|
  num := Z; json := jv;
  parse s := if bool_decide (s = demo_body) then Ok (JReq [(str "user", str "hi")])
             else Raise (StdException (str "parse_error"));
  empty_array := JArr [];
  is_array j := match j with JArr _ => true | _ => false end;
  elements j := match j with JArr l => (fun m => JMsg (fst m) (snd m)) <$> l | _ => [] end;
  value_json j k d := match j with JReq l => Ok (if bool_decide (k = str "messages") then JArr l else d)
                      | _ => Raise (StdException (str "type_error")) end;
  value_str j k d := match j with
                     | JMsg r c => Ok (if bool_decide (k = str "role") then r else c)
                     | _ => demo_value j d end;
  value_int j _ d := demo_value j d; value_num j _ d := demo_value j d; value_bool j _ d := demo_value j d;
  num_0_7 := 7; num_0_9 := 9;
  dump d := if forallb valid_utf8 (doc_strings d) then Ok (concat (doc_strings d))
            else Raise (StdException (str "[json.exception.type_error.316]")) |}.

Lemma demo_json_laws : JsonLaws demo_json.
Proof.
  intros d H. exists (str "[json.exception.type_error.316]").
  change (dump d) with (if forallb valid_utf8 (doc_strings d) then Ok (concat (doc_strings d))
                        else Raise (StdException (str "[json.exception.type_error.316]"))).
  by rewrite H.
Qed.

Definition demo_stats : GenStats := mkStats 3 2 10 20 30 40 50.
Definition demo_tokens : list (bytes * bool) :=
  [(str "<think>", false); (str "hm", false); (str "</think>", false); (str "Hi", false); (str "<eos>", true)].

Lemma chat_template_roundtrip_witness :
  exists prompt, format_qwen_chat (J := demo_json) (JArr [(str "system", str "be brief"); (str "user", str "hi <|im_en")]) true = Ok prompt /\
    read_chat 3 prompt = [(str "system", str "be brief"); (str "user", str "hi <|im_en")].
Proof.
  eexists. split; [vm_compute; reflexivity|].
  apply (chat_template_roundtrip (J := demo_json) (JArr [(str "system", str "be brief"); (str "user", str "hi <|im_en")]) true
    [(str "system", str "be brief"); (str "user", str "hi <|im_en")]).
  - repeat constructor.
  - repeat constructor; try (apply (bool_decide_unpack _); vm_compute; exact I); vm_compute; reflexivity.
  - vm_compute. reflexivity.
Defined.

(** *** Characters cut by the splitter *)

(** [<think>], a piece of reasoning with a two-byte character, the closing tag
    and an answer. *)
Definition split_tokens : list (bytes * bool) :=
  [(str "<think>", false); (str "x" ++ [Byte.xc3; Byte.xa9] ++ str "123456", false);
   (str "</think>ok", false)].

Lemma invalid_strings {num} (l : list bytes) (d : doc num) x :
  doc_strings d = l -> x ∈ l -> valid_utf8 x = false -> forallb valid_utf8 (doc_strings d) = false.
Proof.
  intros -> Hx Hv. destruct (forallb valid_utf8 l) eqn:E; [|done].
  rewrite forallb_forall in E. apply list_elem_of_In in Hx. apply E in Hx. congruence.
Qed.

(** The splitter cuts reasoning at a byte, not at a character.  All the
    tokens here are well-formed UTF-8, and so are the reasoning and the content
    of the plain completion; the stream nevertheless ends with the exception of
    the JSON library after the role, because a segment ends inside a character. *)
Theorem stream_cuts_characters {J : Json} (laws : JsonLaws J) (name : bytes) (t_id t_created : Z) (stats : GenStats)
  (s : stream) :
  client_alive s = true ->
  forallb (fun t => valid_utf8 (fst t)) split_tokens = true /\
  (exists w, stream_run (fun _ => true) (sse_chunk (str "jllm-" ++ dec t_id) t_created name)
     (mkRun split_tokens (Ok stats)) s = Some (s, Some (StdException w))) /\
  exists content reasoning,
    build_completion name t_id t_created (mkRun split_tokens (Ok stats)) =
      Some (Ok (completion_doc name t_id t_created (message content reasoning) stats)) /\
    valid_utf8 content = true /\ valid_utf8 reasoning = true.
Proof.
  intros Hs. split; [vm_compute; reflexivity|]. split.
  - set (seg := str "x" ++ [Byte.xc3]).
    set (d := DObj [(str "id", DStr (str "jllm-" ++ dec t_id)); (str "object", DStr (str "chat.completion.chunk"));
                  (str "created", DInt t_created); (str "model", DStr name);
                  (str "choices", DArr [DObj [(str "index", DInt 0);
                     (str "delta", DObj [(str "reasoning_content", DStr seg)]);
                     (str "finish_reason", @DNull num)]])]).
    destruct (laws d) as [w Hw].
    { eapply (invalid_strings _ d seg eq_refl); [|vm_compute; reflexivity].
      cbn [d doc_strings List.map concat fst snd]. rewrite ?elem_of_app, ?elem_of_cons. cbn. rewrite ?elem_of_cons. tauto. }
    exists w. unfold stream_run, split_tokens. cbn [tokens stream_tokens finish]. rewrite Hs. cbn [negb orb].
    change (feed think_split (c_str (str "<think>"))) with (Some (mkSplit THINKING [], @nil segment)).
    cbn [mbind option_bind emit_all]. rewrite Hs. cbn [negb orb].
    change (feed (mkSplit THINKING []) (c_str (str "x" ++ [Byte.xc3; Byte.xa9] ++ str "123456")))
      with (Some (mkSplit THINKING ([Byte.xa9] ++ str "123456"), [(Reasoning, seg)])).
    cbn [mbind option_bind emit_all]. unfold emit_segment. rewrite Hs. cbn [negb delta_of].
    unfold sse_chunk, sse_data. fold d. rewrite Hw. done.
  - eexists _, _. split; [reflexivity|]. split; vm_compute; reflexivity.
Qed.

Lemma stream_cuts_characters_witness :
  exists w, stream_run (fun _ => true) (sse_chunk (str "jllm-1") 2 (str "m"))
     (mkRun split_tokens (Ok demo_stats)) (mkStream [] 0 true false) = Some (mkStream [] 0 true false, Some (StdException w)).
Proof.
  destruct (stream_cuts_characters demo_json_laws (str "m") 1 2 demo_stats (mkStream [] 0 true false))
    as (_ & (w & E) & _).
  - reflexivity.
  - exists w. exact E.
Defined.

Lemma stream_frames_witness :
  exists s, stream_chat_completion (fun n => (n <? 2)%nat) (str "m") 1 2 (mkRun demo_tokens (Ok demo_stats))
      = Some (Ok s) /\ length (frames s) = 2%nat /\ stopped s = true.
Proof.
  destruct (stream_frames 2 (str "m") 1 2 demo_tokens demo_stats
    (default [] (match sse_chunk (str "jllm-1") 2 (str "m") (DObj [(str "role", DStr (str "assistant"))]) None
                 with Ok f => Some f | _ => None end))
    (default [] (match sse_chunk (str "jllm-1") 2 (str "m") (DObj []) (Some (str "stop"))
                 with Ok f => Some f | _ => None end))
    [(Reasoning, str "hm"); (Content, str "Hi")]
    (omap (fun g => match sse_chunk (str "jllm-1") 2 (str "m") (delta_of g) None with Ok f => Some f | _ => None end)
       [(Reasoning, str "hm"); (Content, str "Hi")])) as (s & E & Hf & Hs).
  - vm_compute. reflexivity.
  - vm_compute. reflexivity.
  - vm_compute. reflexivity.
  - repeat constructor; vm_compute; reflexivity.
  - exists s. split; [exact E|]. split; [rewrite Hf; vm_compute; reflexivity|rewrite Hs; vm_compute; reflexivity].
Defined.

End Server.
