(* ===== verification/Cli.v ===== *)
(** * Cli: the two programs ([src/main.cpp], [src/main_server.cpp])

    Command lines, the prompt template of the command line tool, its
    interactive loop, and the two [main] functions over an engine given by the
    interface [EngineOps].  Messages on standard error, the probes that are only
    printed and the timing of the load are left out; [atof] and the engine's
    HTTP loop are parameters. *)

From S2P Require Import Prelude CLib Budget KVDir Chat Server.

Module Cli.

(** ** Command lines *)

(** [argv[1..]] is a list of byte strings; a [float] is of a type [F]. *)
Section Cli.
Context {F : Type} (atof : bytes -> F) (float_0_7 float_0_9 : F).

Record Args := mkArgs {
  model_path : bytes; prompt : bytes; max_tokens : Z; context : Z; temperature : F; top_k : Z; top_p : F;
  interactive : bool; verbose : bool; kv_int8 : bool; chat : bool; raw_prompt : bool; think : bool;
  conversation_id : bytes }.

Definition default_args : Args :=
  mkArgs [] [] 256 0 float_0_7 40 float_0_9 false false true false false false [].

Definition set_model_path v (a : Args) : Args := let '(mkArgs _ p n c t k q i b x h r o d) := a in mkArgs v p n c t k q i b x h r o d.
Definition set_prompt v (a : Args) : Args := let '(mkArgs m _ n c t k q i b x h r o d) := a in mkArgs m v n c t k q i b x h r o d.
Definition set_max_tokens v (a : Args) : Args := let '(mkArgs m p _ c t k q i b x h r o d) := a in mkArgs m p v c t k q i b x h r o d.
Definition set_context v (a : Args) : Args := let '(mkArgs m p n _ t k q i b x h r o d) := a in mkArgs m p n v t k q i b x h r o d.
Definition set_temperature v (a : Args) : Args := let '(mkArgs m p n c _ k q i b x h r o d) := a in mkArgs m p n c v k q i b x h r o d.
Definition set_interactive v (a : Args) : Args := let '(mkArgs m p n c t k q _ b x h r o d) := a in mkArgs m p n c t k q v b x h r o d.
Definition set_verbose v (a : Args) : Args := let '(mkArgs m p n c t k q i _ x h r o d) := a in mkArgs m p n c t k q i v x h r o d.
Definition set_kv_int8 v (a : Args) : Args := let '(mkArgs m p n c t k q i b _ h r o d) := a in mkArgs m p n c t k q i b v h r o d.
Definition set_chat v (a : Args) : Args := let '(mkArgs m p n c t k q i b x _ r o d) := a in mkArgs m p n c t k q i b x v r o d.
Definition set_raw_prompt v (a : Args) : Args := let '(mkArgs m p n c t k q i b x h _ o d) := a in mkArgs m p n c t k q i b x h v o d.
Definition set_think v (a : Args) : Args := let '(mkArgs m p n c t k q i b x h r _ d) := a in mkArgs m p n c t k q i b x h r v d.
Definition set_conversation_id v (a : Args) : Args := let '(mkArgs m p n c t k q i b x h r o _) := a in mkArgs m p n c t k q i b x h r o v.

(** An option with a value; [None]: no such option. *)
Definition valued (o v : bytes) (a : Args) : option Args :=
  if decide (o = str "-m") then Some (set_model_path v a)
  else if decide (o = str "-p") then Some (set_prompt v a)
  else if decide (o = str "-n") then Some (set_max_tokens (atoi v) a)
  else if decide (o = str "-c") then Some (set_context (atoi v) a)
  else if decide (o = str "-t") then Some (set_temperature (atof v) a)
  else if decide (o = str "--conv-id") then Some (set_conversation_id v a)
  else None.

Definition flag (o : bytes) (a : Args) : option Args :=
  if decide (o = str "-i") then Some (set_interactive true a)
  else if decide (o = str "-v") then Some (set_verbose true a)
  else if decide (o = str "--int8-kv") then Some (set_kv_int8 true a)
  else if decide (o = str "--fp16-kv") then Some (set_kv_int8 false a)
  else if decide (o = str "--chat") then Some (set_chat true a)
  else if decide (o = str "--raw") then Some (set_raw_prompt true a)
  else if decide (o = str "--think") then Some (set_think true a)
  else if decide (o = str "--no-think") then Some (set_think false a)
  else None.

(** The program prints its version, or its usage, and exits. *)
Inductive parsed (A : Type) :=
| Run (a : A)
| Version
| Usage.
Arguments Run {A} _.
Arguments Version {A}.
Arguments Usage {A}.

Definition is_version (o : bytes) : bool := bool_decide (o = str "-V") || bool_decide (o = str "--version").
Definition is_help (o : bytes) : bool := bool_decide (o = str "-h") || bool_decide (o = str "--help").

(** The loop of [parse_args]: an option whose value is missing, or that is not
    known, is skipped. *)
Fixpoint parse_loop (argv : list bytes) (a : Args) : parsed Args :=
  match argv with
  | [] => Run a
  | o :: rest =>
      let alone :=
        match flag o a with
        | Some a => parse_loop rest a
        | None => if is_version o then Version else if is_help o then Usage else parse_loop rest a
        end in
      match rest with
      | v :: rest' => match valued o v a with Some a => parse_loop rest' a | None => alone end
      | [] => alone
      end
  end.

Definition parse_args (argv : list bytes) : parsed Args := parse_loop argv default_args.

(** ** The prompt template *)

(** [needle] is in lower case. *)
Definition contains_ci (haystack needle : bytes) : bool := strstr (tolower <$> haystack) needle.

Definition already_chat_formatted (p : bytes) : bool :=
  strstr p (str "<|im_start|>") || strstr p (str "<|start_header_id|>") || strstr p (str "[INST]").

Definition should_apply_chat_template (a : Args) (cfg_name : bytes) : bool :=
  if raw_prompt a then false
  else if chat a then true
  else contains_ci cfg_name (str "instruct") || contains_ci cfg_name (str "chat").

Definition newline : bytes := ["010"%byte].

Definition qwen_chat_prompt (user_prompt : bytes) (think : bool) : bytes :=
  str "<|im_start|>user" ++ newline ++ user_prompt ++
  str "<|im_end|>" ++ newline ++ str "<|im_start|>assistant" ++ newline ++
  (if think then [] else str "<think>" ++ newline ++ newline ++ str "</think>" ++ newline ++ newline).

Definition format_prompt (p : bytes) (a : Args) (cfg_name : bytes) : bytes :=
  if negb (should_apply_chat_template a cfg_name) || already_chat_formatted p then p
  else qwen_chat_prompt p (think a).

(** ** The engine *)

Record GenParams := mkParams {
  p_max_tokens : Z; p_temperature : F; p_top_k : Z; p_top_p : F; p_context_limit : Z; p_kv_int8 : bool;
  p_conversation_id : bytes }.

(** The texts passed to the callback, and whether an exception leaves [generate]. *)
Record answer := mkAnswer { texts : list bytes; throws : bool }.

(** [None] is undefined behaviour. *)
Class EngineOps (E : Type) := {
  e_load : bytes -> GenParams -> E -> option (bool * E);
  e_name : E -> bytes;
  e_generate : bytes -> GenParams -> E -> option (answer * E);
  e_unload : E -> E;
  (** [run_server(engine, port, kv_int8)], until its loop ends *)
  e_serve : Z -> bool -> E -> option E }.

(** How a program ends: its exit code, or an exception that nothing catches. *)
Inductive ending :=
| Exit (code : Z)
| Terminate.

Record outcome (E : Type) := mkOutcome { ends : ending; stdout : bytes; engine : E }.
Arguments mkOutcome {E} _ _ _.

Section Main.
Context {E : Type} `{EngineOps E}.

Definition generation_params (a : Args) : GenParams :=
  mkParams (max_tokens a) (temperature a) (top_k a) (top_p a) (context a) (kv_int8 a)
    (if KVDir.validate_conversation_id (conversation_id a) then conversation_id a else []).

(** One call of [generate]; every text goes to [fputs].  The flag: it threw. *)
Definition say (p : bytes) (params : GenParams) (out : bytes) (e : E) : option (bool * bytes * E) :=
  '(r, e) ← e_generate p params e; Some (throws r, out ++ concat (c_string <$> texts r), e).

(** What is left of a line of input: up to the newline. *)
Definition strip_newline (line : bytes) : bytes := (span (fun c => negb (Byte.eqb c "010"%byte)) (c_string line)).1.

Fixpoint chat_loop (a : Args) (name : bytes) (params : GenParams) (ls : list bytes) (out : bytes) (e : E)
  : option (bool * bytes * E) :=
  match ls with
  | [] => Some (false, out, e)
  | line :: ls =>
      let line := strip_newline line in
      if bool_decide (line = str "quit") || bool_decide (line = str "exit") then Some (false, out, e)
      else if bool_decide (line = []) then chat_loop a name params ls out e
      else
        r ← say (format_prompt line a name) params out e;
        let '(threw, out, e) := r in
        if (threw : bool) then Some (true, out, e) else chat_loop a name params ls out e
  end.

(** After the load. *)
Definition generate_phase (a : Args) (params : GenParams) (stdin : bytes) (e : E) : option (bool * bytes * E) :=
  let name := e_name e in
  if interactive a then chat_loop a name params (lines 4096 stdin) [] e
  else if negb (bool_decide (prompt a = [])) then say (format_prompt (prompt a) a name) params [] e
  else Some (false, [], e).

(** [version]: the line of [-V].  The destructor of the engine unloads it. *)
Definition main (version : bytes) (argv : list bytes) (meminfo : option bytes) (files : bytes -> option bytes)
  (stdin : bytes) (e : E) : option (outcome E) :=
  match parse_args argv with
  | Version => Some (mkOutcome (Exit 0) version e)
  | Usage => Some (mkOutcome (Exit 0) [] e)
  | Run a =>
      if bool_decide (model_path a = []) then Some (mkOutcome (Exit 1) [] e) else
      let budget := Budget.probe_system_memory meminfo in
      match files (model_path a) with
      | None => Some (mkOutcome (Exit 1) [] e)
      | Some f =>
          let file_size_mb := Z.quot (zlen f) (1024 * 1024) in
          if negb (Budget.can_allocate budget (file_size_mb + 200)) then Some (mkOutcome (Exit 1) [] e) else
          let params := generation_params a in
          '(ok, e) ← e_load (model_path a) params e;
          if negb ok then Some (mkOutcome (Exit 1) [] (e_unload e)) else
          '(threw, out, e) ← generate_phase a params stdin e;
          if (threw : bool) then Some (mkOutcome Terminate out e)
          else Some (mkOutcome (Exit 0) out (e_unload (e_unload e)))
      end
  end.

(** ** The server *)

Record ServerArgs := mkServer { s_model_path : bytes; s_port : Z; s_context : Z; s_kv_int8 : bool }.

Definition default_server_args : ServerArgs := mkServer [] 8080 0 false.

Fixpoint parse_server (argv : list bytes) (a : ServerArgs) : parsed ServerArgs :=
  let '(mkServer m p c k) := a in
  match argv with
  | [] => Run a
  | o :: rest =>
      let alone :=
        if decide (o = str "--int8-kv") then parse_server rest (mkServer m p c true)
        else if decide (o = str "--fp16-kv") then parse_server rest (mkServer m p c false)
        else if is_version o then Version
        else if decide (o = str "-h") then Usage
        else parse_server rest a in
      match rest with
      | v :: rest' =>
          if decide (o = str "-m") then parse_server rest' (mkServer v p c k)
          else if decide (o = str "-p") then parse_server rest' (mkServer m (atoi v) c k)
          else if decide (o = str "-c") then parse_server rest' (mkServer m p (atoi v) k)
          else alone
      | [] => alone
      end
  end.

(** The defaults of [GenParams] that the server keeps. *)
Definition server_params (a : ServerArgs) : GenParams :=
  mkParams 256 float_0_7 40 float_0_9 (s_context a) (s_kv_int8 a) [].

Definition server_main (version : bytes) (argv : list bytes) (e : E) : option (outcome E) :=
  match parse_server argv default_server_args with
  | Version => Some (mkOutcome (Exit 0) version e)
  | Usage => Some (mkOutcome (Exit 0) [] e)
  | Run a =>
      if bool_decide (s_model_path a = []) then Some (mkOutcome (Exit 1) [] e) else
      '(ok, e) ← e_load (s_model_path a) (server_params a) e;
      if negb ok then Some (mkOutcome (Exit 1) [] (e_unload e)) else
      e ← e_serve (s_port a) (s_kv_int8 a) e;
      Some (mkOutcome (Exit 0) [] (e_unload e))
  end.

End Main.

(** ** Command lines that say everything *)

Definition on (b : bool) (o : bytes) : list bytes := if b then [o] else [].

(** A command line for [a]; [t] is the text of the temperature. *)
Definition command_line (t : bytes) (a : Args) : list bytes :=
  [str "-m"; model_path a; str "-p"; prompt a; str "-n"; dec (max_tokens a); str "-c"; dec (context a); str "-t"; t;
   str "--conv-id"; conversation_id a] ++
  on (interactive a) (str "-i") ++ on (verbose a) (str "-v") ++
  [if kv_int8 a then str "--int8-kv" else str "--fp16-kv"] ++
  on (chat a) (str "--chat") ++ on (raw_prompt a) (str "--raw") ++ [if think a then str "--think" else str "--no-think"].

Lemma parse_valued o v rest a a' : valued o v a = Some a' -> parse_loop (o :: v :: rest) a = parse_loop rest a'.
Proof. intros E. cbn [parse_loop]. by rewrite E. Qed.

Lemma parse_flag o rest a a' :
  (forall v, valued o v a = None) -> flag o a = Some a' -> parse_loop (o :: rest) a = parse_loop rest a'.
Proof. intros Hv E. destruct rest as [|v rest]; cbn [parse_loop]; rewrite ?Hv, E; done. Qed.

Lemma parse_on (b : bool) o rest a a' :
  (forall v, valued o v a = None) -> (if b then flag o a = Some a' else a' = a) ->
  parse_loop (on b o ++ rest) a = parse_loop rest a'.
Proof. intros Hv E. destruct b; cbn [on app]; [by apply parse_flag|by rewrite E]. Qed.

Lemma atoi_dec n : 0 <= n < 2 ^ 31 -> atoi (dec n) = n.
Proof.
  intros Hn. unfold atoi. rewrite <- (app_nil_r (dec n)).
  rewrite strtol_dec; [by apply i32_id; lia|unfold INT64_MAX; lia|done].
Qed.

(** Every setting of the command line tool can be said on its command line:
    whatever the paths, the prompt and the identifier contain (also texts that
    look like options), [parse_args] reads the settings back from a command
    line that states them. *)
Theorem args_roundtrip (t : bytes) (a : Args) :
  0 <= max_tokens a < 2 ^ 31 -> 0 <= context a < 2 ^ 31 -> atof t = temperature a ->
  top_k a = 40 -> top_p a = float_0_9 -> parse_args (command_line t a) = Run a.
Proof.
  destruct a as [m p n c tt tk tp i b x h r o d]. cbn [max_tokens context temperature top_k top_p]. intros Hn Hc Ht -> ->.
  unfold parse_args, default_args, command_line.
  cbn [model_path prompt max_tokens context interactive verbose kv_int8 chat raw_prompt think conversation_id app].
  do 6 (erewrite parse_valued by reflexivity). cbn [set_model_path set_prompt set_max_tokens set_context set_temperature set_conversation_id].
  rewrite !atoi_dec, Ht by done.
  set (args i b x h r o := mkArgs m p n c tt 40 float_0_9 i b x h r o d).
  rewrite (parse_on i _ _ _ (args i false true false false false)) by (done || by destruct i).
  rewrite (parse_on b _ _ _ (args i b true false false false)) by (done || by destruct b).
  rewrite (parse_flag _ _ _ (args i b x false false false)) by (by destruct x).
  rewrite (parse_on h _ _ _ (args i b x h false false)) by (done || by destruct h).
  rewrite (parse_on r _ _ _ (args i b x h r false)) by (done || by destruct r).
  by rewrite (parse_flag _ _ _ (args i b x h r o)) by (by destruct o).
Qed.

(** ** The template *)

Lemma find_here needle rest : needle <> [] -> strstr (needle ++ rest) needle = true.
Proof.
  intros Hn. unfold strstr. apply bool_decide_eq_true_2. destruct needle as [|b needle]; [done|].
  exists 0%nat. cbn [app find]. change (b :: needle ++ rest) with ((b :: needle) ++ rest). by rewrite starts_with_app.
Qed.

Lemma formatted_is_chat p b : already_chat_formatted (qwen_chat_prompt p b) = true.
Proof.
  unfold already_chat_formatted. apply orb_true_iff. left. apply orb_true_iff. left.
  unfold qwen_chat_prompt. change (str "<|im_start|>user") with (str "<|im_start|>" ++ str "user").
  rewrite <- app_assoc. by apply find_here.
Qed.

(** The tool and the server speak one template.  Where the tool wraps a
    prompt it makes the very text the server makes of a request with one
    message of the user; and wrapping twice changes nothing, so a prompt that
    is already formatted is not wrapped again. *)
Theorem prompt_format (p : bytes) (a : Args) (name : bytes) :
  format_prompt p a name =
    (if should_apply_chat_template a name && negb (already_chat_formatted p)
     then Server.render (str "user") p ++ Server.generation_header (think a) else p) /\
  format_prompt (format_prompt p a name) a name = format_prompt p a name.
Proof.
  assert (Eq : forall b, qwen_chat_prompt p b = Server.render (str "user") p ++ Server.generation_header b).
  { intros b. unfold qwen_chat_prompt, Server.render, Server.generation_header, newline. by destruct b; rewrite <- !app_assoc. }
  unfold format_prompt. split.
  - rewrite <- Eq. by destruct (should_apply_chat_template a name), (already_chat_formatted p).
  - destruct (should_apply_chat_template a name); cbn [negb orb]; [|done].
    destruct (already_chat_formatted p) eqn:Ea; [by rewrite Ea|]. by rewrite formatted_is_chat.
Qed.

(** ** The interactive loop *)

Section Loop.
Context {E : Type} `{EngineOps E}.

(** The prompts a sequence of lines asks for. *)
Fixpoint wanted (ls : list bytes) : list bytes :=
  match ls with
  | [] => []
  | l :: ls =>
      if bool_decide (l = str "quit") || bool_decide (l = str "exit") then []
      else if bool_decide (l = []) then wanted ls else l :: wanted ls
  end.

(** One answer after the other; an exception ends the session. *)
Fixpoint say_all (params : GenParams) (ps : list bytes) (out : bytes) (e : E) : option (bool * bytes * E) :=
  match ps with
  | [] => Some (false, out, e)
  | p :: ps =>
      r ← say p params out e;
      let '(threw, out, e) := r in
      if (threw : bool) then Some (true, out, e) else say_all params ps out e
  end.

(** The loop says what the lines ask for. *)
Lemma chat_says a name params ls out e :
  chat_loop a name params ls out e = say_all params ((fun p => format_prompt p a name) <$> wanted (strip_newline <$> ls)) out e.
Proof.
  revert out e. induction ls as [|l ls IH]; intros out e; [done|]. rewrite fmap_cons. cbn [chat_loop wanted].
  destruct (_ || _); [done|]. destruct (bool_decide (strip_newline l = [])); [apply IH|]. rewrite fmap_cons. cbn [say_all].
  destruct (say _ params out e) as [[[[] out'] e']|]; cbn [mbind option_bind]; [done|apply IH|done].
Qed.

(** A line that fits the buffer. *)
Record short_line (l : bytes) : Prop := {
  sl_newline : Forall (fun c => Byte.eqb c "010"%byte = false) l;
  sl_zero : Forall (fun c => Byte.eqb c Byte.x00 = false) l;
  sl_length : zlen l + 2 <= 4096 }.

Lemma span_whole {A} (p : A -> bool) l : Forall (fun c => p c = true) l -> span p l = (l, []).
Proof. intros Hl. rewrite <- (app_nil_r l) at 1. by rewrite span_prefix. Qed.

Lemma strip_line l : short_line l -> strip_newline (l ++ newline) = l.
Proof.
  intros [Hn Hz _]. unfold strip_newline, c_string. rewrite (span_whole _ (l ++ newline)).
  - cbn [fst]. unfold newline. rewrite span_prefix; [done| |].
    + eapply Forall_impl; [exact Hn|]. cbn. by intros c ->.
    + by intros b r [= <- _].
  - apply Forall_app. split; [|by repeat constructor]. eapply Forall_impl; [exact Hz|]. cbn. by intros c ->.
Qed.

(** The interactive loop answers what was typed.  On an input of lines that
    fit its buffer the loop calls [generate] exactly once for each non-empty
    line before the first "quit" or "exit" or the end of the input, in order,
    formatted, and stops early only when an exception leaves [generate]. *)
Theorem interactive_prompts (a : Args) (name : bytes) (params : GenParams) (ls : list bytes) (out : bytes) (e : E) :
  Forall short_line ls ->
  chat_loop a name params (lines 4096 (concat ((fun l => l ++ newline) <$> ls))) out e =
  say_all params ((fun p => format_prompt p a name) <$> wanted ls) out e.
Proof.
  intros Hl. revert out e. induction Hl as [|l ls Hl Hls IH]; intros out e; [done|].
  rewrite fmap_cons. cbn [concat]. unfold newline at 1. rewrite <- app_assoc. cbn [app].
  rewrite lines_cons by first [apply Hl|pose proof (sl_length _ Hl); unfold zlen in *; lia]. cbn [chat_loop wanted]. change ["010"%byte] with newline. rewrite strip_line by done.
  destruct (bool_decide (l = str "quit") || bool_decide (l = str "exit")); [done|].
  destruct (bool_decide (l = [])); [apply IH|]. rewrite fmap_cons. cbn [say_all].
  destruct (say _ params out e) as [[[[] out'] e']|]; cbn [mbind option_bind]; [done|apply IH|done].
Qed.

End Loop.
End Cli.
(** ** Concrete runs *)

(** A path and a prompt that look like options. *)
Lemma args_roundtrip_witness :
  parse_args atoi 7 9 (command_line (str "5")
    (mkArgs (str "-p") (str "--raw") 12 4096 5 40 9 true false false true false true (str "c-1"))) =
  Run _ (mkArgs (str "-p") (str "--raw") 12 4096 5 40 9 true false false true false true (str "c-1")).
Proof. apply (args_roundtrip atoi 7 9 (str "5")); vm_compute; first [reflexivity|split; [discriminate|reflexivity]]. Defined.

(** An engine that records its prompts. *)
#[local] Instance recorder : EngineOps (F := Z) (list bytes) := {|
  e_load _ _ e := Some (true, e); e_name _ := str "Qwen3-4B-Instruct"; e_unload e := e;
  e_generate p _ e := Some (mkAnswer [str "ok "] false, e ++ [p]); e_serve _ _ e := Some e |}.

Lemma interactive_prompts_witness :
  chat_loop (set_raw_prompt true (default_args 7 9)) (str "m") (generation_params (default_args 7 9))
    (lines 4096 (str "hi" ++ newline ++ newline ++ str "there" ++ newline ++ str "quit" ++ newline ++ str "more" ++ newline)) [] [] =
  Some (false, str "ok ok ", [str "hi"; str "there"]).
Proof.
  pose proof (interactive_prompts (set_raw_prompt true (default_args 7 9)) (str "m") (generation_params (default_args 7 9))
    [str "hi"; []; str "there"; str "quit"; str "more"] [] []) as H.
  etransitivity; [apply H|reflexivity].
  repeat constructor; vm_compute; discriminate.
Defined.

End Cli.
