(* ===== verification/Threads.v ===== *)
(** * Threads: concurrent requests ([g_engine_mutex] of
    [src/server/http_server.cpp])

    The HTTP library runs every request on a thread of its own; the engine is
    shared and guarded by one mutex, taken around [generate] and the work that
    needs its result.  A run of the engine is not atomic here: a thread reads
    the engine when it enters the critical section and writes it when it
    leaves.  The relation [step] has one constructor for each thing a thread
    can do next; the theorems hold for every interleaving. *)

From S2P Require Import Prelude Server.

Module Threads.
Import Server.

Section Threads.
Context {J : Json} {E : Type}.
(** What differs between threads: the behaviour of the engine for the request,
    of the client and of the clock. *)
Context (generate : nat -> bytes -> GenParams -> E -> option (run * E)).
Context (accepts : nat -> nat -> bool) (t_id t_created : nat -> Z).
Context (default_kv_int8 : bool) (name : bytes).

Inductive thread :=
  | Arrived (body : bytes)
  | Queued (prompt : bytes) (params : GenParams) (streaming : bool)
  | Inside (prompt : bytes) (params : GenParams) (streaming : bool) (read : E)
  | Replied (rep : reply).

Record server := mkServer { threads : list thread; mutex : option nat; engine : E }.

Definition set (i : nat) (t : thread) (s : server) : server :=
  mkServer (<[i := t]> (threads s)) (mutex s) (engine s).

Inductive step (s : server) : server -> Prop :=
  | step_answer i body rep :
      threads s !! i = Some (Arrived body) -> prepare default_kv_int8 body = Answer rep ->
      step s (set i (Replied rep) s)
  | step_queue i body prompt params streaming :
      threads s !! i = Some (Arrived body) ->
      prepare default_kv_int8 body = Generate prompt params streaming ->
      step s (set i (Queued prompt params streaming) s)
  | step_lock i prompt params streaming :
      threads s !! i = Some (Queued prompt params streaming) -> mutex s = None ->
      step s (mkServer (<[i := Inside prompt params streaming (engine s)]> (threads s)) (Some i) (engine s))
  | step_unlock i prompt params streaming read r e rep :
      threads s !! i = Some (Inside prompt params streaming read) -> mutex s = Some i ->
      generate i prompt params read = Some (r, e) ->
      conclude (accepts i) name (t_id i) (t_created i) streaming r = Some rep ->
      step s (mkServer (<[i := Replied rep]> (threads s)) None e).

(** The requests [bodies], one thread each. *)
Definition start (bodies : list bytes) (e : E) : server := mkServer (Arrived <$> bodies) None e.

Definition reachable (bodies : list bytes) (e : E) (s : server) : Prop := rtc step (start bodies e) s.

(** ** One request after the other *)

Definition serve (i : nat) (body : bytes) (e : E) : option (reply * E) :=
  handle (accepts i) (generate i) default_kv_int8 name (t_id i) (t_created i) body e.

Fixpoint serial (bodies : list bytes) (order : list nat) (e : E) : option (list reply * E) :=
  match order with
  | [] => Some ([], e)
  | i :: order =>
      body ← bodies !! i; '(rep, e) ← serve i body e;
      '(reps, e) ← serial bodies order e; Some (rep :: reps, e)
  end.

Lemma serial_snoc bodies order i e reps e1 body rep e2 :
  serial bodies order e = Some (reps, e1) -> bodies !! i = Some body -> serve i body e1 = Some (rep, e2) ->
  serial bodies (order ++ [i]) e = Some (reps ++ [rep], e2).
Proof.
  revert e reps. induction order as [|j order IH]; intros e reps; cbn [serial app].
  - intros [= <- <-] Hb Hs. by rewrite Hb; cbn [mbind option_bind]; rewrite Hs.
  - destruct (bodies !! j) as [b|]; [|done]. cbn [mbind option_bind].
    destruct (serve j b e) as [[rep1 e']|]; [|done]. cbn [mbind option_bind].
    destruct (serial bodies order e') as [[reps' e'']|] eqn:Es; [|done]. cbn [mbind option_bind].
    intros [= <- <-] Hb Hs. by rewrite (IH _ _ Es Hb Hs).
Qed.

(** ** The invariant *)

(** A thread agrees with the request it serves; [order] and [reps] are the
    finished requests in their order, [e] the engine. *)
Definition agrees (bodies : list bytes) (order : list nat) (reps : list reply) (m : option nat) (e : E)
  (i : nat) (t : thread) : Prop :=
  exists body, bodies !! i = Some body /\
  match t with
  | Arrived b => b = body /\ (i ∉ order)
  | Queued prompt params streaming =>
      prepare default_kv_int8 body = Generate prompt params streaming /\ (i ∉ order)
  | Inside prompt params streaming read =>
      prepare default_kv_int8 body = Generate prompt params streaming /\ (i ∉ order) /\ m = Some i /\ read = e
  | Replied rep => exists k, order !! k = Some i /\ reps !! k = Some rep
  end.

Definition inside (t : thread) : Prop := exists pr pa st rd, t = Inside pr pa st rd.

(** The mutex is held by a thread that is inside. *)
Definition held (s : server) : Prop :=
  forall i, mutex s = Some i -> exists t, threads s !! i = Some t /\ inside t.

Definition inv (bodies : list bytes) (e0 : E) (s : server) : Prop :=
  length (threads s) = length bodies /\ held s /\
  exists order reps, NoDup order /\ serial bodies order e0 = Some (reps, engine s) /\
    length reps = length order /\
    (forall i, i ∈ order -> exists rep, threads s !! i = Some (Replied rep)) /\
    forall i t, threads s !! i = Some t -> agrees bodies order reps (mutex s) (engine s) i t.

Lemma inv_start bodies e : inv bodies e (start bodies e).
Proof.
  split; [apply length_fmap|]. split; [done|]. exists [], []. split_and!; try done; [constructor|by intros i ?%not_elem_of_nil|].
  intros i t. cbn [start threads]. rewrite list_lookup_fmap. destruct (bodies !! i) as [b|] eqn:Eb; [|done].
  intros [= <-]. exists b. split; [done|]. split; [done|apply not_elem_of_nil].
Qed.

(** What a finished request changes for the others. *)
Lemma agrees_others bodies order reps m e i rep m' e' j t :
  agrees bodies order reps m e j t -> j <> i -> length reps = length order ->
  (forall prompt params streaming read, t <> Inside prompt params streaming read) \/ m' = m /\ e' = e ->
  agrees bodies (order ++ [i]) (reps ++ [rep]) m' e' j t.
Proof.
  intros (body & Hb & Ht) Hj Hl Hin. exists body. split; [done|].
  assert (Hno : j ∉ order -> j ∉ order ++ [i])
    by (rewrite elem_of_app, list_elem_of_singleton; tauto).
  destruct t as [b|pr pa st|pr pa st rd|rp].
  - destruct Ht as [-> ?]. auto.
  - destruct Ht. auto.
  - destruct Hin as [Hin|[-> ->]]; [by destruct (Hin pr pa st rd)|]. destruct Ht as (? & ? & ?). auto.
  - destruct Ht as (k & Hk & Hr). exists k. by rewrite !lookup_app_l by (apply lookup_lt_is_Some; eauto).
Qed.

(** The update of one thread. *)
Lemma lookup_set (ts : list thread) i t j u :
  <[i := t]> ts !! j = Some u -> j = i /\ u = t \/ j <> i /\ ts !! j = Some u.
Proof.
  destruct (decide (j = i)) as [->|Hj].
  - intros H. pose proof (lookup_lt_Some _ _ _ H) as Hl. rewrite length_insert in Hl.
    rewrite list_lookup_insert_eq in H by done. injection H as <-. by left.
  - rewrite list_lookup_insert_ne by done. by right.
Qed.

(** A thread finishes with the reply a serial run gives it. *)
Lemma inv_finish bodies e0 s i old body rep m' e' :
  inv bodies e0 s -> threads s !! i = Some old -> (forall r, old <> Replied r) ->
  bodies !! i = Some body -> serve i body (engine s) = Some (rep, e') ->
  mutex s = Some i /\ m' = None \/ m' = mutex s /\ e' = engine s /\ ~ inside old ->
  inv bodies e0 (mkServer (<[i := Replied rep]> (threads s)) m' e').
Proof.
  intros (Hlen & Hheld & order & reps & Hnd & Hs & Hl & Hdone & Hag) Hi Hold Hb Hserve Hm.
  assert (Hni : i ∉ order) by (intros Hin; destruct (Hdone i Hin) as [r Hr]; apply (Hold r); congruence).
  pose proof (lookup_lt_Some _ _ _ Hi) as Hlt.
  split; [cbn [threads]; by rewrite length_insert|]. split.
  { intros j Hj. cbn [mutex threads] in *. destruct Hm as [[_ ->]|(-> & _ & Hno)]; [done|].
    destruct (Hheld j Hj) as (t & Ht & Hin). exists t. split; [|done].
    rewrite list_lookup_insert_ne; [done|]. intros <-. congruence. }
  exists (order ++ [i]), (reps ++ [rep]). split_and!.
  - apply NoDup_app. split; [done|]. split; [|apply NoDup_singleton].
    intros x Hx ->%list_elem_of_singleton. done.
  - by eapply serial_snoc.
  - rewrite !length_app. cbn. lia.
  - cbn [threads]. intros j [Hj| ->%list_elem_of_singleton]%elem_of_app.
    + rewrite list_lookup_insert_ne by (intros ->; done). by apply Hdone.
    + rewrite list_lookup_insert_eq by done. by exists rep.
  - cbn [threads mutex engine]. intros j t [[-> ->]|[Hj Ht]]%lookup_set.
    + exists body. split; [done|]. exists (length order).
      split; [apply list_lookup_middle; done|rewrite <- Hl; by apply list_lookup_middle].
    + eapply agrees_others; [by apply Hag|done|done|].
      destruct Hm as [[Hm _]|(-> & -> & _)]; [|by right]. left. intros pr pa st rd ->.
      destruct (Hag _ _ Ht) as (b & _ & _ & _ & Hmu & _). congruence.
Qed.

Lemma server_inv_step bodies e0 s s' : inv bodies e0 s -> step s s' -> inv bodies e0 s'.
Proof.
  intros Hinv Hstep. pose proof Hinv as (Hlen & Hheld & order & reps & Hnd & Hs & Hl & Hdone & Hag).
  destruct Hstep as [i body rep Hi Hp|i body prompt params streaming Hi Hp|i prompt params streaming Hi Hm|
    i prompt params streaming read r e rep Hi Hm Hg Hc].
  - destruct (Hag _ _ Hi) as (b & Hb & <- & _). unfold set.
    eapply inv_finish; [done|exact Hi|done|exact Hb| |right; split_and!; [done..|by intros (? & ? & ? & ? & ?)]]. unfold serve, handle. by rewrite Hp.
  - destruct (Hag _ _ Hi) as (b & Hb & <- & Hni). pose proof (lookup_lt_Some _ _ _ Hi) as Hlt.
    split; [cbn; by rewrite length_insert|]. split.
    { intros j Hj. destruct (Hheld j Hj) as (t & Ht & Hin). exists t. split; [|done]. cbn [set threads].
      rewrite list_lookup_insert_ne; [done|]. intros <-. rewrite Hi in Ht. injection Ht as <-.
      by destruct Hin as (? & ? & ? & ? & ?). }
    exists order, reps. split_and!; try done; cbn [set threads mutex engine].
    + intros j Hj. rewrite list_lookup_insert_ne by (intros ->; done). by apply Hdone.
    + intros j t [[-> ->]|[_ Ht]]%lookup_set; [by exists body|by apply Hag].
  - destruct (Hag _ _ Hi) as (b & Hb & Hp & Hni). pose proof (lookup_lt_Some _ _ _ Hi) as Hlt.
    split; [cbn; by rewrite length_insert|]. split.
    { intros j [= <-]. cbn [threads]. eexists. split; [by apply list_lookup_insert_eq|]. by repeat eexists. }
    exists order, reps. split_and!; try done; cbn [threads mutex engine].
    + intros j Hj. rewrite list_lookup_insert_ne by (intros ->; done). by apply Hdone.
    + intros j t [[-> ->]|[Hj Ht]]%lookup_set; [by exists b|].
      destruct (Hag _ _ Ht) as (b' & Hb' & Ht'). exists b'. split; [done|].
      destruct t; try done. destruct Ht' as (_ & _ & Hmu & _). congruence.
  - destruct (Hag _ _ Hi) as (b & Hb & Hp & _ & _ & ->).
    eapply inv_finish; [done|exact Hi|done|exact Hb| |by left]. unfold serve, handle. rewrite Hp.
    rewrite Hg. cbn [mbind option_bind]. by rewrite Hc.
Qed.

Lemma inv_reachable bodies e0 s : reachable bodies e0 s -> inv bodies e0 s.
Proof.
  unfold reachable. intros H. remember (start bodies e0) as s0 eqn:E0.
  assert (H0 : inv bodies e0 s0) by (subst; apply inv_start). clear E0.
  induction H as [|s1 s2 s3 Hst _ IH]; [done|]. apply IH. by eapply server_inv_step.
Qed.

(** C19: Mutual exclusion and serialisability.  In every reachable state at most
    one thread is inside the engine, and it holds the mutex; when every request
    has its reply, there is an order of the requests such that serving them one
    after the other gives exactly these replies and this engine. *)
Theorem requests_serialize (bodies : list bytes) (e0 : E) (s : server) :
  reachable bodies e0 s ->
  (forall i pr pa st rd, threads s !! i = Some (Inside pr pa st rd) -> mutex s = Some i) /\
  (Forall (fun t => exists rep, t = Replied rep) (threads s) ->
   exists order reps, order ≡ₚ seq 0 (length bodies) /\ serial bodies order e0 = Some (reps, engine s) /\
     forall k i rep, order !! k = Some i -> reps !! k = Some rep -> threads s !! i = Some (Replied rep)).
Proof.
  intros (Hlen & Hheld & order & reps & Hnd & Hs & Hl & Hdone & Hag)%inv_reachable. split.
  { intros i pr pa st rd Hi. by destruct (Hag _ _ Hi) as (_ & _ & _ & _ & ? & _). }
  intros Hall. exists order, reps. split_and!; [|done|].
  - apply NoDup_Permutation; [done|apply NoDup_seq|]. intros i. rewrite elem_of_seq. split.
    + intros [r Hr]%Hdone. apply lookup_lt_Some in Hr. lia.
    + intros [_ Hi]. destruct (lookup_lt_is_Some_2 (threads s) i) as [t Ht]; [lia|].
      rewrite Forall_lookup in Hall. destruct (Hall _ _ Ht) as [rep ->].
      destruct (Hag _ _ Ht) as (_ & _ & k & Hk & _). by eapply list_elem_of_lookup_2.
  - intros k i rep Hk Hr. destruct (Hdone i) as [rep' Hrep']; [by eapply list_elem_of_lookup_2|].
    rewrite Hrep'. destruct (Hag _ _ Hrep') as (_ & _ & k' & Hk' & Hr').
    assert (k' = k) as -> by by eapply NoDup_lookup. congruence.
Qed.

(** The steps a thread still has to make. *)
Definition todo (t : thread) : nat :=
  match t with Arrived _ => 3 | Queued _ _ _ => 2 | Inside _ _ _ _ => 1 | Replied _ => 0 end.
Definition work (s : server) : nat := sum_list (todo <$> threads s).

Lemma work_set (ts : list thread) i old new :
  ts !! i = Some old -> (todo new < todo old)%nat ->
  (sum_list (todo <$> <[i := new]> ts) < sum_list (todo <$> ts))%nat.
Proof.
  revert i. induction ts as [|t ts IH]; intros [|i] Hi Hlt; [done|done| |].
  - injection Hi as ->. cbn. lia.
  - specialize (IH i Hi Hlt). csimpl. lia.
Qed.

Lemma step_work s s' : step s s' -> (work s' < work s)%nat.
Proof. intros []; (eapply work_set; [done|cbn; lia]). Qed.

Lemma work_start bodies e : work (start bodies e) = (3 * length bodies)%nat.
Proof. unfold work, start. cbn [threads]. induction bodies as [|b bodies IH]; [done|]. csimpl. rewrite IH. lia. Qed.

(** *** Properties of the engine that every request keeps *)

Section Kept.
Context (bodies : list bytes) (I : E -> Prop) (Q : nat -> bytes -> reply -> Prop).
Context (Hkept : forall i body e, bodies !! i = Some body -> I e ->
  exists rep e', serve i body e = Some (rep, e') /\ I e' /\ Q i body rep).

Lemma serial_kept order e reps e' :
  serial bodies order e = Some (reps, e') -> I e ->
  I e' /\ Forall2 (fun i rep => exists body, bodies !! i = Some body /\ Q i body rep) order reps.
Proof.
  revert e reps. induction order as [|i order IH]; intros e reps; cbn [serial].
  { intros [= <- <-] He. by split. }
  destruct (bodies !! i) as [body|] eqn:Eb; [|done]. cbn [mbind option_bind]. intros H He.
  destruct (Hkept i body e Eb He) as (rep & e1 & E1 & He1 & Hq). rewrite E1 in H. cbn [mbind option_bind] in H.
  destruct (serial bodies order e1) as [[reps1 e2]|] eqn:Es; [|done]. injection H as <- <-.
  destruct (IH e1 reps1 Es He1) as [H2 HF]. split; [done|]. constructor; [by exists body|done].
Qed.

Lemma reachable_kept e0 s :
  I e0 -> reachable bodies e0 s ->
  I (engine s) /\ forall i rep, threads s !! i = Some (Replied rep) -> exists body, bodies !! i = Some body /\ Q i body rep.
Proof.
  intros He0 (Hlen & Hheld & order & reps & Hnd & Hs & Hl & Hdone & Hag)%inv_reachable.
  destruct (serial_kept _ _ _ _ Hs He0) as [He HF]. split; [done|]. intros i rep Hi.
  destruct (Hag _ _ Hi) as (_ & _ & k & Hk & Hr).
  by eapply Forall2_lookup_lr in HF; [|exact Hk|exact Hr].
Qed.

(** No deadlock: a reachable state in which some request has no reply yet can
    go on. *)
Lemma progress e0 s :
  I e0 -> reachable bodies e0 s ->
  Forall (fun t => exists rep, t = Replied rep) (threads s) \/ exists s', step s s'.
Proof.
  intros He0 Hr. destruct (reachable_kept e0 s He0 Hr) as [HI _].
  apply inv_reachable in Hr as (Hlen & Hheld & order & reps & Hnd & Hs & Hl & Hdone & Hag).
  assert (Hcase : Forall (fun t => exists rep, t = Replied rep) (threads s) \/
    exists i t, threads s !! i = Some t /\ forall rep, t <> Replied rep).
  { clear. induction (threads s) as [|t ts IH]; [left; constructor|].
    destruct t as [b|pr pa st|pr pa st rd|rep]; [right; exists 0%nat; by eexists..|].
    destruct IH as [IH|(i & t & Ht & Hn)]; [left; constructor; eauto|right; by exists (S i), t]. }
  destruct Hcase as [|(i & t & Ht & Hn)]; [by left|right].
  assert (Hgo : forall j pr pa st rd, threads s !! j = Some (Inside pr pa st rd) -> exists s', step s s').
  { intros j pr pa st rd Hj. destruct (Hag _ _ Hj) as (body & Hb & Hp & _ & Hm & ->).
    destruct (Hkept j body (engine s) Hb HI) as (rep0 & e' & Hsv & _). unfold serve, handle in Hsv.
    rewrite Hp in Hsv. destruct (generate j pr pa (engine s)) as [[r e]|] eqn:Hg; [|done].
    destruct (conclude_total (accepts j) name (t_id j) (t_created j) st r) as [rep Hc].
    eexists. by eapply step_unlock. }
  destruct t as [b|pr pa st|pr pa st rd|rep]; [| |by eapply Hgo|by destruct (Hn rep)].
  - destruct (prepare default_kv_int8 b) as [rep|pr pa st] eqn:Ep; eexists; [by eapply step_answer|by eapply step_queue].
  - destruct (mutex s) as [j|] eqn:Em; [|eexists; by eapply step_lock].
    destruct (Hheld j Em) as (t & Ht' & pr' & pa' & st' & rd & ->). by eapply Hgo.
Qed.

Lemma completes e0 s :
  I e0 -> reachable bodies e0 s ->
  exists s', rtc step s s' /\ Forall (fun t => exists rep, t = Replied rep) (threads s').
Proof.
  intros He0 Hr. remember (work s) as k eqn:Ek. revert s Ek Hr. induction k as [k IH] using lt_wf_ind. intros s -> Hr.
  destruct (progress e0 s He0 Hr) as [Hd|[s1 Hst]]; [by exists s|].
  destruct (IH (work s1) (step_work _ _ Hst) s1 eq_refl) as (s' & Hs' & Hd).
  { unfold reachable. by eapply rtc_r. }
  exists s'. split; [by eapply rtc_l|done].
Qed.
End Kept.


End Threads.

(** ** Two requests that interleave *)

(** An engine that counts the runs; the reply shows the count. *)
Definition demo_generate (i : nat) (prompt : bytes) (params : GenParams (J := demo_json)) (e : Z)
  : option (run (J := demo_json) * Z) :=
  Some (mkRun [] (Ok (mkStats (J := demo_json) e 0 0 0 0 0 0)), e + 1).

Abbreviation demo_step := (step (J := demo_json) demo_generate (fun _ _ => true) (fun _ => 1) (fun _ => 2) false (str "m")).
Abbreviation demo_bodies := [demo_body; demo_body].

Lemma demo_run : exists s : server (J := demo_json) (E := Z),
  nsteps demo_step 6 (start (J := demo_json) demo_bodies 0) s /\ engine s = 2 /\
  Forall (fun t => exists rep, t = Replied rep) (threads s).
Proof.
  eexists. split; [|split].
  - eapply nsteps_l; [by eapply (step_queue _ _ _ _ _ _ _ 0%nat)|].
    eapply nsteps_l; [by eapply (step_queue _ _ _ _ _ _ _ 1%nat)|].
    eapply nsteps_l; [by eapply (step_lock _ _ _ _ _ _ _ 1%nat)|].
    eapply nsteps_l; [by eapply (step_unlock _ _ _ _ _ _ _ 1%nat)|].
    eapply nsteps_l; [by eapply (step_lock _ _ _ _ _ _ _ 0%nat)|].
    eapply nsteps_l; [by eapply (step_unlock _ _ _ _ _ _ _ 0%nat)|]. apply nsteps_O.
  - vm_compute. reflexivity.
  - repeat constructor; by eexists.
Qed.

Lemma requests_serialize_witness : exists s : server (J := demo_json) (E := Z),
  engine s = 2 /\ exists order reps, order ≡ₚ seq 0 2 /\
    serial (J := demo_json) demo_generate (fun _ _ => true) (fun _ => 1) (fun _ => 2) false (str "m")
      demo_bodies order 0 = Some (reps, engine s).
Proof.
  destruct demo_run as (s & Hs & He & Hd).
  destruct (requests_serialize (J := demo_json) demo_generate (fun _ _ => true) (fun _ => 1) (fun _ => 2)
    false (str "m") demo_bodies 0 s) as (_ & H).
  - apply rtc_nsteps. exists 6%nat. exact Hs.
  - exists s. split; [exact He|]. destruct (H Hd) as (order & reps & Hp & Hser & _). exists order, reps. split; assumption.
Defined.


End Threads.
