(* ===== verification/Service.v ===== *)
(** * Service: the server with the engine it serves

    The handler of [Server], on the threads of [Threads], runs
    [Engine::generate] of [Generate]: the state they share is the KV pool and
    the file system. *)

From S2P Require Import Prelude Cuda Budget KVCache KVFile KVDir Session.
From S2P Require Import Tokenizer ModelFile Kernels Forward Cells Prefill Generate Chat Server Threads.

Module Service.
Import ModelFile Kernels Forward Cells Prefill.

Section Service.
Context {J : Server.Json} `{RL : ReflexLaws} `{cuda : CudaMem} {cuda_laws : CudaMemLaws} `{KVDir.StdSort}.
Context (i8 : bool) (config : ModelConfig) (mw : ModelWeights) (norm_weight : option Z -> bool -> nat -> float)
        (dequant_embedding : Z -> list Z) (tk : Tokenizer.t) {R : Type}.
(** Sampling, with the parameters of the request. *)
Context (sample_token : Server.GenParams -> list float -> list Z -> R -> Z * R).
(** [what()] of the exceptions of [generate]. *)
Context (length_text alloc_text : bytes).
Context (fp : bytes).

(** What surrounds one request. *)
Record env := mkEnv {
  events : Generate.Events; disk : Session.Disk; seed : R;
  show : Generate.GenStats -> Server.GenStats;
  accepts : nat -> bool; t_id : Z; t_created : Z }.

Definition gen_params (params : Server.GenParams) : Generate.GenParams :=
  Generate.mkParams (Server.max_tokens params) (Server.conversation_id params) (Server.kv_int8 params).

(** The two explicit limits and that of [std::vector::reserve]; the other
    exceptions are failed allocations. *)
Definition too_long (limit : Z) (params : Server.GenParams) (prompt : bytes) : bool :=
  (Z.max 4096 (u64 (u64 limit * 8)) <? zlen prompt) || (limit <=? i32 (zlen (Generate.prompt_ids tk prompt))) ||
  (Generate.max_size_u32 <? u64 (zlen (Generate.prompt_ids tk prompt) + Server.max_tokens params)).

Abbreviation engine := (pool * gmap bytes bytes)%type.

(** [Engine::generate] as the server sees it. *)
Definition run_engine (v : env) (prompt : bytes) (params : Server.GenParams) (e : engine)
  : option (Server.run * engine) :=
  match Generate.generate config mw norm_weight dequant_embedding tk (sample_token params) (gen_params params)
          (events v) (disk v) fp prompt (fst e) (seed v) (KVFile.W (snd e) []) with
  | Session.Done (stats, s, w) =>
      Some (Server.mkRun (Generate.callback tk <$> Generate.delivered s) (Server.Ok (show v stats)),
            (Generate.kv s, KVFile.files w))
  | Session.Throws =>
      Some (Server.mkRun [] (Server.Raise (if too_long (KVCache.max_tokens (fst e)) params prompt
                                           then Server.LengthError length_text
                                           else Server.StdException alloc_text)), e)
  | Session.Undefined => None
  end.

(** ** Correctness of the service *)

(** A request that asks for the format of the pool and for at least one token,
    on a device and an operating system that do what is asked of them. *)
Record serviceable (v : env) (prompt : bytes) (params : Server.GenParams) : Prop := {
  sv_kv : Server.kv_int8 params = i8;
  sv_max : 1 <= Server.max_tokens params;
  sv_logits : forall q, Generate.logits_ok (events v) q = true;
  sv_alloc : forall n, Generate.alloc_ok (events v) n = true;
  sv_reader : KVFile.reader_ok (Session.reader (disk v));
  sv_tokens : Forall (fun t => 0 <= t < 2 ^ 31) (Generate.prompt_ids tk prompt);
  sv_length : zlen (Generate.prompt_ids tk prompt) < 2 ^ 31 }.

(** The ideal answer to a prompt. *)
Definition ideal (v : env) (limit : Z) (prompt : bytes) (params : Server.GenParams) : list Z :=
  Generate.reference i8 config mw norm_weight dequant_embedding tk (sample_token params) limit
    (Z.to_nat (Server.max_tokens params)) (Generate.prompt_ids tk prompt) [] (seed v).

(** The run of a request: refused when it is too long, and otherwise the ideal
    answer, or a part of it when it is interrupted. *)
Definition right_run (v : env) (limit : Z) (prompt : bytes) (params : Server.GenParams) (r : Server.run) : Prop :=
  if too_long limit params prompt
  then r = Server.mkRun [] (Server.Raise (Server.LengthError length_text))
  else exists out stats, r = Server.mkRun (Generate.callback tk <$> out) (Server.Ok stats) /\
         Server.completion_tokens stats = zlen out /\
         (exists k, out = take k (ideal v limit prompt params)) /\
         (Generate.quiet config (gen_params params) (events v) -> out = ideal v limit prompt params).

(** The engine between two requests. *)
Definition sound (c : KVCache.Config) (dir : bytes) (e : engine) : Prop :=
  Generate.engine_ok i8 config mw (fst e) /\ KVCache.cfg_ (fst e) = c /\
  Generate.trusted_dir i8 config mw norm_weight dequant_embedding c fp dir (snd e).

Definition limit_of (c : KVCache.Config) : Z := i32 (KVCache.max_context c + KVCache.overflow_context c).

Context (Hembed : forall t, length (dequant_embedding t) = H_ config)
        (Hsample : forall params logits recent r, 0 <= (sample_token params logits recent r).1 < 2 ^ 31)
        (Hfp : length fp = 32%nat).

Lemma run_engine_right c v prompt params e :
  sound c (Session.cache_dir (disk v)) e -> serviceable v prompt params ->
  (forall stats, Server.completion_tokens (show v stats) = Generate.completion_tokens stats) ->
  exists r e', run_engine v prompt params e = Some (r, e') /\ sound c (Session.cache_dir (disk v)) e' /\
    right_run v (KVCache.max_tokens (fst e)) prompt params r.
Proof.
  destruct e as [p fs]. unfold sound, run_engine, right_run. cbn [fst snd]. intros (He & Hc & Htr) Hsv Hshow.
  destruct Hsv. set (limit := KVCache.max_tokens p).
  destruct (too_long limit params prompt) eqn:Etl.
  - assert (Ea : Generate.admits tk (gen_params params) (events v) limit prompt = false).
    { unfold Generate.admits, too_long in *. cbn [gen_params Generate.max_tokens].
      rewrite !orb_true_iff in Etl. rewrite !andb_false_iff, !negb_false_iff. tauto. }
    unfold Generate.generate. fold limit. rewrite Ea. cbn [negb].
    do 2 eexists. split; [done|]. by split.
  - assert (Ea : Generate.admits tk (gen_params params) (events v) limit prompt = true).
    { unfold Generate.admits, too_long in *. cbn [gen_params Generate.max_tokens].
      rewrite !orb_false_iff in Etl. destruct Etl as [[-> ->] ->]. cbn. apply sv_alloc0. }
    destruct (Generate.generate_run i8 config mw norm_weight dequant_embedding tk (sample_token params)
      (gen_params params) (events v) (disk v) fp prompt p (seed v) fs) as (stats & s & w & E & H1 & H2 & H3 & H4 & H5 & H6);
      [by constructor|done|by constructor|done|by rewrite Hc|].
    rewrite E. do 2 eexists. split; [done|]. cbn [fst snd]. rewrite H5, <- Hc. split.
    { split; [done|]. split; [done|]. rewrite <- H5 at 1. rewrite H5. apply H6. by left. }
    exists (Generate.delivered s), (show v stats). rewrite Hshow. done.
Qed.

(** *** Every interleaving of requests *)

Context (envs : nat -> env) (default_kv_int8 : bool) (name : bytes).

Abbreviation reach bodies e s :=
  (Threads.reachable (fun i => run_engine (envs i)) (fun i => accepts (envs i)) (fun i => t_id (envs i))
     (fun i => t_created (envs i)) default_kv_int8 name bodies e s).
Abbreviation next :=
  (Threads.step (fun i => run_engine (envs i)) (fun i => accepts (envs i)) (fun i => t_id (envs i))
     (fun i => t_created (envs i)) default_kv_int8 name).

(** The reply a request has to get. *)
Definition right_reply (limit : Z) (i : nat) (body : bytes) (rep : Server.reply) : Prop :=
  match Server.prepare default_kv_int8 body with
  | Server.Answer r => rep = r
  | Server.Generate prompt params streaming =>
      exists r, right_run (envs i) limit prompt params r /\
        Server.conclude (accepts (envs i)) name (t_id (envs i)) (t_created (envs i)) streaming r = Some rep
  end.

Definition all_serviceable (dir : bytes) (bodies : list bytes) : Prop :=
  forall i body, bodies !! i = Some body ->
    Session.cache_dir (disk (envs i)) = dir /\
    (forall stats, Server.completion_tokens (show (envs i) stats) = Generate.completion_tokens stats) /\
    forall prompt params streaming, Server.prepare default_kv_int8 body = Server.Generate prompt params streaming ->
      serviceable (envs i) prompt params.

Lemma serve_right c dir bodies i body e :
  all_serviceable dir bodies -> bodies !! i = Some body -> sound c dir e ->
  exists rep e', Threads.serve (fun i => run_engine (envs i)) (fun i => accepts (envs i)) (fun i => t_id (envs i))
      (fun i => t_created (envs i)) default_kv_int8 name i body e = Some (rep, e') /\
    sound c dir e' /\ right_reply (limit_of c) i body rep.
Proof.
  intros Hall Hb He. destruct (Hall i body Hb) as (<- & Hshow & Hsv). unfold Threads.serve, Server.handle, right_reply.
  destruct (Server.prepare default_kv_int8 body) as [r|prompt params streaming] eqn:Ep; [by exists r, e|].
  destruct (run_engine_right c (envs i) prompt params e He (Hsv _ _ _ eq_refl) Hshow) as (r & e' & -> & He' & Hr).
  cbn [mbind option_bind].
  destruct (Server.conclude_total (accepts (envs i)) name (t_id (envs i)) (t_created (envs i)) streaming r) as [rep Er].
  rewrite Er. cbn [mbind option_bind]. exists rep, e'. split; [done|]. split; [done|]. exists r. split; [|done].
  destruct He as (_ & Hc & _). unfold KVCache.max_tokens in Hr. rewrite Hc in Hr. exact Hr.
Qed.

Lemma replies_right (bodies : list bytes) (dir : bytes) (p : pool) (fs : gmap bytes bytes)
  (s : Threads.server (E := engine)) :
  Generate.engine_ok i8 config mw p -> (forall id, fs !! KVDir.path_for_conv_id dir id = None) ->
  all_serviceable dir bodies -> reach bodies (p, fs) s ->
  (forall i rep, Threads.threads s !! i = Some (Threads.Replied rep) ->
     exists body, bodies !! i = Some body /\ right_reply (KVCache.max_tokens p) i body rep) /\
  exists s', rtc next s s' /\ Forall (fun t => exists rep, t = Threads.Replied rep) (Threads.threads s').
Proof.
  intros Hp Hfs Hall Hr.
  assert (Hs : sound (KVCache.cfg_ p) dir (p, fs)) by (split; [done|]; split; [done|]; intros id _ _; by left).
  split.
  - by apply (Threads.reachable_kept _ _ _ _ _ _ bodies (sound (KVCache.cfg_ p) dir)
      (right_reply (limit_of (KVCache.cfg_ p)))
      (fun i body e Hb He => serve_right (KVCache.cfg_ p) dir bodies i body e Hall Hb He) (p, fs) s Hs Hr).
  - by apply (Threads.completes _ _ _ _ _ _ bodies (sound (KVCache.cfg_ p) dir)
      (right_reply (limit_of (KVCache.cfg_ p)))
      (fun i body e Hb He => serve_right (KVCache.cfg_ p) dir bodies i body e Hall Hb He) (p, fs) s Hs Hr).
Qed.


End Service.

(** ** Two concurrent requests, on an INT8 cache *)

#[local] Existing Instances demo_floats demo_reflex demo_reflex_laws sim_cuda sim_cuda_laws
  KVDir.merge_std_sort Server.demo_json.

Definition demo_pool : pool :=
  KVCache.mkPool (KVCache.mkConfig 2 1 2 40 0 1) (Some (replicate 320 Byte.x00)) None (Some (replicate 640 Byte.x00)) 0 0.

Definition demo_env (seed : Z) : env (R := Z) :=
  mkEnv Generate.chat_events Generate.chat_disk seed
    (fun st => Server.mkStats (Generate.prompt_tokens st) (Generate.completion_tokens st) 0 0 0 0 0)
    (fun _ => true) 1 2.

Lemma demo_pool_ok : Generate.engine_ok true demo_config demo_weights demo_pool.
Proof.
  constructor; try (constructor; try reflexivity);
    try (eexists; constructor; [constructor; ground|reflexivity|reflexivity]); try (constructor; ground).
  intros _. eexists. constructor; reflexivity.
Qed.

Definition demo_prompt : bytes := Server.render (str "user") (str "hi") ++ Server.generation_header false.
Definition demo_params (i8 : bool) : Server.GenParams := Server.mkParams 256 7 40 9 i8 [].

Lemma demo_prepare i8 : Server.prepare i8 Server.demo_body = Server.Generate demo_prompt (demo_params i8) false.
Proof. destruct i8; vm_compute; reflexivity. Qed.

Lemma demo_prompt_ids :
  Forall (fun t => 0 <= t < 2 ^ 31) (Generate.prompt_ids Tokenizer.demo_tk demo_prompt) /\
  zlen (Generate.prompt_ids Tokenizer.demo_tk demo_prompt) < 2 ^ 31.
Proof. apply (bool_decide_unpack _). vm_compute. exact I. Qed.

Lemma demo_serviceable : all_serviceable true Tokenizer.demo_tk (fun i => demo_env (Z.of_nat i)) true (str "/c")
  [Server.demo_body; Server.demo_body].
Proof.
  intros i body Hb. assert (body = Server.demo_body) as ->.
  { destruct i as [|[|i]]; [by injection Hb as <-|by injection Hb as <-|done]. }
  split; [reflexivity|]. split; [done|]. rewrite demo_prepare. intros prompt params streaming [= <- <- _].
  constructor; [done|done|done|done|exact KVFile.demo_reader_ok|apply demo_prompt_ids..].
Qed.


End Service.
