(* ===== verification/Sample.v ===== *)
(** * Sample: token sampling ([src/engine/sample.cpp])

    Greedy choice, the repetition penalty, the heap that keeps the [k] best
    logits, the nucleus filter and the final draw.  Floating point is a class
    with the few laws the proofs use, which IEEE 754 binary32 (the [spec_float]
    of the Standard Library at precision 24) is proved to satisfy; the [<algorithm>]
    functions are operations with their documented contracts. *)

From Stdlib Require Import Floats.SpecFloat Sorting.Sorted.
From S2P Require Import Prelude.

Module Sample.

(** ** Floats *)

Class SampleFloats (F : Type) := {
  flt : F -> F -> bool; fle : F -> F -> bool;             (* a < b, a <= b *)
  nan : F -> bool;
  finite_bits : F -> bool;                                (* exponent field not all ones *)
  fadd : F -> F -> F; fsub : F -> F -> F; fmul : F -> F -> F; fdiv : F -> F -> F;
  expf : F -> F;
  f0 : F; f1 : F; neg_infinity : F }.

Class SampleFloatLaws (F : Type) `{SampleFloats F} : Prop := {
  flt_irrefl a : flt a a = false;
  flt_trans a b c : flt a b = true -> flt b c = true -> flt a c = true;
  (** on numbers, [<] is the complement of a total preorder *)
  flt_neg_trans a b c :
    nan a = false -> nan b = false -> nan c = false ->
    flt a b = false -> flt b c = false -> flt a c = false;
  finite_not_nan a : finite_bits a = true -> nan a = false;
  finite_above a : finite_bits a = true -> flt neg_infinity a = true;
  neg_infinity_number : nan neg_infinity = false }.

(** [a == b] of numbers, for [temperature == 1.0f]. *)
Definition feq {F} `{SampleFloats F} (a b : F) : bool := fle a b && fle b a.

(** ** Candidates and the algorithms of the library *)

Record TokenProb (F : Type) := mkProb { id : Z; prob : F }.
Arguments mkProb {F} _ _. Arguments id {F} _. Arguments prob {F} _.

(** The order of both comparators of the source: [a.prob > b.prob]. *)
Definition before {F} `{SampleFloats F} (a b : TokenProb F) : bool := flt (prob b) (prob a).

(** [push_heap], [pop_heap], [sort] and [partial_sort] with that comparator. *)
Class Algorithms (F : Type) := {
  push_heap : list (TokenProb F) -> list (TokenProb F);
  pop_heap : list (TokenProb F) -> list (TokenProb F);
  sort : list (TokenProb F) -> list (TokenProb F);
  partial_sort : nat -> list (TokenProb F) -> list (TokenProb F);
  is_heap : list (TokenProb F) -> Prop }.

Definition numbers {F} `{SampleFloats F} (l : list (TokenProb F)) : Prop := Forall (fun c => nan (prob c) = false) l.
Definition sorted {F} `{SampleFloats F} (l : list (TokenProb F)) : Prop :=
  forall i j a b, (i < j)%nat -> l !! i = Some a -> l !! j = Some b -> before b a = false.

(** Their contracts, for elements that are numbers ([before] is a strict weak
    order on them); the front of a heap is an element that no other precedes in
    the order of the heap, that is a smallest one. *)
Class AlgorithmLaws (F : Type) `{SampleFloats F} `{Algorithms F} : Prop := {
  heap_nil : is_heap [];
  heap_front c l : is_heap (c :: l) -> Forall (fun d => before c d = false) l;
  push_heap_ok l c : numbers (l ++ [c]) -> is_heap l ->
    push_heap (l ++ [c]) ≡ₚ l ++ [c] /\ is_heap (push_heap (l ++ [c]));
  pop_heap_ok c l : numbers (c :: l) -> is_heap (c :: l) ->
    exists l', pop_heap (c :: l) = l' ++ [c] /\ l' ≡ₚ l /\ is_heap l';
  sort_ok l : numbers l -> sort l ≡ₚ l /\ sorted (sort l);
  partial_sort_ok k l : numbers l -> (k <= length l)%nat ->
    partial_sort k l ≡ₚ l /\ sorted (take k (partial_sort k l)) /\
    forall a b, a ∈ take k (partial_sort k l) -> b ∈ drop k (partial_sort k l) -> before b a = false }.

Section Sample.
Context {F : Type} `{SampleFloats F} `{Algorithms F}.
Abbreviation candidates := (list (TokenProb F)).

Record GenParams := mkParams { temperature : F; top_k : Z; top_p : F; repeat_penalty : F }.

(** ** Logit transforms *)

Definition apply_temperature (logits : list F) (temp : F) : list F :=
  if fle temp f0 || feq temp f1 then logits
  else let inv_t := fdiv f1 temp in (fun x => fmul x inv_t) <$> logits.

(** [None]: a token outside the logits. *)
Fixpoint apply_repeat_penalty (logits : list F) (recent_tokens : list Z) (penalty : F) : option (list F) :=
  if fle penalty f1 then Some logits
  else match recent_tokens with
  | [] => Some logits
  | tok :: recent_tokens =>
      if tok <? 0 then None
      else
        x ← logits !! Z.to_nat tok;
        let y := if flt f0 x then fdiv x penalty else fmul x penalty in
        apply_repeat_penalty (<[Z.to_nat tok := y]> logits) recent_tokens penalty
  end.

(** ** Filters *)

(** The candidates, partially sorted, and how many are kept. *)
Definition top_k_filter (c : candidates) (k : Z) : candidates * nat :=
  if (k <=? 0) || (zlen c <=? k) then (c, length c) else (partial_sort (Z.to_nat k) c, Z.to_nat k).

(** The loop of [top_p_filter] from index [i], the sum so far being [cumsum];
    [cutoff] is its initial value. *)
Fixpoint top_p_loop (c : candidates) (p cumsum : F) (i cutoff : nat) : nat :=
  match c with
  | [] => cutoff
  | x :: c =>
      let cumsum := fadd cumsum (prob x) in
      if flt p cumsum then S i else top_p_loop c p cumsum (S i) cutoff
  end.

Definition top_p_filter (c : candidates) (p : F) : nat := top_p_loop c p f0 0 (length c).

(** ** The draw *)

(** [uniform total] is one draw from [uniform_real_distribution(0, total)]. *)
Context {R : Type} (uniform : F -> R -> F * R).

Fixpoint sample_loop (c : candidates) (r cumsum : F) : option Z :=
  match c with
  | [] => None
  | x :: c =>
      let cumsum := fadd cumsum (prob x) in
      if fle r cumsum then Some (id x) else sample_loop c r cumsum
  end.

(** [None]: [candidates\[n - 1\]] of an empty range. *)
Definition sample_from (c : candidates) (g : R) : option (Z * R) :=
  let total := foldl (fun s x => fadd s (prob x)) f0 c in
  let '(r, g) := uniform total g in
  match sample_loop c r f0 with
  | Some t => Some (t, g)
  | None => x ← last c; Some (id x, g)
  end.

(** ** Greedy *)

Fixpoint greedy_loop (logits : list F) (i best : Z) (best_val : F) : Z :=
  match logits with
  | [] => best
  | x :: logits =>
      if finite_bits x && flt best_val x then greedy_loop logits (i + 1) i x
      else greedy_loop logits (i + 1) best best_val
  end.

Definition sample_greedy (logits : list F) : Z := greedy_loop logits 0 0 neg_infinity.

(** ** The fast path *)

(** One logit into the heap of the best [k]; [None]: a key that is not a
    number, for which the comparator is not an order. *)
Definition heap_step (k : Z) (i : Z) (v : F) (c : candidates) : option candidates :=
  if nan v then None
  else if zlen c <? k then Some (push_heap (c ++ [mkProb i v]))
  else match c with
       | [] => None
       | front :: _ =>
           if flt (prob front) v then
             let c := pop_heap c in Some (push_heap (take (length c - 1) c ++ [mkProb i v]))
           else Some c
       end.

Fixpoint heap_loop (k : Z) (inv_t : F) (logits : list F) (i : Z) (c : candidates) : option candidates :=
  match logits with
  | [] => Some c
  | x :: logits =>
      if negb (finite_bits x) then heap_loop k inv_t logits (i + 1) c
      else c ← heap_step k i (fmul x inv_t) c; heap_loop k inv_t logits (i + 1) c
  end.

(** Softmax over the candidates: the exponentials and their sum. *)
Definition exponentials (c : candidates) (max_val : F) : candidates * F :=
  let c := (fun x => mkProb (id x) (expf (fsub (prob x) max_val))) <$> c in
  (c, foldl (fun s x => fadd s (prob x)) f0 c).

Definition scale_probs (c : candidates) (inv_sum : F) : candidates :=
  (fun x => mkProb (id x) (fmul (prob x) inv_sum)) <$> c.

Definition sample_top_k_fast (logits : list F) (params : GenParams) (g : R) : option (Z * R) :=
  let k := top_k params in
  if (k <=? 0) || (zlen logits <=? k) then Some (-1, g)
  else
    let inv_t := if feq (temperature params) f1 then f1 else fdiv f1 (temperature params) in
    c ← heap_loop k inv_t logits 0 [];
    match sort c with
    | [] => Some (sample_greedy logits, g)
    | front :: _ =>
        let '(c, sum) := exponentials (sort c) (prob front) in
        if negb (finite_bits sum) || fle sum f0 then Some (sample_greedy logits, g)
        else
          let c := scale_probs c (fdiv f1 sum) in
          sample_from (take (top_p_filter c (top_p params)) c) g
    end.

(** ** Sampling *)

(** Invalid logits are replaced; the minimum, the maximum and the five best are
    computed for a message only. *)
Definition clear_invalid (logits : list F) : list F :=
  (fun x => if finite_bits x then x else neg_infinity) <$> logits.

(** [*std::max_element] of a non-empty range. *)
Definition max_element (logits : list F) : option F :=
  match logits with
  | [] => None
  | x :: logits => Some (foldl (fun m y => if flt m y then y else m) x logits)
  end.

Definition all_numbers (c : candidates) : bool := forallb (fun x => negb (nan (prob x))) c.

(** The softmax over the whole vocabulary. *)
Definition sample_full (logits : list F) (params : GenParams) (g : R) : option (Z * R) :=
  let logits := apply_temperature logits (temperature params) in
  max_val ← max_element logits;
  if negb (finite_bits max_val) then Some (0, g)
  else
    let '(c, sum) := exponentials (imap (fun i x => mkProb (Z.of_nat i) x) logits) max_val in
    if negb (finite_bits sum) || fle sum f0 then Some (sample_greedy (prob <$> c), g)
    else
      let c := scale_probs c (fdiv f1 sum) in
      if all_numbers c then
        let '(c, n) := top_k_filter c (top_k params) in
        let n := top_p_filter (take n c) (top_p params) in
        sample_from (take n c) g
      else None.

(** [fast]: [JLLM_FAST_SAMPLE]; the fast token, or the whole vocabulary when it
    is negative. *)
Definition draw (fast : bool) (logits : list F) (params : GenParams) (g : R)
  (rest : R -> option (Z * R)) : option (Z * R) :=
  if fast then '(t, g) ← sample_top_k_fast logits params g; if 0 <=? t then Some (t, g) else rest g
  else rest g.

Definition sample_token (debug fast : bool) (logits : list F) (params : GenParams) (recent_tokens : list Z) (g : R)
  : option (Z * R) :=
  if negb debug then
    if fle (temperature params) f0 then Some (sample_greedy logits, g)
    else
      logits ← apply_repeat_penalty logits recent_tokens (repeat_penalty params);
      draw fast logits params g (fun g =>
        let logits := clear_invalid logits in
        draw fast logits params g (fun g => sample_full logits params g))
  else
    let logits := clear_invalid logits in
    if fle (temperature params) f0 then Some (sample_greedy logits, g)
    else
      logits ← apply_repeat_penalty logits recent_tokens (repeat_penalty params);
      draw fast logits params g (fun g => sample_full logits params g).

End Sample.

(** ** Facts *)

Section Facts.
Context {F : Type} `{SF : SampleFloats F} {laws : SampleFloatLaws F} `{A : Algorithms F} {alaws : AlgorithmLaws F}.
Abbreviation candidates := (list (TokenProb F)).

Lemma flt_asym a b : flt a b = true -> flt b a = false.
Proof.
  intros Hab. destruct (flt b a) eqn:E; [|done]. pose proof (flt_trans a b a Hab E) as Ht.
  by rewrite flt_irrefl in Ht.
Qed.

(** *** Greedy *)

(** [best] is the first index of a largest finite logit, which is [x]. *)
Definition first_best (logits : list F) (best : Z) (x : F) : Prop :=
  0 <= best /\ logits !! Z.to_nat best = Some x /\ finite_bits x = true /\
  forall j y, logits !! j = Some y -> finite_bits y = true ->
    flt x y = false /\ (Z.of_nat j < best -> flt y x = true).

Definition none_finite (logits : list F) : Prop := Forall (fun x => finite_bits x = false) logits.

(** The state of the loop after the prefix [pre]. *)
Definition greedy_inv (pre : list F) (best : Z) (best_val : F) : Prop :=
  best = 0 /\ best_val = neg_infinity /\ none_finite pre \/ first_best pre best best_val.

Lemma greedy_better pre best bv x :
  greedy_inv pre best bv -> finite_bits x = true -> flt bv x = true ->
  first_best (pre ++ [x]) (zlen pre) x.
Proof.
  intros Hinv Hx Hlt. unfold zlen. split; [lia|]. rewrite Nat2Z.id. split; [by apply list_lookup_middle|].
  split; [done|]. intros j y Hj Hy.
  apply lookup_snoc_Some in Hj as [[Hl Hj]|[-> <-]]; [|split; [apply flt_irrefl|lia]].
  assert (Hyx : flt y x = true); [|split; [by apply flt_asym|done]].
  destruct Hinv as [(_ & _ & Hf)|(_ & _ & Hbv & Hb)].
  - unfold none_finite in Hf. rewrite Forall_lookup in Hf. by rewrite (Hf _ _ Hj) in Hy.
  - destruct (Hb j y Hj Hy) as [Hby _]. destruct (flt y x) eqn:E; [done|].
    rewrite (flt_neg_trans bv y x) in Hlt; try done; by apply finite_not_nan.
Qed.

Lemma greedy_keep pre best bv x :
  greedy_inv pre best bv -> finite_bits x && flt bv x = false -> greedy_inv (pre ++ [x]) best bv.
Proof.
  intros [(-> & -> & Hf)|(H0 & Hb & Hbv & Hall)] Hx.
  - left. split; [done|]. split; [done|]. apply Forall_app. split; [done|]. constructor; [|done].
    destruct (finite_bits x) eqn:E; [|done]. by rewrite finite_above in Hx.
  - right. split; [done|]. pose proof (lookup_lt_Some _ _ _ Hb) as Hl.
    split; [by rewrite lookup_app_l|]. split; [done|]. intros j y Hj Hy.
    apply lookup_snoc_Some in Hj as [[_ Hj]|[-> <-]]; [by apply Hall|].
    rewrite Hy in Hx. split; [done|lia].
Qed.

Lemma greedy_loop_inv logits pre best bv :
  greedy_inv pre best bv ->
  exists x, greedy_inv (pre ++ logits) (greedy_loop logits (zlen pre) best bv) x.
Proof.
  revert pre best bv. induction logits as [|x logits IH]; intros pre best bv Hinv; cbn [greedy_loop].
  { exists bv. by rewrite app_nil_r. }
  assert (Hz : zlen pre + 1 = zlen (pre ++ [x])) by (unfold zlen; rewrite length_app; cbn; lia).
  rewrite Hz. replace (pre ++ x :: logits) with ((pre ++ [x]) ++ logits) by by rewrite <- app_assoc.
  destruct (finite_bits x && flt bv x) eqn:E; apply IH.
  - apply andb_true_iff in E as [Hx Hlt]. right. by eapply greedy_better.
  - by apply greedy_keep.
Qed.

(** Greedy sampling.  The token is the first index of a largest finite logit,
    or zero when no logit is finite. *)
Theorem sample_greedy_argmax (logits : list F) :
  (exists x, first_best logits (sample_greedy logits) x) \/
  sample_greedy logits = 0 /\ none_finite logits.
Proof.
  destruct (greedy_loop_inv logits [] 0 neg_infinity) as [x Hx]; [left; split_and!; [done..|constructor]|].
  cbn [app] in Hx. change (zlen (@nil F)) with 0 in Hx. fold (sample_greedy logits) in Hx.
  destruct Hx as [(E & _ & Hf)|Hb]; [by right|left; by exists x].
Qed.

Lemma sample_greedy_range logits : 0 <= sample_greedy logits /\ (logits <> [] -> sample_greedy logits < zlen logits).
Proof.
  destruct (greedy_loop_inv logits [] 0 neg_infinity) as [x Hx]; [left; split_and!; [done..|constructor]|].
  cbn [app] in Hx. change (zlen (@nil F)) with 0 in Hx. fold (sample_greedy logits) in Hx. unfold zlen.
  destruct Hx as [(-> & _)|(H0 & Hb & _)].
  - split; [lia|]. intros Hne. destruct logits; [done|cbn; lia].
  - apply lookup_lt_Some in Hb. lia.
Qed.

(** *** The nucleus *)

(** The sum of the first [n] probabilities, as the loop computes it. *)
Definition mass (c : candidates) (n : nat) : F := foldl (fun s x => fadd s (prob x)) f0 (take n c).

Lemma top_p_loop_spec c p pre cut :
  (forall n, (0 < n <= length pre)%nat -> flt p (mass (pre ++ c) n) = false) ->
  cut = length (pre ++ c) ->
  let n := top_p_loop c p (mass (pre ++ c) (length pre)) (length pre) cut in
  (forall m, (0 < m < n)%nat -> flt p (mass (pre ++ c) m) = false) /\
  (n <= length (pre ++ c))%nat /\ (c <> [] -> 0 < n)%nat /\
  (flt p (mass (pre ++ c) n) = true \/ n = length (pre ++ c)).
Proof.
  revert pre. induction c as [|x c IH]; intros pre Hpre ->; cbn [top_p_loop].
  { rewrite app_nil_r in *. split_and!; [intros; apply Hpre; lia|lia|done|by right]. }
  assert (Em : fadd (mass (pre ++ x :: c) (length pre)) (prob x) = mass (pre ++ x :: c) (S (length pre))).
  { unfold mass. rewrite take_app_length. replace (pre ++ x :: c) with ((pre ++ [x]) ++ c) by by rewrite <- app_assoc.
    rewrite <- (last_length pre x), take_app_length, foldl_app. done. }
  rewrite Em. destruct (flt p (mass (pre ++ x :: c) (S (length pre)))) eqn:E.
  { split_and!; [intros; apply Hpre; lia|rewrite length_app; cbn; lia|lia|by left]. }
  replace (pre ++ x :: c) with ((pre ++ [x]) ++ c) in * by by rewrite <- app_assoc.
  rewrite <- (last_length pre x) in *. destruct (IH (pre ++ [x])) as (H1 & H2 & H3 & H4); [|done|].
  - intros n Hn. destruct (decide (n = length (pre ++ [x]))) as [->|]; [done|].
    apply Hpre. rewrite length_app in *. cbn in *. lia.
  - split_and!; [done|done| |done]. intros _. destruct c; [|by apply H3].
    cbn [top_p_loop]. rewrite !length_app. cbn. lia.
Qed.

(** The nucleus.  The filter keeps the shortest non-empty prefix whose summed
    probability exceeds [p], or everything when no prefix does. *)
Theorem top_p_filter_minimal (c : candidates) (p : F) :
  c <> [] ->
  let n := top_p_filter c p in
  (0 < n <= length c)%nat /\ (forall m, (0 < m < n)%nat -> flt p (mass c m) = false) /\
  (flt p (mass c n) = true \/ n = length c).
Proof.
  intros Hc. destruct (top_p_loop_spec c p [] (length c)) as (H1 & H2 & H3 & H4); [cbn; lia|done|].
  cbn [app length] in *. unfold top_p_filter. change (mass c 0) with f0 in *. specialize (H3 Hc). split; [lia|done].
Qed.

(** *** The best [k] *)

(** The finite logits from index [i] on, scaled. *)
Fixpoint scored (inv_t : F) (logits : list F) (i : Z) : candidates :=
  match logits with
  | [] => []
  | x :: logits =>
      if finite_bits x then mkProb i (fmul x inv_t) :: scored inv_t logits (i + 1) else scored inv_t logits (i + 1)
  end.

(** The kept candidates [c] and the dropped ones [d] of the candidates [all]. *)
Record best_of (k : Z) (all c d : candidates) : Prop := {
  bo_all : c ++ d ≡ₚ all;
  bo_heap : is_heap c;
  bo_len : zlen c <= k;
  bo_full : d <> [] -> zlen c = k;
  bo_best : forall x y, x ∈ c -> y ∈ d -> before y x = false }.

#[local] Instance numbers_proper : Proper (Permutation ==> iff) numbers.
Proof. intros l l' Hl. unfold numbers. by rewrite Hl. Qed.

Lemma best_step k i v all c d :
  0 < k -> best_of k all c d -> numbers all -> nan v = false ->
  exists c' d', heap_step k i v c = Some c' /\ best_of k (all ++ [mkProb i v]) c' d'.
Proof.
  intros Hk Hb Hn Hv. unfold heap_step. rewrite Hv. set (x := mkProb i v).
  assert (Hx : numbers (all ++ [x])) by (apply Forall_app; split; [done|by constructor]).
  assert (Hcd : numbers (c ++ d)) by (by rewrite (bo_all _ _ _ _ Hb)).
  apply Forall_app in Hcd as [Hc Hd].
  destruct (Z.ltb_spec (zlen c) k) as [Hlt|Hge].
  { assert (d = []) as -> by (destruct d; [done|]; pose proof (bo_full _ _ _ _ Hb ltac:(done)); lia).
    destruct (push_heap_ok c x) as [Hp Hh]; [apply Forall_app; split; [done|by constructor]|apply Hb|].
    exists (push_heap (c ++ [x])), []. split; [done|]. constructor.
    - rewrite app_nil_r, Hp. apply Permutation_app_tail. pose proof (bo_all _ _ _ _ Hb) as Ha. by rewrite app_nil_r in Ha.
    - done.
    - unfold zlen in *. rewrite Hp, length_app. cbn. lia.
    - done.
    - intros ? ? _ ?%not_elem_of_nil. done. }
  destruct c as [|front l]; [unfold zlen in Hge; cbn in Hge; lia|].
  pose proof (heap_front front l (bo_heap _ _ _ _ Hb)) as Hmin. rewrite Forall_forall in Hmin.
  pose proof (bo_len _ _ _ _ Hb) as Hlen. unfold numbers in Hc, Hd, Hn. rewrite Forall_forall in Hd.
  pose proof (bo_best _ _ _ _ Hb) as Hbest. unfold before in *.
  apply Forall_cons in Hc as [Hfn Hln]. pose proof Hln as Hln'. rewrite Forall_forall in Hln'.
  destruct (flt (prob front) v) eqn:Ef.
  - destruct (pop_heap_ok front l) as (l' & E & Hl & Hh); [by constructor|apply Hb|].
    rewrite E. rewrite length_app, Nat.add_sub, take_app_length.
    assert (Hl'n : numbers l') by by rewrite Hl.
    destruct (push_heap_ok l' x) as [Hp Hh']; [apply Forall_app; split; [done|by constructor]|done|].
    exists (push_heap (l' ++ [x])), (front :: d). split; [done|].
    assert (Hz : zlen (push_heap (l' ++ [x])) = k)
      by (unfold zlen in *; rewrite Hp, length_app, Hl; cbn in *; lia).
    constructor.
    + rewrite Hp, Hl. pose proof (bo_all _ _ _ _ Hb) as Ha. rewrite <- Ha. solve_Permutation.
    + done.
    + lia.
    + done.
    + intros a b Ha Hbd. unfold before. rewrite Hp, Hl in Ha.
      apply elem_of_app in Ha as [Ha|Ha%list_elem_of_singleton]; apply elem_of_cons in Hbd as [->|Hbd].
      * by apply Hmin.
      * apply Hbest; [by right|done].
      * subst a. by apply flt_asym.
      * subst a. cbn [prob x]. destruct (flt v (prob b)) eqn:Evb; [|done].
        rewrite <- (Hbest front b) by (done || by left). symmetry. by eapply flt_trans.
  - exists (front :: l), (x :: d). split; [done|]. constructor.
    + pose proof (bo_all _ _ _ _ Hb) as Ha. rewrite <- Ha. solve_Permutation.
    + apply Hb.
    + done.
    + lia.
    + intros a b Ha Hbd. unfold before. apply elem_of_cons in Hbd as [->|Hbd]; [|by apply Hbest].
      cbn [prob x]. apply elem_of_cons in Ha as [->|Ha]; [done|].
      eapply flt_neg_trans; [by apply Hln'|exact Hfn|done|by apply Hmin|done].
Qed.

(** Scaling does not turn a number into none. *)
Definition scales (inv_t : F) (logits : list F) : Prop :=
  Forall (fun x => finite_bits x = true -> nan (fmul x inv_t) = false) logits.

Lemma heap_loop_best k inv_t logits i all c d :
  0 < k -> best_of k all c d -> numbers all ->
  match heap_loop k inv_t logits i c with
  | Some c' => exists d', best_of k (all ++ scored inv_t logits i) c' d' /\ numbers (all ++ scored inv_t logits i)
  | None => ~ scales inv_t logits
  end.
Proof.
  intros Hk. revert i all c d. induction logits as [|x logits IH]; intros i all c d Hb Hn; cbn [heap_loop scored].
  { exists d. by rewrite app_nil_r. }
  assert (Hsc : scales inv_t (x :: logits) -> (finite_bits x = true -> nan (fmul x inv_t) = false) /\ scales inv_t logits)
    by apply Forall_cons.
  destruct (finite_bits x); cbn [negb].
  2: { specialize (IH (i + 1) all c d Hb Hn). destruct (heap_loop _ _ _ _ _); [done|]. intros []%Hsc. done. }
  destruct (nan (fmul x inv_t)) eqn:Ev.
  { unfold heap_step. rewrite Ev. cbn. intros [Hf _]%Hsc. by specialize (Hf eq_refl). }
  destruct (best_step k i (fmul x inv_t) all c d Hk Hb Hn Ev) as (c1 & d1 & -> & Hb1). cbn [mbind option_bind].
  specialize (IH (i + 1) _ c1 d1 Hb1). rewrite <- app_assoc in IH. cbn [app] in IH.
  destruct (heap_loop _ _ _ _ c1).
  - apply IH. apply Forall_app. split; [done|by constructor].
  - intros [_ ?]%Hsc. revert H. apply IH. apply Forall_app. split; [done|by constructor].
Qed.

Lemma best_nil k : 0 < k -> best_of k [] [] [].
Proof.
  intros. constructor; [done|apply heap_nil|unfold zlen; cbn; lia|done|]. by intros x y ?%not_elem_of_nil.
Qed.

(** The fast path keeps the best [k].  When scaling yields numbers, the heap
    ends with candidates that, sorted, are in descending order, are as many as
    possible up to [k], and together with what was dropped are exactly the
    finite logits; no dropped logit is larger than a kept one. *)
Theorem heap_keeps_best (k : Z) (inv_t : F) (logits : list F) :
  0 < k -> scales inv_t logits ->
  exists c dropped, heap_loop k inv_t logits 0 [] = Some c /\
    sort c ++ dropped ≡ₚ scored inv_t logits 0 /\ sorted (sort c) /\
    zlen (sort c) = Z.min k (zlen (scored inv_t logits 0)) /\
    forall x y, x ∈ sort c -> y ∈ dropped -> flt (prob x) (prob y) = false.
Proof.
  intros Hk Hsc. pose proof (heap_loop_best k inv_t logits 0 [] [] [] Hk (best_nil k Hk) ltac:(constructor)) as Hl.
  destruct (heap_loop k inv_t logits 0 []) as [c|]; [|done]. cbn [app] in Hl. destruct Hl as (d & Hb & Hn).
  assert (Hcd : numbers (c ++ d)) by (by rewrite (bo_all _ _ _ _ Hb)).
  apply Forall_app in Hcd as [Hc _]. destruct (sort_ok c Hc) as [Hp Hs].
  exists c, d. split; [done|]. split; [rewrite Hp; apply Hb|]. split; [done|]. split.
  - pose proof (bo_len _ _ _ _ Hb) as Hlen. pose proof (bo_full _ _ _ _ Hb) as Hfull.
    assert (Hz : zlen (scored inv_t logits 0) = zlen c + zlen d)
      by (unfold zlen; rewrite <- (bo_all _ _ _ _ Hb), length_app; lia).
    unfold zlen in *. rewrite Hp. destruct d as [|y d]; [cbn in *; lia|]. specialize (Hfull ltac:(done)). cbn in *. lia.
  - intros x y Hx Hy. rewrite Hp in Hx. by apply (bo_best _ _ _ _ Hb x y).
Qed.

(** *** The token is in the vocabulary *)

Definition ids_below (n : Z) (c : candidates) : Prop := Forall (fun x => 0 <= id x < n) c.

#[local] Instance ids_below_proper n : Proper (Permutation ==> iff) (ids_below n).
Proof. intros l l' Hl. unfold ids_below. by rewrite Hl. Qed.

Lemma scored_ids inv_t logits i : 0 <= i -> ids_below (i + zlen logits) (scored inv_t logits i).
Proof.
  revert i. induction logits as [|x logits IH]; intros i Hi; cbn [scored]; [constructor|].
  rewrite zlen_cons. pose proof (zlen_nonneg logits).
  replace (i + (1 + zlen logits)) with (i + 1 + zlen logits) by lia.
  destruct (finite_bits x); [constructor; [cbn; lia|]|]; apply IH; lia.
Qed.

Lemma ids_fmap (f : F -> F) n c : ids_below n c -> ids_below n ((fun x => mkProb (id x) (f (prob x))) <$> c).
Proof. unfold ids_below. intros H. apply Forall_fmap. eapply Forall_impl; [exact H|]. done. Qed.

Section Draw.
Context {R : Type} (uniform : F -> R -> F * R).

Lemma sample_loop_in c r s t : sample_loop c r s = Some t -> t ∈ id <$> c.
Proof.
  revert s. induction c as [|x c IH]; intros s; cbn [sample_loop]; [done|].
  destruct (fle _ _); [intros [= <-]; by left|]. intros ?%IH. by right.
Qed.

Lemma sample_from_in n c g :
  c <> [] -> ids_below n c -> exists t g', sample_from uniform c g = Some (t, g') /\ 0 <= t < n.
Proof.
  intros Hc Hn. unfold sample_from. destruct (uniform _ g) as [r g'].
  destruct (sample_loop c r f0) as [t|] eqn:E.
  - exists t, g'. split; [done|]. apply sample_loop_in, list_elem_of_fmap in E as (x & -> & Hx).
    unfold ids_below in Hn. rewrite Forall_forall in Hn. by apply Hn.
  - destruct (exists_last Hc) as (c' & x & ->). rewrite last_snoc. exists (id x), g'. split; [done|].
    apply Forall_app in Hn as [_ Hx]. by apply Forall_cons in Hx as [Hx _].
Qed.

Lemma nucleus_in n (c : candidates) p g :
  c <> [] -> ids_below n c ->
  exists t g', sample_from uniform (take (top_p_filter c p) c) g = Some (t, g') /\ 0 <= t < n.
Proof.
  intros Hc Hn. destruct (top_p_loop_spec c p [] (length c)) as (_ & _ & H3 & _); [cbn; lia|done|].
  cbn [app length] in H3. change (mass c 0) with f0 in H3. fold (top_p_filter c p) in H3. specialize (H3 Hc).
  apply sample_from_in; [|by apply Forall_take]. destruct c; [done|]. by destruct (top_p_filter _ _); [lia|].
Qed.

(** The scaling factor of the fast path. *)
Definition scale_of (params : GenParams) : F :=
  if feq (temperature params) f1 then f1 else fdiv f1 (temperature params).

Lemma fast_cases logits params g :
  0 < top_k params < zlen logits ->
  match sample_top_k_fast uniform logits params g with
  | Some (t, _) => 0 <= t < zlen logits
  | None => ~ scales (scale_of params) logits
  end.
Proof.
  intros [Hk Hn]. assert (Hne : logits <> []) by (intros ->; unfold zlen in Hn; cbn in Hn; lia).
  unfold sample_top_k_fast. destruct (Z.leb_spec (top_k params) 0); [lia|].
  destruct (Z.leb_spec (zlen logits) (top_k params)); [lia|]. cbn [orb]. fold (scale_of params).
  pose proof (sample_greedy_range logits) as [Hg0 Hg1].
  pose proof (heap_loop_best (top_k params) (scale_of params) logits 0 [] [] [] Hk (best_nil _ Hk) ltac:(constructor)) as Hl.
  destruct (heap_loop _ (scale_of params) logits 0 []) as [c|]; [|done]. cbn [app mbind option_bind] in *.
  destruct Hl as (d & Hb & Hnum).
  assert (Hcd : numbers (c ++ d)) by (by rewrite (bo_all _ _ _ _ Hb)).
  apply Forall_app in Hcd as [Hc _]. destruct (sort_ok c Hc) as [Hp _].
  assert (Hids : ids_below (zlen logits) (sort c)).
  { pose proof (scored_ids (scale_of params) logits 0 ltac:(lia)) as Hs. rewrite <- (bo_all _ _ _ _ Hb) in Hs.
    apply Forall_app in Hs as [Hs _]. by rewrite Hp. }
  destruct (sort c) as [|front l] eqn:Es; [auto|].
  unfold exponentials. set (c1 := (fun x => _) <$> (front :: l)).
  destruct (negb _ || _); [auto|].
  destruct (nucleus_in (zlen logits) (scale_probs c1 (fdiv f1 (foldl (fun s x => fadd s (prob x)) f0 c1)))
    (top_p params) g) as (t' & g1 & -> & Ht); [done| |done].
  by apply (ids_fmap (fun v => fmul v _)), (ids_fmap (fun v => expf (fsub v (prob front)))).
Qed.

Lemma fast_range logits params g t g' :
  sample_top_k_fast uniform logits params g = Some (t, g') -> t = -1 \/ 0 <= t < zlen logits.
Proof.
  intros E. destruct (decide (0 < top_k params < zlen logits)) as [Hk|Hk].
  - right. pose proof (fast_cases logits params g Hk) as Hf. by rewrite E in Hf.
  - left. unfold sample_top_k_fast in E. destruct (Z.leb_spec (top_k params) 0); [by injection E as <- _|].
    destruct (Z.leb_spec (zlen logits) (top_k params)); [by injection E as <- _|lia].
Qed.

Lemma nucleus_take (l : candidates) k p g :
  sample_from uniform (take (top_p_filter (take k l) p) l) g =
  sample_from uniform (take (top_p_filter (take k l) p) (take k l)) g.
Proof.
  destruct (top_p_loop_spec (take k l) p [] (length (take k l))) as (_ & H2 & _ & _); [cbn; lia|done|].
  cbn [app length] in H2. change (mass (take k l) 0) with f0 in H2. fold (top_p_filter (take k l) p) in H2.
  rewrite length_take in H2. rewrite take_take. do 2 f_equal. lia.
Qed.

Lemma full_range logits params g t g' :
  logits <> [] -> sample_full uniform logits params g = Some (t, g') -> 0 <= t < zlen logits.
Proof.
  intros Hne. unfold sample_full. set (scaled := apply_temperature logits _).
  assert (Hlen : zlen scaled = zlen logits)
    by (unfold scaled, apply_temperature; destruct (_ || _); [done|]; unfold zlen; by rewrite length_fmap).
  assert (Hpos : 0 < zlen logits) by (destruct logits; [done|unfold zlen; cbn; lia]).
  destruct (max_element scaled) as [m|]; [|done]. cbn [mbind option_bind].
  destruct (negb (finite_bits m)); [intros [= <- _]; lia|].
  unfold exponentials. set (cands := imap _ scaled). set (c := (fun x => _) <$> cands). intros E.
  assert (Hids : ids_below (zlen logits) cands).
  { unfold ids_below. rewrite Forall_lookup. intros i x. unfold cands. rewrite list_lookup_imap.
    destruct (scaled !! i) eqn:Ei; [|done]. intros [= <-]. apply lookup_lt_Some in Ei. cbn [id].
    unfold zlen in Hlen |- *. lia. }
  apply (ids_fmap (fun v => expf (fsub v m))) in Hids. fold c in Hids.
  assert (Hcl : zlen c = zlen logits) by (unfold c, cands, zlen in *; by rewrite length_fmap, length_imap).
  destruct (negb _ || _).
  { injection E as <- _. pose proof (sample_greedy_range (prob <$> c)) as [H0 H1]. split; [done|].
    unfold zlen in *. rewrite length_fmap in H1. rewrite Hcl in H1. apply H1. destruct c; [cbn in Hcl; lia|done]. }
  set (q := scale_probs c _) in E. apply (ids_fmap (fun v => fmul v (fdiv f1 (foldl (fun s x => fadd s (prob x)) f0 c)))) in Hids.
  change (ids_below (zlen logits) q) in Hids.
  assert (Hql : zlen q = zlen logits) by (unfold q, scale_probs, zlen in *; by rewrite length_fmap).
  assert (Hnum : all_numbers q = true -> numbers q).
  { unfold all_numbers, numbers. rewrite forallb_forall, Forall_forall. intros Ha x Hx%list_elem_of_In.
    apply Ha in Hx. by apply negb_true_iff in Hx. }
  destruct (all_numbers q); [|done]. unfold top_k_filter in E.
  assert (Hdraw : forall l, l <> [] -> ids_below (zlen logits) l ->
    sample_from uniform (take (top_p_filter l (top_p params)) l) g = Some (t, g') -> 0 <= t < zlen logits).
  { intros l Hl Hi El. destruct (nucleus_in _ l (top_p params) g Hl Hi) as (t1 & g1 & E1 & H1). congruence. }
  assert (Hqn : q <> []) by (intros Hq; rewrite Hq in Hql; unfold zlen in *; cbn in Hql; lia).
  destruct (Z.leb_spec (top_k params) 0); cbn [orb] in E; [|destruct (Z.leb_spec (zlen q) (top_k params))].
  - rewrite firstn_all in E. by apply (Hdraw q).
  - rewrite firstn_all in E. by apply (Hdraw q).
  - destruct (partial_sort_ok (Z.to_nat (top_k params)) q (Hnum eq_refl)) as (Hp & _ & _); [unfold zlen in *; lia|].
    rewrite nucleus_take in E.
    apply (Hdraw (take (Z.to_nat (top_k params)) (partial_sort (Z.to_nat (top_k params)) q))); [..|exact E].
    + intros Ht. apply (f_equal length) in Ht. rewrite length_take, Hp in Ht. unfold zlen in *. cbn in Ht. lia.
    + apply Forall_take. change (ids_below (zlen logits) (partial_sort (Z.to_nat (top_k params)) q)). by rewrite Hp.
Qed.

Lemma penalty_length logits recent penalty logits' :
  apply_repeat_penalty logits recent penalty = Some logits' -> length logits' = length logits.
Proof.
  revert logits. induction recent as [|tok recent IH]; intros logits; cbn [apply_repeat_penalty];
    (destruct (fle penalty f1); [by intros [= <-]|]); [by intros [= <-]|].
  destruct (tok <? 0); [done|]. destruct (logits !! Z.to_nat tok); [|done]. cbn [mbind option_bind].
  intros ->%IH. by rewrite length_insert.
Qed.

Lemma penalty_total logits recent penalty :
  Forall (fun t => 0 <= t < zlen logits) recent -> is_Some (apply_repeat_penalty logits recent penalty).
Proof.
  intros Hr. revert logits Hr. induction recent as [|tok recent IH]; intros logits Hr; cbn [apply_repeat_penalty];
    (destruct (fle penalty f1); [by eexists|]); [by eexists|].
  apply Forall_cons in Hr as [Ht Hr]. destruct (Z.ltb_spec tok 0); [lia|].
  destruct (lookup_lt_is_Some_2 logits (Z.to_nat tok)) as [x ->]; [unfold zlen in *; lia|]. cbn [mbind option_bind].
  apply IH. unfold zlen in *. by rewrite length_insert.
Qed.

Lemma draw_range fast logits params g rest t g' :
  logits <> [] -> (forall g, rest g = Some (t, g') -> 0 <= t < zlen logits) ->
  draw uniform fast logits params g rest = Some (t, g') -> 0 <= t < zlen logits.
Proof.
  intros Hne Hrest. unfold draw. destruct fast; [|apply Hrest].
  destruct (sample_top_k_fast uniform logits params g) as [[t1 g1]|] eqn:E; [|done]. cbn [mbind option_bind].
  destruct (Z.leb_spec 0 t1); [|apply Hrest]. intros [= <- <-].
  apply fast_range in E as [->|Hr]; [lia|done].
Qed.

(** A sampled token is in the vocabulary, on every path. *)
Lemma sample_token_in debug fast logits params recent g t g' :
  logits <> [] -> sample_token uniform debug fast logits params recent g = Some (t, g') -> 0 <= t < zlen logits.
Proof.
  intros Hne. unfold sample_token. set (clear := clear_invalid logits).
  assert (Hclear : forall l, zlen (clear_invalid l) = zlen l) by (intros l; unfold zlen, clear_invalid; by rewrite length_fmap).
  assert (Hnil : forall l : list F, zlen l = zlen logits -> l <> []) by (intros l Hl ->; by destruct logits).
  assert (Hgreedy : forall l, zlen l = zlen logits -> Some (sample_greedy l, g) = Some (t, g') -> 0 <= t < zlen logits).
  { intros l Hl [= <- _]. rewrite <- Hl. pose proof (sample_greedy_range l) as [H0 H1]. split; [done|]. by apply H1, Hnil. }
  assert (Hpen : forall l l', zlen l = zlen logits ->
    apply_repeat_penalty l recent (repeat_penalty params) = Some l' -> zlen l' = zlen logits)
    by (intros l l' Hl Hp; apply penalty_length in Hp; unfold zlen in *; congruence).
  destruct (negb debug); (destruct (fle (temperature params) f0); [apply Hgreedy; first [done|apply Hclear]|]).
  - destruct (apply_repeat_penalty logits _ _) as [l|] eqn:Ep; [|done]. cbn [mbind option_bind].
    apply (Hpen logits) in Ep; [|done]. rewrite <- Ep. apply draw_range; [by apply Hnil|]. intros g1.
    rewrite <- (Hclear l). apply draw_range; [by apply Hnil; rewrite Hclear|]. intros g2.
    apply full_range. apply Hnil. by rewrite Hclear.
  - destruct (apply_repeat_penalty clear _ _) as [l|] eqn:Ep; [|done]. cbn [mbind option_bind].
    apply (Hpen clear) in Ep; [|apply Hclear]. rewrite <- Ep. apply draw_range; [by apply Hnil|]. intros g1.
    apply full_range. by apply Hnil.
Qed.


End Draw.
End Facts.

(** ** IEEE 754 binary32 *)

Definition prec : Z := 24.
Definition emax : Z := 128.

(** The exponential is that of the C library. *)
Definition binary32 (exp : spec_float -> spec_float) : SampleFloats spec_float := {|
  flt := SFltb; fle := SFleb;
  nan x := match x with S754_nan => true | _ => false end;
  finite_bits x := match x with S754_zero _ | S754_finite _ _ _ => true | _ => false end;
  fadd := SFadd prec emax; fsub := SFsub prec emax; fmul := SFmul prec emax; fdiv := SFdiv prec emax;
  expf := exp;
  f0 := S754_zero false; f1 := SFone prec emax; neg_infinity := S754_infinity true |}.

(** The order of the numbers is lexicographic on this key. *)
Definition key (x : spec_float) : Z * Z * Z :=
  match x with
  | S754_infinity true => (-2, 0, 0)
  | S754_finite true m e => (-1, - e, Z.neg m)
  | S754_zero _ => (0, 0, 0)
  | S754_finite false m e => (1, e, Z.pos m)
  | S754_infinity false => (2, 0, 0)
  | S754_nan => (3, 0, 0)
  end.

Definition key_lt (a b : Z * Z * Z) : Prop :=
  let '(a1, a2, a3) := a in let '(b1, b2, b3) := b in
  a1 < b1 \/ a1 = b1 /\ (a2 < b2 \/ a2 = b2 /\ a3 < b3).

Lemma SFltb_key a b : a <> S754_nan -> b <> S754_nan -> SFltb a b = true <-> key_lt (key a) (key b).
Proof.
  intros Ha Hb. unfold SFltb, SFcompare.
  destruct a as [[]|[]| |[] m e]; try done; destruct b as [[]|[]| |[] n f]; try done;
    cbn [key key_lt]; try (split; [done|lia]); try (split; [lia|done]);
    destruct (Z.compare_spec e f); try (split; [done|lia]); try (split; [lia|done]); subst f;
    change (Pos.compare_cont Eq m n) with (Pos.compare m n); destruct (Pos.compare_spec m n); cbn;
    try (split; [done|lia]); try (split; [lia|done]).
Qed.

Lemma SFltb_number a b : SFltb a b = true -> a <> S754_nan /\ b <> S754_nan.
Proof. destruct a, b; done. Qed.

Lemma binary32_laws exp : @SampleFloatLaws spec_float (binary32 exp).
Proof.
  assert (Hnn : forall a, @nan _ (binary32 exp) a = false -> a <> S754_nan) by (by intros []).
  constructor; cbn [flt binary32].
  - intros a. destruct (SFltb a a) eqn:E; [|done]. destruct (SFltb_number _ _ E).
    apply SFltb_key in E; [|done..]. destruct (key a) as [[]]. cbn in E. lia.
  - intros a b c H1 H2. destruct (SFltb_number _ _ H1), (SFltb_number _ _ H2).
    apply SFltb_key in H1; [|done..]. apply SFltb_key in H2; [|done..]. apply SFltb_key; [done..|].
    destruct (key a) as [[]], (key b) as [[]], (key c) as [[]]. cbn in *. lia.
  - intros a b c ?%Hnn ?%Hnn ?%Hnn H1 H2. destruct (SFltb a c) eqn:E; [|done].
    apply SFltb_key in E; [|done..]. apply not_true_iff_false in H1, H2. rewrite SFltb_key in H1, H2 by done.
    destruct (key a) as [[]], (key b) as [[]], (key c) as [[]]. cbn in *. lia.
  - by intros [].
  - by intros [].
  - done.
Qed.

(** ** Algorithms by insertion *)

Section Insertion.
Context {T : Type} (lt : T -> T -> bool) (num : T -> Prop).
Context (lt_asym : forall a b, lt a b = true -> lt b a = false)
        (lt_neg_trans : forall a b c, num a -> num b -> num c -> lt a b = false -> lt b c = false -> lt a c = false).

Fixpoint insert_by (x : T) (l : list T) : list T :=
  match l with
  | [] => [x]
  | y :: l => if lt y x then y :: insert_by x l else x :: y :: l
  end.

Definition insertion_sort (l : list T) : list T := foldr insert_by [] l.
Definition in_order (l : list T) : Prop := StronglySorted (fun a b => lt b a = false) l.

Lemma insert_by_perm x l : insert_by x l ≡ₚ x :: l.
Proof. induction l as [|y l IH]; [done|]. cbn. destruct (lt y x); [|done]. rewrite IH. apply Permutation_swap. Qed.

Lemma insertion_sort_perm l : insertion_sort l ≡ₚ l.
Proof. induction l as [|x l IH]; [done|]. cbn. by rewrite insert_by_perm, IH. Qed.

Lemma insert_by_in_order x l : num x -> Forall num l -> in_order l -> in_order (insert_by x l).
Proof.
  intros Hx Hn Hs. induction Hs as [|y l Hs IH Hy]; cbn; [by repeat constructor|].
  apply Forall_cons in Hn as [Hyn Hn]. destruct (lt y x) eqn:E.
  - constructor; [by apply IH|]. rewrite insert_by_perm. constructor; [by apply lt_asym|done].
  - constructor; [by constructor|]. constructor; [done|]. rewrite Forall_forall in *. intros b Hb.
    eapply lt_neg_trans with y; auto.
Qed.

Lemma insertion_sort_in_order l : Forall num l -> in_order (insertion_sort l).
Proof.
  intros Hn. induction Hn as [|x l Hx Hn IH]; [constructor|]. cbn. apply insert_by_in_order; [done| |done].
  by rewrite insertion_sort_perm.
Qed.

Lemma in_order_lookup l i j a b :
  in_order l -> (i < j)%nat -> l !! i = Some a -> l !! j = Some b -> lt b a = false.
Proof.
  intros Hs. revert i j. induction Hs as [|x l Hs IH Hx]; intros [|i] [|j] Hij Ha Hb; try done; try lia.
  - injection Ha as ->. rewrite Forall_lookup in Hx. by eapply Hx.
  - apply (IH i j); [lia|done|done].
Qed.
End Insertion.

Section Instance_.
Context {F : Type} `{SF : SampleFloats F} {laws : SampleFloatLaws F}.

Definition by_prob (a b : TokenProb F) : bool := flt (prob a) (prob b).

Definition insertion_algorithms : Algorithms F := {|
  push_heap := insertion_sort by_prob;
  pop_heap l := match l with [] => [] | c :: l => l ++ [c] end;
  sort := insertion_sort before;
  partial_sort _ := insertion_sort before;
  is_heap := in_order by_prob |}.

Lemma insertion_laws : @AlgorithmLaws F SF insertion_algorithms.
Proof.
  set (num := fun c : TokenProb F => nan (prob c) = false).
  assert (A1 : forall a b, by_prob a b = true -> by_prob b a = false) by (intros a b; apply flt_asym).
  assert (A2 : forall a b, before a b = true -> before b a = false) by (intros a b; apply flt_asym).
  assert (T1 : forall a b c, num a -> num b -> num c -> by_prob a b = false -> by_prob b c = false -> by_prob a c = false)
    by (intros a b c; apply flt_neg_trans).
  assert (T2 : forall a b c, num a -> num b -> num c -> before a b = false -> before b c = false -> before a c = false)
    by (intros a b c Ha Hb Hc H1 H2; exact (flt_neg_trans _ _ _ Hc Hb Ha H2 H1)).
  assert (S2 : forall l, numbers l -> in_order before (insertion_sort before l))
    by (intros l; by apply (insertion_sort_in_order before num)).
  constructor; cbn [push_heap pop_heap sort partial_sort is_heap insertion_algorithms].
  - constructor.
  - intros c l Hs. by inversion Hs.
  - intros l c Hn _. split; [apply insertion_sort_perm|]. by apply (insertion_sort_in_order by_prob num).
  - intros c l _ Hs. exists l. inversion Hs; subst. done.
  - intros l Hn. split; [apply insertion_sort_perm|]. intros i j a b. by apply in_order_lookup, S2.
  - intros k l Hn Hk. split; [apply insertion_sort_perm|]. pose proof (S2 l Hn) as Hs. split.
    + intros i j a b Hij Ha Hb. rewrite lookup_take_Some in Ha, Hb. destruct Ha, Hb.
      eapply (in_order_lookup before); [exact Hs|exact Hij|done|done].
    + intros a b [i Ha]%list_elem_of_lookup [j Hb]%list_elem_of_lookup. rewrite lookup_take_Some in Ha.
      rewrite lookup_drop in Hb. destruct Ha. eapply (in_order_lookup before); [exact Hs| |done|exact Hb]. lia.
Qed.
End Instance_.

(** ** Concrete samples, in binary32 *)

(** The natural numbers as floats, and a constant exponential. *)
Definition flo (n : Z) : spec_float := binary_normalize prec emax n 0 false.
#[local] Instance demo_binary32 : SampleFloats spec_float := binary32 (fun _ => flo 1).
#[local] Instance demo_binary32_laws : SampleFloatLaws spec_float := binary32_laws (fun _ => flo 1).
#[local] Instance demo_algorithms : Algorithms spec_float := insertion_algorithms.
#[local] Instance demo_algorithm_laws : AlgorithmLaws spec_float := insertion_laws.

Definition demo_logits : list spec_float := [flo 3; flo 9; S754_nan; flo 7; S754_infinity false; flo 8].
Definition demo_params : GenParams (F := spec_float) := mkParams (flo 1) 2 (flo 1) (flo 2).
Definition demo_uniform (total : spec_float) (g : Z) : spec_float * Z := (flo 0, g + 1).

Example demo_greedy : sample_greedy demo_logits = 1.
Proof. vm_compute. reflexivity. Qed.

Lemma demo_scales : scales (scale_of demo_params) demo_logits.
Proof.
  unfold scales.
  repeat (apply Forall_cons; split; [intros Hf; first [discriminate Hf|vm_compute; reflexivity]|]). by constructor.
Qed.

Lemma heap_keeps_best_witness :
  exists c d, heap_loop 2 (scale_of demo_params) demo_logits 0 [] = Some c /\
    sort c ++ d ≡ₚ scored (scale_of demo_params) demo_logits 0 /\ zlen (sort c) = 2.
Proof.
  destruct (heap_keeps_best 2 (scale_of demo_params) demo_logits) as (c & d & E & Hp & _ & Hz & _).
  - lia.
  - exact demo_scales.
  - exists c, d. split; [exact E|]. split; [exact Hp|]. rewrite Hz. vm_compute. reflexivity.
Defined.

Lemma top_p_filter_minimal_witness :
  flt (flo 4) (mass [mkProb 0 (flo 3); mkProb 1 (flo 2)] (top_p_filter [mkProb 0 (flo 3); mkProb 1 (flo 2)] (flo 4))) = true.
Proof.
  destruct (top_p_filter_minimal [mkProb 0 (flo 3); mkProb 1 (flo 2)] (flo 4)) as (_ & _ & [H|H]).
  - discriminate.
  - exact H.
  - vm_compute. reflexivity.
Defined.


(** *** The nucleus without a top-k *)

(** With top-k disabled nothing sorts the candidates before the nucleus
    filter, which assumes them sorted: a token that holds three quarters of
    the probability is cut off when a less likely one precedes it in the
    vocabulary. *)
Theorem nucleus_unsorted :
  let quarter := fdiv (flo 1) (flo 4) in let three := fdiv (flo 3) (flo 4) in
  let cands := [mkProb 0 quarter; mkProb 1 three] in
  let '(c, n) := top_k_filter cands 0 in
  flt quarter three = true /\ id <$> take (top_p_filter (take n c) (fdiv (flo 1) (flo 5))) c = [0].
Proof. vm_compute. done. Qed.
End Sample.
