(* ===== verification/Jetson.v ===== *)
(** * Jetson: power, thermal and memory readings ([src/jetson])

    Everything is read from small text files and from the output of a command;
    the model is a function of their contents.  Temperatures are binary32. *)

From Stdlib Require Import Floats.SpecFloat.
From S2P Require Import Prelude CLib Sample.

Module Jetson.
Import Sample.

(** What the system shows: the readable files, the entries of the thermal
    directory, the output of [nvpmodel -q], and the indeterminate value of an
    uninitialised variable. *)
Record Sys := mkSys {
  files : gmap bytes bytes; thermal_dir : option (list bytes); nvpmodel : option bytes; garbage : Z }.

Definition path (p : String.string) : bytes := str p.

(** ** [power.cpp] *)

Inductive PowerMode := POWER_MAXN | POWER_15W | POWER_10W | POWER_7W | POWER_UNKNOWN.
Record PowerState := mkPower {
  mode : PowerMode; watts : Z; gpu_freq_mhz : Z; gpu_freq_max_mhz : Z; emc_freq_mhz : Z;
  cpu_freq_mhz : Z; cpu_online : Z }.

(** [initial]: the value of [val] when nothing is converted. *)
Definition read_sysfs_int (initial : Z) (sys : Sys) (p : bytes) : Z :=
  match files sys !! p with None => -1 | Some c => default initial (scan_int c) end.

Definition read_sysfs_mhz (sys : Sys) (p : bytes) (divisor : Z) : Z :=
  let val := read_sysfs_int 0 sys p in if 0 <=? val then Z.quot val divisor else -1.

Fixpoint read_first_sysfs_mhz (sys : Sys) (paths : list bytes) (divisor : Z) : Z :=
  match paths with
  | [] => -1
  | p :: paths =>
      let mhz := read_sysfs_mhz sys p divisor in
      if 0 <=? mhz then mhz else read_first_sysfs_mhz sys paths divisor
  end.

(** The loop of [parse_watts_from_line]; after a number it goes on at its end. *)
Fixpoint watts_loop (fuel : nat) (p : bytes) : Z :=
  match fuel, p with
  | S fuel, b :: p' =>
      if negb (isdigit b) then watts_loop fuel p'
      else
        let '(value, e) := strtol p in
        match e with
        | c :: _ => if (Byte.eqb c "W"%byte || Byte.eqb c "w"%byte) && (0 <? value) && (value <? 1000)
                    then value else watts_loop fuel e
        | [] => -1
        end
  | _, _ => -1
  end.

Definition parse_watts_from_line (line : bytes) : Z := watts_loop (length line) line.

Definition mode_from_watts (watts : Z) : PowerMode :=
  if 25 <=? watts then POWER_MAXN else if 15 <=? watts then POWER_15W
  else if 10 <=? watts then POWER_10W else if 7 <=? watts then POWER_7W else POWER_UNKNOWN.

(** The loop over the text of [cpu/online]. *)
Fixpoint cpu_loop (fuel : nat) (p : bytes) (count : Z) : Z :=
  match fuel with
  | O => count
  | S fuel =>
      match (span (fun b => negb (isdigit b)) p).2 with
      | [] => count
      | q =>
          let '(first, e) := strtol q in
          let '(last, e) := match e with
                            | c :: e' => if Byte.eqb c "-"%byte then strtol e' else (first, e)
                            | [] => (first, e)
                            end in
          cpu_loop fuel e (if (0 <=? first) && (first <=? last)
                           then i32 (count + i32 (i64 (last - first + 1))) else count)
      end
  end.

Definition cpu_list (line : bytes) : Z := cpu_loop (length line) line 0.

Definition cpu_online_path (i : Z) : bytes := str "/sys/devices/system/cpu/cpu" ++ dec i ++ str "/online".

Definition read_online_cpu_count (sys : Sys) : Z :=
  let count := match files sys !! path "/sys/devices/system/cpu/online" with
               | Some c => match fgets 256 c with Some (line, _) => cpu_list (c_string line) | None => 0 end
               | None => 0
               end in
  if 0 <? count then count
  else zlen (filter (fun i => let online := read_sysfs_int 0 sys (cpu_online_path i) in
                              (i = 0 /\ online < 0) \/ online = 1) (upto 12)).

Definition gpu_paths (file : String.string) : list bytes :=
  (fun d => str d ++ str file) <$>
  ["/sys/devices/17000000.ga10b/devfreq/17000000.ga10b/";
   "/sys/devices/platform/17000000.ga10b/devfreq/17000000.ga10b/";
   "/sys/devices/platform/17000000.gpu/devfreq/17000000.gpu/";
   "/sys/devices/platform/bus@0/17000000.gpu/devfreq/17000000.gpu/";
   "/sys/devices/platform/host1x/17000000.gpu/devfreq/17000000.gpu/";
   "/sys/devices/gpu.0/devfreq/17000000.gp10b/"]%string.

(** The lines of [nvpmodel -q], up to the first that tells the mode. *)
Fixpoint mode_loop (ls : list bytes) : PowerMode * Z :=
  match ls with
  | [] => (POWER_UNKNOWN, -1)
  | line :: ls =>
      let line := c_string line in
      if strstr line (str "MAXN") then (POWER_MAXN, 25)
      else
        let w := parse_watts_from_line line in
        if 0 <? w then (mode_from_watts w, w) else mode_loop ls
  end.

Definition read_power_state (sys : Sys) : PowerState :=
  let '(m, w) := match nvpmodel sys with Some out => mode_loop (lines 256 out) | None => (POWER_UNKNOWN, -1) end in
  mkPower m w
    (read_first_sysfs_mhz sys (gpu_paths "cur_freq") 1000000)
    (read_first_sysfs_mhz sys (gpu_paths "max_freq") 1000000)
    (read_sysfs_mhz sys (path "/sys/kernel/debug/bpmp/debug/clk/emc/rate") 1000000)
    (read_sysfs_mhz sys (path "/sys/devices/system/cpu/cpu0/cpufreq/scaling_cur_freq") 1000)
    (read_online_cpu_count sys).

(** ** [thermal.cpp] *)

Abbreviation float := spec_float.
Definition gt (a b : float) : bool := SFltb b a.

Record ThermalState := mkThermal {
  cpu_temp_c : float; gpu_temp_c : float; board_temp_c : float; throttling : bool }.

(** [temp / 1000.0f] *)
Definition celsius (t : Z) : float := SFdiv prec emax (flo t) (flo 1000).

(** The path, in a buffer of 256 characters. *)
Definition zone_file (entry : bytes) (file : String.string) : bytes :=
  take 255 (str "/sys/devices/virtual/thermal/" ++ entry ++ str file).

(** The text of a [type] file, without its newline. *)
Definition zone_type (content : bytes) : bytes :=
  let line := match fgets 64 content with Some (line, _) => c_string line | None => [] end in
  (span (fun b => negb (Byte.eqb b Byte.x0a)) line).1.

Fixpoint zone_loop (sys : Sys) (wanted : bytes) (entries : list bytes) : float :=
  match entries with
  | [] => flo (-1)
  | entry :: entries =>
      if negb (starts_with (str "thermal_zone") entry) then zone_loop sys wanted entries
      else match files sys !! zone_file entry "/type" with
      | None => zone_loop sys wanted entries
      | Some ty =>
          if bool_decide (zone_type ty = wanted) then
            match files sys !! zone_file entry "/temp" with
            | Some t => celsius (default 0 (scan_int t))
            | None => zone_loop sys wanted entries
            end
          else zone_loop sys wanted entries
      end
  end.

Definition read_thermal_zone (sys : Sys) (wanted : String.string) : float :=
  match thermal_dir sys with None => flo (-1) | Some entries => zone_loop sys (str wanted) entries end.

Definition read_thermal (sys : Sys) : ThermalState :=
  let cpu := read_thermal_zone sys "CPU-therm" in
  let gpu := read_thermal_zone sys "GPU-therm" in
  let board := read_thermal_zone sys "Tboard_tegra" in
  let cpu := if SFltb cpu (flo 0) then
               match files sys !! path "/sys/devices/virtual/thermal/thermal_zone0/temp" with
               | Some t => celsius (default (garbage sys) (scan_int t))
               | None => cpu
               end
             else cpu in
  let gpu := if SFltb gpu (flo 0) then cpu else gpu in
  mkThermal cpu gpu board (gt gpu (flo 85) || gt cpu (flo 85)).

Definition thermal_backoff_us (ts : ThermalState) : Z :=
  let max_temp := if gt (gpu_temp_c ts) (cpu_temp_c ts) then gpu_temp_c ts else cpu_temp_c ts in
  if gt max_temp (flo 95) then 200000 else if gt max_temp (flo 90) then 100000
  else if gt max_temp (flo 85) then 50000 else if gt max_temp (flo 80) then 10000 else 0.

(** ** [sysinfo.cpp]: the live statistics *)

Record LiveStats := mkLive { ram_used_mb : Z; ram_total_mb : Z; gpu_util_pct : Z; live_gpu_mhz : Z; live_gpu_temp : float }.

(** [sscanf(line, "<name> %ld kB", &val) == 1] *)
Definition scan_field (name : bytes) (line : bytes) : option Z :=
  if starts_with name line then
    let '(v, rest) := strtol (drop (length name) line) in
    if (length rest =? length (drop (length name) line))%nat then None else Some v
  else None.

Definition meminfo_step (acc : Z * Z) (line : bytes) : Z * Z :=
  let '(used, total) := acc in
  let total := match scan_field (str "MemTotal:") line with Some v => Z.quot v 1024 | None => total end in
  let used := match scan_field (str "MemAvailable:") line with Some v => i64 (total - Z.quot v 1024) | None => used end in
  (used, total).

Fixpoint read_first_sysfs_int (sys : Sys) (paths : list bytes) : Z :=
  match paths with
  | [] => -1
  | p :: paths => let val := read_sysfs_int (-1) sys p in
                  if 0 <=? val then val else read_first_sysfs_int sys paths
  end.

Definition read_live_stats (sys : Sys) : LiveStats :=
  let '(used, total) := match files sys !! path "/proc/meminfo" with
                        | Some c => foldl (fun acc line => meminfo_step acc (c_string line)) (0, 0) (lines 256 c)
                        | None => (0, 0)
                        end in
  let util := read_first_sysfs_int sys (gpu_paths "load") in
  let mhz := read_first_sysfs_int sys (gpu_paths "cur_freq") in
  mkLive used total (if util <? 0 then 0 else util) (if 0 <=? mhz then Z.quot mhz 1000000 else 0)
         (gpu_temp_c (read_thermal sys)).

(** ** [sysinfo.cpp]: the probe at startup *)

Record JetsonInfo := mkInfo {
  l4t_version : bytes; cuda_major : Z; cuda_minor : Z; gpu_sm_count : Z; gpu_cuda_cores : Z;
  total_ram_mb : Z; cma_total_mb : Z; nvme_free_mb : Z }.

Definition skip_space (s : bytes) : bytes := (span isspace s).2.

(** A literal of a [scanf] format, after optional white space. *)
Definition scan_literal (lit s : bytes) : option bytes :=
  let s := skip_space s in if starts_with lit s then Some (drop (length lit) s) else None.

(** One [%d], with what is left of the input. *)
Definition scan_d (s : bytes) : option (Z * bytes) :=
  match scan_int s with Some v => Some (v, (strtol s).2) | None => None end.

(** [sscanf(line, "# R%d (release), REVISION: %d", &major, &minor) >= 1] *)
Definition scan_release (line : bytes) : option (Z * Z) :=
  if starts_with (str "#") line then
    match x ← scan_literal (str "R") (drop 1 line); scan_d x with
    | None => None
    | Some (major, rest) =>
        match x ← scan_literal (str "(release),") rest; y ← scan_literal (str "REVISION:") x; scan_d y with
        | Some (minor, _) => Some (major, minor)
        | None => Some (major, 0)
        end
    end
  else None.

(** [%d] of an [int] that may be negative. *)
Definition dec_int (n : Z) : bytes := if n <? 0 then str "-" ++ dec (- n) else dec n.

Definition info_step (acc : Z * Z) (line : bytes) : Z * Z :=
  let '(total, cma) := acc in
  (match scan_field (str "MemTotal:") line with Some v => Z.quot v 1024 | None => total end,
   match scan_field (str "CmaTotal:") line with Some v => Z.quot v 1024 | None => cma end).

(** [runtime_ver] and [sm_count] are what the CUDA runtime reports ([None]: no
    device), [df] what the pipe that asks for the free space prints. *)
Definition probe_jetson (sys : Sys) (runtime_ver : Z) (sm_count : option Z) (df : option bytes) : JetsonInfo :=
  let l4t := match files sys !! path "/etc/nv_tegra_release" with
             | Some c => match fgets 256 c with
                         | Some (line, _) =>
                             match scan_release (c_string line) with
                             | Some (major, minor) => take 31 (dec_int major ++ str "." ++ dec_int minor)
                             | None => []
                             end
                         | None => []
                         end
             | None => []
             end in
  let '(total, cma) := match files sys !! path "/proc/meminfo" with
                       | Some c => foldl (fun acc line => info_step acc (c_string line)) (0, 0) (lines 256 c)
                       | None => (0, 0)
                       end in
  let sms := default 0 sm_count in
  mkInfo l4t (Z.quot runtime_ver 1000) (Z.quot (Z.rem runtime_ver 1000) 10) sms (i32 (sms * 128)) total cma
         (match df with
          | Some out => let '(kb, _) := strtol out in Z.quot kb 1024
          | None => 0
          end).

(** ** [power.cpp]: the commands that change the mode *)

Definition mode_id (m : PowerMode) : Z :=
  match m with POWER_MAXN => 0 | POWER_15W => 1 | POWER_10W => 2 | POWER_7W => 3 | POWER_UNKNOWN => -1 end.

(** The command given to [system]. *)
Definition set_power_mode (m : PowerMode) : bytes := str "nvpmodel -m " ++ dec_int (mode_id m) ++ str " 2>/dev/null".
Definition lock_clocks : bytes := str "jetson_clocks 2>/dev/null".

(** ** The list of processors *)

Definition digit_byte (b : byte) : Prop := isdigit b = true.

Lemma dec_digits n : 0 <= n -> Forall digit_byte (dec n) /\ dec n <> [].
Proof. intros Hn. destruct (dec_spec n Hn) as (H1 & _ & H2). done. Qed.

(** Ranges as the kernel prints them: "a" or "a-b", separated by commas. *)
Definition print_range (r : Z * Z) : bytes :=
  if fst r =? snd r then dec (fst r) else dec (fst r) ++ str "-" ++ dec (snd r).

Fixpoint print_ranges (rs : list (Z * Z)) : bytes :=
  match rs with
  | [] => [Byte.x0a]
  | [r] => print_range r ++ [Byte.x0a]
  | r :: rs => print_range r ++ str "," ++ print_ranges rs
  end.

Definition range_ok (r : Z * Z) : Prop := 0 <= fst r <= snd r /\ snd r < 2 ^ 31 - 1.
Definition cpus (rs : list (Z * Z)) : Z := zsum ((fun r => snd r - fst r + 1) <$> rs).

Lemma skip_digits n rest : 0 <= n -> (span (fun b => negb (isdigit b)) (dec n ++ rest)).2 = dec n ++ rest.
Proof.
  intros Hn. destruct (dec_digits n Hn) as [Hd Hne]. destruct (dec n) as [|b ds]; [done|].
  apply Forall_cons in Hd as [Hb _]. cbn [app span]. unfold digit_byte in Hb. by rewrite Hb.
Qed.

Lemma cpu_loop_range fuel r b rest count :
  range_ok r -> isdigit b = false -> Byte.eqb b "-"%byte = false -> 0 <= count -> count + (snd r - fst r + 1) < 2 ^ 31 ->
  cpu_loop (S fuel) (print_range r ++ b :: rest) count = cpu_loop fuel (b :: rest) (count + (snd r - fst r + 1)).
Proof.
  destruct r as [x y]. unfold range_ok, print_range. cbn [fst snd]. intros [[Hx Hy] Hm] Hb Hb' Hc Hs.
  assert (Hnd : forall c r, b :: rest = c :: r -> isdigit c = false) by (by intros c r [= <- _]).
  assert (HM : 2 ^ 31 <= INT64_MAX) by (unfold INT64_MAX; lia).
  assert (Hcount : i32 (count + i32 (i64 (y - x + 1))) = count + (y - x + 1)) by (nowrap; lia).
  cbn [cpu_loop]. destruct (Z.eqb_spec x y) as [->|Hxy].
  - rewrite skip_digits by done.
    destruct (dec y ++ b :: rest) as [|c q] eqn:E; [apply app_eq_nil in E as [_ E]; discriminate|].
    rewrite <- E, strtol_dec by (done || lia). rewrite Hb'. rewrite Z.leb_refl, (proj2 (Z.leb_le 0 y)) by lia. cbn [andb]. by rewrite Hcount.
  - rewrite <- !app_assoc, skip_digits by done.
    destruct (dec x ++ _) as [|c q] eqn:E; [apply app_eq_nil in E as [_ E]; discriminate|].
    rewrite <- E, strtol_dec by ((by intros ? ? [= <- _]) || lia).
    change (str "-" ++ dec y ++ b :: rest) with ("-"%byte :: dec y ++ b :: rest).
    cbv beta iota. change (Byte.eqb "-"%byte "-"%byte) with true. cbv beta iota.
    rewrite strtol_dec by (done || lia).
    rewrite (proj2 (Z.leb_le 0 x)), (proj2 (Z.leb_le x y)) by lia. cbn [andb]. by rewrite Hcount.
Qed.

Lemma print_range_length r : range_ok r -> (0 < length (print_range r))%nat.
Proof.
  intros [[H0 _] _]. unfold print_range. destruct (dec_digits _ H0) as [_ Hne].
  destruct (dec (fst r)); [done|]. destruct (_ =? _); cbn; lia.
Qed.

Lemma print_ranges_length rs : Forall range_ok rs -> (length rs < length (print_ranges rs))%nat.
Proof.
  induction 1 as [|r rs Hr Hok IH]; [cbn; lia|]. pose proof (print_range_length r Hr).
  destruct rs as [|r' rs]; cbn [print_ranges] in *; rewrite !length_app; cbn [length] in *; [lia|].
  change (length (str ",")) with 1%nat. lia.
Qed.

Lemma cpus_cons r rs : cpus (r :: rs) = snd r - fst r + 1 + cpus rs.
Proof. done. Qed.

Lemma cpus_nonneg rs : Forall range_ok rs -> 0 <= cpus rs.
Proof. induction 1 as [|r rs [[? ?] _] _ IH]; [done|]. rewrite cpus_cons. lia. Qed.

(** A separator is skipped. *)
Lemma cpu_loop_skip fuel b p n :
  isdigit b = false -> cpu_loop fuel (b :: p) n = cpu_loop fuel p n.
Proof.
  intros Hb. destruct fuel as [|f]; [done|]. cbn [cpu_loop].
  enough (E : (span (fun b => negb (isdigit b)) (b :: p)).2 = (span (fun b => negb (isdigit b)) p).2) by by rewrite E.
  cbn [span]. rewrite Hb. cbn [negb]. by destruct (span _ p).
Qed.

Lemma cpu_loop_ranges rs fuel count :
  Forall range_ok rs -> 0 <= count -> count + cpus rs < 2 ^ 31 -> (length rs < fuel)%nat ->
  cpu_loop fuel (print_ranges rs) count = count + cpus rs.
Proof.
  intros Hok. revert fuel count. induction Hok as [|r rs Hr Hok IH]; intros fuel count Hc Hs Hf.
  - destruct fuel; [lia|]. cbn. unfold cpus. cbn. lia.
  - destruct fuel as [|fuel]; [lia|]. pose proof (cpus_nonneg rs Hok). rewrite cpus_cons in *.
    assert (Hr' := Hr). destruct Hr' as [[? ?] ?].
    destruct rs as [|r' rs].
    + cbn [print_ranges]. rewrite cpu_loop_range by (done || lia). rewrite cpu_loop_skip by done.
      change (cpus []) with 0. destruct fuel; cbn [cpu_loop]; cbn; lia.
    + change (print_ranges (r :: r' :: rs)) with (print_range r ++ str "," ++ print_ranges (r' :: rs)).
      change (str "," ++ print_ranges (r' :: rs)) with (","%byte :: print_ranges (r' :: rs)).
      rewrite cpu_loop_range by (done || lia). rewrite cpu_loop_skip by done.
      rewrite IH; [lia|lia|lia|cbn [length] in *; lia].
Qed.

(** The processor count.  For the list of online processors as the kernel
    prints it, ranges and single numbers separated by commas, the count is the
    number of processors listed. *)
Theorem cpu_list_counts (rs : list (Z * Z)) :
  Forall range_ok rs -> cpus rs < 2 ^ 31 -> cpu_list (print_ranges rs) = cpus rs.
Proof.
  intros Hok Hs. unfold cpu_list. rewrite cpu_loop_ranges; [lia|done|lia|lia|by apply print_ranges_length].
Qed.

Lemma cpu_list_counts_witness : cpu_list (print_ranges [(0, 3); (5, 5); (8, 11)]) = 9.
Proof.
  apply (cpu_list_counts [(0, 3); (5, 5); (8, 11)]); [|reflexivity].
  repeat (apply Forall_cons; split; [unfold range_ok; cbn; lia|]). by constructor.
Defined.

(** ** Throttling *)

#[local] Instance temperatures : SampleFloats float := binary32 (fun x => x).
#[local] Instance temperature_laws : SampleFloatLaws float := binary32_laws (fun x => x).

Definition numbers_only (ts : ThermalState) : Prop :=
  cpu_temp_c ts <> S754_nan /\ gpu_temp_c ts <> S754_nan.

Lemma number_not_nan a : a <> S754_nan -> nan a = false.
Proof. by destruct a. Qed.

Lemma gt_above a b c : a <> S754_nan -> b <> S754_nan -> gt a b = false -> gt a (flo c) = true -> gt b (flo c) = true.
Proof.
  intros Ha Hb Hab Hac. destruct (gt b (flo c)) eqn:E; [done|]. rewrite <- Hac. symmetry.
  destruct (SFltb_number _ _ Hac) as [Hc _].
  exact (flt_neg_trans (flo c) b a (number_not_nan _ Hc) (number_not_nan _ Hb) (number_not_nan _ Ha) E Hab).
Qed.

(** The hotter of the two, as [thermal_backoff_us] picks it. *)
Definition max_temp (ts : ThermalState) : float :=
  if gt (gpu_temp_c ts) (cpu_temp_c ts) then gpu_temp_c ts else cpu_temp_c ts.

Lemma max_temp_above ts c :
  numbers_only ts -> gt (max_temp ts) (flo c) = gt (gpu_temp_c ts) (flo c) || gt (cpu_temp_c ts) (flo c).
Proof.
  intros [Hc Hg]. unfold max_temp. destruct (gt (gpu_temp_c ts) (cpu_temp_c ts)) eqn:E.
  - destruct (gt (cpu_temp_c ts) (flo c)) eqn:E2; [|by rewrite orb_false_r].
    rewrite orb_true_r. exact (flt_trans (flo c) _ _ E2 E).
  - destruct (gt (gpu_temp_c ts) (flo c)) eqn:E2; [|done]. by apply (gt_above (gpu_temp_c ts)).
Qed.

Lemma above_lower ts c d :
  numbers_only ts -> gt (flo c) (flo d) = true -> gt (max_temp ts) (flo c) = true -> gt (max_temp ts) (flo d) = true.
Proof. intros _ Hcd H. exact (flt_trans (flo d) (flo c) _ Hcd H). Qed.

Lemma hotter_above ts ts' c :
  numbers_only ts -> numbers_only ts' ->
  gt (gpu_temp_c ts) (gpu_temp_c ts') = false -> gt (cpu_temp_c ts) (cpu_temp_c ts') = false ->
  gt (max_temp ts) (flo c) = true -> gt (max_temp ts') (flo c) = true.
Proof.
  intros Hn Hn' Hg Hc. rewrite !max_temp_above by done. destruct Hn, Hn'.
  rewrite !orb_true_iff. intros [?|?]; [left|right].
  - by apply (gt_above (gpu_temp_c ts)).
  - by apply (gt_above (cpu_temp_c ts)).
Qed.

(** The pause between tokens agrees with the throttling flag that
    [read_thermal] computes: it is at least 50 ms exactly when the flag is set,
    and a state in which neither temperature is lower never pauses less. *)
Theorem backoff_follows_throttling (sys : Sys) (ts : ThermalState) :
  numbers_only ts -> numbers_only (read_thermal sys) ->
  (throttling (read_thermal sys) = true <-> 50000 <= thermal_backoff_us (read_thermal sys)) /\
  (gt (gpu_temp_c ts) (gpu_temp_c (read_thermal sys)) = false ->
   gt (cpu_temp_c ts) (cpu_temp_c (read_thermal sys)) = false ->
   thermal_backoff_us ts <= thermal_backoff_us (read_thermal sys)).
Proof.
  intros Hn Hn'. set (now := read_thermal sys) in *.
  assert (Et : throttling now = gt (max_temp now) (flo 85)) by by rewrite max_temp_above.
  assert (E : forall t, thermal_backoff_us t =
    if gt (max_temp t) (flo 95) then 200000 else if gt (max_temp t) (flo 90) then 100000
    else if gt (max_temp t) (flo 85) then 50000 else if gt (max_temp t) (flo 80) then 10000 else 0) by done.
  rewrite Et, !E. split.
  - pose proof (above_lower now 95 85 Hn' eq_refl) as H95. pose proof (above_lower now 90 85 Hn' eq_refl) as H90.
    destruct (gt (max_temp now) (flo 95)), (gt (max_temp now) (flo 90)), (gt (max_temp now) (flo 85)), (gt (max_temp now) (flo 80)); split; intros; done || lia || auto.
  - intros Hg Hc. pose proof (fun c => hotter_above ts now c Hn Hn' Hg Hc) as Hot.
    pose proof (Hot 95). pose proof (Hot 90). pose proof (Hot 85). pose proof (Hot 80). clear Hot.
    destruct (gt (max_temp ts) (flo 95)); [rewrite H by done; lia|].
    destruct (gt (max_temp ts) (flo 90)); [rewrite H0 by done; repeat case_match; lia|].
    destruct (gt (max_temp ts) (flo 85)); [rewrite H1 by done; repeat case_match; lia|].
    destruct (gt (max_temp ts) (flo 80)); [rewrite H2 by done; repeat case_match; lia|].
    repeat case_match; lia.
Qed.

Example probe_orin :
  let sys := mkSys (<[path "/etc/nv_tegra_release" := str "# R36 (release), REVISION: 4.0, GCID: 1"]>
                    (<[path "/proc/meminfo" := str "MemTotal:        7802000 kB" ++ [Byte.x0a] ++ str "CmaTotal:         262144 kB" ++ [Byte.x0a]]> ∅))
                   None None 0 in
  probe_jetson sys 12060 (Some 8) (Some (str "2048000")) = mkInfo (str "36.4") 12 6 8 1024 7619 256 2000.
Proof. by vm_compute. Qed.

Definition hot : Sys :=
  mkSys (<[zone_file (str "thermal_zone1") "/type" := str "CPU-therm" ++ [Byte.x0a]]>
         (<[zone_file (str "thermal_zone1") "/temp" := str "91500" ++ [Byte.x0a]]> ∅))
        (Some [str "cooling_device0"; str "thermal_zone0"; str "thermal_zone1"]) None 0.

Lemma backoff_follows_throttling_witness :
  thermal_backoff_us (read_thermal hot) = 100000 /\ 50000 <= thermal_backoff_us (read_thermal hot).
Proof.
  split; [by vm_compute|].
  destruct (backoff_follows_throttling hot (mkThermal (flo 20) (flo 20) (flo 20) false)) as [[H _] _].
  - by vm_compute.
  - by vm_compute.
  - apply H. by vm_compute.
Defined.

End Jetson.
