(* ===== verification/Routes.v ===== *)
(** * Routes: the other endpoints ([src/server/http_server.cpp], [run_server])

    [GET /health], [GET /v1/models], the preflight of [OPTIONS] and the table of
    handlers that [run_server] registers, on top of the chat endpoint of
    [Server].  The handlers of [GET] read the engine without the mutex: the
    name of the model and the budget, which no request changes, and the sensors
    of [Jetson]. *)

From S2P Require Import Prelude CLib Budget Chat Server Sample Jetson.

Module Routes.
Import Chat Server.

Section Routes.
Context {J : Json} {laws : JsonLaws J}.
(** A [float] of the sensors as a JSON number. *)
Context (num_of : Jetson.float -> num).

(** What the handlers read of the engine. *)
Record snapshot := mkSnapshot { name : bytes; memory : Budget.MemoryBudget }.

Definition build_health (engine : snapshot) (sys : Jetson.Sys) : doc num :=
  let ls := Jetson.read_live_stats sys in
  let ts := Jetson.read_thermal sys in
  let ps := Jetson.read_power_state sys in
  let budget := memory engine in
  DObj [(str "status", DStr (str "ok"));
        (str "model", DStr (name engine));
        (str "memory", DObj [(str "total_mb", DInt (Budget.total_mb budget));
                             (str "free_mb", DInt (Budget.free_mb budget));
                             (str "model_mb", DInt (Budget.model_mb budget));
                             (str "kv_mb", DInt (Budget.kv_cache_mb budget))]);
        (str "thermal", DObj [(str "gpu_c", DNum (num_of (Jetson.gpu_temp_c ts)));
                              (str "cpu_c", DNum (num_of (Jetson.cpu_temp_c ts)));
                              (str "throttling", DBool (Jetson.throttling ts))]);
        (str "power", DObj [(str "watts", DInt (Jetson.watts ps));
                            (str "gpu_mhz", DInt (Jetson.gpu_freq_mhz ps));
                            (str "gpu_max_mhz", DInt (Jetson.gpu_freq_max_mhz ps))]);
        (str "gpu_util_pct", DInt (Jetson.gpu_util_pct ls))].

Definition models_doc (engine : snapshot) : doc num :=
  DObj [(str "object", DStr (str "list"));
        (str "data", DArr [DObj [(str "id", DStr (name engine)); (str "object", DStr (str "model"));
                                 (str "owned_by", DStr (str "genie-ai-runtime"))]])].

Inductive method := GET | POST | OPTIONS.

(** What a handler has answered: a reply, and the headers it sets. *)
Definition response : Type := reply * list (bytes * bytes).

(** The handlers that [run_server] registers, in its order. *)
Record route := mkRoute { verb : method; pattern : bytes }.
Definition routes : list route :=
  [mkRoute GET (str "/health"); mkRoute GET (str "/v1/models"); mkRoute POST (str "/v1/chat/completions");
   mkRoute OPTIONS (str ".*")].

Definition default_headers : list (bytes * bytes) := [(str "Access-Control-Allow-Origin", str "*")].

Definition preflight : response :=
  (Reply 204 [], default_headers ++ [(str "Access-Control-Allow-Methods", str "GET, POST, OPTIONS");
                                     (str "Access-Control-Allow-Headers", str "Content-Type")]).

(** The handler of a route; the chat completion changes the engine [e]. *)
Definition run_handler {E : Type} (accepts : nat -> bool)
  (generate : bytes -> GenParams -> E -> option (run * E)) (default_kv_int8 : bool) (t_id t_created : Z)
  (engine : snapshot) (sys : Jetson.Sys) (r : route) (body : bytes) (e : E) : option (response * E) :=
  match verb r with
  | OPTIONS => Some (preflight, e)
  | POST =>
      '(rep, e) ← handle accepts generate default_kv_int8 (name engine) t_id t_created body e;
      Some ((rep, default_headers), e)
  | GET =>
      if decide (pattern r = str "/health") then Some ((reply_doc 200 (build_health engine sys), default_headers), e)
      else Some ((reply_doc 200 (models_doc engine), default_headers), e)
  end.

(** ** A name that is not UTF-8 *)

(** A document with such a string in it cannot be written. *)
Lemma dump_bad (d : doc num) s : s ∈ doc_strings d -> valid_utf8 s = false -> exists w, dump d = Raise (StdException w).
Proof.
  intros Hs Hv. apply dump_utf8. apply not_true_iff_false. rewrite forallb_forall. intros H.
  rewrite (H s) in Hv; [done|by apply list_elem_of_In].
Qed.

(** A reply without a completion. *)
Definition failed (r : reply) : Prop :=
  match r with
  | Uncaught _ => True
  | Reply status _ => status <> 200
  | Stream _ => False
  end.

Lemma error_failed code msg type : code <> 200 -> failed (send_error code msg type).
Proof. intros Hc. unfold send_error, reply_doc. by destruct (dump _). Qed.

Lemma completion_bad accepts n t_id t_created r rep :
  valid_utf8 n = false -> conclude accepts n t_id t_created false r = Some rep -> failed rep.
Proof.
  intros Hn E. unfold conclude in E. destruct (build_completion _ _ _ _) as [c|] eqn:Eb; [|done].
  cbn [mbind option_bind] in E. injection E as <-.
  unfold build_completion in Eb. destruct (absorb_tokens _ _ _) as [[s out]|]; [|done]. cbn [mbind option_bind] in Eb.
  destruct (finish r) as [stats|e]; injection Eb as <-; cbn [mbind result_bind].
  - destruct (dump_bad (completion_doc n t_id t_created (message (said Content (out ++ (flush s).2)) (said Reasoning (out ++ (flush s).2))) stats) n)
      as [w ->]; [|done|by apply error_failed].
    unfold completion_doc. cbn [doc_strings List.map concat fst snd app]. set_solver.
  - destruct e; by apply error_failed.
Qed.

Lemma stream_bad accepts n t_id t_created r rep :
  valid_utf8 n = false -> conclude accepts n t_id t_created true r = Some rep -> failed rep.
Proof.
  intros Hn E. unfold conclude, stream_chat_completion, sse_chunk, sse_data in E.
  match type of E with context [dump ?d] => destruct (dump_bad d n) as [w Ew] end; [|done|].
  - cbn [doc_strings List.map concat fst snd app]. set_solver.
  - rewrite Ew in E. cbn [mbind option_bind result_bind] in E. by injection E as <-.
Qed.

(** A handler that does not run the engine has refused the request. *)
Lemma prepare_failed default_kv_int8 body r : prepare default_kv_int8 body = Answer r -> failed r.
Proof.
  unfold prepare. destruct (parse body) as [b|x]; [|intros [= <-]; by apply error_failed].
  destruct (value_json b _ _) as [m|x]; [|by intros [= <-]]. cbn [mbind result_bind].
  destruct (_ || _); [intros [= <-]; by apply error_failed|].
  destruct (request_params _ _) as [pa|x]; [|by intros [= <-]]. cbn [mbind result_bind].
  destruct (value_bool b (str "think") _) as [th|x]; [|by intros [= <-]]. cbn [mbind result_bind].
  destruct (format_qwen_chat _ _) as [pr|x]; [|by intros [= <-]]. cbn [mbind result_bind].
  by destruct (value_bool b (str "stream") _) as [st|x]; [|intros [= <-]].
Qed.

(** One bad string takes the whole service down.  If the name of the model,
    which is copied from the model file as it is, is not well-formed UTF-8,
    then [/health] and [/v1/models] end in an exception and every chat request,
    streaming or not, after any run of the engine, is answered with an error
    or ends in an exception: no endpoint but the preflight ever succeeds. *)
Theorem bad_name_fails {E : Type} (accepts : nat -> bool) (generate : bytes -> GenParams -> E -> option (run * E))
  (default_kv_int8 : bool) (t_id t_created : Z) (engine : snapshot) (sys : Jetson.Sys) (r : route) (body : bytes)
  (e e' : E) (rep : response) :
  valid_utf8 (name engine) = false -> r ∈ routes -> verb r <> OPTIONS ->
  run_handler accepts generate default_kv_int8 t_id t_created engine sys r body e = Some (rep, e') ->
  failed (fst rep).
Proof.
  intros Hn Hr Hv E0. unfold run_handler in E0. destruct (verb r); [| |done].
  - assert (HD : forall d, name engine ∈ doc_strings d -> failed (reply_doc 200 d)).
    { intros d Hd. unfold reply_doc. by destruct (dump_bad d (name engine) Hd Hn) as [w ->]. }
    case_decide; injection E0 as <- _; apply HD; unfold build_health, models_doc;
      cbn [doc_strings List.map concat fst snd app]; set_solver.
  - unfold handle in E0. destruct (prepare _ _) as [a|prompt params streaming] eqn:Ep; cbn [mbind option_bind] in E0.
    + injection E0 as <- _. by apply prepare_failed in Ep.
    + destruct (generate prompt params e) as [[run e1]|]; [|done]. cbn [mbind option_bind] in E0.
      destruct (conclude _ _ _ _ _ _) as [rep1|] eqn:Ec; [|done]. cbn [mbind option_bind] in E0. injection E0 as <- _.
      cbn [fst]. destruct streaming; [by eapply stream_bad|by eapply completion_bad].
Qed.

End Routes.

(** ** A model file with a name in Latin-1 *)

Lemma bad_name_fails_witness :
  match run_handler (J := demo_json) (fun _ => 0) (fun _ => true) (fun _ _ n => Some (mkRun demo_tokens (Ok demo_stats), n + 1)) false 1 1
          (mkSnapshot (str "Qw" ++ [Byte.xe9]) Budget.demo_budget) Jetson.hot (mkRoute POST (str "/v1/chat/completions")) demo_body 0 with
  | Some (rep, e) => e = 1 /\ failed (fst rep)
  | None => False
  end.
Proof.
  pose proof (bad_name_fails (laws := demo_json_laws) (fun _ => 0) (fun _ => true)
    (fun _ _ n => Some (mkRun demo_tokens (Ok demo_stats), n + 1)) false 1 1
    (mkSnapshot (str "Qw" ++ [Byte.xe9]) Budget.demo_budget) Jetson.hot (mkRoute POST (str "/v1/chat/completions")) demo_body 0) as H.
  assert (E : snd <$> run_handler (J := demo_json) (fun _ => 0) (fun _ => true)
    (fun _ _ n => Some (mkRun demo_tokens (Ok demo_stats), n + 1)) false 1 1
    (mkSnapshot (str "Qw" ++ [Byte.xe9]) Budget.demo_budget) Jetson.hot (mkRoute POST (str "/v1/chat/completions")) demo_body 0 = Some 1)
    by (vm_compute; reflexivity).
  revert H E. generalize (run_handler (J := demo_json) (fun _ => 0) (fun _ => true)
    (fun _ _ n => Some (mkRun demo_tokens (Ok demo_stats), n + 1)) false 1 1
    (mkSnapshot (str "Qw" ++ [Byte.xe9]) Budget.demo_budget) Jetson.hot (mkRoute POST (str "/v1/chat/completions")) demo_body 0).
  intros [[rep e]|] H E; [|discriminate E]. cbn in E. injection E as ->. split; [reflexivity|].
  apply (H 1 rep); [reflexivity|right; right; left|discriminate|reflexivity].
Defined.

End Routes.
