(* ===== verification/Program.v ===== *)
(** * Program: the two programs on the engine ([src/main.cpp],
      [src/main_server.cpp] over [Engine::load] and [Engine::unload])

    The interface [Cli.EngineOps] on the engine of [Engine] and the resources
    of the process.  What a request computes ([Generate], [Service]) is a
    parameter here, that keeps a state of its own: it uses the engine and the
    resources, and acquires none. *)

From S2P Require Import Prelude CLib Cuda Budget KVCache ScratchPool KVFile ModelFile TokenizerFile Weights Engine Cli.

Module Program.
Import ModelFile Weights Engine.

Section Program.
Context `{laws : RuntimeLaws}.
Context (kv_alloc : World -> KVCache.Alloc) (rd : KVFile.Reader)
        (sort_by_size : list (bytes * Z) -> list (bytes * Z)) (e : env).
Context {F : Type} (atof : bytes -> F) (f07 f09 : F).
(** What requests change: the contents of the cache, the files, the generator. *)
Context {X : Type} (generate : Engine -> World -> X -> bytes -> Cli.GenParams (F := F) -> option (Cli.answer * X))
        (serve : Engine -> World -> X -> Z -> bool -> option X).
Context (files : bytes -> option bytes) (meminfo : option bytes).

Definition state : Type := Engine * World * X.

#[local] Instance engine_ops : Cli.EngineOps (F := F) state := {|
  Cli.e_load path params s :=
    let '(eng, w, x) := s in
    match load kv_alloc rd sort_by_size e path (files path) meminfo
            (mkLoad (Cli.p_kv_int8 params) (Cli.p_context_limit params)) eng w with
    | (Some (ok, eng), w) => Some (ok, (eng, w, x))
    | (None, _) => None
    end;
  Cli.e_name s := cfg_name (config_ (fst (fst s)));
  Cli.e_generate p params s :=
    let '(eng, w, x) := s in '(r, x) ← generate eng w x p params; Some (r, (eng, w, x));
  Cli.e_unload s := let '(eng, w, x) := s in let '(eng, w) := unload eng w in (eng, w, x);
  Cli.e_serve port int8 s := let '(eng, w, x) := s in x ← serve eng w x port int8; Some (eng, w, x) |}.

Definition start (w0 : World) (x : X) : state := (constructed, w0, x).

(** The process holds what it held at the start; at most the registration of
    the model file, for which the driver gave no alias, is left. *)
Definition clean (w0 : World) (s : state) : Prop :=
  let '(eng, w, _) := s in
  idle eng /\ same_world w0 w /\
  (registered w = registered w0 \/
   mapped_weight_device_enabled e = true /\ exists base n, registered w = <[base := n]> (registered w0)).

Lemma unload_clean w0 w eng x : holds e w0 w eng -> clean w0 (Cli.e_unload (eng, w, x)).
Proof.
  intros H. pose proof (wp_unload kv_alloc e w0 w eng H) as U. unfold wp in U. cbn [Cli.e_unload engine_ops].
  destruct (unload eng w) as [eng' w']. cbn [fst snd] in U. destruct U as (-> & S & R).
  split; [by eapply unloaded_idle|]. split; [done|]. destruct R as [|[R [(L1 & _ & L3) _]]]; [by left|right].
  split; [done|]. eexists _, _. by rewrite R, L1.
Qed.

(** A second [unload], that of the destructor. *)
Lemma clean_again w0 s : wf w0 -> clean w0 s -> clean w0 (Cli.e_unload s).
Proof.
  intros [W1 W2 W3]. destruct s as [[eng w] x]. intros (I & [S G] & R). injection S as Ed Em Ep Epi Eh Eb.
  assert (W : wf w) by (split; rewrite ?Ed, ?Em; done).
  pose proof (unload_clean w w eng x (idle_holds e w w eng I W G (grow_refl w w eq_refl eq_refl))) as U.
  cbn [Cli.e_unload engine_ops] in *. destruct (unload eng w) as [eng' w'] eqn:E. destruct U as (I' & [S' G'] & R').
  split; [done|]. split; [split; [congruence|done]|].
  pose proof (wp_unload kv_alloc e w w eng (idle_holds e w w eng I W G (grow_refl w w eq_refl eq_refl))) as U. unfold wp in U.
  rewrite E in U. cbn [fst snd] in U. destruct U as (_ & _ & [->|[_ [(_ & L & _) _]]]); [done|]. by destruct I as (_ & L' & _).
Qed.

Lemma start_clean w0 x : g_region w0 = no_region -> clean w0 (start w0 x).
Proof. intros G. split; [done|]. split; [by split|by left]. Qed.

(** Requests leave the engine's handles and the resources. *)
Lemma chat_keeps a name params ls out eng w x b out' s' :
  Cli.chat_loop a name params ls out (eng, w, x) = Some (b, out', s') -> exists x', s' = (eng, w, x').
Proof.
  revert out x. induction ls as [|l ls IH]; intros out x E; cbn [Cli.chat_loop] in E; [injection E as _ _ <-; eauto|].
  destruct (_ || _); [injection E as _ _ <-; eauto|]. destruct (bool_decide _); [by apply (IH out x)|].
  unfold Cli.say in E. cbn [Cli.e_generate engine_ops] in E. destruct (generate _ _ _ _ _) as [[r x']|]; [|done].
  cbn [mbind option_bind] in E. destruct (Cli.throws r); [injection E as _ _ <-; eauto|]. by apply (IH _ x' E).
Qed.

Lemma phase_keeps a params stdin eng w x b out s' :
  Cli.generate_phase a params stdin (eng, w, x) = Some (b, out, s') -> exists x', s' = (eng, w, x').
Proof.
  unfold Cli.generate_phase. destruct (Cli.interactive a); [apply chat_keeps|].
  destruct (negb _); [|intros [= _ _ <-]; eauto].
  unfold Cli.say. cbn [Cli.e_generate engine_ops]. destruct (generate _ _ _ _ _) as [[r x']|]; [|done].
  cbn [mbind option_bind]. intros [= _ _ <-]. eauto.
Qed.

(** What [load] leaves, to be unloaded once. *)
Lemma load_holds path params w0 x ok s :
  wf w0 -> g_region w0 = no_region -> fits path (files path) ->
  Cli.e_load path params (start w0 x) = Some (ok, s) ->
  exists eng w, s = (eng, w, x) /\ holds e w0 w eng.
Proof.
  intros W G Hf. unfold start. cbn [Cli.e_load engine_ops].
  set (p := mkLoad _ _). assert (Hi : idle constructed) by done.
  pose proof (load_spec kv_alloc rd sort_by_size e path (files path) meminfo p w0 constructed Hi W G Hf) as L. unfold wp in L.
  destruct (load _ _ _ _ _ _ _ _ _ _) as [[[ok' eng]|] w]; [|done]. intros [= _ <-]. exists eng, w. split; [done|]. apply L.
Qed.

(** The exception comes out of a request. *)
Definition request_throws : Prop :=
  exists eng w x p params r x', generate eng w x p params = Some (r, x') /\ Cli.throws r = true.

Lemma chat_throws a name params ls out eng w x out' s' :
  Cli.chat_loop a name params ls out (eng, w, x) = Some (true, out', s') -> request_throws.
Proof.
  revert out x. induction ls as [|l ls IH]; intros out x E; cbn [Cli.chat_loop] in E; [done|].
  destruct (_ || _); [done|]. destruct (bool_decide _); [by apply (IH out x)|].
  unfold Cli.say in E. cbn [Cli.e_generate engine_ops] in E. destruct (generate _ _ _ _ _) as [[r x']|] eqn:Eg; [|done].
  cbn [mbind option_bind] in E. destruct (Cli.throws r) eqn:Et; [by exists eng, w, x, (Cli.format_prompt (Cli.strip_newline l) a name), params, r, x'|].
  by apply (IH _ x' E).
Qed.

Lemma phase_throws a params stdin eng w x out s' :
  Cli.generate_phase a params stdin (eng, w, x) = Some (true, out, s') -> request_throws.
Proof.
  unfold Cli.generate_phase. destruct (Cli.interactive a); [apply chat_throws|].
  destruct (negb _); [|done]. unfold Cli.say. cbn [Cli.e_generate engine_ops].
  destruct (generate _ _ _ _ _) as [[r x']|] eqn:Eg; [|done]. cbn [mbind option_bind]. intros [= Et _ _].
  by eexists eng, w, x, _, params, r, x'.
Qed.

(** A run that ends with an exit code is clean. *)
Definition exits (w0 : World) (o : Cli.outcome state) : Prop :=
  exists code, Cli.ends _ o = Cli.Exit code /\ code ∈ [0; 1] /\ clean w0 (Cli.engine _ o).

Lemma exits_0 w0 out s : clean w0 s -> exits w0 (Cli.mkOutcome _ (Cli.Exit 0) out s).
Proof. intros C. exists 0. split; [done|]. split; [by left|done]. Qed.
Lemma exits_1 w0 out s : clean w0 s -> exits w0 (Cli.mkOutcome _ (Cli.Exit 1) out s).
Proof. intros C. exists 1. split; [done|]. split; [by right; left|done]. Qed.


End Program.
(** ** A concrete run *)

#[local] Existing Instances sim_runtime sim_runtime_laws.

Definition echo (_ : Engine) (_ : World) (n : Z) (p : bytes) (_ : Cli.GenParams (F := Z)) : option (Cli.answer * Z) :=
  Some (Cli.mkAnswer [p] false, n + 1).
Definition demo_files (path : bytes) : option bytes := if decide (path = demo_path) then Some demo_file else None.
Definition demo_argv : list bytes := [str "-m"; demo_path; str "--fp16-kv"; str "-p"; str "hello"; str "-c"; str "4"].

Lemma demo_files_fit path : fits path (demo_files path).
Proof. unfold demo_files. case_decide as E; [by rewrite E; apply demo_model_fits|]. by intros c cfg mw [? _]. Qed.

#[local] Abbreviation demo_main :=
  (Cli.main (H := engine_ops (fun _ => KVCache.demo_alloc) KVFile.demo_reader (fun l => l) default_env
     echo (fun _ _ n _ _ => Some n) demo_files (Some Budget.demo_meminfo))
   atoi 7 9 [] demo_argv (Some Budget.demo_meminfo) demo_files [] (start demo_world 0)).


End Program.
