(* ===== verification/Denote.v ===== *)
(** * Denote: the model a file contains

    The tokens of [Generate.reference] as a function of the bytes of the model
    file alone: the matrices, norms and embedding rows are read at the offsets
    of their tensors.  An engine that has loaded the file, wherever it put the
    weights, generates the same tokens. *)

From S2P Require Import Prelude CLib Cuda Budget KVCache KVFile ModelFile TokenizerFile Weights Engine Kernels Quant Forward Cells Prefill Bridge.
From S2P Require Import Tokenizer Generate.

Module Denote.
Import ModelFile Weights Kernels Forward Cells Prefill Bridge.

(** ** Models that no product can tell apart *)

Section Same.
Context `{Products}.
Context (i8 : bool) (config : ModelConfig) (m1 m2 : option Z -> Z -> nat -> nat -> bytes)
        (norm1 norm2 : option Z -> bool -> nat -> float).
Let R1 : ReflexInfer := products_on m1.
Let R2 : ReflexInfer := products_on m2.

Abbreviation hid := (H_ config). Abbreviation qd := (Q_DIM config). Abbreviation kvd := (KV_DIM config).
Abbreviation ffd := (I_ config). Abbreviation hd := (Forward.HD config).

(** The weights of a norm, as far as a row reaches. *)
Definition same_norm (n : nat) (p1 p2 : option Z) (fp32 : bool) : Prop :=
  forall i, (i < n)%nat -> norm1 p1 fp32 i = norm2 p2 fp32 i.

Record same_layer (lw1 lw2 : LayerWeights) : Prop := {
  sl_types : types lw2 = types lw1;
  sl_q : m1 (wq lw1) (type_wq lw1) qd hid = m2 (wq lw2) (type_wq lw1) qd hid;
  sl_k : m1 (wk lw1) (type_wk lw1) kvd hid = m2 (wk lw2) (type_wk lw1) kvd hid;
  sl_v : m1 (wv lw1) (type_wv lw1) kvd hid = m2 (wv lw2) (type_wv lw1) kvd hid;
  sl_o : m1 (wo lw1) (type_wo lw1) hid qd = m2 (wo lw2) (type_wo lw1) hid qd;
  sl_gate : m1 (w_gate lw1) (type_w_gate lw1) ffd hid = m2 (w_gate lw2) (type_w_gate lw1) ffd hid;
  sl_up : m1 (w_up lw1) (type_w_up lw1) ffd hid = m2 (w_up lw2) (type_w_up lw1) ffd hid;
  sl_down : m1 (w_down lw1) (type_w_down lw1) hid ffd = m2 (w_down lw2) (type_w_down lw1) hid ffd;
  sl_attn : same_norm hid (rms_attn lw1) (rms_attn lw2) (rms_type lw1 =? 0);
  sl_ffn : same_norm hid (rms_ffn lw1) (rms_ffn lw2) (rms_type lw1 =? 0);
  sl_qk : both_qk lw2 <-> both_qk lw1;
  sl_qk_norm : both_qk lw1 ->
    same_norm hd (q_norm lw1) (q_norm lw2) (qk_norm_type lw1 =? 0) /\
    same_norm hd (k_norm lw1) (k_norm lw2) (qk_norm_type lw1 =? 0) }.

Lemma rms_row_ext (w1 w2 : nat -> float) eps dim x res :
  (forall i, (i < dim)%nat -> w1 i = w2 i) -> rms_row w1 eps dim x res = rms_row w2 eps dim x res.
Proof. intros E. unfold rms_row. apply list_fmap_ext. intros k i [-> Hi]%lookup_seq. by rewrite E. Qed.

Lemma fused_rmsnorm_ext (w1 w2 : nat -> float) eps rows cols x :
  (forall i, (i < cols)%nat -> w1 i = w2 i) -> fused_rmsnorm w1 eps rows cols x = fused_rmsnorm w2 eps rows cols x.
Proof. intros E. unfold fused_rmsnorm. f_equal. apply list_fmap_ext. intros k r _. by apply rms_row_ext. Qed.

(** The types of a layer, one by one. *)
Lemma same_types lw1 lw2 : types lw2 = types lw1 ->
  type_wq lw2 = type_wq lw1 /\ type_wk lw2 = type_wk lw1 /\ type_wv lw2 = type_wv lw1 /\ type_wo lw2 = type_wo lw1 /\
  type_w_gate lw2 = type_w_gate lw1 /\ type_w_up lw2 = type_w_up lw1 /\ type_w_down lw2 = type_w_down lw1 /\
  rms_type lw2 = rms_type lw1 /\ qk_norm_type lw2 = qk_norm_type lw1.
Proof. unfold types. intros [=]. done. Qed.

Section Layer.
Context (lw1 lw2 : LayerWeights) (S : same_layer lw1 lw2).

Lemma qk_norm_same rows q k : qk_norm config norm1 lw1 rows q k = qk_norm config norm2 lw2 rows q k.
Proof.
  destruct (same_types _ _ (sl_types _ _ S)) as (_ & _ & _ & _ & _ & _ & _ & _ & Et).
  pose proof (sl_qk _ _ S) as Hb. pose proof (sl_qk_norm _ _ S) as Hn. unfold qk_norm, both_qk in *. rewrite Et.
  destruct (q_norm lw1) as [q1|], (k_norm lw1) as [k1|].
  1: { destruct Hb as [_ Hb]. destruct Hb as [[q2 E2] [k2 E3]]; [by split; eexists|]. rewrite E2, E3 in *.
       destruct Hn as [H1 H2]; [by split; eexists|]. f_equal; by apply fused_rmsnorm_ext. }
  all: destruct (q_norm lw2) as [q2|], (k_norm lw2) as [k2|]; try done;
       destruct Hb as [Hb _]; destruct Hb as [[? ?] [? ?]]; try done; by split; eexists.
Qed.

Lemma front_same pos x : @front _ R1 config norm1 lw1 pos x = @front _ R2 config norm2 lw2 pos x.
Proof.
  destruct (same_types _ _ (sl_types _ _ S)) as (Eq & Ek & Ev & _ & _ & _ & _ & Er & _).
  assert (En : rms_norm config norm1 lw1 (rms_attn lw1) 1 x = rms_norm config norm2 lw2 (rms_attn lw2) 1 x).
  { unfold rms_norm. rewrite Er. apply fused_rmsnorm_ext, S. }
  unfold front, project. rewrite En, Eq, Ek, Ev. subst R1 R2; cbn [Forward.gemv_quant products_on].
  by rewrite (sl_q _ _ S), (sl_k _ _ S), (sl_v _ _ S), qk_norm_same.
Qed.

Lemma back_same x attn : @back _ R1 config norm1 lw1 x attn = @back _ R2 config norm2 lw2 x attn.
Proof.
  destruct (same_types _ _ (sl_types _ _ S)) as (_ & _ & _ & Eo & Eg & Eu & Ed & Er & _).
  unfold back, ffn, ffn_front, attn_residual. rewrite Eo, Eg, Eu, Ed. subst R1 R2; cbn [Forward.gemv_quant products_on].
  rewrite (sl_o _ _ S), (sl_gate _ _ S), (sl_up _ _ S), (sl_down _ _ S).
  unfold rms_norm. rewrite Er. by rewrite (fused_rmsnorm_ext _ _ _ _ _ _ (sl_ffn _ _ S)).
Qed.

Lemma layer_same l pos x V :
  @layer_out _ R1 i8 config norm1 lw1 l pos x V = @layer_out _ R2 i8 config norm2 lw2 l pos x V /\
  @layer_state _ R1 i8 config norm1 lw1 l pos x V = @layer_state _ R2 i8 config norm2 lw2 l pos x V.
Proof.
  assert (Es : @layer_state _ R1 i8 config norm1 lw1 l pos x V = @layer_state _ R2 i8 config norm2 lw2 l pos x V)
    by (unfold layer_state, put_token; by rewrite front_same).
  split; [|done]. unfold layer_out. by rewrite Es, front_same, back_same.
Qed.

End Layer.

Lemma token_layers_model ls1 ls2 pos x V :
  Forall2 (fun a b => a.1 = b.1 /\ same_layer a.2 b.2) ls1 ls2 ->
  @token_layers _ R1 i8 config norm1 ls1 pos x V = @token_layers _ R2 i8 config norm2 ls2 pos x V.
Proof.
  intros HF. revert x V. induction HF as [|[l1 lw1] [l2 lw2] ls1 ls2 [E S] HF IH]; intros x V; [done|].
  cbn [fst snd token_layers] in *. subst l2. destruct (layer_same lw1 lw2 S l1 pos x V) as [-> ->]. apply IH.
Qed.

(** Two models with equal contents. *)
Record same_model (mw1 mw2 : ModelWeights) : Prop := {
  sm_layers : Forall2 same_layer (layers mw1) (layers mw2);
  sm_norm : same_norm hid (output_norm mw1) (output_norm mw2) true;
  sm_type : output_type mw2 = output_type mw1;
  sm_output : m1 (output mw1) (output_type mw1) (Z.to_nat (vocab_size config)) hid =
              m2 (output mw2) (output_type mw1) (Z.to_nat (vocab_size config)) hid }.

Context (mw1 mw2 : ModelWeights) (same : same_model mw1 mw2).
Context (embed1 embed2 : Z -> list Z) (token_ok : Z -> Prop)
        (embed_same : forall t, token_ok t -> embed1 t = embed2 t).

Lemma model_layers_same :
  Forall2 (fun a b => a.1 = b.1 /\ same_layer a.2 b.2) (model_layers config mw1) (model_layers config mw2).
Proof.
  unfold model_layers. generalize (upto (n_layers config)).
  induction (sm_layers _ _ same) as [|lw1 lw2 ls1 ls2 S HF IH]; intros [|i ids]; cbn; constructor; [done|]. apply IH.
Qed.

Lemma prefill_same start toks last V :
  Forall token_ok toks ->
  @prefill_spec _ R1 i8 config mw1 norm1 embed1 start toks last V = @prefill_spec _ R2 i8 config mw2 norm2 embed2 start toks last V.
Proof.
  intros Ht. revert start last V. induction Ht as [|t toks Ht Hts IH]; intros start last V; [done|]. cbn [prefill_spec].
  rewrite (embed_same t Ht), (token_layers_model _ _ _ _ _ model_layers_same). destruct (token_layers _ _ _ _ _ _ _). apply IH.
Qed.

Lemma next_logits_same toks :
  Forall token_ok toks ->
  @Generate.next_logits _ R1 i8 config mw1 norm1 embed1 toks = @Generate.next_logits _ R2 i8 config mw2 norm2 embed2 toks.
Proof.
  intros Ht. unfold Generate.next_logits, Generate.residual. rewrite prefill_same by done. unfold logits_of.
  rewrite (fused_rmsnorm_ext _ _ _ _ _ _ (sm_norm _ _ same)), (sm_type _ _ same).
  subst R1 R2; cbn [Forward.gemv_quant_f32 products_on]. by rewrite (sm_output _ _ same).
Qed.

(** The reference decoder emits the same tokens. *)
Lemma reference_same (tk : Tokenizer.t) {R : Type} (sample : list float -> list Z -> R -> Z * R) limit n toks recent r :
  Forall token_ok toks -> (forall logits recent r, token_ok (sample logits recent r).1) ->
  @Generate.reference _ R1 i8 config mw1 norm1 embed1 tk R sample limit n toks recent r =
  @Generate.reference _ R2 i8 config mw2 norm2 embed2 tk R sample limit n toks recent r.
Proof.
  intros Ht Hs. revert toks recent r Ht. induction n as [|n IH]; intros toks recent r Ht; [done|].
  cbn [Generate.reference]. destruct (limit <=? _); [done|]. rewrite next_logits_same by done.
  pose proof (Hs (@Generate.next_logits _ R2 i8 config mw2 norm2 embed2 toks) recent r) as Hn.
  destruct (sample _ recent r) as [t r']. f_equal. destruct (t =? _); [done|].
  apply IH. apply Forall_app. by split; [|constructor].
Qed.

End Same.

(** ** The file *)

Section File.
Context `{HF : Quant.HostFloats} `{!Products}.

(** The bytes of the matrix at an offset. *)
Definition matrix_in_file (c : bytes) (W : option Z) (t : Z) (M K : nat) : bytes :=
  default [] (Engine.file_bytes c W (kquant_tensor_bytes t (Z.of_nat M) (Z.of_nat K))).

(** A norm weight, found as four or as two bytes. *)
Definition norm_value (fp32 : bool) (bs : option bytes) : float :=
  match bs with Some bs => if fp32 then int_as_float (unle bs) else h2f (unle bs) | None => of_int 0 end.
Definition norm_size (fp32 : bool) : Z := if fp32 then 4 else 2.

Definition norm_in_file (c : bytes) (p : option Z) (fp32 : bool) (i : nat) : float :=
  norm_value fp32 (o ← p; peek_at c (o + norm_size fp32 * Z.of_nat i) (norm_size fp32)).

(** The embedding matrix reaches to the end of the file; a row is inside. *)
Definition embedding_in_file (c : bytes) (cfg : ModelConfig) (mw : ModelWeights) (t : Z) : list Z :=
  Quant.half_value (embd_type mw) (drop (Z.to_nat (default 0 (tok_embd mw))) c) t (hidden_dim cfg) <$> seq 0 (H_ cfg).

(** The tokens after [toks], as the file determines them, with keys and values
    kept as [half] or as INT8. *)
Definition file_reference (i8 : bool) (c : bytes) (cfg : ModelConfig) (mw : ModelWeights) (tk : Tokenizer.t) {R : Type}
  (sample : list float -> list Z -> R -> Z * R) (limit : Z) (n : nat) (toks recent : list Z) (r : R) : list Z :=
  @Generate.reference _ (products_on (matrix_in_file c)) i8 cfg mw (norm_in_file c) (embedding_in_file c cfg mw) tk R sample
    limit n toks recent r.

(** ** The running engine *)

(** What the norm kernel loads through its pointer. *)
Definition norm_on_device (w : World) (p : option Z) (fp32 : bool) (i : nat) : float :=
  norm_value fp32 (p ← p; d ← dev w !! p; peek_at d (norm_size fp32 * Z.of_nat i) (norm_size fp32)).

(** What the host finds from an address on. *)
Definition host_data (w : World) (p : option Z) : bytes :=
  match p with
  | Some p => match host_block w p 0 with Some (b, bs) => drop (Z.to_nat (p - b)) bs | None => [] end
  | None => []
  end.

(** A buffer of [n] values after a row has been written to it. *)
Definition buffer_of (n : nat) (row : list Z) : list Z := take n (row ++ replicate n 0).

(** [dequant_embedding] on the engine; the library decodes every row it can reach. *)
Definition embedding (e : env) (w : World) (cfg : ModelConfig) (mw : ModelWeights) (t : Z) : list Z :=
  let n := kquant_tensor_bytes (embd_type mw) (t + 1) (hidden_dim cfg) in
  let gpu := if 0 <? n then ws ← Engine.seen w (tok_embd mw) n; Some (embedding_row ws (embd_type mw) t (hidden_dim cfg)) else None in
  buffer_of (H_ cfg) (default []
    (Quant.dequant_embedding (fast_embedding_enabled e) gpu (host_data w (tok_embd mw)) t (hidden_dim cfg) (embd_type mw))).

(** A model whose sizes are sizes, with its embedding matrix in the file. *)
Record servable (c : bytes) (cfg : ModelConfig) (mw : ModelWeights) : Prop := {
  sv_hidden : 0 < hidden_dim cfg < 2 ^ 31;
  sv_heads : 0 <= n_heads cfg; sv_kv_heads : 0 <= n_kv_heads cfg; sv_dim : 0 <= head_dim cfg < 2 ^ 31;
  sv_q : n_heads cfg * head_dim cfg < 2 ^ 31; sv_kv : n_kv_heads cfg * head_dim cfg < 2 ^ 31;
  sv_ffn : 0 <= intermediate_dim cfg; sv_vocab : 0 <= vocab_size cfg < 2 ^ 31;
  sv_embedding : exists o, tok_embd mw = Some o /\ 0 <= o /\
    o + vocab_size cfg * Quant.row_bytes (embd_type mw) (hidden_dim cfg) <= zlen c;
  sv_format : embd_type mw ∈ [0; 1; 12; 14];
  sv_row : Quant.row_fits (embd_type mw) (hidden_dim cfg) = true;
  sv_tied : output mw = tok_embd mw -> output_type mw = embd_type mw }.

End File.

(** ** The loaded engine has the contents of the file *)

Section Loaded.
Context `{HF : Quant.HostFloats} `{!Products} `{laws : RuntimeLaws}.

Lemma seen_length w p n bs : Engine.seen w p n = Some bs -> zlen bs = n.
Proof.
  destruct p as [p|]; [|done]. cbn [Engine.seen]. unfold weight_seen, host_read.
  destruct (resolve_weight_device_ptr w p =? 0); [done|].
  destruct (negb _).
  - destruct (registered w !! _) as [len|]; [|done]. destruct (_ <=? len); [|done].
    destruct (host_block w p n) as [[b d]|]; [|done]. apply peek_at_length.
  - destruct (device_block w p n) as [[b d]|]; [|done]. apply peek_at_length.
Qed.

Lemma file_bytes_length c o n bs : Engine.file_bytes c o n = Some bs -> zlen bs = n.
Proof. destruct o as [o|]; [|done]. apply peek_at_length. Qed.

Lemma default_nil (o : option bytes) : (forall bs, o = Some bs -> zlen bs = 0) -> default [] o = [].
Proof. intros Ho. destruct o as [[|b bs]|]; [done| |done]. specialize (Ho _ eq_refl). rewrite zlen_cons in Ho. pose proof (zlen_nonneg bs). lia. Qed.

(** A matrix, also one without a block. *)
Lemma matrix_same w c p o t M K :
  let n := kquant_tensor_bytes t (Z.of_nat M) (Z.of_nat K) in
  (0 < n -> Engine.seen w p n = Engine.file_bytes c o n) -> bytes_of w p t M K = matrix_in_file c o t M K.
Proof.
  intros n E. unfold bytes_of, matrix_in_file. fold n. destruct (decide (0 < n)) as [Hn|Hn]; [by rewrite E|].
  assert (Hz : n = 0) by (pose proof (kquant_tensor_bytes_range t (Z.of_nat M) (Z.of_nat K)); unfold n in *; lia).
  rewrite Hz, !default_nil; [done|..]; intros bs; [apply file_bytes_length|apply seen_length].
Qed.

Lemma norm_same w c p o n fp32 i :
  is_Some o -> is_Some p -> Engine.in_file c o (float_bytes (Z.of_nat n)) -> Z.of_nat n < 2 ^ 31 ->
  Engine.block_bytes w p (float_bytes (Z.of_nat n)) = Engine.file_bytes c o (float_bytes (Z.of_nat n)) ->
  (i < n)%nat -> norm_on_device w p fp32 i = norm_in_file c o fp32 i.
Proof.
  intros [o' ->] [p' ->] Hin Hn E Hi. unfold norm_on_device, norm_in_file. f_equal. cbn [mbind option_bind].
  assert (Eb : float_bytes (Z.of_nat n) = 4 * Z.of_nat n).
  { unfold float_bytes. rewrite (u64_id (Z.of_nat n)), u64_id by lia. lia. }
  rewrite Eb in *. destruct (Hin o' eq_refl) as (? & ? & ?). cbn [Engine.block_bytes Engine.file_bytes] in E.
  rewrite (peek_at_Some c) in E by done. destruct (dev w !! p') as [d|]; [|done]. cbn [mbind option_bind].
  assert (Hs : norm_size fp32 * Z.of_nat i + norm_size fp32 <= 4 * Z.of_nat n /\ 0 < norm_size fp32) by (destruct fp32; cbn; lia).
  rewrite <- (Z.add_0_l (norm_size fp32 * Z.of_nat i)) at 1. apply (peek_sub_eq _ _ _ _ (4 * Z.of_nat n)); [|by rewrite E; eexists|lia..].
  rewrite E. by rewrite peek_at_Some.
Qed.

Lemma servable_dims c cfg mw : servable c cfg mw ->
  Z.of_nat (H_ cfg) = hidden_dim cfg /\ Z.of_nat (Forward.HD cfg) = head_dim cfg /\ Z.of_nat (Q_DIM cfg) = Q_ cfg /\
  Z.of_nat (KV_DIM cfg) = KV_ cfg /\ Z.of_nat (I_ cfg) = intermediate_dim cfg /\ Z.of_nat (Z.to_nat (vocab_size cfg)) = vocab_size cfg.
Proof.
  intros []. unfold H_, Q_DIM, KV_DIM, I_, Forward.NH, Forward.NKV, Forward.HD, Q_, KV_.
  rewrite !Nat2Z.inj_mul, !Z2Nat.id by lia. rewrite !i32_id by nia. done.
Qed.

Lemma layer_contents w c cfg mw lw0 lw :
  servable c cfg mw -> Engine.layer_fits c cfg lw0 -> Engine.layer_resident w c cfg lw0 lw ->
  same_layer cfg (bytes_of w) (matrix_in_file c) (norm_on_device w) (norm_in_file c) lw lw0.
Proof.
  intros Sv [F1 F2 F3 F4 _] [Rm Rn Rq [Et Eb]]. destruct (servable_dims _ _ _ Sv) as (D1 & D2 & D3 & D4 & D5 & _).
  pose proof (sv_hidden _ _ _ Sv). pose proof (sv_dim _ _ _ Sv).
  destruct (same_types _ _ Et) as (T1 & T2 & T3 & T4 & T5 & T6 & T7 & _).
  assert (Mat : forall i s, specs lw0 cfg !! i = Some s -> forall M K, Z.of_nat M = spec_rows s -> Z.of_nat K = spec_cols s ->
    bytes_of w (slot_ptr (spec_slot s) lw) (spec_type s) M K = matrix_in_file c (spec_src s) (spec_type s) M K).
  { intros i s Hs%list_elem_of_lookup_2 M K EM EK. apply matrix_same. rewrite EM, EK. by apply Rm. }
  unfold specs in Mat. unfold Engine.norm_bytes, Engine.qk_norm_bytes in *. rewrite <- D1, <- D2 in *.
  assert (Norm : forall s n fp32, Z.of_nat n < 2 ^ 31 -> Engine.in_file c (slot_ptr s lw0) (float_bytes (Z.of_nat n)) ->
    is_Some (slot_ptr s lw0) /\ is_Some (slot_ptr s lw) /\
      Engine.block_bytes w (slot_ptr s lw) (float_bytes (Z.of_nat n)) = Engine.file_bytes c (slot_ptr s lw0) (float_bytes (Z.of_nat n)) ->
    same_norm (norm_on_device w) (norm_in_file c) n (slot_ptr s lw) (slot_ptr s lw0) fp32).
  { intros s n fp32 Hn Hin (Q1 & Q2 & Q3) i Hi. by apply (norm_same w c _ _ n). }
  rewrite <- D3, <- D4, <- D5 in Mat.
  split; rewrite ?T1, ?T2, ?T3, ?T4, ?T5, ?T6, ?T7.
  - done.
  - by refine (Mat 0%nat _ eq_refl _ _ _ _).
  - by refine (Mat 1%nat _ eq_refl _ _ _ _).
  - by refine (Mat 2%nat _ eq_refl _ _ _ _).
  - by refine (Mat 3%nat _ eq_refl _ _ _ _).
  - by refine (Mat 4%nat _ eq_refl _ _ _ _).
  - by refine (Mat 5%nat _ eq_refl _ _ _ _).
  - by refine (Mat 6%nat _ eq_refl _ _ _ _).
  - apply (Norm RmsAttn); [lia|done|apply Rn; by left].
  - apply (Norm RmsFfn); [lia|done|apply Rn; by right].
  - split; [|done]. intros Hb. destruct (Rq QNorm Hb ltac:(by left)) as (_ & ? & _).
    destruct (Rq KNorm Hb ltac:(by right)) as (_ & ? & _). done.
  - intros Hb%Eb. split; [apply (Norm QNorm)|apply (Norm KNorm)]; try done; try lia; apply Rq; auto.
Qed.

Lemma buffer_full n row : length row = n -> buffer_of n row = row.
Proof. intros <-. unfold buffer_of. apply take_app_length. Qed.

Lemma embedding_length e w cfg mw t : length (embedding e w cfg mw t) = H_ cfg.
Proof. unfold embedding, buffer_of. rewrite length_take, length_app, length_replicate. lia. Qed.

(** Where kernels see the mapping at all, they see the file. *)
Lemma seen_in_mapping e w0 w eng c o n :
  Engine.holds e w0 w eng -> Engine.mapped_file w0 w eng c -> 0 <= o -> 0 < n -> o + n <= zlen c ->
  Engine.seen w (Some (Engine.weights_ eng + o)) n = None \/ Engine.seen w (Some (Engine.weights_ eng + o)) n = peek_at c o n.
Proof.
  intros Hh MF Ho Hn Hc. cbn [Engine.seen]. unfold weight_seen.
  destruct (resolve_weight_device_ptr w _ =? 0); [by left|]. destruct (negb _).
  - destruct (registered w !! _) as [len|]; [|by left]. destruct (_ <=? len); [|by left]. right.
    apply (Engine.host_read_file w0 w eng c); (done || lia).
  - unfold device_block. destruct (List.find _ _) as [[b d]|] eqn:Ef; [|by left]. exfalso.
    apply List.find_some in Ef as [Hin Hb]. cbn [fst snd] in Hb. apply andb_true_iff in Hb as [H1%Z.leb_le H2%Z.leb_le].
    apply list_elem_of_In, elem_of_map_to_list in Hin.
    pose proof (wf_maps w (Engine.h_wf _ _ _ _ Hh) b d (Engine.weights_ eng, c) Hin) as Hd.
    rewrite (Engine.mf_maps _ _ _ _ MF) in Hd. specialize (Hd ltac:(by left)). cbn [fst snd] in Hd.
    destruct (Engine.pages_ge (zlen c)) as [Hp _]; [lia|]. destruct Hd; lia.
Qed.

Lemma host_data_file w0 w eng c o :
  Engine.mapped_file w0 w eng c -> 0 <= o -> o <= zlen c ->
  host_data w (Some (Engine.weights_ eng + o)) = drop (Z.to_nat o) c.
Proof.
  intros MF Ho Hc. unfold host_data, host_block. rewrite (Engine.mf_maps _ _ _ _ MF). cbn [List.find fst snd].
  rewrite (proj2 (Z.leb_le _ _)), (proj2 (Z.leb_le _ _)) by lia. cbn [andb]. do 2 f_equal. lia.
Qed.

Lemma peek_drop (c : bytes) o k : 0 <= o <= zlen c -> 0 <= k -> o + k <= zlen c -> peek_at (drop (Z.to_nat o) c) 0 k = peek_at c o k.
Proof.
  intros Ho Hk Hc. assert (zlen (drop (Z.to_nat o) c) = zlen c - o) by (unfold zlen in *; rewrite length_drop; lia).
  rewrite !peek_at_Some by lia. by rewrite drop_0.
Qed.

Lemma row_bytes_nonneg t hidden : 0 <= hidden -> 0 <= Quant.row_bytes t hidden.
Proof.
  intros Hh. pose proof (Z.quot_pos hidden 256 Hh ltac:(lia)). unfold Quant.row_bytes, Quant.block_bytes. repeat case_match; lia.
Qed.

Context (decodes : rows_decoded).

(** The embedding of a token of the vocabulary. *)
Section Row.
Context (e : env) (w0 w : World) (eng : Engine.Engine) (c : bytes) (cfg : ModelConfig) (mw : ModelWeights) (t o : Z).
Context (Hh : Engine.holds e w0 w eng) (MF : Engine.mapped_file w0 w eng c) (Sv : servable c cfg mw) (Hc : zlen c < 2 ^ 56).
Context (Ht : 0 <= t < vocab_size cfg) (Eo : tok_embd mw = Some o) (Ho : 0 <= o).
Context (Hend : o + vocab_size cfg * Quant.row_bytes (embd_type mw) (hidden_dim cfg) <= zlen c).
Let ty := embd_type mw.
Let hid := hidden_dim cfg.
Let n := kquant_tensor_bytes ty (t + 1) hid.
Let data := drop (Z.to_nat o) c.
Let row := Quant.half_value ty data t hid <$> seq 0 (Z.to_nat hid).

Lemma row_length : length row = H_ cfg.
Proof. unfold row. by rewrite length_fmap, length_seq. Qed.

Lemma row_in_file : 0 < hid < 2 ^ 31 /\ 0 <= Quant.row_bytes ty hid /\ o + (t + 1) * Quant.row_bytes ty hid <= zlen c /\
  (t + 1) * Quant.row_bytes ty hid <= zlen data < 2 ^ 62.
Proof.
  pose proof (sv_hidden _ _ _ Sv) as Hhid. pose proof (row_bytes_nonneg ty hid ltac:(unfold hid; lia)) as Hrb. fold ty hid in Hend, Hhid.
  split; [done|]. split; [done|]. split; [nia|]. unfold data, zlen in *. rewrite length_drop. nia.
Qed.

Lemma row_size : Quant.kquant ty = true -> n = (t + 1) * Quant.row_bytes ty hid /\ 0 < n.
Proof.
  intros Hk. destruct row_in_file as (? & ? & ? & ?).
  destruct (kquant_rows ty t hid Hk (sv_row _ _ _ Sv)) as [E P]; [lia|lia|nia|]. unfold n. by rewrite E.
Qed.

Lemma row_decoded ws : Quant.kquant ty = true -> peek_at c o n = Some ws -> embedding_row ws ty t hid = row.
Proof.
  intros Hk E. destruct row_in_file as (? & ? & ? & ?), (row_size Hk) as [En Hn].
  apply decoded_row; [done|done|apply Sv|lia|lia|]. rewrite <- En, <- E. apply peek_drop; lia.
Qed.

(** Still in the mapping: read by the library or by the host. *)
Lemma row_mapped mw' : tok_embd mw' = Some (Engine.weights_ eng + o) -> embd_type mw' = ty -> embedding e w cfg mw' t = row.
Proof.
  intros El Et. destruct row_in_file as (? & ? & ? & ?). unfold embedding. rewrite El, Et. fold hid n.
  rewrite (host_data_file w0 w eng c o MF Ho) by nia. fold data.
  rewrite row_either_way; [by apply buffer_full, row_length|lia|lia|lia|apply Sv|]. intros Hk. destruct (row_size Hk) as [En Hn].
  rewrite (proj2 (Z.ltb_lt _ _) Hn).
  destruct (seen_in_mapping e w0 w eng c o n Hh MF) as [E|E]; [done|lia|lia|rewrite E; by left|right].
  rewrite E, peek_at_Some by lia. cbn [mbind option_bind]. f_equal. apply row_decoded; [done|]. by rewrite peek_at_Some by lia.
Qed.

(** In the device copy of the output projection: read by the library. *)
Lemma row_moved mw' p :
  tok_embd mw' = Some p -> embd_type mw' = ty -> fast_embedding_enabled e = true -> 0 < kquant_tensor_bytes ty (vocab_size cfg) hid ->
  mirrors w p 0 (Engine.weights_ eng + o) (kquant_tensor_bytes ty (vocab_size cfg) hid) -> embedding e w cfg mw' t = row.
Proof.
  intros Ep Et Hfast Hpos M. destruct row_in_file as (? & ? & ? & ?).
  assert (Hk : Quant.kquant ty = true).
  { pose proof (sv_format _ _ _ Sv) as Hty. fold ty in Hty. rewrite !elem_of_cons, elem_of_nil in Hty.
    destruct_or? Hty; rewrite Hty in *; try done; unfold kquant_tensor_bytes in Hpos; cbn in Hpos;
      rewrite Z.mul_0_r in Hpos; by destruct (_ || _). }
  destruct (row_size Hk) as [En Hn].
  destruct (kquant_rows ty (vocab_size cfg - 1) hid Hk (sv_row _ _ _ Sv)) as [Ev _]; [lia|lia|fold ty hid in Hend; nia|].
  replace (vocab_size cfg - 1 + 1) with (vocab_size cfg) in Ev by lia. rewrite Ev in M. fold ty hid in Hend.
  destruct M as (d & bs & Hd & Hp & Hr). rewrite (Engine.host_read_file w0 w eng c) in Hr by (done || nia).
  assert (Ed : peek_at d 0 n = peek_at c o n).
  { rewrite <- (Z.add_0_r o), <- (Z.add_0_r 0) at 1. rewrite En.
    apply (peek_sub_eq _ _ _ _ (vocab_size cfg * Quant.row_bytes ty hid)); [by rewrite Hp, Hr|by rewrite Hp; eexists|lia|nia|nia]. }
  assert (Ec : is_Some (peek_at c o n)) by (rewrite peek_at_Some by lia; by eexists). destruct Ec as [ws Ec].
  unfold embedding. rewrite Ep, Et, Hfast. fold hid n. rewrite (proj2 (Z.ltb_lt _ _) Hn). cbn [Engine.seen].
  rewrite <- (Z.add_0_r p), (Engine.seen_moved e w0 w eng p 0 (Engine.weights_ eng + o) n Hh);
    [|exists d, ws; rewrite (Engine.host_read_file w0 w eng c), Ed by (done || lia); done|done].
  rewrite (Engine.host_read_file w0 w eng c), Ec by (done || lia). cbn [mbind option_bind].
  unfold Quant.dequant_embedding. unfold Quant.kquant in Hk. rewrite Hk. cbn [andb default]. rewrite row_decoded by done. by apply buffer_full, row_length.
Qed.

End Row.

Lemma embedding_contents e w0 w eng c cfg mw t :
  Engine.holds e w0 w eng -> Engine.placed e w0 w c cfg mw eng -> servable c cfg mw -> zlen c < 2 ^ 56 ->
  0 <= t < vocab_size cfg ->
  embedding e w cfg (Engine.model_weights_ eng) t = embedding_in_file c cfg mw t.
Proof.
  intros Hh [[MF _ _ _ Et] _ _ Ea] Sv Hc Ht. destruct (sv_embedding _ _ _ Sv) as (o & Eo & Ho & Hend).
  unfold embedding_in_file. rewrite Eo in *. injection Et as Et _. destruct Ea as [El|s p Es Eout Ep M Hpos Hfast].
  - by apply (row_mapped e w0 w eng c cfg mw t o).
  - injection Es as <-. assert (Etie : output_type mw = embd_type mw).
    { apply (sv_tied _ _ _ Sv). rewrite Eo. destruct (output mw) as [x|]; [|done]. cbn in Eout. injection Eout as Eout. f_equal. lia. }
    unfold output_bytes in M, Hpos. rewrite Etie in M, Hpos. by apply (row_moved e w0 w eng c cfg mw t o) with p.
Qed.

(** ** The tokens of the engine *)

Context (kv_alloc : World -> KVCache.Alloc) (rd : KVFile.Reader)
        (sort_by_size : list (bytes * Z) -> list (bytes * Z)) (e : env).

(** The reference decoder on the weights as the engine has placed them. *)
Definition engine_reference (i8 : bool) (w : World) (eng : Engine.Engine) (tk : Tokenizer.t) {R : Type}
  (sample : list float -> list Z -> R -> Z * R) (limit : Z) (n : nat) (toks recent : list Z) (r : R) : list Z :=
  let cfg := Engine.config_ eng in let mw := Engine.model_weights_ eng in
  @Generate.reference _ (interface w) i8 cfg mw (norm_on_device w) (embedding e w cfg mw) tk R sample limit n toks recent r.

Definition in_vocab (cfg : ModelConfig) (t : Z) : Prop := 0 <= t < vocab_size cfg.

Lemma model_of_unique path c cfg1 mw1 cfg2 mw2 :
  Engine.model_of path (Some c) c cfg1 mw1 -> Engine.model_of path (Some c) c cfg2 mw2 -> cfg1 = cfg2 /\ mw1 = mw2.
Proof. intros (_ & E1 & ok1 & F1) (_ & E2 & ok2 & F2). rewrite E1 in E2. injection E2 as <-. rewrite F1 in F2. by injection F2. Qed.

Lemma loaded_contents path c meminfo p w0 w1 eng :
  wf w0 -> g_region w0 = no_region -> Engine.fits path (Some c) ->
  Engine.load kv_alloc rd sort_by_size e path (Some c) meminfo p Engine.constructed w0 = (Some (true, eng), w1) ->
  Engine.reachable_mode e w1 eng ->
  exists cfg mw, Engine.model_of path (Some c) c cfg mw /\ Engine.config_ eng = cfg /\
    (servable c cfg mw -> forall (i8 : bool) (tk : Tokenizer.t) (R : Type) (sample : list float -> list Z -> R -> Z * R) limit n toks recent r,
       Forall (in_vocab cfg) toks -> (forall logits recent r, in_vocab cfg (sample logits recent r).1) ->
       engine_reference i8 w1 eng tk sample limit n toks recent r = file_reference i8 c cfg mw tk sample limit n toks recent r).
Proof.
  intros W Eg Hf E Hr.
  destruct (Engine.loaded_state kv_alloc rd sort_by_size e path c meminfo p w0 w1 eng W Eg Hf E) as (cfg & mw & Hm & Hh & Pl).
  destruct (Engine.resident_after_load kv_alloc rd sort_by_size e path c meminfo p w0 w1 eng W Eg Hf E Hr)
    as (cfg' & mw' & Hm' & HL & HN & HO).
  destruct (model_of_unique _ _ _ _ _ _ Hm' Hm) as [-> ->]. exists cfg, mw. split; [done|].
  pose proof Pl as [[MF Ec _ (o & q & No & Nq & _) Et] _ _ _]. split; [done|]. intros Sv i8 tk R sample limit n toks recent r Ht Hs.
  destruct (Hf _ _ _ Hm) as [T1 T2 T3 _]. destruct (servable_dims _ _ _ Sv) as (D1 & _ & _ & _ & _ & D6).
  unfold engine_reference, file_reference. rewrite Ec.
  apply (reference_same i8 cfg _ _ _ _ _ _) with (in_vocab cfg); [|by intros; apply (embedding_contents e w0)|done|done].
  split.
  - apply Forall2_same_length_lookup_2; [symmetry; by eapply Forall2_length|]. intros i lw lw0 Hl Hl0.
    apply (layer_contents w1 c cfg mw); [done|by apply (Forall_lookup_1 _ _ _ _ T2 Hl0)|by apply (Forall2_lookup_lr _ _ _ _ _ _ HL Hl0 Hl)].
  - unfold Engine.norm_bytes in *. rewrite <- D1 in T3, HN. intros i Hi.
    apply (norm_same w1 c _ _ (H_ cfg)); [by rewrite No; eexists|by rewrite Nq; eexists|done| |done|done].
    pose proof (sv_hidden _ _ _ Sv). lia.
  - injection Et as _ Et. done.
  - injection Et as _ Et. rewrite Et. apply matrix_same. rewrite D1, D6. exact HO.
Qed.

(** C6: An engine computes what its file says.  After a successful load, in a
    mode in which kernels reach the weights, the tokens the reference decoder
    generates with the weights as the engine has placed them (in arenas on the
    device, in device copies, or behind an alias of the mapping) are a function
    of the bytes of the model file: they are those it generates with every
    matrix, every norm and every embedding row read at its offset in the file,
    with an FP16 as with an INT8 cache. *)
Theorem engine_denotes_file (path c : bytes) (meminfo : option bytes) (p : Engine.LoadParams) (w0 w1 : World) (eng : Engine.Engine) :
  wf w0 -> g_region w0 = no_region -> Engine.fits path (Some c) ->
  Engine.load kv_alloc rd sort_by_size e path (Some c) meminfo p Engine.constructed w0 = (Some (true, eng), w1) ->
  Engine.reachable_mode e w1 eng ->
  exists cfg mw, Engine.model_of path (Some c) c cfg mw /\ Engine.config_ eng = cfg /\
    (servable c cfg mw -> forall (i8 : bool) (tk : Tokenizer.t) (R : Type) (sample : list float -> list Z -> R -> Z * R) limit n toks recent r,
       Forall (in_vocab cfg) toks -> (forall logits recent r, in_vocab cfg (sample logits recent r).1) ->
       engine_reference i8 w1 eng tk sample limit n toks recent r = file_reference i8 c cfg mw tk sample limit n toks recent r).
Proof. exact (loaded_contents path c meminfo p w0 w1 eng). Qed.

End Loaded.

(** ** The model of [Engine] *)

#[local] Existing Instances demo_floats Quant.demo_host demo_products Engine.sim_runtime Engine.sim_runtime_laws.

#[local] Abbreviation demo_load :=
  (Engine.load (fun _ => KVCache.demo_alloc) KVFile.demo_reader (fun l => l) Engine.default_env Engine.demo_path
    (Some Engine.demo_file) (Some Budget.demo_meminfo) Engine.demo_params Engine.constructed Engine.demo_world).

Definition demo_sample (logits : list Z) (recent : list Z) (r : Z) : Z * Z := ((zsum logits + r) mod 2, r + 1).

Lemma demo_servable cfg mw :
  Engine.model_of Engine.demo_path (Some Engine.demo_file) Engine.demo_file cfg mw ->
  servable Engine.demo_file cfg mw /\ vocab_size cfg = 2 /\ n_layers cfg = 1 /\ n_kv_heads cfg = 1 /\ head_dim cfg = 2.
Proof.
  intros (_ & E1 & ok & E2).
  assert (C : (fun cfg => (hidden_dim cfg, n_heads cfg, n_kv_heads cfg, head_dim cfg, intermediate_dim cfg, vocab_size cfg, n_layers cfg))
    <$> load_gguf_config Engine.demo_path (Some Engine.demo_file) = Some (256, 1, 1, 2, 1, 2, 1)) by (vm_compute; reflexivity).
  rewrite E1 in C. cbn in C. injection C as C1 C2 C3 C4 C5 C6 C7. rewrite C7 in E2.
  assert (D : (fun r => (tok_embd (snd r), embd_type (snd r), output (snd r), output_type (snd r)))
    <$> load_and_map_weights (Some Engine.demo_file) true 1 = Some (Some 6336, 12, Some 6336, 12)) by (vm_compute; reflexivity).
  rewrite E2 in D. cbn in D. injection D as D1 D2 D3 D4. clear E1 E2.
  assert (Hn : zlen Engine.demo_file = 6803) by (vm_compute; reflexivity).
  split; [|by rewrite C3, C4, C6, C7]. split; rewrite ?C1, ?C2, ?C3, ?C4, ?C5, ?C6, ?D1, ?D2, ?D3, ?D4; try lia.
  - exists 6336. split; [done|]. split; [lia|]. rewrite Hn. vm_compute. discriminate.
  - right. right. left.
  - reflexivity.
Qed.

Lemma engine_denotes_file_witness :
  match demo_load with
  | (Some (_, eng), w1) =>
      exists cfg mw, Engine.model_of Engine.demo_path (Some Engine.demo_file) Engine.demo_file cfg mw /\
        engine_reference Engine.default_env true w1 eng (Engine.tokenizer_ eng) demo_sample 4 3 [1] [] 5 =
        file_reference true Engine.demo_file cfg mw (Engine.tokenizer_ eng) demo_sample 4 3 [1] [] 5
  | _ => False
  end.
Proof.
  pose proof (engine_denotes_file (fun _ _ _ _ _ _ _ _ _ => eq_refl) (fun _ => KVCache.demo_alloc) KVFile.demo_reader (fun l => l)
    Engine.default_env Engine.demo_path Engine.demo_file (Some Budget.demo_meminfo) Engine.demo_params Engine.demo_world) as H.
  assert (E : (let '(r, w1) := demo_load in
      ((fun r => (fst r, negb (resolve_mapped_weight_device_ptr (g_region w1) (Engine.weights_ (snd r)) =? 0))) <$> r) = Some (true, true)))
    by (vm_compute; reflexivity).
  revert H E. generalize demo_load. intros [[[ok eng]|] w1] H E; [|discriminate E].
  cbn -[resolve_mapped_weight_device_ptr] in E. injection E as -> Er.
  destruct (H w1 eng Engine.demo_world_wf eq_refl Engine.demo_model_fits eq_refl) as (cfg & mw & Hm & _ & HS);
    [intros E0; change (resolve_mapped_weight_device_ptr (g_region w1) (Engine.weights_ eng) = 0) in E0; by rewrite E0 in Er|].
  exists cfg, mw. split; [exact Hm|]. destruct (demo_servable cfg mw Hm) as (Sv & Ev & _).
  apply (HS Sv); unfold in_vocab; rewrite Ev.
  - constructor; [lia|constructor].
  - intros logits recent r. cbn. apply Z.mod_pos_bound. lia.
Defined.

End Denote.
