(* ===== verification/Ready.v ===== *)
(** * Ready: a loaded engine, ready for requests

    What the two programs share: the conditions under which [Engine::load]
    leaves an engine whose requests are answered as its model file says, the
    settings a request finds on it, and the facts about it that
    [Generate.generate_run] asks for. *)

From S2P Require Import Prelude CLib Cuda Budget ScratchPool KVCache KVFile KVDir Session ModelFile TokenizerFile Weights Engine.
From S2P Require Import Kernels Quant Forward Bridge Tokenizer Generate Denote.

Module Ready.
Import ModelFile Weights Engine Denote.

Definition batched_prefill_enabled (e : env) : bool := not_disabled e "JLLM_BATCHED_PREFILL".

(** What a request meets: the setting of the prefill is that of the
    environment, the scratch space that of the engine. *)
Definition events (e : env) (eng : Engine) (v : Generate.Events) : Generate.Events :=
  Generate.mkEvents (Generate.stop_flag v) (Generate.meminfo v) (batched_prefill_enabled e) (ScratchPool.capacity (scratch_ eng))
    (Generate.first_ok v) (Generate.logits_ok v) (Generate.alloc_ok v).

Section Ready.
Context `{HF : Quant.HostFloats} `{!Bridge.Products} `{laws : RuntimeLaws}.
Context (decodes : Bridge.rows_decoded).
Context (kv_alloc : World -> KVCache.Alloc) (rd : KVFile.Reader)
        (sort_by_size : list (bytes * Z) -> list (bytes * Z)) (e : env).
Context (pool_size : forall w n b, KVCache.cudaMalloc_pool (kv_alloc w) n = Some b -> zlen b = n)
        (scales_size : forall w n b, KVCache.cudaMalloc_scales (kv_alloc w) n = Some b -> zlen b = n).
Context (files : bytes -> option bytes) (meminfo : option bytes).
(** The format of the cache, of one or two bytes a value. *)
Context (i8 : bool).
Abbreviation value_bytes := (if i8 then 1 else 2).

(** The context length [load] chooses. *)
Definition chosen_context (cfg : ModelConfig) (c : bytes) (limit : Z) : Z :=
  choose_context (model_budget e meminfo c) cfg (mkLoad i8 limit).

(** A cache of [ctx] positions has a size, and so has its table of scales. *)
Record cacheable (cfg : ModelConfig) (ctx : Z) : Prop := {
  ca_layers : 0 < n_layers cfg < 2 ^ 31; ca_heads : 0 < n_kv_heads cfg < 2 ^ 31; ca_dim : 0 < head_dim cfg < 2 ^ 31;
  ca_even : Z.even (head_dim cfg) = true;
  ca_ctx : 0 <= ctx;
  ca_bytes : n_layers cfg * ctx * (2 * value_bytes * (n_kv_heads cfg * head_dim cfg)) < 2 ^ 63;
  ca_scales : i8 = true -> 2 * n_layers cfg * ctx * n_kv_heads cfg * 4 < 2 ^ 63 }.

Lemma mapped_layers file nl ok mw o :
  load_and_map_weights file true nl = Some (ok, mw) -> output_norm mw = Some o -> 0 <= nl -> zlen (layers mw) = nl.
Proof.
  unfold load_and_map_weights. destruct (parse_tensor_infos file) as [[d ts]|]; [|done].
  destruct (d <? 0); [by intros [= _ <-]|]. cbn [negb].
  pose proof (map_tensors_length d ts (fresh_weights nl, 0)) as Hl. destruct (foldl _ _ _) as [m k].
  intros [= _ <-] _ Hn. assert (E : layers (tie_output m) = layers m) by (destruct m as [te on et out ot ls]; by destruct out, te).
  rewrite E. unfold zlen. cbn [fst] in Hl. rewrite Hl. cbn. rewrite length_replicate. lia.
Qed.

Lemma context_bound cfg c limit : chosen_context cfg c limit < 2 ^ 31.
Proof.
  unfold chosen_context, choose_context.
  assert (Hb : Budget.max_context (model_budget e meminfo c) (n_layers cfg) (n_kv_heads cfg) (head_dim cfg) (kv_bytes (mkLoad i8 limit)) < 2 ^ 31).
  { unfold Budget.max_context. cbv zeta. destruct (_ =? 0); [lia|apply i32_range]. }
  cbn [context_limit]. destruct (0 <? limit); lia.
Qed.

Lemma fingerprint_length file fp : KVFile.compute_model_fingerprint rd file = Some fp -> length fp = 32%nat.
Proof.
  unfold KVFile.compute_model_fingerprint. destruct (negb _); [done|]. destruct file as [c|]; [|done]. cbn [mbind option_bind].
  destruct (negb _); [done|]. destruct (_ <? _); [done|]. destruct (KVFile.sys_read _ _ _ _) as [k head].
  destruct (negb _); [done|]. intros E%Some_inj. by rewrite <- E, length_app, length_replicate, length_le.
Qed.

(** The pool of a loaded engine fits its model. *)
Lemma loaded_pool path c limit w0 w1 eng cfg mw :
  wf w0 -> g_region w0 = no_region -> fits path (Some c) ->
  load kv_alloc rd sort_by_size e path (Some c) meminfo (mkLoad i8 limit) constructed w0 = (Some (true, eng), w1) ->
  model_of path (Some c) c cfg mw -> e (str "JLLM_KV_OVERFLOW") = None ->
  servable c cfg mw -> cacheable cfg (chosen_context cfg c limit) ->
  (i8 = true -> is_Some (KVCache.kv_scales_ (kv_cache_ eng))) ->
  Generate.engine_ok i8 cfg (model_weights_ eng) (kv_cache_ eng) /\
  KVCache.cfg_ (kv_cache_ eng) = kv_config e cfg (chosen_context cfg c limit) value_bytes /\ config_ eng = cfg /\
  length (model_fingerprint_ eng) = 32%nat.
Proof.
  intros W G Hf E Hm He Sv [L1 L2 L3 L4 L5 L6 L7] Hsc.
  destruct (loaded_fields kv_alloc rd sort_by_size e path c meminfo _ w0 w1 eng E) as (cfg' & w & ok & Ec & Ecfg & Efp & Ek & _).
  destruct (loaded_state kv_alloc rd sort_by_size e path c meminfo _ w0 w1 eng W G Hf E) as (cfg2 & mw2 & Hm2 & _ & [[_ _ HL (o & _ & No & _) _] _ _ _]).
  destruct (model_of_unique _ _ _ _ _ _ Hm2 Hm) as [-> ->].
  assert (cfg' = cfg) as -> by (destruct Hm as (_ & E1 & _); congruence).
  change (kv_bytes (mkLoad i8 limit)) with value_bytes in Ek. fold (chosen_context cfg c limit) in Ek.
  set (kc := kv_config e cfg (chosen_context cfg c limit) value_bytes) in *. pose proof (context_bound cfg c limit) as Hctx.
  assert (Eov : KVCache.overflow_context kc = 0) by (unfold kc, kv_config, kv_overflow_context; by rewrite He).
  pose proof (sv_kv _ _ _ Sv) as Hkv.
  assert (Hok : KVCache.cfg_ok kc).
  { split; rewrite ?Eov; cbn; try lia; unfold KVCache.half; cbn; destruct i8; nia. }
  destruct (KVCache.init_ok (cuda_laws := rt_memory_laws (tick w)) (kv_alloc w) KVCache.fresh (kv_cache_ eng) kc Hok (pool_size w) Ek)
    as (Ecc & Hgpu & _ & _).
  assert (Ekc : KVCache.cfg_ (kv_cache_ eng) = kc).
  { destruct Ecc as [Ecc|Ecc]; [done|]. rewrite Ecc. destruct kc as [a1 a2 a3 a4 a5 a6]. cbn in *. by subst a5. }
  split; [|split; [done|]; split; [done|]].
  - split.
    + split; rewrite ?Ekc; try done; [|intros Hi; apply (KVCache.init_table (cuda_laws := rt_memory_laws (tick w)) (kv_alloc w) KVCache.fresh _ kc);
        [done|apply scales_size|cbn; by rewrite Hi|by apply L7|done|by apply Hsc]]. unfold zlen. rewrite <- (Forall2_length _ _ _ HL). fold (zlen (layers mw)).
      destruct Hm as (_ & _ & ok' & Em). by apply (mapped_layers _ _ _ _ _ Em No); lia.
    + rewrite Ekc. split; [done|cbn; destruct i8; lia..].
    + by rewrite Ekc.
  - rewrite Efp. unfold fingerprint. destruct (KVFile.compute_model_fingerprint rd (Some c)) as [fp|] eqn:Ef; [|done].
    by apply fingerprint_length in Ef.
Qed.

(** The model in the file, with its tokenizer. *)
Record model_in_file (path c : bytes) (cfg : ModelConfig) (mw : ModelWeights) (tk : Tokenizer.t) : Prop := {
  mf_model : model_of path (Some c) c cfg mw;
  mf_tokenizer : exists ok, TokenizerFile.load_from_gguf sort_by_size (Some c) TokenizerFile.default_tokenizer = Some (ok, tk) }.

(** A model file that loads with the context limit [limit], in a mode in which
    kernels reach the weights and, for INT8, with a table of scales. *)
Record deployed (path : bytes) (limit : Z) (w0 : World) (c : bytes) (cfg : ModelConfig) (mw : ModelWeights) (tk : Tokenizer.t) : Prop := {
  dp_path : path <> [];
  dp_file : files path = Some c;
  dp_fits : fits path (Some c);
  dp_model : model_in_file path c cfg mw tk;
  dp_overflow : e (str "JLLM_KV_OVERFLOW") = None;
  dp_servable : servable c cfg mw;
  dp_cache : cacheable cfg (chosen_context cfg c limit);
  dp_load : exists w1 eng,
    load kv_alloc rd sort_by_size e path (Some c) meminfo (mkLoad i8 limit) constructed w0 = (Some (true, eng), w1) /\
    reachable_mode e w1 eng /\ (i8 = true -> is_Some (KVCache.kv_scales_ (kv_cache_ eng))) }.

(** What requests find: the cache fits the model, and the tokens are those of the file. *)
Record ready (limit : Z) (c : bytes) (cfg : ModelConfig) (mw : ModelWeights) (tk : Tokenizer.t) (w1 : World) (eng : Engine) : Prop := {
  rd_config : config_ eng = cfg;
  rd_tokenizer : tokenizer_ eng = tk;
  rd_fingerprint : length (model_fingerprint_ eng) = 32%nat;
  rd_pool : Generate.engine_ok i8 cfg (model_weights_ eng) (kv_cache_ eng);
  rd_shape : KVCache.cfg_ (kv_cache_ eng) = kv_config e cfg (chosen_context cfg c limit) value_bytes;
  rd_tokens : forall (R : Type) (sample : list Kernels.float -> list Z -> R -> Z * R) bound n toks recent r,
    Forall (in_vocab cfg) toks -> (forall logits recent r, in_vocab cfg (sample logits recent r).1) ->
    engine_reference e i8 w1 eng tk sample bound n toks recent r = file_reference i8 c cfg mw tk sample bound n toks recent r }.

Lemma loaded_ready path limit w0 c cfg mw tk :
  wf w0 -> g_region w0 = no_region -> deployed path limit w0 c cfg mw tk ->
  exists w1 eng,
    load kv_alloc rd sort_by_size e path (Some c) meminfo (mkLoad i8 limit) constructed w0 = (Some (true, eng), w1) /\
    ready limit c cfg mw tk w1 eng.
Proof.
  intros W G [_ _ D3 [D4 [tok D5]] D8 D9 D10 (w1 & eng & El & Hr & Hsc)]. exists w1, eng. split; [done|].
  destruct (loaded_pool _ _ _ _ _ _ cfg mw W G D3 El D4 D8 D9 D10 Hsc) as (P1 & P2 & Ecfg & Efp).
  destruct (loaded_contents decodes kv_alloc rd sort_by_size e _ _ _ _ _ _ _ W G D3 El Hr) as (cfg' & mw' & Hm & _ & Href).
  destruct (model_of_unique _ _ _ _ _ _ Hm D4) as [-> ->].
  destruct (loaded_fields kv_alloc rd sort_by_size e _ _ _ _ _ _ _ El) as (_ & _ & ok & _ & _ & _ & _ & Et). rewrite D5 in Et.
  split; [done|congruence|done|done|done|]. intros. by apply Href.
Qed.

(** The length of the cache of a ready engine. *)
Lemma ready_limit limit cfg c mwe p :
  Generate.engine_ok i8 cfg mwe p -> KVCache.cfg_ p = kv_config e cfg (chosen_context cfg c limit) value_bytes ->
  e (str "JLLM_KV_OVERFLOW") = None -> KVCache.max_tokens p = chosen_context cfg c limit.
Proof.
  intros P1 P2 Hov. unfold KVCache.max_tokens. rewrite P2. unfold kv_config, kv_overflow_context. rewrite Hov. cbn.
  rewrite Z.add_0_r. apply i32_id. pose proof (context_bound cfg c limit).
  pose proof (KVCache.ok_ctx _ (Session.ic_ok _ (Generate.eo_int _ _ _ _ P1))) as Hc. rewrite P2 in Hc. cbn in Hc. lia.
Qed.

Lemma vocab_32 c cfg mw t : servable c cfg mw -> in_vocab cfg t -> 0 <= t < 2 ^ 31.
Proof. intros Sv. unfold in_vocab. pose proof (sv_vocab _ _ _ Sv). lia. Qed.

End Ready.

(** ** The model of [Engine], deployed *)

#[local] Existing Instances Kernels.demo_floats Quant.demo_host Bridge.demo_products Bridge.demo_product_laws
  sim_runtime sim_runtime_laws.

Definition demo_files (path : bytes) : option bytes := if decide (path = demo_path) then Some demo_file else None.

Lemma demo_pool_size (w : World) n b : KVCache.cudaMalloc_pool KVCache.demo_alloc n = Some b -> zlen b = n.
Proof. cbn. destruct (n <? 0) eqn:E; [done|]. intros [= <-]. apply Z.ltb_ge in E. unfold zlen. rewrite length_replicate. lia. Qed.

Lemma demo_scales_size (w : World) n b : KVCache.cudaMalloc_scales KVCache.demo_alloc n = Some b -> zlen b = n.
Proof. exact (demo_pool_size w n b). Qed.

Lemma demo_decodes : Bridge.rows_decoded.
Proof. intros ws t token hidden. reflexivity. Qed.

Lemma of_some {A B} (f : A -> B) (o : option A) a v : o = Some a -> f <$> o = Some v -> f a = v.
Proof. by intros -> [= <-]. Qed.

Lemma demo_model : exists cfg mw, model_of demo_path (Some demo_file) demo_file cfg mw.
Proof.
  destruct (load_gguf_config demo_path (Some demo_file)) as [cfg|] eqn:E1; [|vm_compute in E1; discriminate E1].
  assert (C : n_layers <$> load_gguf_config demo_path (Some demo_file) = Some 1) by (vm_compute; reflexivity).
  pose proof (of_some n_layers _ _ _ E1 C) as En.
  destruct (load_and_map_weights (Some demo_file) true (n_layers cfg)) as [[ok mw]|] eqn:E2; [by exists cfg, mw; split; [|split; [|exists ok]]|].
  rewrite En in E2. vm_compute in E2. discriminate E2.
Qed.

Lemma demo_loads i8 : exists w1 eng,
  load (fun _ => KVCache.demo_alloc) KVFile.demo_reader (fun l => l) default_env demo_path (Some demo_file)
    (Some Budget.demo_meminfo) (mkLoad i8 4) constructed demo_world = (Some (true, eng), w1) /\ reachable_mode default_env w1 eng /\
  (i8 = true -> is_Some (KVCache.kv_scales_ (kv_cache_ eng))).
Proof.
  assert (E : (let '(r, w1) := load (fun _ => KVCache.demo_alloc) KVFile.demo_reader (fun l => l) default_env demo_path (Some demo_file)
      (Some Budget.demo_meminfo) (mkLoad i8 4) constructed demo_world in
    ((fun r => (fst r, negb (resolve_mapped_weight_device_ptr (g_region w1) (weights_ (snd r)) =? 0),
                bool_decide (is_Some (KVCache.kv_scales_ (kv_cache_ (snd r)))))) <$> r) = Some (true, true, i8)))
    by (destruct i8; vm_compute; reflexivity).
  revert E. generalize (load (fun _ => KVCache.demo_alloc) KVFile.demo_reader (fun l => l) default_env demo_path (Some demo_file)
    (Some Budget.demo_meminfo) (mkLoad i8 4) constructed demo_world).
  intros [[[ok eng]|] w1] E; [|discriminate E]. cbn -[resolve_mapped_weight_device_ptr] in E. injection E as -> Er Es.
  exists w1, eng. split; [reflexivity|]. split; [|intros ->; by apply bool_decide_eq_true in Es]. intros E0.
  change (resolve_mapped_weight_device_ptr (g_region w1) (weights_ eng) = 0) in E0. rewrite E0 in Er. discriminate Er.
Qed.

(** The dimensions of the model. *)
Record demo_shape (i8 : bool) (cfg : ModelConfig) : Prop := {
  ds_vocab : vocab_size cfg = 2; ds_layers : n_layers cfg = 1; ds_heads : n_kv_heads cfg = 1; ds_dim : head_dim cfg = 2;
  ds_context : chosen_context default_env (Some Budget.demo_meminfo) i8 cfg demo_file 4 = 4 }.

Lemma demo_deployed i8 : exists cfg mw tk ok,
  deployed (fun _ => KVCache.demo_alloc) KVFile.demo_reader (fun l => l) default_env demo_files (Some Budget.demo_meminfo) i8
    demo_path 4 demo_world demo_file cfg mw tk /\
  demo_shape i8 cfg /\ load_gguf_config demo_path (Some demo_file) = Some cfg /\
  TokenizerFile.load_from_gguf (fun l => l) (Some demo_file) TokenizerFile.default_tokenizer = Some (ok, tk).
Proof.
  destruct demo_model as (cfg & mw & Hm). destruct (demo_servable cfg mw Hm) as (Sv & V1 & V2 & V3 & V4).
  pose proof Hm as (_ & Ec & _).
  assert (C : (fun cfg => chosen_context default_env (Some Budget.demo_meminfo) i8 cfg demo_file 4) <$> load_gguf_config demo_path (Some demo_file)
    = Some 4) by (destruct i8; vm_compute; reflexivity).
  pose proof (of_some _ _ _ _ Ec C) as V5. cbv beta in V5. clear C.
  assert (T : is_Some (TokenizerFile.load_from_gguf (fun l => l) (Some demo_file) TokenizerFile.default_tokenizer))
    by (vm_compute; eexists; reflexivity).
  destruct T as [[ok tk] Et]. exists cfg, mw, tk, ok.
  split; [|split; [by split|split; [exact Ec|exact Et]]].
  split; [discriminate|reflexivity|exact demo_model_fits|exact {| mf_model := Hm; mf_tokenizer := ex_intro _ ok Et |}
    |reflexivity|exact Sv| |exact (demo_loads i8)].
  rewrite V5. split; rewrite ?V2, ?V3, ?V4; destruct i8; try lia; reflexivity.
Qed.

End Ready.
