(* ===== verification/Whole.v ===== *)
(** * Whole: from the command line to the answers ([src/main.cpp] with all it calls)

    [main] of [Cli] on the engine of [Engine], with the requests of [Generate]
    on the weights [Denote] finds: one function from the files, the machine and
    the command line to the text on standard output.  What surrounds a request
    (the file system, the stop flag, the memory that is left, the seed of the
    random engine) is given by the number of the request. *)

From S2P Require Import Prelude CLib Cuda Budget ScratchPool KVCache KVFile KVDir Session ModelFile TokenizerFile Weights Engine.
From S2P Require Import Kernels Quant Forward Bridge Tokenizer Generate Denote Ready Cli Program.

Module Whole.
Import ModelFile Weights Engine Denote Ready.

Section Whole.
Context `{HF : Quant.HostFloats} `{!Bridge.Products} `{rt : Runtime} `{KVDir.StdSort}.
Context (kv_alloc : World -> KVCache.Alloc) (rd : KVFile.Reader)
        (sort_by_size : list (bytes * Z) -> list (bytes * Z)) (e : env).
Context {F : Type} (atof : bytes -> F) (f07 f09 : F).
Context {R : Type} (sample_token : Cli.GenParams (F := F) -> list Kernels.float -> list Z -> R -> Z * R).

Record surround := mkAround { s_events : Generate.Events; s_disk : Session.Disk; s_seed : R }.
Context (around : nat -> surround).

(** What requests change: the cache, from the first request on, and the files
    of the conversations. *)
Record requests := mkRequests { cache : option Forward.pool; conversations : gmap bytes bytes; served : nat }.

Definition gen_params (params : Cli.GenParams (F := F)) : Generate.GenParams :=
  Generate.mkParams (Cli.p_max_tokens params) (Cli.p_conversation_id params) (Cli.p_kv_int8 params).

(** [Engine::generate] of the loaded engine, as [main] sees it. *)
Definition generate (eng : Engine) (w : World) (x : requests) (prompt : bytes) (params : Cli.GenParams (F := F))
  : option (Cli.answer * requests) :=
  let a := around (served x) in
  let cfg := config_ eng in let mw := model_weights_ eng in
  match @Generate.generate _ (Bridge.interface w) (rt_memory (tick w)) cfg mw (norm_on_device w) (embedding e w cfg mw)
          (tokenizer_ eng) R (sample_token params) (gen_params params) (events e eng (s_events a)) _ (s_disk a) (model_fingerprint_ eng)
          prompt (default (kv_cache_ eng) (cache x)) (s_seed a) (KVFile.W (conversations x) []) with
  | Session.Done (_, s, w') =>
      Some (Cli.mkAnswer (Tokenizer.decode (tokenizer_ eng) <$> Generate.delivered s) false,
            mkRequests (Some (Generate.kv s)) (KVFile.files w') (S (served x)))
  | Session.Throws => Some (Cli.mkAnswer [] true, mkRequests (cache x) (conversations x) (S (served x)))
  | Session.Undefined => None
  end.

Context (files : bytes -> option bytes) (meminfo : option bytes).

(** The command line tool does not serve. *)
Definition no_server (_ : Engine) (_ : World) (x : requests) (_ : Z) (_ : bool) : option requests := Some x.

#[local] Instance tool : Cli.EngineOps (F := F) (Program.state (X := requests)) :=
  Program.engine_ops kv_alloc rd sort_by_size e generate no_server files meminfo.

(** ** What the tool is asked *)

Definition asked (a : Cli.Args (F := F)) (name stdin : bytes) : list bytes :=
  if Cli.interactive a
  then (fun p => Cli.format_prompt p a name) <$> Cli.wanted (Cli.strip_newline <$> lines 4096 stdin)
  else if bool_decide (Cli.prompt a = []) then [] else [Cli.format_prompt (Cli.prompt a) a name].

Lemma phase_says a params stdin s :
  Cli.generate_phase a params stdin s = Cli.say_all params (asked a (Cli.e_name s) stdin) [] s.
Proof.
  unfold Cli.generate_phase, asked. destruct (Cli.interactive a); [apply Cli.chat_says|].
  destruct (bool_decide _); [done|]. cbn [negb Cli.say_all].
  destruct (Cli.say _ _ _ _) as [[[[] out] s']|]; done.
Qed.

End Whole.

(** ** What it answers *)

Section Correct.
Context `{HF : Quant.HostFloats} `{!Bridge.Products} {plaws : Bridge.ProductLaws} `{laws : RuntimeLaws} `{KVDir.StdSort}.
Context (decodes : Bridge.rows_decoded).
Context (kv_alloc : World -> KVCache.Alloc) (rd : KVFile.Reader)
        (sort_by_size : list (bytes * Z) -> list (bytes * Z)) (e : env).
Context (pool_size : forall w n b, KVCache.cudaMalloc_pool (kv_alloc w) n = Some b -> zlen b = n)
        (scales_size : forall w n b, KVCache.cudaMalloc_scales (kv_alloc w) n = Some b -> zlen b = n).
Context {F : Type} (atof : bytes -> F) (f07 f09 : F).
Context {R : Type} (sample_token : Cli.GenParams (F := F) -> list Kernels.float -> list Z -> R -> Z * R).
Context (around : nat -> surround (R := R)).
Context (files : bytes -> option bytes) (meminfo : option bytes).

(** *** One request *)

Section Answers.
Context (c : bytes) (cfg : ModelConfig) (mw : ModelWeights) (tk : Tokenizer.t).
Context (params : Cli.GenParams (F := F)) (dir : bytes).

Abbreviation i8 := (Cli.p_kv_int8 params).
Abbreviation ctx := (chosen_context e meminfo i8 cfg c (Cli.p_context_limit params)).
Abbreviation shape := (kv_config e cfg ctx (if i8 then 1 else 2)).
Abbreviation sampler := (sample_token params).

(** The tokens of the answer to request [i], as the file determines them. *)
Definition ideal (i : nat) (prompt : bytes) : list Z :=
  file_reference i8 c cfg mw tk sampler ctx (Z.to_nat (Cli.p_max_tokens params)) (Generate.prompt_ids tk prompt) []
    (s_seed (around i)).

(** All of them, or the first of them when something interrupts. *)
Definition right_answer (i : nat) (prompt : bytes) (out : list Z) : Prop :=
  (exists k, out = take k (ideal i prompt)) /\
  (Generate.quiet cfg (gen_params params) (s_events (around i)) -> out = ideal i prompt).

(** A request the engine admits, about tokens of the vocabulary. *)
Record good_request (i : nat) (prompt : bytes) : Prop := {
  gr_ok : forall q, KVCache.cfg_ q = shape ->
    Generate.request_ok i8 tk (gen_params params) (s_events (around i)) (Session.reader (s_disk (around i))) prompt q;
  gr_vocab : Forall (in_vocab cfg) (Generate.prompt_ids tk prompt);
  gr_dir : Session.cache_dir (s_disk (around i)) = dir }.

Context (eng : Engine) (w1 : World).
Context (Rd : ready e meminfo i8 (Cli.p_context_limit params) c cfg mw tk w1 eng).
Context (Sv : servable c cfg mw) (Hs : forall logits recent r, in_vocab cfg (sampler logits recent r).1).
Context (Hov : e (str "JLLM_KV_OVERFLOW") = None).

Abbreviation emw := (model_weights_ eng).

(** Between two requests. *)
Record sound (x : requests) : Prop := {
  so_pool : Generate.engine_ok i8 cfg emw (default (kv_cache_ eng) (cache x));
  so_config : KVCache.cfg_ (default (kv_cache_ eng) (cache x)) = shape;
  so_files : @Generate.trusted_dir _ (Bridge.interface w1) i8 cfg emw (norm_on_device w1) (embedding e w1 cfg emw)
    shape (model_fingerprint_ eng) dir (conversations x) }.

Lemma one_request x prompt :
  sound x -> good_request (served x) prompt ->
  exists out x', generate e sample_token around eng w1 x prompt params = Some (Cli.mkAnswer (Tokenizer.decode tk <$> out) false, x') /\
    right_answer (served x) prompt out /\ sound x' /\ served x' = S (served x).
Proof.
  intros [P1 P2 P3] [Ok Hv Hd]. specialize (Ok _ P2). set (p := default (kv_cache_ eng) (cache x)) in *.
  pose proof (ready_limit e meminfo _ _ _ _ _ _ P1 P2 Hov) as Hlim. pose proof (rd_config _ _ _ _ _ _ _ _ _ _ Rd) as Ecfg.
  destruct (@Generate.generate_run _ (Bridge.interface w1) (Bridge.products_laws (Bridge.bytes_of w1)) (rt_memory (tick w1)) (rt_memory_laws (tick w1)) i8 cfg emw (norm_on_device w1)
    (embedding e w1 cfg emw) tk R sampler _ (gen_params params) (events e eng (s_events (around (served x)))) (s_disk (around (served x)))
    (model_fingerprint_ eng) prompt p (s_seed (around (served x))) (conversations x)) as (stats & s & w' & E & _ & Hk & Hq & He & Hc & Ht).
  - split; [by intros; apply embedding_length|]. intros logits recent r. by apply (vocab_32 c cfg mw).
  - done.
  - by destruct Ok; split.
  - apply Rd.
  - by rewrite P2, Hd.
  - rewrite Hlim in Hk, Hq. pose proof (rd_tokens _ _ _ _ _ _ _ _ _ _ Rd R sampler) as Hr. unfold engine_reference in Hr. rewrite Ecfg in Hr.
    rewrite Hr in Hk, Hq by done. exists (Generate.delivered s), (mkRequests (Some (Generate.kv s)) (KVFile.files w') (S (served x))).
    split; [|split; [done|split; [|done]]].
    + unfold generate. cbv zeta. rewrite Ecfg, (rd_tokenizer _ _ _ _ _ _ _ _ _ _ Rd). fold p. by rewrite E.
    + split; cbn [cache conversations from_option id]; [done|by rewrite Hc|]. rewrite <- P2, <- Hd. apply Ht. by left.
Qed.

(** *** All requests *)

(** What a list of prompts, numbered from [k] on, has to get. *)
Definition right_answers (k : nat) (prompts : list bytes) (outs : list (list Z)) : Prop :=
  length outs = length prompts /\
  forall i p out, prompts !! i = Some p -> outs !! i = Some out -> right_answer (k + i) p out.

Definition printed (outs : list (list Z)) : bytes :=
  concat ((fun out => concat (CLib.c_string <$> (Tokenizer.decode tk <$> out))) <$> outs).

#[local] Existing Instance tool.
Abbreviation tool_ops := (tool kv_alloc rd sort_by_size e sample_token around files meminfo).

Lemma all_requests prompts k out x :
  sound x -> served x = k -> (forall i p, prompts !! i = Some p -> good_request (k + i) p) ->
  exists outs x', Cli.say_all (H := tool_ops) params prompts out (eng, w1, x) = Some (false, out ++ printed outs, (eng, w1, x')) /\
    right_answers k prompts outs.
Proof.
  revert k out x. induction prompts as [|p prompts IH]; intros k out x Hx Hk Hg.
  { exists [], x. split; [|by split]. cbn. by rewrite app_nil_r. }
  destruct (one_request x p Hx) as (o & x1 & E & Ho & Hx1 & Hk1); [rewrite Hk, <- (Nat.add_0_r k); by apply Hg|].
  destruct (IH (S k) (out ++ concat (CLib.c_string <$> (Tokenizer.decode tk <$> o))) x1 Hx1 ltac:(congruence)) as (outs & x2 & E2 & HL & HR).
  { intros i q Hq. rewrite Nat.add_succ_comm. by apply Hg. }
  exists (o :: outs), x2. split.
  - cbn [Cli.say_all]. unfold Cli.say. cbn [Cli.e_generate tool Program.engine_ops]. rewrite E.
    cbn [mbind option_bind Cli.throws Cli.texts]. rewrite E2.  unfold printed. rewrite fmap_cons. cbn [concat]. by rewrite app_assoc.
  - split; [cbn; by rewrite HL|]. intros [|i] q out'; cbn [lookup list_lookup].
    + intros [= <-] [= <-]. rewrite Nat.add_0_r. by rewrite <- Hk.
    + rewrite <- Nat.add_succ_comm. apply HR.
Qed.

End Answers.

(** *** The command line tool *)

(** A command line for a model file that loads, on a machine that has the memory for it. *)
Record commanded (a : Cli.Args (F := F)) (w0 : World) (c : bytes) (cfg : ModelConfig) (mw : ModelWeights) (tk : Tokenizer.t) : Prop := {
  cm_deployed : deployed kv_alloc rd sort_by_size e files meminfo (Cli.kv_int8 a) (Cli.model_path a) (Cli.context a) w0 c cfg mw tk;
  cm_memory : Budget.can_allocate (Budget.probe_system_memory meminfo) (Z.quot (zlen c) (1024 * 1024) + 200) = true;
  cm_sampler : forall logits recent r, in_vocab cfg (sample_token (Cli.generation_params a) logits recent r).1 }.


End Correct.

(** ** Two lines of one conversation, on the model of [Engine] *)

#[local] Existing Instances Kernels.demo_floats Quant.demo_host Bridge.demo_products Bridge.demo_product_laws
  sim_runtime sim_runtime_laws KVDir.merge_std_sort.

Definition demo_argv : list bytes :=
  [str "-m"; demo_path; str "-i"; str "--fp16-kv"; str "--conv-id"; str "c1"; str "-c"; str "4"; str "-n"; str "2"].
Definition demo_args : Cli.Args (F := Z) :=
  Cli.mkArgs demo_path [] 2 4 7 40 9 true false false false false false (str "c1").
Definition demo_stdin : bytes := str "hello" ++ Cli.newline ++ str "hello" ++ Cli.newline ++ str "quit" ++ Cli.newline.
Definition demo_around (i : nat) : surround (R := Z) := mkAround Generate.chat_events Generate.chat_disk (Z.of_nat i).
Definition demo_sampler (_ : Cli.GenParams (F := Z)) := demo_sample.

#[local] Abbreviation demo_generation := (Cli.generation_params demo_args).
#[local] Abbreviation demo_main :=
  (Cli.main (H := tool (fun _ => KVCache.demo_alloc) KVFile.demo_reader (fun l => l) default_env demo_sampler demo_around demo_files
     (Some Budget.demo_meminfo)) atoi 7 9 [] demo_argv (Some Budget.demo_meminfo) demo_files demo_stdin
     (Program.start demo_world (mkRequests None ∅ 0))).

Lemma demo_good cfg tk i :
  demo_shape false cfg -> Generate.prompt_ids tk (str "hello") = [1] ->
  good_request default_env demo_around (Some Budget.demo_meminfo) demo_file cfg tk demo_generation (str "/c") i (str "hello").
Proof.
  intros [V1 V2 V3 V4 Ec] Et. split.
  - intros q Hq. split; try reflexivity; try exact KVFile.demo_reader_ok.
    + rewrite Et. constructor; [lia|constructor].
    + rewrite Et. reflexivity.
    + discriminate.
    + unfold Generate.admits, KVCache.max_tokens. rewrite Et, Hq. unfold kv_config. cbn [KVCache.max_context KVCache.overflow_context].
      change (Cli.p_context_limit demo_generation) with 4. change (Cli.p_kv_int8 demo_generation) with false. rewrite Ec. reflexivity.
  - rewrite Et. constructor; [unfold in_vocab; rewrite V1; lia|constructor].
  - reflexivity.
Qed.

Lemma demo_quiet cfg i : demo_shape false cfg ->
  Generate.quiet cfg (gen_params demo_generation) (s_events (demo_around i)).
Proof.
  intros [_ V1 V2 V3 _]. split; [reflexivity|]. intros p. unfold Generate.check_memory, kv_per_token_bytes. rewrite V1, V2, V3. reflexivity.
Qed.


End Whole.
