(* ===== verification/Serving.v ===== *)
(** * Serving: from the server's command line to the replies ([src/main_server.cpp]
    with all it calls)

    [server_main] of [Cli] on the engine of [Engine]; the requests are those of
    [Service], on the threads of [Threads], with the weights of [Denote].  The
    HTTP library, which accepts the requests and schedules their threads, is a
    parameter: [listens] says that it lets every handler finish that can, and
    that its loop ends when its socket is closed. *)

From S2P Require Import Prelude CLib Cuda Budget KVCache KVFile KVDir Session ModelFile TokenizerFile Weights Engine.
From S2P Require Import Kernels Quant Forward Bridge Tokenizer Generate Chat Server Threads Service Denote Ready Cli Program.

Module Serving.
Import ModelFile Weights Engine Denote Ready.

Section Serving.
Context `{HF : Quant.HostFloats} `{!Bridge.Products} `{rt : Runtime} `{KVDir.StdSort} {J : Server.Json}.
Context (kv_alloc : World -> KVCache.Alloc) (rd : KVFile.Reader)
        (sort_by_size : list (bytes * Z) -> list (bytes * Z)) (e : env).
Context {F : Type} (f07 f09 : F).
Context {R : Type} (sample_token : Server.GenParams -> list Kernels.float -> list Z -> R -> Z * R).
Context (length_text alloc_text : bytes).
Context (envs : nat -> Service.env (R := R)) (bodies : list bytes) (conversations : gmap bytes bytes).

Definition requests : Type := Threads.server (E := Forward.pool * gmap bytes bytes).

(** What surrounds a request on the loaded engine. *)
Definition on_engine (eng : Engine) (v : Service.env (R := R)) : Service.env (R := R) :=
  Service.mkEnv (events e eng (Service.events v)) (Service.disk v) (Service.seed v) (Service.show v) (Service.accepts v)
    (Service.t_id v) (Service.t_created v).

(** [Engine::generate] of the loaded engine, for request [i]. *)
Definition run_engine (eng : Engine) (w : World) (i : nat) :=
  @Service.run_engine J _ (Bridge.interface w) (rt_memory (tick w)) _ (config_ eng) (model_weights_ eng) (norm_on_device w)
    (embedding e w (config_ eng) (model_weights_ eng)) (tokenizer_ eng) R sample_token length_text alloc_text
    (model_fingerprint_ eng) (on_engine eng (envs i)).

Definition reach (eng : Engine) (w : World) (int8 : bool) (s : requests) : Prop :=
  Threads.reachable (run_engine eng w) (fun i => Service.accepts (envs i)) (fun i => Service.t_id (envs i))
    (fun i => Service.t_created (envs i)) int8 (cfg_name (config_ eng)) bodies (kv_cache_ eng, conversations) s.
Definition next (eng : Engine) (w : World) (int8 : bool) : requests -> requests -> Prop :=
  Threads.step (run_engine eng w) (fun i => Service.accepts (envs i)) (fun i => Service.t_id (envs i))
    (fun i => Service.t_created (envs i)) int8 (cfg_name (config_ eng)).

Definition all_replied {E : Type} (s : Threads.server (E := E)) : Prop := Forall (fun t => exists rep, t = Threads.Replied rep) (Threads.threads s).

(** [svr.listen] for the requests [bodies]: the threads take their steps in an
    order the library chooses; if the requests can be completed whatever has
    been chosen so far, they are when it returns, after its socket is closed. *)
Definition listens (serve : Engine -> World -> option requests -> Z -> bool -> option (option requests)) : Prop :=
  forall eng w x port int8,
    (forall s, reach eng w int8 s -> exists s', rtc (next eng w int8) s s' /\ all_replied s') ->
    exists s, serve eng w x port int8 = Some (Some s) /\ reach eng w int8 s /\ all_replied s.

(** The server does not call [generate] itself. *)
Definition no_generate (_ : Engine) (_ : World) (x : option requests) (_ : bytes) (_ : Cli.GenParams (F := F))
  : option (Cli.answer * option requests) := Some (Cli.mkAnswer [] false, x).

Context (serve : Engine -> World -> option requests -> Z -> bool -> option (option requests)).
Context (files : bytes -> option bytes) (meminfo : option bytes).

Definition site : Cli.EngineOps (F := F) (Program.state (X := option requests)) :=
  Program.engine_ops kv_alloc rd sort_by_size e no_generate serve files meminfo.

End Serving.

(** ** What the server replies *)

Section Correct.
Context `{HF : Quant.HostFloats} `{!Bridge.Products} {plaws : Bridge.ProductLaws} `{laws : RuntimeLaws} `{KVDir.StdSort} {J : Server.Json}.
Context (decodes : Bridge.rows_decoded).
Context (kv_alloc : World -> KVCache.Alloc) (rd : KVFile.Reader)
        (sort_by_size : list (bytes * Z) -> list (bytes * Z)) (e : env).
Context (pool_size : forall w n b, KVCache.cudaMalloc_pool (kv_alloc w) n = Some b -> zlen b = n)
        (scales_size : forall w n b, KVCache.cudaMalloc_scales (kv_alloc w) n = Some b -> zlen b = n).
Context {F : Type} (f07 f09 : F).
Context {R : Type} (sample_token : Server.GenParams -> list Kernels.float -> list Z -> R -> Z * R).
Context (length_text alloc_text : bytes).
Context (envs : nat -> Service.env (R := R)) (bodies : list bytes) (conversations : gmap bytes bytes).
Context (serve : Engine -> World -> option requests -> Z -> bool -> option (option requests)).
Context (files : bytes -> option bytes) (meminfo : option bytes).

Section Answers.
Context (c : bytes) (cfg : ModelConfig) (mw : ModelWeights) (tk : Tokenizer.t) (limit : Z) (int8 : bool) (dir : bytes).

(** The reply to request [i], as the model file determines it. *)
Definition right_reply : nat -> bytes -> Server.reply -> Prop :=
  @Service.right_reply J _ (Bridge.products_on (matrix_in_file c)) int8 cfg mw (norm_in_file c) (embedding_in_file c cfg mw) tk R
    sample_token length_text envs int8 (cfg_name cfg) (chosen_context e meminfo int8 cfg c limit).

(** Requests the device and the operating system serve, about tokens of the vocabulary. *)
Definition good_requests : Prop :=
  Service.all_serviceable int8 tk envs int8 dir bodies /\
  forall i body prompt params streaming, bodies !! i = Some body -> Server.prepare int8 body = Server.Generate prompt params streaming ->
    Forall (in_vocab cfg) (Generate.prompt_ids tk prompt).

Context (eng : Engine) (w1 : World) (Rd : ready e meminfo int8 limit c cfg mw tk w1 eng).
Context (Hs : forall params logits recent r, in_vocab cfg (sample_token params logits recent r).1).

Abbreviation emw := (model_weights_ eng).
Abbreviation engine_reply :=
  (@Service.right_reply J _ (Bridge.interface w1) int8 cfg emw (norm_on_device w1) (embedding e w1 cfg emw) tk R
    sample_token length_text (fun i => on_engine e eng (envs i)) int8 (cfg_name cfg) (chosen_context e meminfo int8 cfg c limit)).

Lemma reply_in_file i body rep :
  good_requests -> bodies !! i = Some body -> engine_reply i body rep -> right_reply i body rep.
Proof.
  intros [_ Hv] Hb. unfold right_reply, Service.right_reply. destruct (Server.prepare int8 body) as [r|prompt params streaming] eqn:Ep; [done|].
  specialize (Hv _ _ _ _ _ Hb Ep). intros (r & Hr & Er). exists r. split; [|exact Er]. unfold Service.right_run in *.
  destruct (Service.too_long _ _ _ _); [done|]. destruct Hr as (out & stats & E1 & E2 & Hk & Hq). exists out, stats.
  pose proof (rd_tokens _ _ _ _ _ _ _ _ _ _ Rd R (sample_token params)) as Ht. unfold engine_reference in Ht.
  rewrite (rd_config _ _ _ _ _ _ _ _ _ _ Rd) in Ht. unfold Service.ideal in *. rewrite Ht in Hk, Hq by done.
  by split_and!.
Qed.

Lemma serviceable_on_engine : good_requests -> Service.all_serviceable int8 tk (fun i => on_engine e eng (envs i)) int8 dir bodies.
Proof.
  intros [Hg _] i body Hb. destruct (Hg i body Hb) as (Hd & Hsh & Hsv). split; [done|]. split; [done|].
  intros prompt params streaming Ep. destruct (Hsv _ _ _ Ep). by split.
Qed.

(** From every state the server can be in the requests can be completed, and
    the replies it has sent are right. *)
Lemma replies_in_file : servable c cfg mw -> e (str "JLLM_KV_OVERFLOW") = None ->
  (forall id, conversations !! KVDir.path_for_conv_id dir id = None) -> good_requests ->
  forall s, reach e sample_token length_text alloc_text envs bodies conversations eng w1 int8 s ->
    (forall i rep, Threads.threads s !! i = Some (Threads.Replied rep) ->
       exists body, bodies !! i = Some body /\ right_reply i body rep) /\
    exists s', rtc (next e sample_token length_text alloc_text envs eng w1 int8) s s' /\ all_replied s'.
Proof.
  intros Sv Hov Hfs Hg s Hr. pose proof Rd as [Ecfg Etk Efp P1 P2 _].
  unfold reach, run_engine in Hr. rewrite Ecfg, Etk in Hr. unfold next, run_engine. rewrite Ecfg, Etk.
  destruct (@Service.replies_right J _ (Bridge.interface w1) (Bridge.products_laws (Bridge.bytes_of w1)) (rt_memory (tick w1))
    (rt_memory_laws (tick w1)) _ int8 cfg emw (norm_on_device w1) (embedding e w1 cfg emw) tk R sample_token
    length_text alloc_text (model_fingerprint_ eng)) with (envs := fun i => on_engine e eng (envs i)) (default_kv_int8 := int8)
    (name := cfg_name cfg) (bodies := bodies) (dir := dir) (p := kv_cache_ eng) (fs := conversations) (s := s) as [HA HB]; try done.
  - intros. apply embedding_length.
  - intros. by apply (vocab_32 c cfg mw).
  - by apply serviceable_on_engine.
  - split; [|done]. intros i rep Hi. destruct (HA i rep Hi) as (body & Hb & Hrr). exists body. split; [done|].
    apply reply_in_file; [done|done|]. by rewrite <- (ready_limit e meminfo int8 limit cfg c _ _ P1 P2 Hov).
Qed.

End Answers.

(** A command line of the server for a model file that loads. *)
Record commanded (a : Cli.ServerArgs) (w0 : World) (c : bytes) (cfg : ModelConfig) (mw : ModelWeights) (tk : Tokenizer.t) : Prop := {
  cm_deployed : deployed kv_alloc rd sort_by_size e files meminfo (Cli.s_kv_int8 a) (Cli.s_model_path a) (Cli.s_context a) w0 c cfg mw tk;
  cm_sampler : forall params logits recent r, in_vocab cfg (sample_token params logits recent r).1 }.


End Correct.

(** ** One request, on the model of [Engine] *)

(** A library that is given one request. *)
Section One.
Context {J : Server.Json} {E : Type} (generate : nat -> bytes -> Server.GenParams -> E -> option (Server.run * E)).
Context (accepts : nat -> nat -> bool) (t_id t_created : nat -> Z) (int8 : bool) (name : bytes).

Abbreviation serve0 := (Threads.serve generate accepts t_id t_created int8 name 0).
Abbreviation reachable := (Threads.reachable generate accepts t_id t_created int8 name).

Lemma one_reachable body e rep e' :
  serve0 body e = Some (rep, e') -> reachable [body] e (Threads.mkServer [Threads.Replied rep] None e').
Proof.
  unfold Threads.serve, Server.handle, Threads.reachable. intros Es.
  destruct (Server.prepare int8 body) as [r|prompt params streaming] eqn:Ep.
  - injection Es as <- <-. apply rtc_once. by apply (Threads.step_answer _ _ _ _ _ _ (Threads.start [body] e) 0 body r).
  - destruct (generate 0%nat prompt params e) as [[r e1]|] eqn:Eg; [|done]. cbn [mbind option_bind] in Es.
    destruct (Server.conclude _ _ _ _ _ r) as [rep'|] eqn:Ec; [|done]. cbn [mbind option_bind] in Es. injection Es as <- <-.
    eapply rtc_l; [by apply (Threads.step_queue _ _ _ _ _ _ (Threads.start [body] e) 0 body prompt params streaming)|].
    eapply rtc_l; [by apply (Threads.step_lock _ _ _ _ _ _ _ 0 prompt params streaming)|].
    apply rtc_once. by apply (Threads.step_unlock generate accepts t_id t_created int8 name
      (Threads.mkServer [Threads.Inside prompt params streaming e] (Some 0%nat) e) 0 prompt params streaming e r e1 rep').
Qed.

Lemma one_serves body e s :
  reachable [body] e s -> all_replied s -> exists rep e', serve0 body e = Some (rep, e').
Proof.
  intros Hr Ha. destruct (Threads.inv_reachable _ _ _ _ _ _ _ _ _ Hr) as (HL & _ & order & reps & Hnd & Hs & Hl & _ & Hag).
  destruct (lookup_lt_is_Some_2 (Threads.threads s) 0) as [t Ht]; [rewrite HL; cbn; lia|].
  destruct (Forall_lookup_1 _ _ _ _ Ha Ht) as [rep ->]. destruct (Hag _ _ Ht) as (_ & _ & k & Hk & _).
  destruct order as [|i order]; [done|]. cbn [Threads.serial] in Hs. destruct i as [|i]; [|done]. cbn [lookup list_lookup mbind option_bind] in Hs.
  destruct (serve0 body e) as [[rep' e']|]; [by exists rep', e'|done].
Qed.

End One.

#[local] Existing Instances Kernels.demo_floats Quant.demo_host Bridge.demo_products Bridge.demo_product_laws
  sim_runtime sim_runtime_laws KVDir.merge_std_sort Server.demo_json.

(** With an INT8 cache. *)
Definition demo_argv : list bytes := [str "-m"; demo_path; str "--int8-kv"; str "-c"; str "4"].
Definition demo_args : Cli.ServerArgs := Cli.mkServer demo_path 8080 4 true.
Definition demo_envs (_ : nat) : Service.env (R := Z) := Service.demo_env 5.
Definition demo_sampler (_ : Server.GenParams) := demo_sample.

Abbreviation demo_run := (run_engine default_env demo_sampler (str "too long") (str "bad_alloc") demo_envs).

Definition demo_serve (eng : Engine) (w : World) (_ : option requests) (_ : Z) (int8 : bool) : option (option requests) :=
  '(rep, s) ← Threads.serve (demo_run eng w) (fun i => Service.accepts (demo_envs i)) (fun i => Service.t_id (demo_envs i))
    (fun i => Service.t_created (demo_envs i)) int8 (cfg_name (config_ eng)) 0 Server.demo_body (kv_cache_ eng, ∅);
  Some (Some (Threads.mkServer [Threads.Replied rep] None s)).

Lemma demo_listens : listens default_env demo_sampler (str "too long") (str "bad_alloc") demo_envs [Server.demo_body] ∅ demo_serve.
Proof.
  intros eng w x port int8 Hall. destruct (Hall _ (rtc_refl _ _)) as (s & Hs & Ha).
  destruct (one_serves _ _ _ _ _ _ _ _ _ Hs Ha) as (rep & e' & Es).
  exists (Threads.mkServer [Threads.Replied rep] None e'). split; [unfold demo_serve; by rewrite Es|]. split.
  - by apply one_reachable.
  - constructor; [by exists rep|constructor].
Qed.

Lemma demo_good_requests cfg tk : demo_shape true cfg -> Generate.prompt_ids tk Service.demo_prompt = [1] ->
  good_requests demo_envs [Server.demo_body] cfg tk true (str "/c").
Proof.
  intros Sh Ei. split.
  - intros [|i] body Hb; [|discriminate Hb]. apply Some_inj in Hb. rewrite <- Hb. split; [reflexivity|]. split; [reflexivity|].
    rewrite Service.demo_prepare. intros prompt params streaming [= <- <- _]. split; try reflexivity; try exact KVFile.demo_reader_ok; rewrite ?Ei.
    + discriminate.
    + constructor; [lia|constructor].
    + reflexivity.
  - intros [|i] body prompt params streaming Hb; [|discriminate Hb]. apply Some_inj in Hb. rewrite <- Hb, Service.demo_prepare.
    intros [= <- _ _]. rewrite Ei. constructor; [unfold in_vocab; rewrite (ds_vocab _ _ Sh); lia|constructor].
Qed.


End Serving.
